(** * validator-js: the rule-evaluation pipeline

    A shallow embedding of the three versions of the [Validator] class
    ([validator-ts.ts], [validator-2.0.0.js], [validator-1.0.0.js]) and the
    properties of the rule chain, the field validator and the aggregate
    validator.

    Layout:
    - [Js]        : the fragment of JavaScript values and built-ins the class uses;
    - [Config]    : rules, step results, rejections, promises;
    - [Run]       : the effect monad (callbacks, console, exceptions, awaits);
    - [Statics]   : the static predicates shared by all versions;
    - [Aggregate] : the fan-out and the join of [validate];
    - [TS]        : [validator-ts.ts];
    - [V2]        : [validator-2.0.0.js];
    - [V1]        : [validator-1.0.0.js];
    - [Once]      : the field validator with the transform applied once;
    - [Obs]       : the vocabulary of the statements;
    - [Sample]    : concrete callbacks, rules and instances;
    - [Digits]    : strings of digits, for what numbers print as;
    - [Outcome]   : the vocabulary of the further properties;
    - [Cases]     : more callbacks and rules;
    - [Compare]   : runs that end alike;
    - [Untyped]   : the constructors on any argument;
    - [Pattern]   : the preset patterns, their matcher and their predicates;
    - [Own]       : own properties and the members of [Object.prototype];
    - [Turns]     : the tasks of [validate], turn by turn;
    - [Report]    : what [validate] reports;
    - [Shared]    : callbacks that share a counter;
    then the properties.

    What is modelled and what is not.  Values are the primitives (without
    symbols and big integers), arrays, plain objects with own data
    properties, functions, regular expressions, dates and promises; there
    are no prototypes to extend and no getters.  A rule is a record with the
    keys of [interface RuleItem], each holding any value; the configuration
    has the types of [interface Config].  The caller's functions, the
    matching of the caller's regular expressions (taken without the [g] and
    [y] flags, so that [test] has no memory) and [ToNumber] on strings and
    objects are parameters of the development; the patterns of the class
    itself are matched by [Pattern.run].  A promise is known by the state it
    ends in.

    Where the model is exact.  [lookup_prop] reads own properties: it is
    [o[key]] where [Own.read] has an answer, that is, unless the lookup ends
    on a member of [Object.prototype].  [regexp_test] and [to_number] are
    functions of their argument: they are [test] and [ToNumber] on the
    values of [Own.primitive], for which the conversions run no code of the
    caller.  [transform] is an object or is left out.  [validate] in [TS],
    [V2] runs each task to its end before it starts the next, which gives
    what the engine gives when no task reaches a callback; [Turns] has the
    tasks take turns at their awaits, for any order of the keys and of the
    turns. *)

From Stdlib Require Import ZArith NArith Lia Ascii String DecimalString.
From Stdlib Require Import DecimalN DecimalPos DecimalFacts.
From stdpp Require Import base option list strings gmap fin_maps.

#[local] Set Warnings "-register-all".

Local Open Scope Z_scope.

(** ** JavaScript values *)

Module Js.

(** A Number is kept as the decimal that [Number::toString] prints for it:
    sign, digits and decimal exponent, that is [(-1)^neg * digits * 10^exp].
    Zero is [Finite _ 0 _]. *)
Inductive number : Type :=
| NaN
| Infinity (neg : bool)
| Finite (neg : bool) (digits : N) (exp : Z).

(** The state a promise ends in; [PPending] is a promise that never settles. *)
Inductive settled (A : Type) : Type :=
| PFulfilled (v : A)
| PRejected (reason : A)
| PPending.
Arguments PFulfilled {A} v.
Arguments PRejected {A} reason.
Arguments PPending {A}.

(** Values.  Objects, arrays, dates and promises carry the address that [===]
    compares; a function or a regular expression is identified by its name in
    the environment. *)
Inductive value : Type :=
| VUndefined
| VNull
| VBool (b : bool)
| VNum (n : number)
| VStr (s : string)
| VArr (addr : nat) (elems : list value)
| VObj (addr : nat) (props : list (string * value))
| VFun (f : nat)
| VRegExp (r : nat)
| VDate (addr : nat) (time : number)
| VPromise (addr : nat) (st : settled value).

Definition num_of_nat (n : nat) : number := Finite false (N.of_nat n) 0.

(** *** Numbers: comparison *)

Definition is_nan (n : number) : bool :=
  match n with NaN => true | _ => false end.

(** The signed mantissa of a finite number. *)
Definition signed (neg : bool) (d : N) : Z :=
  if neg then - Z.of_N d else Z.of_N d.

(** [a < b] on Numbers, [false] as soon as one side is NaN. *)
Definition num_lt (a b : number) : bool :=
  match a, b with
  | NaN, _ | _, NaN => false
  | Infinity na, Infinity nb => na && negb nb
  | Infinity na, Finite _ _ _ => na
  | Finite _ _ _, Infinity nb => negb nb
  | Finite na da ea, Finite nb db eb =>
      let m := Z.min ea eb in
      signed na da * 10 ^ (ea - m) <? signed nb db * 10 ^ (eb - m)
  end.

(** [a === b] on Numbers: NaN differs from everything, the two zeros agree. *)
Definition num_eq (a b : number) : bool :=
  match a, b with
  | NaN, _ | _, NaN => false
  | Infinity na, Infinity nb => eqb na nb
  | Finite na da ea, Finite nb db eb =>
      let m := Z.min ea eb in
      signed na da * 10 ^ (ea - m) =? signed nb db * 10 ^ (eb - m)
  | _, _ => false
  end.

(** [a <= b] is [!(b < a)] unless one side is NaN. *)
Definition num_le (a b : number) : bool :=
  negb (is_nan a) && negb (is_nan b) && negb (num_lt b a).

(** *** Numbers: [Number::toString] and [parseInt] *)

Definition zero_char : ascii := "0"%char.

Fixpoint string_rev_onto (s acc : string) : string :=
  match s with
  | EmptyString => acc
  | String c r => string_rev_onto r (String c acc)
  end.

Fixpoint drop_zeros (s : string) : string :=
  match s with
  | String c r => if Ascii.eqb c zero_char then drop_zeros r else s
  | EmptyString => s
  end.

(** The digits of [d] without trailing zeros, and how many were dropped. *)
Definition significant (d : N) : string * nat :=
  let all := NilEmpty.string_of_uint (N.to_uint d) in
  let kept := string_rev_onto (drop_zeros (string_rev_onto all "")) "" in
  (kept, (String.length all - String.length kept)%nat).

Fixpoint zeros (n : nat) : string :=
  match n with O => "" | S m => String zero_char (zeros m) end.

Fixpoint take_str (n : nat) (s : string) : string :=
  match n, s with
  | S m, String c r => String c (take_str m r)
  | _, _ => ""
  end.

Fixpoint drop_str (n : nat) (s : string) : string :=
  match n, s with
  | S m, String _ r => drop_str m r
  | _, _ => s
  end.

Definition string_of_Z_abs (z : Z) : string :=
  NilEmpty.string_of_uint (N.to_uint (Z.abs_N z)).

(** [Number::toString(v)], radix 10.  With [k] significant digits [s] and
    [10^(n-1) <= |v| < 10^n]: plain digits for [k <= n <= 21], a decimal
    point inside for [0 < n <= 21], leading [0.] for [-6 < n <= 0] and the
    exponent notation everywhere else. *)
Definition number_to_string (v : number) : string :=
  match v with
  | NaN => "NaN"
  | Infinity neg => if neg then "-Infinity" else "Infinity"
  | Finite neg d e =>
      if (d =? 0)%N then "0" else
      let '(s, dropped) := significant d in
      let k := Z.of_nat (String.length s) in
      let n := e + Z.of_nat dropped + k in
      let body :=
        if (k <=? n) && (n <=? 21) then s +:+ zeros (Z.to_nat (n - k))
        else if (0 <? n) && (n <=? 21) then
          take_str (Z.to_nat n) s +:+ "." +:+ drop_str (Z.to_nat n) s
        else if (-6 <? n) && (n <=? 0) then
          "0." +:+ zeros (Z.to_nat (- n)) +:+ s
        else
          let ex := (if n - 1 <? 0 then "-" else "+") +:+ string_of_Z_abs (n - 1) in
          if (k =? 1) then s +:+ "e" +:+ ex
          else take_str 1 s +:+ "." +:+ drop_str 1 s +:+ "e" +:+ ex in
      if neg then "-" +:+ body else body
  end.

Definition is_space (c : ascii) : bool :=
  let n := nat_of_ascii c in
  (n =? 32)%nat || ((9 <=? n)%nat && (n <=? 13)%nat).

Fixpoint trim_start (s : string) : string :=
  match s with
  | String c r => if is_space c then trim_start r else s
  | EmptyString => s
  end.

Definition digit_of (c : ascii) : option N :=
  let n := nat_of_ascii c in
  if (48 <=? n)%nat && (n <=? 57)%nat then Some (N.of_nat (n - 48)) else None.

(** The longest prefix of decimal digits, as a number; [None] when empty. *)
Fixpoint read_digits (s : string) (acc : option N) : option N :=
  match s with
  | String c r =>
      match digit_of c with
      | Some d => read_digits r (Some (10 * default 0%N acc + d)%N)
      | None => acc
      end
  | EmptyString => acc
  end.

(** [parseInt(s, 10)]. *)
Definition parseInt (s : string) : number :=
  let t := trim_start s in
  let '(neg, body) :=
    match t with
    | String "-" r => (true, r)
    | String "+" r => (false, r)
    | _ => (false, t)
    end in
  match read_digits body None with
  | None => NaN
  | Some m => Finite neg m 0
  end.

(** *** [typeof], truthiness, [===] *)

Definition typeof (v : value) : string :=
  match v with
  | VUndefined => "undefined"
  | VNull => "object"
  | VBool _ => "boolean"
  | VNum _ => "number"
  | VStr _ => "string"
  | VFun _ => "function"
  | VArr _ _ | VObj _ _ | VRegExp _ | VDate _ _ | VPromise _ _ => "object"
  end.

Definition truthy (v : value) : bool :=
  match v with
  | VUndefined | VNull => false
  | VBool b => b
  | VNum NaN => false
  | VNum (Finite _ d _) => negb (d =? 0)%N
  | VNum (Infinity _) => true
  | VStr s => negb (String.eqb s "")
  | _ => true
  end.

Definition strict_eq (a b : value) : bool :=
  match a, b with
  | VUndefined, VUndefined | VNull, VNull => true
  | VBool x, VBool y => eqb x y
  | VNum x, VNum y => num_eq x y
  | VStr x, VStr y => String.eqb x y
  | VArr x _, VArr y _ | VObj x _, VObj y _
  | VDate x _, VDate y _ | VPromise x _, VPromise y _ => (x =? y)%nat
  | VFun x, VFun y | VRegExp x, VRegExp y => (x =? y)%nat
  | _, _ => false
  end.

(** [o[key]] on the own properties of a plain object. *)
Fixpoint lookup_prop (key : string) (props : list (string * value)) : value :=
  match props with
  | [] => VUndefined
  | (k, v) :: rest => if String.eqb k key then v else lookup_prop key rest
  end.

(** An [Error] as the engine throws it: an object with a [message]. *)
Definition mkError (addr : nat) (msg : string) : value :=
  VObj addr [("message", VStr msg)].

End Js.

(** ** The data model of the class *)

Module Config.
Import Js.

(** [interface RuleItem]: every key holds whatever the caller wrote there,
    [VUndefined] when the key is absent. *)
Record RuleItem : Type := mkRule {
  required : value;
  type : value;
  pattern : value;
  validator : value;
  maxlength : value;
  minlength : value;
  enum : value;
  message : value
}.

(** [{ ...rule, message }] *)
Definition with_message (rule : RuleItem) (msg : value) : RuleItem :=
  mkRule (required rule) (type rule) (pattern rule) (validator rule)
         (maxlength rule) (minlength rule) (enum rule) msg.

(** The methods of the chain. *)
Inductive step : Type :=
| Required | Type_ | Pattern | Maxlen | Minlen | Enum | Custom.

(** What a chain method returns: a boolean, or [{ pass, message }]. *)
Inductive StepRes : Type :=
| RBool (b : bool)
| RObj (pass : bool) (msg : value).

(** What [validateField] rejects with: the rule, or [{ field, rule }]. *)
Inductive ErrRes : Type :=
| Bare (rule : RuleItem)
| Wrapped (field : string) (rule : RuleItem).

(** The promise [validate] and [validateField] return: [resolve()] was
    called, [reject(reason)] was called, or neither ever is. *)
Inductive promise (R : Type) : Type :=
| Resolved
| Rejected (reason : R)
| Pending.
Arguments Resolved {R}.
Arguments Rejected {R} reason.
Arguments Pending {R}.

(** How a call ends: it throws before a promise exists, or returns one. *)
Inductive outcome (R : Type) : Type :=
| Threw (e : value)
| Returned (p : promise R).
Arguments Threw {R} e.
Arguments Returned {R} p.

End Config.

(** ** Effects *)

Module Run.
Import Js Config.

(** Where the class calls into the caller's code. *)
Inductive site : Type :=
| AtTransform | AtValidator | AtMessage | AtMessageHook | AtGetTime.

(** The [this] of a call. *)
Inductive receiver : Type :=
| ThisUndefined
| ThisValue (v : value)
| ThisInstance.

(** What a run leaves in the trace: the calls into the caller's code, the
    warnings on the console, and the entry of each chain method with its
    arguments.  The entries are the bookkeeping of this development: the
    methods themselves print nothing when they are entered. *)
Inductive event : Type :=
| EvCall (at_ : site) (f : nat) (args : list value)
| EvWarn (text : string)
| EvEnter (s : step) (rule : RuleItem) (v : value) (field : string).

Inductive call_result : Type :=
| Returns (v : value)
| Throws (e : value).

(** The caller's code and the parts of the engine that are not modelled:
    what each function does when called (it may read and write the caller's
    state [U]), the declared arity of a function, [RegExp.prototype.test] and
    [ToNumber] on strings and objects. *)
Record Env (U : Type) : Type := mkEnv {
  fn_call : nat -> receiver -> list value -> U -> call_result * U;
  fn_length : nat -> nat;
  regexp_test : nat -> value -> bool;
  to_number : value -> number
}.
Arguments fn_call {U} _ _ _ _ _.
Arguments fn_length {U} _ _.
Arguments regexp_test {U} _ _ _.
Arguments to_number {U} _ _.

Record world (U : Type) : Type := mkWorld {
  ust : U;
  trace : list event
}.
Arguments mkWorld {U} _ _.
Arguments ust {U} _.
Arguments trace {U} _.

(** A computation returns, throws, or waits for ever on a promise. *)
Inductive res (A : Type) : Type :=
| Ok (a : A)
| Raise (e : value)
| Suspended.
Arguments Ok {A} a.
Arguments Raise {A} e.
Arguments Suspended {A}.

Definition M (U A : Type) : Type := world U -> res A * world U.

Definition ret {U A} (a : A) : M U A := fun w => (Ok a, w).
Definition raise {U A} (e : value) : M U A := fun w => (Raise e, w).
Definition suspend {U A} : M U A := fun w => (Suspended, w).

Definition bind {U A B} (m : M U A) (k : A -> M U B) : M U B :=
  fun w =>
    match m w with
    | (Ok a, w') => k a w'
    | (Raise e, w') => (Raise e, w')
    | (Suspended, w') => (Suspended, w')
    end.

Declare Scope run_scope.
Delimit Scope run_scope with run.
Notation "x <- m ;; k" := (bind m (fun x => k))
  (at level 100, m at next level, right associativity) : run_scope.
Notation "m ;;; k" := (bind m (fun _ => k))
  (at level 100, right associativity) : run_scope.

Definition emit {U} (e : event) : M U unit :=
  fun w => (Ok tt, mkWorld (ust w) (trace w ++ [e])).

Definition TypeError (msg : string) : value :=
  VObj 0 [("name", VStr "TypeError"); ("message", VStr msg)].

Section WithEnv.
Context {U : Type} (E : Env U).
Local Open Scope run_scope.

(** [f.call(this, ...args)]: a TypeError unless [f] is a function. *)
Definition call (at_ : site) (f : value) (this : receiver) (args : list value)
  : M U value :=
  match f with
  | VFun id =>
      emit (EvCall at_ id args) ;;;
      fun w =>
        match fn_call E id this args (ust w) with
        | (Returns v, u) => (Ok v, mkWorld u (trace w))
        | (Throws e, u) => (Raise e, mkWorld u (trace w))
        end
  | _ => raise (TypeError "is not a function")
  end.

(** [console.warn(text)] *)
Definition warn (text : string) : M U unit := emit (EvWarn text).

(** [await v] *)
Definition await (v : value) : M U value :=
  match v with
  | VPromise _ (PFulfilled x) => ret x
  | VPromise _ (PRejected e) => raise e
  | VPromise _ PPending => suspend
  | _ => ret v
  end.

(** [try { body } catch (err) { handler }] *)
Definition try_catch {A} (body : M U A) (handler : value -> M U A) : M U A :=
  fun w =>
    match body w with
    | (Raise e, w') => handler e w'
    | r => r
    end.

(** [ToNumber] *)
Definition ToNumber (v : value) : number :=
  match v with
  | VNum n => n
  | VUndefined => NaN
  | VNull => Finite false 0 0
  | VBool b => Finite false (if b then 1 else 0) 0
  | _ => to_number E v
  end.

(** the global [isNaN] *)
Definition isNaN (v : value) : bool := is_nan (ToNumber v).

(** [v.length]; a TypeError on [null] and [undefined]. *)
Definition get_length (v : value) : M U value :=
  match v with
  | VUndefined | VNull =>
      raise (TypeError "Cannot read properties of undefined (reading 'length')")
  | VStr s => ret (VNum (num_of_nat (String.length s)))
  | VArr _ l => ret (VNum (num_of_nat (List.length l)))
  | VFun f => ret (VNum (num_of_nat (fn_length E f)))
  | VObj _ props => ret (lookup_prop "length" props)
  | _ => ret VUndefined
  end.

(** [a <= b], [a >= b] and [a > b] when the operands are not both strings. *)
Definition js_le (a b : value) : bool := num_le (ToNumber a) (ToNumber b).
Definition js_ge (a b : value) : bool := num_le (ToNumber b) (ToNumber a).
Definition js_gt (a b : value) : bool := num_lt (ToNumber b) (ToNumber a).

(** [v[key]]; a TypeError on [null] and [undefined].  Only plain objects
    have own properties here. *)
Definition get_prop (v : value) (key : string) : M U value :=
  match v with
  | VUndefined | VNull =>
      raise (TypeError "Cannot read properties of undefined")
  | VObj _ props => ret (lookup_prop key props)
  | _ => ret VUndefined
  end.

(** The body of [new Promise(async (resolve, reject) => ...)]: the promise
    settles when the body calls [resolve] or [reject]; an exception in the
    body, or an await that never returns, leaves it pending. *)
Definition new_promise {R} (body : M U (promise R)) : world U -> promise R * world U :=
  fun w =>
    match body w with
    | (Ok p, w') => (p, w')
    | (_, w') => (Pending, w')
    end.
End WithEnv.

End Run.

(** ** The static predicates, identical in the three files *)

Module Statics.
Import Js Config Run.
Local Open Scope run_scope.

(** [static types] *)
Definition types : list value :=
  [VStr "string"; VStr "number"; VStr "boolean"; VStr "function"; VStr "float";
   VStr "integer"; VStr "array"; VStr "object"; VStr "date"; VStr "regexp"].

Definition isEmpty (value : value) : bool :=
  strict_eq value (VStr "") || strict_eq value VNull || strict_eq value VUndefined.

Definition isString (value : value) : bool := String.eqb (typeof value) "string".

Definition isBoolean (value : value) : bool := String.eqb (typeof value) "boolean".

Definition isFunction (value : value) : bool := String.eqb (typeof value) "function".

Definition isRegexp (value : value) : bool :=
  match value with VRegExp _ => true | _ => false end.

Definition isArray (value : value) : bool :=
  match value with VArr _ _ => true | _ => false end.

Definition isObject (value : value) : bool :=
  String.eqb (typeof value) "object" && negb (isArray value).

(** [validList] is an array at every call site of the class, so the guard
    of [oneOf] never throws there; [oneOf] is the loop. *)
Fixpoint oneOf (value : value) (validList : list Js.value) : bool :=
  match validList with
  | [] => false
  | x :: rest => if strict_eq value x then true else oneOf value rest
  end.

Definition toUpperCase (c : ascii) : ascii :=
  let n := nat_of_ascii c in
  if (97 <=? n)%nat && (n <=? 122)%nat then ascii_of_nat (n - 32) else c.

Section WithEnv.
Context {U : Type} (E : Env U).

Definition isNumber (value : value) : bool :=
  String.eqb (typeof value) "number" && negb (isNaN E value).

(** [parseInt(value, 10)] prints its argument first; [isInteger] reaches
    it on Numbers only. *)
Definition isInteger (value : value) : bool :=
  isNumber value &&
  match value with
  | VNum n => strict_eq (VNum (parseInt (number_to_string n))) value
  | _ => false
  end.

Definition capitalize (str : value) : M U string :=
  match str with
  | VStr s =>
      ret match s with
          | String c rest => String (toUpperCase c) rest
          | EmptyString => EmptyString
          end
  | _ => raise (mkError 0 "Parameter must be of string type")
  end.

Definition isDate (value : value) : M U bool :=
  match value with
  | VUndefined | VNull =>
      raise (TypeError "Cannot read properties of undefined (reading 'getTime')")
  | VDate _ t => ret (negb (is_nan t))
  | VObj _ props =>
      if isFunction (lookup_prop "getTime" props)
         && isFunction (lookup_prop "getMonth" props)
         && isFunction (lookup_prop "getYear" props)
      then t <- call E AtGetTime (lookup_prop "getTime" props) (ThisValue value) [] ;;
           ret (negb (isNaN E t))
      else ret false
  | _ => ret false
  end.
End WithEnv.

End Statics.

(** ** The join of [validate], identical in the three files *)

Module Aggregate.
Import Js Config Run.
Local Open Scope run_scope.

(** [Object.keys(o)] *)
Definition keys {A} (o : gmap string A) : list string := (map_to_list o).*1.

Definition is_pending {R} (p : promise R) : bool :=
  match p with Pending => true | _ => false end.

(** [validateResult.filter(item => item.status === 'rejected')] *)
Fixpoint rejected {R} (results : list (promise R)) : list R :=
  match results with
  | [] => []
  | Rejected reason :: rest => reason :: rejected rest
  | _ :: rest => rejected rest
  end.

(** [fields.map(field => this.validateField(field, form, ...))]: every task
    is started, one after the other; a task that threw would abort the
    [map].  Each task is run to its end before the next one starts; in the
    engine the tasks take turns at their awaits, which only callbacks that
    share state can tell apart: [Turns] has the turns. *)
Fixpoint start_tasks {U R} (validateField : string -> world U -> outcome R * world U)
    (fields : list string) : M U (list (promise R)) :=
  match fields with
  | [] => ret []
  | field :: rest =>
      task <- (fun w => match validateField field w with
                        | (Threw e, w') => (Raise e, w')
                        | (Returned p, w') => (Ok p, w')
                        end) ;;
      tasks <- start_tasks validateField rest ;;
      ret (task :: tasks)
  end.

(** [new Promise(async (resolve, reject) => { await Promise.allSettled(tasks);
    ... })]: the await returns once every task has settled; then the promise
    rejects with the map built from the rejected tasks, or resolves. *)
Definition join {R} (errorsMap : list R -> gmap string RuleItem)
    (tasks : list (promise R)) : promise (gmap string RuleItem) :=
  if existsb is_pending tasks then Pending
  else
    let errors := rejected tasks in
    if (0 <? length errors)%nat then Rejected (errorsMap errors) else Resolved.

End Aggregate.

(** ** validator-ts.ts *)

Module TS.
Import Js Config Run Statics.
Local Open Scope run_scope.

(** One rule or a list of rules, as [interface Rules] allows. *)
Inductive RuleEntry : Type :=
| One (item : RuleItem)
| Many (items : list RuleItem).

(** [interface Config]; an absent option is [None]. *)
Record Config : Type := mkConfig {
  rules : gmap string RuleEntry;
  transform : option (list (string * value));
  messageHook : option value
}.

(** The instance.  Field names are looked up among the configured keys
    only: no field is named after a member of [Object.prototype]. *)
Record Validator : Type := mkValidator {
  _rules : gmap string (list RuleItem);
  _transform : option (list (string * value));
  _messageHook : option value
}.

(** The constructor, on a configuration that has the types of [Config]
    (its three guards pass on every such configuration). *)
Definition constructor (config : Config) : Validator :=
  {| _rules := (fun item => match item with One r => [r] | Many rs => rs end)
                 <$> rules config;
     _transform := transform config;
     _messageHook := messageHook config |}.

Section WithEnv.
Context {U : Type} (E : Env U).

Definition isFloat (value : value) : bool :=
  isNumber E value && negb (isInteger E value).

(** [Validator[name]] for the names [_validateType] can build. *)
Definition static_method (name : string) : option (value -> M U bool) :=
  if String.eqb name "isString" then Some (fun v => ret (isString v))
  else if String.eqb name "isNumber" then Some (fun v => ret (isNumber E v))
  else if String.eqb name "isBoolean" then Some (fun v => ret (isBoolean v))
  else if String.eqb name "isFunction" then Some (fun v => ret (isFunction v))
  else if String.eqb name "isFloat" then Some (fun v => ret (isFloat v))
  else if String.eqb name "isInteger" then Some (fun v => ret (isInteger E v))
  else if String.eqb name "isArray" then Some (fun v => ret (isArray v))
  else if String.eqb name "isObject" then Some (fun v => ret (isObject v))
  else if String.eqb name "isDate" then Some (isDate E)
  else if String.eqb name "isRegexp" then Some (fun v => ret (isRegexp v))
  else None.

Definition _validateRequired (rule : RuleItem) (value : value) (field : string)
  : M U StepRes :=
  emit (EvEnter Required rule value field) ;;;
  if truthy (required rule) then ret (RBool (negb (isEmpty value)))
  else ret (RBool true).

Definition _validateType (rule : RuleItem) (value : value) (field : string)
  : M U StepRes :=
  emit (EvEnter Type_ rule value field) ;;;
  if isEmpty value then ret (RBool true) else
  let type := type rule in
  if truthy type then
    if oneOf type types then
      name <- capitalize type ;;
      match static_method ("is" +:+ name) with
      | Some typeValidateFn => b <- typeValidateFn value ;; ret (RBool b)
      | None => raise (TypeError "Validator[typeValidateFn] is not a function")
      end
    else
      warn ("There is a type in field " +:+ field +:+ " that is unsupported") ;;;
      ret (RBool true)
  else ret (RBool true).

Definition _validatePattern (rule : RuleItem) (value : value) (field : string)
  : M U StepRes :=
  emit (EvEnter Pattern rule value field) ;;;
  if isEmpty value then ret (RBool true) else
  let pattern := pattern rule in
  if truthy pattern then
    match pattern with
    | VRegExp r => ret (RBool (regexp_test E r value))
    | _ =>
        warn ("There is a pattern in field " +:+ field
              +:+ " that is not of type regexp") ;;;
        ret (RBool true)
    end
  else ret (RBool true).

(** The [catch (err)] block of [_customValidate]. *)
Definition catch_block (err : value) : M U (option StepRes) :=
  let errMsg := VStr "" in
  let errMsg := if String.eqb (typeof err) "string" then err else errMsg in
  errMsg <- (if String.eqb (typeof err) "object"
             then get_prop err "message" else ret errMsg) ;;
  ret (Some (RObj false errMsg)).

(** [async _customValidate]: the awaited result.  The [try] block either
    returns [false] or falls through to the final [return true]. *)
Definition _customValidate (rule : RuleItem) (value : value) (field : string)
  : M U StepRes :=
  emit (EvEnter Custom rule value field) ;;;
  if isEmpty value then ret (RBool true) else
  let validator := validator rule in
  if truthy validator then
    if isFunction validator then
      early <- try_catch
        (validRes <- call E AtValidator validator ThisUndefined [value] ;;
         match validRes with
         | VPromise _ _ => await validRes ;;; ret None
         | _ => if negb (truthy validRes) then ret (Some (RBool false))
                else ret None
         end)
        catch_block ;;
      match early with
      | Some r => ret r
      | None => ret (RBool true)
      end
    else
      warn ("There is a validator in field " +:+ field
            +:+ " that is not of type function") ;;;
      ret (RBool true)
  else ret (RBool true).

Definition _validateMaxlen (rule : RuleItem) (value : value) (field : string)
  : M U StepRes :=
  emit (EvEnter Maxlen rule value field) ;;;
  if isEmpty value then ret (RBool true) else
  let maxlength := maxlength rule in
  if truthy maxlength then
    if isInteger E maxlength && js_gt E maxlength (VNum (num_of_nat 0)) then
      len <- get_length E value ;;
      ret (RBool (js_le E len maxlength))
    else
      warn ("There is a maxLength in the field " +:+ field
            +:+ " that is not a positive integer type") ;;;
      ret (RBool true)
  else ret (RBool true).

Definition _validateMinlen (rule : RuleItem) (value : value) (field : string)
  : M U StepRes :=
  emit (EvEnter Minlen rule value field) ;;;
  if isEmpty value then ret (RBool true) else
  let minlength := minlength rule in
  if truthy minlength then
    if isInteger E minlength && js_gt E minlength (VNum (num_of_nat 0)) then
      len <- get_length E value ;;
      ret (RBool (js_ge E len minlength))
    else
      warn ("There is a minlength in the field " +:+ field
            +:+ " that is not a positive integer type") ;;;
      ret (RBool true)
  else ret (RBool true).

Definition _validateEnum (rule : RuleItem) (value : value) (field : string)
  : M U StepRes :=
  emit (EvEnter Enum rule value field) ;;;
  if isEmpty value then ret (RBool true) else
  let list := enum rule in
  if truthy list then
    match list with
    | VArr _ items => ret (RBool (oneOf value items))
    | _ =>
        warn ("There is a minlength in the field " +:+ field
              +:+ " that is not a positive array type") ;;;
        ret (RBool true)
    end
  else ret (RBool true).

(** [errors.forEach(err => { if (typeof err.reason.field === 'string')
    errorsMap[err.reason.field] = err.reason.rule })] *)
Definition errorsMap (errors : list ErrRes) : gmap string RuleItem :=
  foldl (fun acc err =>
           match err with
           | Wrapped field rule => <[field := rule]> acc
           | Bare _ => acc
           end) ∅ errors.

Definition check : Type := RuleItem -> value -> string -> M U StepRes.

(** [const chain = [...]] *)
Definition chain : list check :=
  [ _validateRequired; _validateType; _validatePattern; _validateMaxlen;
    _validateMinlen; _validateEnum; _customValidate ].

(** [_transform[field] || (value => value)], applied to [form[field]]. *)
Definition currentTransform (transforms : list (string * value)) (field : string)
    (arg : value) : M U value :=
  let configured := lookup_prop field transforms in
  if truthy configured then call E AtTransform configured ThisUndefined [arg]
  else ret arg.

Section Field.
Variables (V : Validator) (field : string) (form : value) (fieldWrap : bool).

(** [currentTransform(form[field])], the second argument of every call
    of a chain method. *)
Definition argument : M U value :=
  raw <- get_prop form field ;;
  currentTransform (default [] (_transform V)) field raw.

(** The notification of a failure: [message()] when the message is a
    function, else [this._messageHook(message)] when a hook is set. *)
Definition notify (message : value) : M U unit :=
  if isFunction message then
    call E AtMessage message ThisUndefined [] ;;; ret tt
  else
    match _messageHook V with
    | Some hook =>
        if truthy hook then
          call E AtMessageHook hook ThisInstance [message] ;;; ret tt
        else ret tt
    | None => ret tt
    end.

(** [{ field, rule: finalRule }] or [finalRule]. *)
Definition reason (finalRule : RuleItem) : ErrRes :=
  if fieldWrap then Wrapped field finalRule else Bare finalRule.

(** The inner [for (const validator of chain)]: [Some err] when the loop
    rejected with [err] and returned, [None] when the chain ran out. *)
Fixpoint run_chain (rule : RuleItem) (todo : list check) : M U (option ErrRes) :=
  match todo with
  | [] => ret None
  | validator :: rest =>
      arg <- argument ;;
      validateRes <- validator rule arg field ;;
      let '(pass, errMsg) :=
        match validateRes with
        | RObj pass message => (pass, message)
        | RBool b => (b, VStr "")
        end in
      if negb pass then
        let message := if truthy errMsg then errMsg else message rule in
        notify message ;;;
        ret (Some (reason (with_message rule message)))
      else run_chain rule rest
  end.

(** The outer [for (const rule of currentRules)], then [resolve()]. *)
Fixpoint run_rules (currentRules : list RuleItem) : M U (promise ErrRes) :=
  match currentRules with
  | [] => ret Resolved
  | rule :: rest =>
      r <- run_chain rule chain ;;
      match r with
      | Some err => ret (Rejected err)
      | None => run_rules rest
      end
  end.

Definition validateField : world U -> outcome ErrRes * world U :=
  fun w =>
    if negb (isObject form) then
      (Threw (mkError 0 "Form parameter is not an object"), w)
    else
      match _rules V !! field with
      | None => (Returned Resolved, w)
      | Some currentRules =>
          let '(p, w') := new_promise (run_rules currentRules) w in
          (Returned p, w')
      end.
End Field.

(** [validate]: the guard, the tasks
    [Object.keys(_rules).map(field => this.validateField(field, form, true))],
    then the join. *)
Definition validate (V : Validator) (form : value)
  : world U -> outcome (gmap string RuleItem) * world U :=
  fun w =>
    if negb (isObject form) then
      (Threw (mkError 0 "Form parameter is not an object"), w)
    else
      match Aggregate.start_tasks (fun field => validateField V field form true)
              (Aggregate.keys (_rules V)) w with
      | (Ok tasks, w') => (Returned (Aggregate.join errorsMap tasks), w')
      | (Raise e, w') => (Threw e, w')
      | (Suspended, w') => (Returned Pending, w')
      end.

End WithEnv.

End TS.

(** ** validator-2.0.0.js *)

Module V2.
Import Js Config Run Statics.
Local Open Scope run_scope.

Inductive RuleEntry : Type :=
| One (item : RuleItem)
| Many (items : list RuleItem).

(** The configuration object [{ rules, transform }]. *)
Record Config : Type := mkConfig {
  rules : gmap string RuleEntry;
  transform : option (list (string * value))
}.

Record Validator : Type := mkValidator {
  _rules : gmap string (list RuleItem);
  _transform : option (list (string * value))
}.

(** The constructor on a configuration object: [this._transform] is
    whatever [config.transform] is, [undefined] included. *)
Definition constructor (config : Config) : Validator :=
  {| _rules := (fun item => match item with One r => [r] | Many rs => rs end)
                 <$> rules config;
     _transform := transform config |}.

(** What [validateField] rejects with: [{ field, rule }]. *)
Definition Failure : Type := string * RuleItem.

Section WithEnv.
Context {U : Type} (E : Env U).

(** [isNumber(value) && !Validator.isTnteger(value)]: the class has no
    static [isTnteger], so the right operand calls [undefined]. *)
Definition isFloat (value : value) : M U bool :=
  if isNumber E value then
    raise (TypeError "Validator.isTnteger is not a function")
  else ret false.

Definition static_method (name : string) : option (value -> M U bool) :=
  if String.eqb name "isString" then Some (fun v => ret (isString v))
  else if String.eqb name "isNumber" then Some (fun v => ret (isNumber E v))
  else if String.eqb name "isBoolean" then Some (fun v => ret (isBoolean v))
  else if String.eqb name "isFunction" then Some (fun v => ret (isFunction v))
  else if String.eqb name "isFloat" then Some isFloat
  else if String.eqb name "isInteger" then Some (fun v => ret (isInteger E v))
  else if String.eqb name "isArray" then Some (fun v => ret (isArray v))
  else if String.eqb name "isObject" then Some (fun v => ret (isObject v))
  else if String.eqb name "isDate" then Some (isDate E)
  else if String.eqb name "isRegexp" then Some (fun v => ret (isRegexp v))
  else None.

Definition _validateRequired (rule : RuleItem) (value : value) (field : string)
  : M U StepRes :=
  emit (EvEnter Required rule value field) ;;;
  if truthy (required rule) then
    if isEmpty value then ret (RBool false) else ret (RBool true)
  else ret (RBool true).

Definition _validateType (rule : RuleItem) (value : value) (field : string)
  : M U StepRes :=
  emit (EvEnter Type_ rule value field) ;;;
  let type := type rule in
  if truthy type then
    if oneOf type types then
      name <- capitalize type ;;
      match static_method ("is" +:+ name) with
      | Some fn =>
          b <- fn value ;;
          if negb b then ret (RBool false) else ret (RBool true)
      | None => raise (TypeError "Validator[...] is not a function")
      end
    else
      warn ("There is a type in field " +:+ field +:+ " that is unsupported") ;;;
      ret (RBool true)
  else ret (RBool true).

Definition _validatePattern (rule : RuleItem) (value : value) (field : string)
  : M U StepRes :=
  emit (EvEnter Pattern rule value field) ;;;
  let pattern := pattern rule in
  if truthy pattern then
    match pattern with
    | VRegExp r =>
        if negb (regexp_test E r value) then ret (RBool false)
        else ret (RBool true)
    | _ =>
        warn ("There is a pattern in field " +:+ field
              +:+ " that is not of type regexp") ;;;
        ret (RBool true)
    end
  else ret (RBool true).

(** The [catch (err)] block of [_customValidate]; [errMsg] starts as the
    payload itself. *)
Definition catch_block (err : value) : M U (option StepRes) :=
  let errMsg := err in
  errMsg <- (if String.eqb (typeof err) "object"
             then get_prop err "message" else ret errMsg) ;;
  ret (Some (RObj false errMsg)).

(** [async _customValidate]: the awaited result. *)
Definition _customValidate (rule : RuleItem) (value : value) (field : string)
  : M U StepRes :=
  emit (EvEnter Custom rule value field) ;;;
  let validator := validator rule in
  if truthy validator then
    if isFunction validator then
      early <- try_catch
        (validRes <- call E AtValidator validator ThisUndefined [value] ;;
         match validRes with
         | VPromise _ _ => await validRes ;;; ret None
         | _ => if negb (truthy validRes) then ret (Some (RBool false))
                else ret None
         end)
        catch_block ;;
      match early with
      | Some r => ret r
      | None => ret (RBool true)
      end
    else
      warn ("There is a validator in field " +:+ field
            +:+ " that is not of type function") ;;;
      ret (RBool true)
  else ret (RBool true).

Definition _validateMaxlen (rule : RuleItem) (value : value) (field : string)
  : M U StepRes :=
  emit (EvEnter Maxlen rule value field) ;;;
  let maxlength := maxlength rule in
  if truthy maxlength then
    if isInteger E maxlength && js_gt E maxlength (VNum (num_of_nat 0)) then
      len <- get_length E value ;;
      ret (RBool (js_le E len maxlength))
    else
      warn ("There is a maxLength in the field " +:+ field
            +:+ " that is not a positive integer type") ;;;
      ret (RBool true)
  else ret (RBool true).

Definition _validateMinlen (rule : RuleItem) (value : value) (field : string)
  : M U StepRes :=
  emit (EvEnter Minlen rule value field) ;;;
  let minlength := minlength rule in
  if truthy minlength then
    if isInteger E minlength && js_gt E minlength (VNum (num_of_nat 0)) then
      len <- get_length E value ;;
      ret (RBool (js_ge E len minlength))
    else
      warn ("There is a minlength in the field " +:+ field
            +:+ " that is not a positive integer type") ;;;
      ret (RBool true)
  else ret (RBool true).

Definition _validateEnum (rule : RuleItem) (value : value) (field : string)
  : M U StepRes :=
  emit (EvEnter Enum rule value field) ;;;
  let list := enum rule in
  if truthy list then
    match list with
    | VArr _ items => ret (RBool (oneOf value items))
    | _ =>
        warn ("There is a minlength in the field " +:+ field
              +:+ " that is not a positive array type") ;;;
        ret (RBool true)
    end
  else ret (RBool true).

Definition check : Type := RuleItem -> value -> string -> M U StepRes.

(** [const chain = [...]] *)
Definition chain : list check :=
  [ _validateRequired; _validateType; _validatePattern; _customValidate;
    _validateMaxlen; _validateMinlen; _validateEnum ].

(** [_transform[field]] reads a property of [this._transform]: a TypeError
    when the instance was built without [transform]. *)
Definition lookup_transform (V : Validator) (field : string) : M U value :=
  match _transform V with
  | None => raise (TypeError "Cannot read properties of undefined")
  | Some transforms => ret (lookup_prop field transforms)
  end.

(** [currentTransform(arg)] for [_transform[field] || (value => value)]. *)
Definition currentTransform (configured : value) (arg : value) : M U value :=
  if truthy configured then call E AtTransform configured ThisUndefined [arg]
  else ret arg.

Section Field.
Variables (V : Validator) (field : string) (form : value).

Fixpoint run_chain (configured : value) (rule : RuleItem) (todo : list check)
  : M U (option Failure) :=
  match todo with
  | [] => ret None
  | validator :: rest =>
      raw <- get_prop form field ;;
      arg <- currentTransform configured raw ;;
      validateRes <- validator rule arg field ;;
      let '(pass, errMsg) :=
        match validateRes with
        | RObj pass message => (pass, message)
        | RBool b => (b, VUndefined)
        end in
      if negb pass then
        ret (Some (field,
                   with_message rule
                     (if truthy errMsg then errMsg else message rule)))
      else run_chain configured rule rest
  end.

Fixpoint run_rules (configured : value) (currentRules : list RuleItem)
  : M U (promise Failure) :=
  match currentRules with
  | [] => ret Resolved
  | rule :: rest =>
      r <- run_chain configured rule chain ;;
      match r with
      | Some err => ret (Rejected err)
      | None => run_rules configured rest
      end
  end.

Definition validateField : world U -> outcome Failure * world U :=
  fun w =>
    if negb (isObject form) then
      (Threw (mkError 0 "Form parameter is not an object"), w)
    else
      match _rules V !! field with
      | None => (Returned Resolved, w)
      | Some currentRules =>
          let '(p, w') :=
            new_promise (configured <- lookup_transform V field ;;
                         run_rules configured currentRules) w in
          (Returned p, w')
      end.
End Field.

(** [errors.forEach(err => { errorsMap[err.reason.field] = err.reason.rule })] *)
Definition errorsMap (errors : list Failure) : gmap string RuleItem :=
  foldl (fun acc err => <[err.1 := err.2]> acc) ∅ errors.

(** [validate]: the guard, the tasks
    [Object.keys(_rules).map(field => this.validateField(field, form))], then
    the join. *)
Definition validate (V : Validator) (form : value)
  : world U -> outcome (gmap string RuleItem) * world U :=
  fun w =>
    if negb (isObject form) then
      (Threw (mkError 0 "Form parameter is not an object"), w)
    else
      match Aggregate.start_tasks (fun field => validateField V field form)
              (Aggregate.keys (_rules V)) w with
      | (Ok tasks, w') => (Returned (Aggregate.join errorsMap tasks), w')
      | (Raise e, w') => (Threw e, w')
      | (Suspended, w') => (Returned Pending, w')
      end.

End WithEnv.

End V2.

(** ** validator-1.0.0.js *)

Module V1.
Import Js Config Run Statics.

Section WithEnv.
Context {U : Type} (E : Env U).

(** The same [isFloat] as in 2.0.0, [isTnteger] included. *)
Definition isFloat (value : value) : M U bool :=
  if isNumber E value then
    raise (TypeError "Validator.isTnteger is not a function")
  else ret false.
End WithEnv.

(** One rule or a list of rules. *)
Inductive RuleEntry : Type :=
| One (item : RuleItem)
| Many (items : list RuleItem).

(** The instance: 1.0.0 has rules only. *)
Record Validator : Type := mkValidator {
  _rules : gmap string (list RuleItem)
}.

(** The constructor, on an object of rules. *)
Definition constructor (rules : gmap string RuleEntry) : Validator :=
  {| _rules := (fun item => match item with One r => [r] | Many rs => rs end)
                 <$> rules |}.

(** What [validateField] rejects with: [{ field, rule }]. *)
Definition Failure : Type := string * RuleItem.

Section Field.
Context {U : Type} (E : Env U).
Local Open Scope run_scope.

Definition static_method (name : string) : option (value -> M U bool) :=
  if String.eqb name "isString" then Some (fun v => ret (isString v))
  else if String.eqb name "isNumber" then Some (fun v => ret (isNumber E v))
  else if String.eqb name "isBoolean" then Some (fun v => ret (isBoolean v))
  else if String.eqb name "isFunction" then Some (fun v => ret (isFunction v))
  else if String.eqb name "isFloat" then Some (isFloat E)
  else if String.eqb name "isInteger" then Some (fun v => ret (isInteger E v))
  else if String.eqb name "isArray" then Some (fun v => ret (isArray v))
  else if String.eqb name "isObject" then Some (fun v => ret (isObject v))
  else if String.eqb name "isDate" then Some (isDate E)
  else if String.eqb name "isRegexp" then Some (fun v => ret (isRegexp v))
  else None.

Variables (V : Validator) (field : string) (form : value).

(** The four tests of the loop body.  Each returns [Some err] when it
    called [reject(err)] and returned, [None] when the body goes on.  Every
    test reads [form[field]] anew. *)

(** [if (rule.required) { if (isEmpty(form[field])) return reject(...) }] *)
Definition check_required (rule : RuleItem) : M U (option Failure) :=
  if truthy (required rule) then
    value <- get_prop form field ;;
    if isEmpty value then ret (Some (field, rule)) else ret None
  else ret None.

(** [if (rule.type) { ... }] *)
Definition check_type (rule : RuleItem) : M U (option Failure) :=
  let type := type rule in
  if truthy type then
    if oneOf type types then
      name <- capitalize type ;;
      match static_method ("is" +:+ name) with
      | Some fn =>
          value <- get_prop form field ;;
          b <- fn value ;;
          if negb b then ret (Some (field, rule)) else ret None
      | None =>
          get_prop form field ;;;
          raise (TypeError "Validator[...] is not a function")
      end
    else
      warn ("There is a type in field " +:+ field +:+ " that is unsupported") ;;;
      ret None
  else ret None.

(** [if (rule.pattern) { ... }] *)
Definition check_pattern (rule : RuleItem) : M U (option Failure) :=
  let pattern := pattern rule in
  if truthy pattern then
    match pattern with
    | VRegExp r =>
        value <- get_prop form field ;;
        if negb (regexp_test E r value) then ret (Some (field, rule))
        else ret None
    | _ =>
        warn ("There is a pattern in field " +:+ field
              +:+ " that is not of type regexp") ;;;
        ret None
    end
  else ret None.

(** The [catch (err)] block: it rejects with the rule and the message
    [errMsg || rule.message]. *)
Definition catch_block (rule : RuleItem) (err : value) : M U (option Failure) :=
  let errMsg := err in
  errMsg <- (if String.eqb (typeof err) "object"
             then get_prop err "message" else ret errMsg) ;;
  ret (Some (field,
             with_message rule (if truthy errMsg then errMsg else message rule))).

(** [if (rule.validator) { ... }]; [form[field]] is read inside the [try]. *)
Definition check_validator (rule : RuleItem) : M U (option Failure) :=
  let validator := validator rule in
  if truthy validator then
    if isFunction validator then
      try_catch
        (value <- get_prop form field ;;
         validRes <- call E AtValidator validator ThisUndefined [value] ;;
         match validRes with
         | VPromise _ _ => await validRes ;;; ret None
         | _ => if negb (truthy validRes) then ret (Some (field, rule))
                else ret None
         end)
        (catch_block rule)
    else
      warn ("There is a validator in field " +:+ field
            +:+ " that is not of type function") ;;;
      ret None
  else ret None.

(** [test], then the rest of the loop body unless [test] rejected. *)
Definition and_then (test rest : M U (option Failure)) : M U (option Failure) :=
  r <- test ;;
  match r with
  | Some err => ret (Some err)
  | None => rest
  end.

(** The body of [for (let i = 0, len = currentRules.length; i < len; i++)]. *)
Definition check_rule (rule : RuleItem) : M U (option Failure) :=
  and_then (check_required rule)
    (and_then (check_type rule)
       (and_then (check_pattern rule) (check_validator rule))).

(** The loop, then [resolve()]. *)
Fixpoint run_rules (currentRules : list RuleItem) : M U (promise Failure) :=
  match currentRules with
  | [] => ret Resolved
  | rule :: rest =>
      r <- check_rule rule ;;
      match r with
      | Some err => ret (Rejected err)
      | None => run_rules rest
      end
  end.

Definition validateField : world U -> outcome Failure * world U :=
  fun w =>
    if negb (isObject form) then
      (Threw (mkError 0 "Form parameter is not an object"), w)
    else
      match _rules V !! field with
      | None => (Returned Resolved, w)
      | Some currentRules =>
          let '(p, w') := new_promise (run_rules currentRules) w in
          (Returned p, w')
      end.
End Field.

(** [errors.forEach(err => { errorsMap[err.reason.field] = err.reason.rule })] *)
Definition errorsMap (errors : list Failure) : gmap string RuleItem :=
  foldl (fun acc err => <[err.1 := err.2]> acc) ∅ errors.

End V1.

(** ** The transform applied once *)

(** The field validator the specification describes, to compare the code
    with: the transform is applied to the raw value once, before the chain
    runs, and every check of every rule gets that one result.  Nothing else
    differs from [validateField]. *)
Module Once.
Import Js Config Run Statics.
Local Open Scope run_scope.

Section WithEnv.
Context {U : Type} (E : Env U).

Section TSField.
Variables (V : TS.Validator) (field : string) (fieldWrap : bool) (arg : value).

Fixpoint ts_run_chain (rule : RuleItem) (todo : list (TS.check (U:=U)))
  : M U (option ErrRes) :=
  match todo with
  | [] => ret None
  | validator :: rest =>
      validateRes <- validator rule arg field ;;
      let '(pass, errMsg) :=
        match validateRes with
        | RObj pass message => (pass, message)
        | RBool b => (b, VStr "")
        end in
      if negb pass then
        let message := if truthy errMsg then errMsg else message rule in
        TS.notify E V message ;;;
        ret (Some (TS.reason field fieldWrap (with_message rule message)))
      else ts_run_chain rule rest
  end.

Fixpoint ts_run_rules (currentRules : list RuleItem) : M U (promise ErrRes) :=
  match currentRules with
  | [] => ret Resolved
  | rule :: rest =>
      r <- ts_run_chain rule (TS.chain E) ;;
      match r with
      | Some err => ret (Rejected err)
      | None => ts_run_rules rest
      end
  end.
End TSField.

Definition ts_validateField (V : TS.Validator) (field : string) (form : value)
    (fieldWrap : bool) : world U -> outcome ErrRes * world U :=
  fun w =>
    if negb (isObject form) then
      (Threw (mkError 0 "Form parameter is not an object"), w)
    else
      match TS._rules V !! field with
      | None => (Returned Resolved, w)
      | Some currentRules =>
          let '(p, w') :=
            new_promise (arg <- TS.argument E V field form ;;
                         ts_run_rules V field fieldWrap arg currentRules) w in
          (Returned p, w')
      end.

Section V2Field.
Variables (field : string) (arg : value).

Fixpoint v2_run_chain (rule : RuleItem) (todo : list (V2.check (U:=U)))
  : M U (option V2.Failure) :=
  match todo with
  | [] => ret None
  | validator :: rest =>
      validateRes <- validator rule arg field ;;
      let '(pass, errMsg) :=
        match validateRes with
        | RObj pass message => (pass, message)
        | RBool b => (b, VUndefined)
        end in
      if negb pass then
        ret (Some (field,
                   with_message rule
                     (if truthy errMsg then errMsg else message rule)))
      else v2_run_chain rule rest
  end.

Fixpoint v2_run_rules (currentRules : list RuleItem) : M U (promise V2.Failure) :=
  match currentRules with
  | [] => ret Resolved
  | rule :: rest =>
      r <- v2_run_chain rule (V2.chain E) ;;
      match r with
      | Some err => ret (Rejected err)
      | None => v2_run_rules rest
      end
  end.
End V2Field.

Definition v2_validateField (V : V2.Validator) (field : string) (form : value)
  : world U -> outcome V2.Failure * world U :=
  fun w =>
    if negb (isObject form) then
      (Threw (mkError 0 "Form parameter is not an object"), w)
    else
      match V2._rules V !! field with
      | None => (Returned Resolved, w)
      | Some currentRules =>
          let '(p, w') :=
            new_promise (configured <- V2.lookup_transform V field ;;
                         raw <- get_prop form field ;;
                         arg <- V2.currentTransform E configured raw ;;
                         v2_run_rules field arg currentRules) w in
          (Returned p, w')
      end.
End WithEnv.

End Once.

(** ** Vocabulary of the statements *)

Module Obs.
Import Js Config Run.

(** The chain methods a run entered, in order. *)
Fixpoint entered (evs : list event) : list step :=
  match evs with
  | [] => []
  | EvEnter s _ _ _ :: rest => s :: entered rest
  | _ :: rest => entered rest
  end.

(** The arguments of the calls of the custom validator [f], in order. *)
Fixpoint validator_calls (f : nat) (evs : list event) : list (list value) :=
  match evs with
  | [] => []
  | EvCall AtValidator g args :: rest =>
      if (f =? g)%nat then args :: validator_calls f rest
      else validator_calls f rest
  | _ :: rest => validator_calls f rest
  end.

(** The order the documentation gives:
    required > type > pattern > maxlength > minlength > enum > validator. *)
Definition documented_order : list step :=
  [Required; Type_; Pattern; Maxlen; Minlen; Enum; Custom].

(** An event a chain method emits after it was entered: a warning or a call
    of the caller's validator or [getTime]. *)
Definition inner (e : event) : Prop :=
  match e with
  | EvWarn _ | EvCall AtValidator _ _ | EvCall AtGetTime _ _ => True
  | _ => False
  end.

(** An event that is neither a call of the transform nor the entry of a
    chain method. *)
Definition between (e : event) : Prop :=
  match e with
  | EvEnter _ _ _ _ | EvCall AtTransform _ _ => False
  | _ => True
  end.

(** An event that is not the entry of a chain method. *)
Definition quiet (e : event) : Prop :=
  match e with
  | EvEnter _ _ _ _ => False
  | _ => True
  end.

(** The notification of a failure: a call of the message function or of
    the message hook. *)
Definition notification (e : event) : Prop :=
  match e with
  | EvCall AtMessage _ _ | EvCall AtMessageHook _ _ => True
  | _ => False
  end.

(** A trace in which every chain method that runs is entered right after a
    call of the transform [f] on [raw] of its own; the last call may have
    thrown. *)
Inductive per_step (f : nat) (raw : value) : list event -> Prop :=
| per_step_done : per_step f raw []
| per_step_threw : per_step f raw [EvCall AtTransform f [raw]]
| per_step_more s rule v field mid rest :
    Forall between mid ->
    per_step f raw rest ->
    per_step f raw
      (EvCall AtTransform f [raw] :: EvEnter s rule v field :: mid ++ rest).

Section WithEnv.
Context {U : Type} (E : Env U).

(** [f] returns the same value on [raw] whatever the caller's state, and
    leaves that state alone. *)
Definition pure_on (f : nat) (raw out : value) : Prop :=
  forall this u, fn_call E f this [raw] u = (Returns out, u).

(** A computation whose result and whose effect on the caller's state do
    not depend on the trace. *)
Definition respects {A} (m : M U A) : Prop :=
  forall w1 w2, ust w1 = ust w2 ->
    fst (m w1) = fst (m w2) /\ ust (snd (m w1)) = ust (snd (m w2)).

(** A computation that only appends events satisfying [P]. *)
Definition emits {A} (P : event -> Prop) (m : M U A) : Prop :=
  forall w, exists evs, trace (snd (m w)) = trace w ++ evs /\ Forall P evs.

(** A chain method logs its entry, then only warnings and calls of the
    caller's validator or [getTime]. *)
Definition method_shape (s : step)
    (m : RuleItem -> value -> string -> M U StepRes) : Prop :=
  forall rule v field w, exists evs,
    trace (snd (m rule v field w)) = trace w ++ EvEnter s rule v field :: evs
    /\ Forall inner evs.

(** The world after a chain method logged its entry. *)
Definition entered_world (w : world U) (s : step) rule v field : world U :=
  mkWorld (ust w) (trace w ++ [EvEnter s rule v field]).

(** On an empty value a method returns [true] at once: no call, no
    warning, nothing but the entry in the trace. *)
Definition skips_empty (s : step)
    (m : RuleItem -> value -> string -> M U StepRes) : Prop :=
  forall rule v field w,
    Statics.isEmpty v = true ->
    m rule v field w = (Ok (RBool true), entered_world w s rule v field).

(** The custom validator [f] fails on [v] in state [u] with the payload
    [err]: it throws [err], or returns a promise rejected with [err]. *)
Definition fails_with (f : nat) (v : value) (u : U) (err : value) (u' : U)
  : Prop :=
  fn_call E f ThisUndefined [v] u = (Throws err, u')
  \/ exists addr,
       fn_call E f ThisUndefined [v] u
       = (Returns (VPromise addr (PRejected err)), u').

(** The notification of a failure with [message] returns normally. *)
Definition notifies (V : TS.Validator) (message : value) : Prop :=
  forall w, exists w', TS.notify E V message w = (Ok tt, w').

(** A chain method whose result does not depend on the trace. *)
Definition method_respects
    (m : RuleItem -> value -> string -> M U StepRes) : Prop :=
  forall rule v field, respects (m rule v field).
End WithEnv.

(** What a caller can tell of a run: its result and the caller's own
    state, not the trace. *)
Definition visible {U A} (r : A * world U) : A * U := (fst r, ust (snd r)).

(** A computation that appends a [per_step] trace. *)
Definition traced {U A} (f : nat) (raw : value) (m : M U A) : Prop :=
  forall w, exists evs,
    trace (snd (m w)) = trace w ++ evs /\ per_step f raw evs.

(** The entry a rejection adds to the map of [validate]. *)
Definition ts_entry (err : ErrRes) : option (string * RuleItem) :=
  match err with
  | Wrapped field rule => Some (field, rule)
  | Bare _ => None
  end.

Definition v2_entry (err : V2.Failure) : option (string * RuleItem) := Some err.

(** The map built from the entries of the rejections, in order. *)
Definition entries_map {R} (entry : R -> option (string * RuleItem))
    (acc : gmap string RuleItem) (errors : list R) : gmap string RuleItem :=
  foldl (fun acc err =>
           match entry err with
           | Some (field, rule) => <[field := rule]> acc
           | None => acc
           end) acc errors.

(** A task rejects with an entry for its own field. *)
Definition own_entry {R} (entry : R -> option (string * RuleItem))
    (result : string * promise R) : Prop :=
  forall err, result.2 = Rejected err ->
    exists rule, entry err = Some (result.1, rule).

(** How the promise of [validate] follows from the promises of the tasks:
    resolved when every task resolved; pending when one task never settles;
    and when every task settled and one rejected, rejected with a map that
    has, for each field, the rule its task rejected with, and nothing
    else. *)
Definition aggregates {R} (entry : R -> option (string * RuleItem))
    (results : list (string * promise R))
    (p : promise (gmap string RuleItem)) : Prop :=
  ((forall field q, (field, q) ∈ results -> q = Resolved) -> p = Resolved)
  /\ ((exists field, (field, Pending) ∈ results) -> p = Pending)
  /\ ((forall field, (field, Pending) ∉ results) ->
      (exists field err, (field, Rejected err) ∈ results) ->
      exists errorsMap,
        p = Rejected errorsMap
        /\ forall field rule,
             errorsMap !! field = Some rule <->
             exists err, (field, Rejected err) ∈ results
                         /\ entry err = Some (field, rule)).

(** [err] is the rejection of the first rule of [field] that fails: the
    rules before it ran and passed, then the chain of that rule rejected
    with [err], which is that rule with its message resolved. *)
Definition ts_first_failure {U} (E : Env U) (V : TS.Validator) (field : string)
    (form : value) (w : world U) (err : ErrRes) (w' : world U) : Prop :=
  exists pre rule post msg w0,
    TS._rules V !! field = Some (pre ++ rule :: post)
    /\ TS.run_rules E V field form true pre w = (Ok Resolved, w0)
    /\ TS.run_chain E V field form true rule (TS.chain E) w0 = (Ok (Some err), w')
    /\ err = Wrapped field (with_message rule msg).

Definition v2_first_failure {U} (E : Env U) (V : V2.Validator) (field : string)
    (form : value) (w : world U) (err : V2.Failure) (w' : world U) : Prop :=
  exists transforms pre rule post msg w0,
    V2._transform V = Some transforms
    /\ V2._rules V !! field = Some (pre ++ rule :: post)
    /\ V2.run_rules E field form (lookup_prop field transforms) pre w
       = (Ok Resolved, w0)
    /\ V2.run_chain E field form (lookup_prop field transforms) rule (V2.chain E) w0
       = (Ok (Some err), w')
    /\ err = (field, with_message rule msg).

(** The message a thrown or rejected payload carries, as the [catch] block
    of [validator-ts.ts] reads it. *)
Definition payload_message (err : value) : value :=
  match err with
  | VStr _ => err
  | VObj _ props => lookup_prop "message" props
  | VArr _ _ | VRegExp _ | VDate _ _ | VPromise _ _ => VUndefined
  | _ => VStr ""
  end.

End Obs.

(** ** Sample configurations *)

Module Sample.
Import Js Config Run.

(** Callbacks: 0 accepts every value; 1 rejects with the string "wrong";
    2 turns its argument into the number 18; 3 rejects with the empty
    string; 4 rejects with [null]; 5 returns "abc" the first time it is
    called and the number 5 afterwards (the caller's state counts its
    calls). *)
Definition env : Env nat := {|
  fn_call := fun f _ _ u =>
    match f with
    | 0%nat => (Returns (VBool true), u)
    | 1%nat => (Returns (VPromise 1 (PRejected (VStr "wrong"))), u)
    | 2%nat => (Returns (VNum (Finite false 18 0)), u)
    | 3%nat => (Returns (VPromise 2 (PRejected (VStr ""))), u)
    | 4%nat => (Returns (VPromise 3 (PRejected VNull)), u)
    | 5%nat => (Returns (match u with O => VStr "abc"
                                   | _ => VNum (Finite false 5 0) end), S u)
    | _ => (Returns VUndefined, u)
    end;
  fn_length := fun _ => 1%nat;
  regexp_test := fun _ _ => false;
  to_number := fun _ => NaN |}.

Definition start : world nat := mkWorld 0%nat [].

Definition one_and_a_half : number := Finite false 15 (-1).
Definition ten_to_21 : number := Finite false 1 21.

(** [{ maxlength: 2, validator: f0, message: "too long" }] *)
Definition short_rule : RuleItem :=
  mkRule VUndefined VUndefined VUndefined (VFun 0) (VNum (num_of_nat 2))
         VUndefined VUndefined (VStr "too long").

(** [{ maxlength: 2, message: "too long" }] *)
Definition max_rule : RuleItem :=
  mkRule VUndefined VUndefined VUndefined VUndefined (VNum (num_of_nat 2))
         VUndefined VUndefined (VStr "too long").

(** [{ type: "number", message: "not a number" }] *)
Definition number_rule : RuleItem :=
  mkRule VUndefined (VStr "number") VUndefined VUndefined VUndefined
         VUndefined VUndefined (VStr "not a number").

(** [{ required: true, message: "required" }] *)
Definition required_rule : RuleItem :=
  mkRule (VBool true) VUndefined VUndefined VUndefined VUndefined
         VUndefined VUndefined (VStr "required").

(** [{ validator: f, message: "static" }] *)
Definition custom_rule (f : nat) : RuleItem :=
  mkRule VUndefined VUndefined VUndefined (VFun f) VUndefined
         VUndefined VUndefined (VStr "static").

(** [{ required: true, type: "string", message: "text" }] *)
Definition text_rule : RuleItem :=
  mkRule (VBool true) (VStr "string") VUndefined VUndefined VUndefined
         VUndefined VUndefined (VStr "text").

(** [new Validator({ rules: { name: rule }, transform: {} })], 2.0.0. *)
Definition v2_with (rule : RuleItem) : V2.Validator :=
  V2.constructor (V2.mkConfig {[ "name" := V2.One rule ]} (Some [])).

(** [new Validator({ rules: { name: rule } })], 2.0.0. *)
Definition v2_bare (rule : RuleItem) : V2.Validator :=
  V2.constructor (V2.mkConfig {[ "name" := V2.One rule ]} None).

(** [new Validator({ rules: {} })], 2.0.0. *)
Definition v2_no_rules : V2.Validator :=
  V2.constructor (V2.mkConfig ∅ None).

(** [new Validator({ rules: { name: rule } })], TypeScript. *)
Definition ts_with (rule : RuleItem) : TS.Validator :=
  TS.constructor (TS.mkConfig {[ "name" := TS.One rule ]} None None).

(** [new Validator({ rules: { name: rule }, transform: { name: f } })]. *)
Definition ts_transformed (rule : RuleItem) (f : nat) : TS.Validator :=
  TS.constructor
    (TS.mkConfig {[ "name" := TS.One rule ]} (Some [("name", VFun f)]) None).

(** [new Validator({ rules: { name: r1, phone: r2 } })], TypeScript. *)
Definition ts_two (r1 r2 : RuleItem) : TS.Validator :=
  TS.constructor
    (TS.mkConfig {[ "name" := TS.One r1; "phone" := TS.One r2 ]} None None).

(** [{ name: v }] *)
Definition form_of (v : value) : value := VObj 1 [("name", v)].

End Sample.

(** ** Strings of digits *)

(** The vocabulary for what [Number::toString] prints and [parseInt]
    reads. *)
Module Digits.
Import Js.

(** Every character of [s] is a decimal digit. *)
Fixpoint all_digits (s : string) : bool :=
  match s with
  | EmptyString => true
  | String c r => match digit_of c with Some _ => all_digits r | None => false end
  end.

(** The number the digits of [s] denote, read after the digits of [acc]. *)
Fixpoint value_from (s : string) (acc : N) : N :=
  match s with
  | EmptyString => acc
  | String c r => value_from r (10 * acc + default 0%N (digit_of c))%N
  end.

(** [s] is empty or starts with a character that is not a digit. *)
Definition stops (s : string) : bool :=
  match s with
  | EmptyString => true
  | String c _ => match digit_of c with Some _ => false | None => true end
  end.

(** [s] backwards. *)
Definition srev (s : string) : string := string_rev_onto s "".
End Digits.

(** ** Vocabulary of the further properties *)

Module Outcome.
Import Js Config Run.

(** The number of characters of a string, of elements of an array: what
    [value.length] is on them. *)
Definition counted (v : value) : option nat :=
  match v with
  | VStr s => Some (String.length s)
  | VArr _ items => Some (List.length items)
  | _ => None
  end.

(** Values that have no [length] to read: [value.length] is [undefined]. *)
Definition lengthless (v : value) : bool :=
  match v with
  | VBool _ | VNum _ | VRegExp _ | VDate _ _ | VPromise _ _ => true
  | _ => false
  end.

(** [n] as a Number. *)
Definition num_of_N (n : N) : number := Finite false n 0.

(** The world after a chain method logged its entry and one warning. *)
Definition warned {U} (w : world U) (s : step) rule v field (text : string)
  : world U :=
  mkWorld (ust w) (trace w ++ [EvEnter s rule v field; EvWarn text]).

(** The texts of the warnings in a trace, in order. *)
Fixpoint warnings (evs : list event) : list string :=
  match evs with
  | [] => []
  | EvWarn text :: rest => text :: warnings rest
  | _ :: rest => warnings rest
  end.

(** A constraint that is set (truthy) but that its check cannot use. *)
Definition bad_type (rule : RuleItem) : bool :=
  truthy (type rule) && negb (Statics.oneOf (type rule) Statics.types).

Definition bad_pattern (rule : RuleItem) : bool :=
  truthy (pattern rule) && negb (Statics.isRegexp (pattern rule)).

Definition bad_validator (rule : RuleItem) : bool :=
  truthy (validator rule) && negb (Statics.isFunction (validator rule)).

Definition bad_bound {U} (E : Env U) (bound : value) : bool :=
  truthy bound
  && negb (Statics.isInteger E bound && js_gt E bound (VNum (num_of_nat 0))).

Definition bad_enum (rule : RuleItem) : bool :=
  truthy (enum rule) && negb (Statics.isArray (enum rule)).

(** A chain method that lets a malformed constraint pass with one warning
    on the console.  [guarded] says whether the method first tests the
    value for emptiness. *)
Definition warns_and_passes {U} (s : step)
    (m : RuleItem -> value -> string -> M U StepRes)
    (malformed : RuleItem -> bool) (text : string -> string) (guarded : bool)
  : Prop :=
  forall rule v field w,
    (guarded = true -> Statics.isEmpty v = false) ->
    malformed rule = true ->
    m rule v field w = (Ok (RBool true), warned w s rule v field (text field)).

(** The world after a chain method logged its entry and called the
    custom validator [f] on [v], which left the caller's state [u]. *)
Definition validated {U} (w : world U) rule v field (f : nat) (u : U) : world U :=
  mkWorld u (trace w ++ [EvEnter Custom rule v field; EvCall AtValidator f [v]]).

(** [{ field, rule }] around a rule that [validateField] rejected bare. *)
Definition wrap (field : string) (err : ErrRes) : ErrRes :=
  match err with
  | Bare rule => Wrapped field rule
  | Wrapped _ _ => err
  end.

Definition wrap_outcome (field : string) (o : outcome ErrRes) : outcome ErrRes :=
  match o with
  | Returned (Rejected err) => Returned (Rejected (wrap field err))
  | _ => o
  end.

(** What the driver of the chain reads in the result of a method:
    [pass], and the message it rejects with when the method failed,
    [errMsg || rule.message]. *)
Definition passed (validateRes : StepRes) : bool :=
  match validateRes with
  | RBool b => b
  | RObj pass _ => pass
  end.

Definition failure_message (rule : RuleItem) (validateRes : StepRes) : value :=
  let errMsg :=
    match validateRes with
    | RObj _ message => message
    | RBool _ => VStr ""
    end in
  if truthy errMsg then errMsg else message rule.

(** The notifications in a trace: the calls of a message function and of
    the message hook, in order. *)
Fixpoint notifications (evs : list event) : list event :=
  match evs with
  | [] => []
  | EvCall AtMessage f args :: rest => EvCall AtMessage f args :: notifications rest
  | EvCall AtMessageHook f args :: rest =>
      EvCall AtMessageHook f args :: notifications rest
  | _ :: rest => notifications rest
  end.

(** An event that is no notification. *)
Definition unnotified (e : event) : Prop :=
  match e with
  | EvCall AtMessage _ _ | EvCall AtMessageHook _ _ => False
  | _ => True
  end.

(** The notification a failure with [message] asks for: the message
    itself is called when it is a function, with no argument; otherwise the
    hook, when there is one, is called on the message. *)
Definition notification_of (V : TS.Validator) (message : value) : list event :=
  match message with
  | VFun f => [EvCall AtMessage f []]
  | _ =>
      match TS._messageHook V with
      | Some (VFun hook) => [EvCall AtMessageHook hook [message]]
      | _ => []
      end
  end.

(** The rule a rejection carries. *)
Definition rule_of (err : ErrRes) : RuleItem :=
  match err with
  | Bare rule => rule
  | Wrapped _ rule => rule
  end.

(** A rule that involves none of the caller's functions: its validator
    and its message are not functions, and its type is not "date" (the
    predicate of "date" calls [getTime] on the value). *)
Definition data_only (rule : RuleItem) : bool :=
  negb (Statics.isFunction (validator rule))
  && negb (Statics.isFunction (message rule))
  && negb (strict_eq (type rule) (VStr "date")).

(** A chain method that, on [rule], returns a boolean and leaves the
    caller's state alone, whatever the value. *)
Definition answers {U} (rule : RuleItem)
    (m : RuleItem -> value -> string -> M U StepRes) : Prop :=
  forall v field (w : world U), exists b w',
    m rule v field w = (Ok (RBool b), w') /\ ust w' = ust w.

(** The static predicate each supported type name stands for: the ten
    [is...] methods of the class, by the name [_validateType] builds. *)
Definition ts_predicates {U} (E : Env U) : list (string * (value -> M U bool)) :=
  [ ("string", fun v => ret (Statics.isString v));
    ("number", fun v => ret (Statics.isNumber E v));
    ("boolean", fun v => ret (Statics.isBoolean v));
    ("function", fun v => ret (Statics.isFunction v));
    ("float", fun v => ret (TS.isFloat E v));
    ("integer", fun v => ret (Statics.isInteger E v));
    ("array", fun v => ret (Statics.isArray v));
    ("object", fun v => ret (Statics.isObject v));
    ("date", Statics.isDate E);
    ("regexp", fun v => ret (Statics.isRegexp v)) ].

Definition v2_predicates {U} (E : Env U) : list (string * (value -> M U bool)) :=
  [ ("string", fun v => ret (Statics.isString v));
    ("number", fun v => ret (Statics.isNumber E v));
    ("boolean", fun v => ret (Statics.isBoolean v));
    ("function", fun v => ret (Statics.isFunction v));
    ("float", V2.isFloat E);
    ("integer", fun v => ret (Statics.isInteger E v));
    ("array", fun v => ret (Statics.isArray v));
    ("object", fun v => ret (Statics.isObject v));
    ("date", Statics.isDate E);
    ("regexp", fun v => ret (Statics.isRegexp v)) ].

(** The entry a rejection of 1.0.0 adds to the map of [validate]. *)
Definition v1_entry (err : V1.Failure) : option (string * RuleItem) := Some err.

(** [err] is the rejection of the first rule of [field] that fails in
    1.0.0: the rules before it ran and passed, then a test of the loop
    body rejected on that rule with [{ field, rule }], the rule carrying the
    message of the payload when the custom validator threw. *)
Definition v1_first_failure {U} (E : Env U) (V : V1.Validator) (field : string)
    (form : value) (w : world U) (err : V1.Failure) (w' : world U) : Prop :=
  exists pre rule post msg w0,
    V1._rules V !! field = Some (pre ++ rule :: post)
    /\ V1.run_rules E field form pre w = (Ok Resolved, w0)
    /\ V1.check_rule E field form rule w0 = (Ok (Some err), w')
    /\ err = (field, with_message rule msg).

(** What [isDate] throws on [undefined] and on [null]. *)
Definition no_getTime : value :=
  TypeError "Cannot read properties of undefined (reading 'getTime')".

End Outcome.

(** ** More sample callbacks *)

Module Cases.
Import Js Config Run.

(** Callbacks: 0 returns a promise fulfilled with [false]; 1 returns a
    promise that never settles; 2 throws an [Error] with the message
    "boom"; 3 returns the number 0; 4 returns the string "yes"; 5 counts
    its calls in the caller's state and returns [undefined]. *)
Definition env : Env nat := {|
  fn_call := fun f _ _ u =>
    match f with
    | 0%nat => (Returns (VPromise 1 (PFulfilled (VBool false))), u)
    | 1%nat => (Returns (VPromise 2 PPending), u)
    | 2%nat => (Throws (mkError 3 "boom"), u)
    | 3%nat => (Returns (VNum (Finite false 0 0)), u)
    | 4%nat => (Returns (VStr "yes"), u)
    | _ => (Returns VUndefined, S u)
    end;
  fn_length := fun _ => 1%nat;
  regexp_test := fun r v => match v with VStr "ok" => true | _ => false end;
  to_number := fun _ => NaN |}.

Definition start : world nat := mkWorld 0%nat [].

(** [{ type: "float", message: "float" }] *)
Definition float_rule : RuleItem :=
  mkRule VUndefined (VStr "float") VUndefined VUndefined VUndefined
         VUndefined VUndefined (VStr "float").

(** [{ type: "String", pattern: "x", validator: 1, maxlength: 1.5,
       minlength: -1, enum: "ab", message: "m" }]: every constraint is set
    and none is usable. *)
Definition malformed_rule : RuleItem :=
  mkRule VUndefined (VStr "String") (VStr "x") (VNum (Finite false 1 0))
         (VNum (Finite false 15 (-1))) (VNum (Finite true 1 0)) (VStr "ab")
         (VStr "m").

(** [{ type: "date", message: "when" }] *)
Definition date_rule : RuleItem :=
  mkRule VUndefined (VStr "date") VUndefined VUndefined VUndefined
         VUndefined VUndefined (VStr "when").

End Cases.

(** ** Comparing two runs *)

Module Compare.
Import Js Config Run.

(** What a trace shows of a run from outside: the calls into the caller's
    code and the warnings, without the entries of the chain methods. *)
Fixpoint external (evs : list event) : list event :=
  match evs with
  | [] => []
  | EvEnter _ _ _ _ :: rest => external rest
  | e :: rest => e :: external rest
  end.

(** Two worlds with the same caller's state and the same calls and
    warnings so far. *)
Definition alike {U} (w1 w2 : world U) : Prop :=
  ust w1 = ust w2 /\ external (trace w1) = external (trace w2).

(** Two runs that end the same way in worlds that are alike. *)
Definition agree {U A} (r1 r2 : A * world U) : Prop :=
  fst r1 = fst r2 /\ alike (snd r1) (snd r2).

(** Two computations that agree whenever they start in worlds that are
    alike. *)
Definition simulates {U A} (m1 m2 : M U A) : Prop :=
  forall w1 w2, alike w1 w2 -> agree (m1 w1) (m2 w2).

(** A rule that uses the constraints of 1.0.0 only: [maxlength],
    [minlength] and [enum] are not set. *)
Definition legacy (rule : RuleItem) : bool :=
  negb (truthy (maxlength rule)) && negb (truthy (minlength rule))
  && negb (truthy (enum rule)).

(** What the driver of the chain of 2.0.0 makes of the result of a
    method: the rejection, or nothing when the method passed. *)
Definition v2_verdict (field : string) (rule : RuleItem) (validateRes : StepRes)
  : option V2.Failure :=
  let '(pass, errMsg) :=
    match validateRes with
    | RObj pass message => (pass, message)
    | RBool b => (b, VUndefined)
    end in
  if negb pass then
    Some (field, with_message rule (if truthy errMsg then errMsg else message rule))
  else None.

(** A rule made of data: no custom validator, no message function, and a
    type, if any, other than "date" and "float". *)
Definition plain (rule : RuleItem) : bool :=
  Outcome.data_only rule && negb (strict_eq (type rule) (VStr "float")).

(** The rule a promise of [validateField] rejects with, in validator-ts.ts
    and in 2.0.0. *)
Definition ts_rule (p : promise ErrRes) : promise RuleItem :=
  match p with
  | Resolved => Resolved
  | Rejected err => Rejected (Outcome.rule_of err)
  | Pending => Pending
  end.

Definition v2_rule (p : promise V2.Failure) : promise RuleItem :=
  match p with
  | Resolved => Resolved
  | Rejected err => Rejected err.2
  | Pending => Pending
  end.

(** A chain method that, on [rule] and [v], returns [b] and leaves the
    caller's state alone. *)
Definition says {U} (m : RuleItem -> value -> string -> M U StepRes)
    (rule : RuleItem) (v : value) (field : string) (b : bool) : Prop :=
  forall w : world U, exists w',
    m rule v field w = (Ok (RBool b), w') /\ ust w' = ust w.

End Compare.

(** ** The constructors, on any argument *)

(** The three constructors as they run on whatever value the caller passes,
    before anything is known of its type.  The instance keeps each rule as
    the value the caller wrote. *)
Module Untyped.
Import Js Config Run Statics.

(** [o.key] on a value that passed [isObject] and is not [null]: plain
    objects have own properties; dates, regular expressions and promises
    have none of these names. *)
Definition prop (o : value) (key : string) : value :=
  match o with
  | VObj _ props => lookup_prop key props
  | _ => VUndefined
  end.

(** [Validator.isArray(item) ? item : [item]] *)
Definition normalize (item : value) : list value :=
  match item with
  | VArr _ items => items
  | _ => [item]
  end.

(** [Object.keys(rules).forEach(field => { this._rules[field] = ... })] on
    the own properties of [rules]. *)
Definition collect (props : list (string * value)) : gmap string (list value) :=
  foldl (fun acc field => <[field := normalize (lookup_prop field props)]> acc)
        ∅ props.*1.

(** The loop over [Object.keys(rules)], on a value that passed [isObject]:
    [Object.keys(null)] throws; a date, a regular expression or a promise
    has no own enumerable key. *)
Definition fill (rules : value) : res (gmap string (list value)) :=
  match rules with
  | VNull => Raise (TypeError "Cannot convert undefined or null to object")
  | VObj _ props => Ok (collect props)
  | _ => Ok ∅
  end.

Record Instance : Type := mkInstance {
  _rules : gmap string (list value);
  _transform : value;
  _messageHook : value
}.

(** [constructor(config)] of validator-ts.ts. *)
Definition ts_constructor (config : value) : res Instance :=
  if negb (isObject config) then Raise (mkError 0 "config must be an object")
  else
    match config with
    | VNull =>
        Raise (TypeError "Cannot destructure property 'rules' of 'config' as it is null.")
    | _ =>
        let rules := prop config "rules" in
        let transform := prop config "transform" in
        let messageHook := prop config "messageHook" in
        if negb (isObject rules) then Raise (mkError 0 "rules must be an object")
        else if truthy transform && negb (isObject transform) then
          Raise (mkError 0 "transform must be an object")
        else if truthy messageHook && negb (isFunction messageHook) then
          Raise (mkError 0 "messageHook must be an function")
        else
          match fill rules with
          | Ok filled => Ok (mkInstance filled transform messageHook)
          | Raise e => Raise e
          | Suspended => Suspended
          end
    end.

(** [constructor(config)] of validator-2.0.0.js: [rules] starts as
    [config] and becomes [config.rules] when [config] is an object. *)
Definition v2_constructor (config : value) : res Instance :=
  if isObject config then
    match config with
    | VNull => Raise (TypeError "Cannot read properties of null (reading 'rules')")
    | _ =>
        let rules := prop config "rules" in
        let transform := prop config "transform" in
        if truthy transform && negb (isObject transform) then
          Raise (mkError 0 "transform must be an object")
        else if negb (isObject rules) then Raise (mkError 0 "rules must be an object")
        else
          match fill rules with
          | Ok filled => Ok (mkInstance filled transform VUndefined)
          | Raise e => Raise e
          | Suspended => Suspended
          end
    end
  else
    let rules := config in
    if negb (isObject rules) then Raise (mkError 0 "rules must be an object")
    else
      match fill rules with
      | Ok filled => Ok (mkInstance filled VUndefined VUndefined)
      | Raise e => Raise e
      | Suspended => Suspended
      end.

(** [constructor(rules)] of validator-1.0.0.js. *)
Definition v1_constructor (rules : value) : res Instance :=
  if negb (isObject rules) then Raise (mkError 0 "Rules must be an object")
  else
    match fill rules with
    | Ok filled => Ok (mkInstance filled VUndefined VUndefined)
    | Raise e => Raise e
    | Suspended => Suspended
    end.

(** [static oneOf(value, validList)], with its guard. *)
Definition oneOf (value validList : value) : res bool :=
  if negb (isArray validList) then
    Raise (mkError 0 "validList must be of array type")
  else
    match validList with
    | VArr _ items => Ok (Statics.oneOf value items)
    | _ => Ok false
    end.

(** A configuration the constructor of validator-ts.ts accepts. *)
Definition ts_accepts (config : value) : Prop :=
  exists addr props,
    config = VObj addr props
    /\ isObject (lookup_prop "rules" props) = true
    /\ lookup_prop "rules" props <> VNull
    /\ (truthy (lookup_prop "transform" props) = true ->
        isObject (lookup_prop "transform" props) = true)
    /\ (truthy (lookup_prop "messageHook" props) = true ->
        isFunction (lookup_prop "messageHook" props) = true).

(** A configuration the constructor of validator-2.0.0.js accepts. *)
Definition v2_accepts (config : value) : Prop :=
  exists addr props,
    config = VObj addr props
    /\ isObject (lookup_prop "rules" props) = true
    /\ lookup_prop "rules" props <> VNull
    /\ (truthy (lookup_prop "transform" props) = true ->
        isObject (lookup_prop "transform" props) = true).

(** The rules an instance built from [rules] holds for [field]: the
    elements of the entry when it is an array, the entry alone otherwise, and
    nothing when [rules] has no such key. *)
Definition listed (rules : value) (field : string) : option (list value) :=
  match rules with
  | VObj _ entries =>
      if bool_decide (field ∈ entries.*1)
      then Some (normalize (lookup_prop field entries))
      else None
  | _ => None
  end.

End Untyped.

(** ** The preset patterns and the predicates that test them *)

(** [Validator.pattern] is the same table of regular expressions in the three
    files (frozen in validator-ts.ts, taken here as it is written in the
    other two).  A pattern is kept as its syntax tree; [run] is the matcher of the
    engine read as the set of the states its backtracking search can reach,
    and [test] is [RegExp.prototype.test] for a pattern without the [g] and
    [y] flags: it tries every start index in turn.  Characters are code
    units; the strings of this development hold the first 256 of them. *)
Module Pattern.
Import Js.

Definition code (c : ascii) : N := N_of_ascii c.

(** The class escapes [\d], [\w] and [\s]. *)
Inductive escape : Type := Digit | Word | Space.

Definition is_digit (n : N) : bool := ((48 <=? n) && (n <=? 57))%N.

Definition is_word (n : N) : bool :=
  (is_digit n || ((65 <=? n) && (n <=? 90)) || ((97 <=? n) && (n <=? 122))
   || (n =? 95))%N.

(** White space and line terminators. *)
Definition is_space (n : N) : bool :=
  (existsb (N.eqb n)
     [9; 10; 11; 12; 13; 32; 160; 5760; 8232; 8233; 8239; 8287; 12288; 65279]
   || ((8192 <=? n) && (n <=? 8202)))%N.

Definition is_line_end (n : N) : bool :=
  existsb (N.eqb n) [10; 13; 8232; 8233]%N.

Definition escape_has (e : escape) (n : N) : bool :=
  match e with
  | Digit => is_digit n
  | Word => is_word n
  | Space => is_space n
  end.

(** A member of a character class [[...]]: a character, a range, an
    escape. *)
Inductive item : Type :=
| Just (c : ascii)
| Span (lo hi : N)
| Esc (e : escape).

Definition item_has (n : N) (i : item) : bool :=
  match i with
  | Just c => (n =? code c)%N
  | Span lo hi => ((lo <=? n) && (n <=? hi))%N
  | Esc e => escape_has e n
  end.

Inductive regex : Type :=
| Chr (c : ascii)                     (* a pattern character *)
| Any                                 (* [.] *)
| Cls (e : escape)                    (* [\d], [\w], [\s] *)
| Among (items : list item)           (* [[...]] *)
| Except (items : list item)          (* [[^...]] *)
| Bol                                 (* [^] *)
| Eol                                 (* [$] *)
| NotAhead (a : regex)                (* [(?!a)] *)
| Cat (a b : regex)                   (* [ab] *)
| Alt (a b : regex)                   (* [a|b] *)
| Rep (a : regex) (min : nat) (max : option nat). (* [a{min,max}], [a{min,}] *)

Definition Star (a : regex) : regex := Rep a 0 None.          (* [a*] *)
Definition Plus (a : regex) : regex := Rep a 1 None.          (* [a+] *)
Definition Opt (a : regex) : regex := Rep a 0 (Some 1%nat).   (* [a?] *)
Definition Times (n : nat) (a : regex) : regex := Rep a n (Some n). (* [a{n}] *)

(** [a1 a2 ... an], for [n >= 1]. *)
Fixpoint seq (a : regex) (rest : list regex) : regex :=
  match rest with
  | [] => a
  | b :: more => Cat a (seq b more)
  end.

(** [Span] between two characters. *)
Definition span (lo hi : ascii) : item := Span (code lo) (code hi).

(** *** The matcher *)

(** Where a match attempt stands: whether it is at index 0 of the input,
    and what is left of the input. *)
Definition state : Type := bool * string.

(** One character that satisfies [p]. *)
Definition eats (p : N -> bool) (st : state) : list state :=
  match st.2 with
  | String c r => if p (code c) then [(false, r)] else []
  | EmptyString => []
  end.

(** [n] iterations of [step]. *)
Fixpoint exactly (step : state -> list state) (n : nat) (st : state)
  : list state :=
  match n with
  | O => [st]
  | S m => flat_map (exactly step m) (step st)
  end.

Definition shorter (a b : state) : bool :=
  (String.length a.2 <? String.length b.2)%nat.

(** At most [n] more iterations of [step]; an iteration that matched the
    empty string is given up. *)
Fixpoint upto (step : state -> list state) (n : nat) (st : state)
  : list state :=
  st :: match n with
        | O => []
        | S m =>
            flat_map (fun st' => if shorter st' st then upto step m st' else [])
              (step st)
        end.

(** The states the matcher of [r] can end in from [st]. *)
Fixpoint run (r : regex) (st : state) : list state :=
  match r with
  | Chr c => eats (N.eqb (code c)) st
  | Any => eats (fun n => negb (is_line_end n)) st
  | Cls e => eats (escape_has e) st
  | Among items => eats (fun n => existsb (item_has n) items) st
  | Except items => eats (fun n => negb (existsb (item_has n) items)) st
  | Bol => if st.1 then [st] else []
  | Eol => match st.2 with EmptyString => [st] | String _ _ => [] end
  | NotAhead a => match run a st with [] => [st] | _ :: _ => [] end
  | Cat a b => flat_map (run b) (run a st)
  | Alt a b => run a st ++ run b st
  | Rep a min max =>
      flat_map
        (fun st' =>
           upto (run a)
             (match max with
              | Some k => k - min
              | None => String.length st'.2
              end)%nat
             st')
        (exactly (run a) min st)
  end.

(** The match attempt at [st] succeeds. *)
Definition found (r : regex) (st : state) : bool :=
  match run r st with [] => false | _ :: _ => true end.

(** The proper suffixes of [s], longest first. *)
Fixpoint tails (s : string) : list string :=
  match s with
  | EmptyString => []
  | String _ r => r :: tails r
  end.

(** [r.test(s)] on a string. *)
Definition test (r : regex) (s : string) : bool :=
  found r (true, s) || existsb (fun t => found r (false, t)) (tails s).

(** *** The table [Validator.pattern] *)

Definition w : regex := Cls Word.
Definition d : regex := Cls Digit.

(** [/^\w+([-+.]\w+)*@\w+([-.]\w+)*\.\w+([-.]\w+)*$/] *)
Definition email : regex :=
  seq Bol
    [ Plus w; Star (Cat (Among [Just "-"; Just "+"; Just "."]) (Plus w));
      Chr "@";
      Plus w; Star (Cat (Among [Just "-"; Just "."]) (Plus w));
      Chr ".";
      Plus w; Star (Cat (Among [Just "-"; Just "."]) (Plus w));
      Eol ]%char.

(** [/^(13[0-9]|14[5|7]|15[0|1|2|3|4|5|6|7|8|9]|18[0|1|2|3|5|6|7|8|9])\d{8}$/] *)
Definition phone : regex :=
  seq Bol
    [ Alt (seq (Chr "1") [Chr "3"; Among [span "0" "9"]])
        (Alt (seq (Chr "1") [Chr "4"; Among [Just "5"; Just "|"; Just "7"]])
           (Alt (seq (Chr "1")
                   [Chr "5";
                    Among [Just "0"; Just "|"; Just "1"; Just "|"; Just "2";
                           Just "|"; Just "3"; Just "|"; Just "4"; Just "|";
                           Just "5"; Just "|"; Just "6"; Just "|"; Just "7";
                           Just "|"; Just "8"; Just "|"; Just "9"]])
              (seq (Chr "1")
                 [Chr "8";
                  Among [Just "0"; Just "|"; Just "1"; Just "|"; Just "2";
                         Just "|"; Just "3"; Just "|"; Just "5"; Just "|";
                         Just "6"; Just "|"; Just "7"; Just "|"; Just "8";
                         Just "|"; Just "9"]])));
      Times 8 d; Eol ]%char.

(** [/[a-zA-z]+:\/\/[^\s]*/] *)
Definition url : regex :=
  seq (Plus (Among [span "a" "z"; span "A" "z"]))
    [ Chr ":"; Chr "/"; Chr "/"; Star (Except [Esc Space]) ]%char.

(** [/^((\d{3,4}-)|\d{3.4}-)?\d{7,8}$/]; [{3.4}] is no quantifier, so these
    five characters stand for themselves, the dot for any character. *)
Definition tel : regex :=
  seq Bol
    [ Opt (Alt (Cat (Rep d 3 (Some 4%nat)) (Chr "-"))
             (seq d [Chr "{"; Chr "3"; Any; Chr "4"; Chr "}"; Chr "-"]));
      Rep d 7 (Some 8%nat); Eol ]%char.

(** [/^[\u4e00-\u9fa5]{0,}$/] *)
Definition chinese : regex :=
  seq Bol [ Rep (Among [Span 19968 40869]) 0 None; Eol ].

(** [/(^\d{15}$)|(^\d{18}$)|(^\d{17}(\d|X|x)$)/] *)
Definition idCard : regex :=
  Alt (seq Bol [Times 15 d; Eol])
    (Alt (seq Bol [Times 18 d; Eol])
       (seq Bol [Times 17 d; Alt d (Alt (Chr "X") (Chr "x")); Eol]))%char.

(** [((2(5[0-5]|[0-4]\d))|[0-1]?\d{1,2})] *)
Definition ip_part : regex :=
  Alt (Cat (Chr "2")
         (Alt (Cat (Chr "5") (Among [span "0" "5"]))
            (Cat (Among [span "0" "4"]) d)))
    (Cat (Opt (Among [span "0" "1"])) (Rep d 1 (Some 2%nat)))%char.

(** [/((2(5[0-5]|[0-4]\d))|[0-1]?\d{1,2})(\.((2(5[0-5]|[0-4]\d))|[0-1]?\d{1,2})){3}/] *)
Definition ip : regex :=
  Cat ip_part (Times 3 (Cat (Chr ".") ip_part))%char.

(** [/[1-9]\d{5}(?!\d)/] *)
Definition postalCode : regex :=
  seq (Among [span "1" "9"]) [ Times 5 d; NotAhead d ]%char.

(** *** The predicates *)

(** [ToString] of a primitive; on an object it runs the conversion of the
    object, which is outside this development. *)
Definition ToString (v : value) : option string :=
  match v with
  | VUndefined => Some "undefined"
  | VNull => Some "null"
  | VBool b => Some (if b then "true" else "false")
  | VNum n => Some (number_to_string n)
  | VStr s => Some s
  | _ => None
  end.

(** [pattern.test(value)]: the value is converted to a string first. *)
Definition tested (pattern : regex) (value : value) : option bool :=
  test pattern <$> ToString value.

Definition isUrl (value : value) : bool :=
  match value with
  | VStr s => (String.length s <=? 2048)%nat && test url s
  | _ => false
  end.

Definition isPhone (value : value) : option bool := tested phone value.
Definition isTel (value : value) : option bool := tested tel value.
Definition isEmail (value : value) : option bool := tested email value.
Definition isChinese (value : value) : option bool := tested chinese value.
Definition isIdCard (value : value) : option bool := tested idCard value.
Definition isIp (value : value) : option bool := tested ip value.
Definition isPostalCode (value : value) : option bool := tested postalCode value.

(** *** Vocabulary *)

(** Every character of [s] satisfies [p]. *)
Fixpoint every (p : N -> bool) (s : string) : bool :=
  match s with
  | EmptyString => true
  | String c r => p (code c) && every p r
  end.

(** [c] is a decimal digit. *)
Definition digit (c : ascii) : bool := is_digit (code c).

(** One to three digits that spell a number up to 255. *)
Definition octet (s : string) : bool :=
  Digits.all_digits s
  && (1 <=? String.length s)%nat && (String.length s <=? 3)%nat
  && (Digits.value_from s 0 <=? 255)%N.

(** [c] is one of the characters of [s]. *)
Fixpoint one_of (c : ascii) (s : string) : bool :=
  match s with
  | EmptyString => false
  | String x r => Ascii.eqb c x || one_of c r
  end.

(** Words joined by single separators, read from the left; [after_word]
    says that the character before was a word character. *)
Fixpoint joined (seps : string) (after_word : bool) (s : string) : bool :=
  match s with
  | EmptyString => after_word
  | String c r =>
      if is_word (code c) then joined seps true r
      else if one_of c seps && after_word then joined seps false r
      else false
  end.

(** [s] is made of word characters (letters, digits, "_") and of the
    separators [seps], starts and ends with a word character and has no two
    separators in a row. *)
Definition words (seps : string) (s : string) : bool := joined seps false s.

(** The flag of a state that has [pre] behind it. *)
Definition at_start (pre : string) : bool :=
  match pre with
  | EmptyString => true
  | String _ _ => false
  end.

End Pattern.

(** ** Own properties and inherited ones *)

(** A plain object inherits from [Object.prototype], and [o[key]] finds a
    member of it when [o] has no property of its own under that name.
    [lookup_prop] sees own properties only; [read] says where that is the
    whole answer. *)
Module Own.
Import Js Config.

(** The property names of [Object.prototype]. *)
Definition inherited_names : list string :=
  [ "constructor"; "hasOwnProperty"; "isPrototypeOf"; "propertyIsEnumerable";
    "toLocaleString"; "toString"; "valueOf"; "__proto__";
    "__defineGetter__"; "__defineSetter__";
    "__lookupGetter__"; "__lookupSetter__" ].

Definition inherited (key : string) : bool :=
  existsb (String.eqb key) inherited_names.

(** [Object.prototype.hasOwnProperty.call(o, key)] *)
Fixpoint has (key : string) (props : list (string * value)) : bool :=
  match props with
  | [] => false
  | (k, _) :: rest => String.eqb k key || has key rest
  end.

(** [o[key]] on the plain object with the own properties [props]: the own
    property; without one, [undefined] when [Object.prototype] has no such
    member either, and [None] when it has: the value is then a built-in
    that this development does not describe. *)
Definition read (props : list (string * value)) (key : string) : option value :=
  if has key props then Some (lookup_prop key props)
  else if inherited key then None
  else Some VUndefined.

(** A value that is not an object: [ToString] and [ToNumber] are computed
    from it alone, they call nothing of the caller's and do not throw. *)
Definition primitive (v : value) : bool :=
  match v with
  | VUndefined | VNull | VBool _ | VNum _ | VStr _ => true
  | _ => false
  end.

(** A rule whose [pattern] is not a regular expression: [test] is not
    called, so that no [lastIndex] is read or written. *)
Definition no_regexp (rule : RuleItem) : bool :=
  negb (Statics.isRegexp (pattern rule)).

End Own.

(** ** The tasks of [validate], turn by turn *)

(** [validate] calls [validateField] for each key of [_rules], one call
    after the other; each call runs the body of its promise up to the first
    [await] and returns.  The tasks then take turns: a turn takes one task
    from the [await] where it waits to its next [await], or to its end.
    Which task moves next is the engine's choice, a [schedule] here; the
    keys come in the order [Object.keys] gives them, a list here. *)
Module Turns.
Import Js Config Run Statics.
Local Open Scope run_scope.

(** A task: it waits at an [await], with what it needs to go on; or its
    promise has settled; or it never will ([Settled Pending]). *)
Inductive task (St R : Type) : Type :=
| Waiting (s : St)
| Settled (p : promise R).
Arguments Waiting {St R} s.
Arguments Settled {St R} p.

Definition waits {St R} (t : task St R) : bool :=
  match t with Waiting _ => true | Settled _ => false end.

(** The promise of a task as it stands. *)
Definition promise_of {St R} (t : task St R) : promise R :=
  match t with Settled p => p | Waiting _ => Pending end.

(** A stretch of the body of [new Promise(async (resolve, reject) => ...)]:
    an exception in it, or an await that never returns, leaves the promise
    pending for good. *)
Definition executor {U St R} (body : M U (task St R))
  : world U -> task St R * world U :=
  fun w =>
    match body w with
    | (Ok t, w') => (t, w')
    | (_, w') => (Settled Pending, w')
    end.

(** *** The two loops of [validateField], from await to await *)

Section Loop.
Context {U R L : Type}.

Definition check : Type := RuleItem -> value -> string -> M U StepRes.

(** The task waits at [await validator(rule, currentTransform(form[field]),
    field)]: the call is made, [awaited] is what it gives; [todo] is the
    rest of the chain, [later] the rules that follow, [locals] what the body
    computed before its loops. *)
Record stage : Type := mkStage {
  locals : L;
  rule : RuleItem;
  todo : list check;
  later : list RuleItem;
  awaited : StepRes
}.

Variables (chain : list check) (field : string).
(** [currentTransform(form[field])] *)
Variable argument : L -> M U value.
(** The lines after the [await]: [Some err] when they end in
    [return reject(err)], [None] when the loop goes on. *)
Variable verdict : RuleItem -> StepRes -> M U (option R).

(** The head of [for (const validator of chain)]: the next check is called
    and awaited; when the chain is through, the outer loop goes on. *)
Definition step (l : L) (rule : RuleItem) (todo : list check)
    (later : list RuleItem) (next : M U (task stage R)) : M U (task stage R) :=
  match todo with
  | validator :: rest =>
      arg <- argument l ;;
      validateRes <- validator rule arg field ;;
      ret (Waiting (mkStage l rule rest later validateRes))
  | [] => next
  end.

(** The head of [for (const rule of currentRules)], then [resolve()]. *)
Fixpoint rules_from (l : L) (currentRules : list RuleItem) : M U (task stage R) :=
  match currentRules with
  | [] => ret (Settled Resolved)
  | rule :: later => step l rule chain later (rules_from l later)
  end.

(** A turn of the task: from its await to the next one. *)
Definition resume (s : stage) : M U (task stage R) :=
  r <- verdict (rule s) (awaited s) ;;
  match r with
  | Some err => ret (Settled (Rejected err))
  | None => step (locals s) (rule s) (todo s) (later s)
                 (rules_from (locals s) (later s))
  end.

(** The turns a task still has at most. *)
Definition size (s : stage) : nat :=
  (length (todo s) + length chain * length (later s))%nat.
End Loop.

Arguments stage : clear implicits.

(** *** The tasks together *)

Section Pool.
Context {U St R : Type}.
(** [validateField(field, form)] up to its [return]: the task it leaves,
    or [Raise e] when the call throws. *)
Variable start_task : string -> M U (task St R).
(** A turn of the task of a field. *)
Variable resume : string -> St -> M U (task St R).

(** [fields.map(field => this.validateField(field, form))] *)
Fixpoint start (fields : list string) : M U (list (string * task St R)) :=
  match fields with
  | [] => ret []
  | field :: rest =>
      t <- start_task field ;;
      ts <- start rest ;;
      ret ((field, t) :: ts)
  end.

(** The task at position [i] takes a turn, if it waits. *)
Definition turn (i : nat) (ps : list (string * task St R))
  : world U -> list (string * task St R) * world U :=
  fun w =>
    match ps !! i with
    | Some (field, Waiting s) =>
        let '(t, w') := executor (resume field s) w in
        (<[i := (field, t)]> ps, w')
    | _ => (ps, w)
    end.

Fixpoint turns (schedule : list nat) (ps : list (string * task St R))
    (w : world U) : list (string * task St R) * world U :=
  match schedule with
  | [] => (ps, w)
  | i :: rest => let '(ps', w') := turn i ps w in turns rest ps' w'
  end.

(** No task waits any more. *)
Definition done (ps : list (string * task St R)) : bool :=
  forallb (fun ft => negb (waits ft.2)) ps.

(** The fields with the promises of their tasks. *)
Definition results (ps : list (string * task St R))
  : list (string * promise R) :=
  (fun ft => (ft.1, promise_of ft.2)) <$> ps.

(** [validate(form)] when [Object.keys(_rules)] is [fields] and the tasks
    move as [schedule] says: the guard, the tasks, their turns, then the
    join.  The join is final once no task waits. *)
Definition validate (form : value)
    (errorsMap : list R -> gmap string RuleItem)
    (fields : list string) (schedule : list nat)
  : world U -> outcome (gmap string RuleItem) * world U :=
  fun w =>
    if negb (isObject form) then
      (Threw (mkError 0 "Form parameter is not an object"), w)
    else
      match start fields w with
      | (Ok ps, w1) =>
          let '(ps', w2) := turns schedule ps w1 in
          (Returned (Aggregate.join errorsMap (results ps').*2), w2)
      | (Raise e, w1) => (Threw e, w1)
      | (Suspended, w1) => (Returned Pending, w1)
      end.

(** The turns the tasks can still take at most, when a waiting task has
    at most [size] turns after the next one. *)
Fixpoint turns_left (size : St -> nat) (ps : list (string * task St R)) : nat :=
  match ps with
  | [] => 0
  | (_, Waiting s) :: rest => S (size s + turns_left size rest)
  | (_, Settled _) :: rest => turns_left size rest
  end.

(** No task waits after the turns of [schedule]: the join is final. *)
Definition final (fields : list string) (schedule : list nat) (w : world U)
  : bool :=
  match start fields w with
  | (Ok ps, w1) => done (turns schedule ps w1).1
  | _ => true
  end.

(** A task on its own: [n] turns in a row. *)
Fixpoint finish (n : nat) (field : string) (t : task St R) (w : world U)
  : task St R * world U :=
  match n, t with
  | S n', Waiting s =>
      let '(t', w') := executor (resume field s) w in finish n' field t' w'
  | _, _ => (t, w)
  end.

(** [validateField(field, form)] and [n] turns of its task. *)
Definition alone (n : nat) (field : string) : world U -> outcome R * world U :=
  fun w =>
    match start_task field w with
    | (Ok t, w1) =>
        let '(t', w2) := finish n field t w1 in (Returned (promise_of t'), w2)
    | (Raise e, w1) => (Threw e, w1)
    | (Suspended, w1) => (Returned Pending, w1)
    end.
End Pool.

(** *** validator-ts.ts *)

Section TS.
Context {U : Type} (E : Env U) (V : TS.Validator) (form : value)
        (fieldWrap : bool).

(** The lines of the inner loop after the [await]. *)
Definition ts_verdict (field : string) (rule : RuleItem) (validateRes : StepRes)
  : M U (option ErrRes) :=
  let '(pass, errMsg) :=
    match validateRes with
    | RObj pass message => (pass, message)
    | RBool b => (b, VStr "")
    end in
  if negb pass then
    let message := if truthy errMsg then errMsg else message rule in
    TS.notify E V message ;;;
    ret (Some (TS.reason field fieldWrap (with_message rule message)))
  else ret None.

Definition ts_stage : Type := stage U unit.

Definition ts_resume (field : string) (s : ts_stage) : M U (task ts_stage ErrRes) :=
  resume (TS.chain E) field (fun _ => TS.argument E V field form)
         (ts_verdict field) s.

(** [validateField(field, form, fieldWrap)] up to its [return]. *)
Definition ts_start (field : string) : M U (task ts_stage ErrRes) :=
  fun w =>
    if negb (isObject form) then
      (Raise (mkError 0 "Form parameter is not an object"), w)
    else
      match TS._rules V !! field with
      | None => (Ok (Settled Resolved), w)
      | Some currentRules =>
          let '(t, w') :=
            executor (rules_from (TS.chain E) field
                        (fun _ => TS.argument E V field form) tt currentRules) w in
          (Ok t, w')
      end.
End TS.

(** [validate(form)] of validator-ts.ts: the tasks are started with
    [fieldWrap] set. *)
Definition ts_validate {U} (E : Env U) (V : TS.Validator) (form : value)
    (fields : list string) (schedule : list nat)
  : world U -> outcome (gmap string RuleItem) * world U :=
  validate (ts_start E V form) (ts_resume E V form true) form
           TS.errorsMap fields schedule.

(** *** validator-2.0.0.js *)

Section V2.
Context {U : Type} (E : Env U) (V : V2.Validator) (form : value).

Definition v2_verdict (field : string) (rule : RuleItem) (validateRes : StepRes)
  : M U (option V2.Failure) :=
  let '(pass, errMsg) :=
    match validateRes with
    | RObj pass message => (pass, message)
    | RBool b => (b, VUndefined)
    end in
  if negb pass then
    ret (Some (field,
               with_message rule (if truthy errMsg then errMsg else message rule)))
  else ret None.

(** The body keeps [_transform[field]], read once, in [locals]. *)
Definition v2_stage : Type := stage U value.

Definition v2_argument (field : string) (configured : value) : M U value :=
  raw <- get_prop form field ;;
  V2.currentTransform E configured raw.

Definition v2_resume (field : string) (s : v2_stage)
  : M U (task v2_stage V2.Failure) :=
  resume (V2.chain E) field (v2_argument field) (v2_verdict field) s.

(** [validateField(field, form)] up to its [return]. *)
Definition v2_start (field : string) : M U (task v2_stage V2.Failure) :=
  fun w =>
    if negb (isObject form) then
      (Raise (mkError 0 "Form parameter is not an object"), w)
    else
      match V2._rules V !! field with
      | None => (Ok (Settled Resolved), w)
      | Some currentRules =>
          let '(t, w') :=
            executor (configured <- V2.lookup_transform V field ;;
                      rules_from (V2.chain E) field (v2_argument field)
                                 configured currentRules) w in
          (Ok t, w')
      end.
End V2.

Definition v2_validate {U} (E : Env U) (V : V2.Validator) (form : value)
    (fields : list string) (schedule : list nat)
  : world U -> outcome (gmap string RuleItem) * world U :=
  validate (v2_start E V form) (v2_resume E form) form
           V2.errorsMap fields schedule.

(** *** validator-1.0.0.js *)

(** 1.0.0 has one [await], that of the promise its custom validator
    returned: everything else in the loop runs in one stretch. *)
Section V1.
Context {U : Type} (E : Env U) (V : V1.Validator) (form : value).

(** The task waits at [await validRes] in the [try] block of [rule]. *)
Record v1_stage : Type := mkV1Stage {
  v1_rule : RuleItem;
  v1_later : list RuleItem;
  validRes : value
}.

Definition v1_position (s : v1_stage) : RuleItem * list RuleItem :=
  (v1_rule s, v1_later s).

(** The [try] block up to its [await]: [inl validRes] when it gets there;
    else what the block or the [catch] block ended with, [Some err] for
    [return reject(err)]. *)
Definition v1_try (field : string) (rule : RuleItem)
  : M U (value + option V1.Failure) :=
  try_catch
    (value <- get_prop form field ;;
     validRes <- call E AtValidator (validator rule) ThisUndefined [value] ;;
     match validRes with
     | VPromise _ _ => ret (inl validRes)
     | _ => if negb (truthy validRes) then ret (inr (Some (field, rule)))
            else ret (inr None)
     end)
    (fun err => r <- V1.catch_block field rule err ;; ret (inr r)).

(** The loop from the head of its body on the first of [currentRules], up
    to an [await] or to its end. *)
Fixpoint v1_rules (field : string) (currentRules : list RuleItem)
  : M U (task v1_stage V1.Failure) :=
  match currentRules with
  | [] => ret (Settled Resolved)
  | rule :: later =>
      r <- V1.and_then (V1.check_required field form rule)
             (V1.and_then (V1.check_type E field form rule)
                          (V1.check_pattern E field form rule)) ;;
      match r with
      | Some err => ret (Settled (Rejected err))
      | None =>
          let validator := validator rule in
          if truthy validator then
            if isFunction validator then
              x <- v1_try field rule ;;
              match x with
              | inl validRes => ret (Waiting (mkV1Stage rule later validRes))
              | inr (Some err) => ret (Settled (Rejected err))
              | inr None => v1_rules field later
              end
            else
              warn ("There is a validator in field " +:+ field
                    +:+ " that is not of type function") ;;;
              v1_rules field later
          else v1_rules field later
      end
  end.

(** A turn: the [await] returns or throws inside the [try] block, then the
    loop goes on. *)
Definition v1_resume (field : string) (s : v1_stage)
  : M U (task v1_stage V1.Failure) :=
  r <- try_catch (await (validRes s) ;;; ret None)
                 (V1.catch_block field (v1_rule s)) ;;
  match r with
  | Some err => ret (Settled (Rejected err))
  | None => v1_rules field (v1_later s)
  end.

(** [validateField(field, form)] up to its [return]. *)
Definition v1_start (field : string) : M U (task v1_stage V1.Failure) :=
  fun w =>
    if negb (isObject form) then
      (Raise (mkError 0 "Form parameter is not an object"), w)
    else
      match V1._rules V !! field with
      | None => (Ok (Settled Resolved), w)
      | Some currentRules =>
          let '(t, w') := executor (v1_rules field currentRules) w in
          (Ok t, w')
      end.

Definition v1_size (s : v1_stage) : nat := length (v1_later s).
End V1.

Definition v1_validate {U} (E : Env U) (V : V1.Validator) (form : value)
    (fields : list string) (schedule : list nat)
  : world U -> outcome (gmap string RuleItem) * world U :=
  validate (v1_start E V form) (v1_resume E form) form
           V1.errorsMap fields schedule.

(** *** Vocabulary *)

(** [fields] is what [Object.keys] can give for a map: each key once. *)
Definition lists_keys {A} (fields : list string) (o : gmap string A) : Prop :=
  NoDup fields /\ forall field, field ∈ fields <-> is_Some (o !! field).

(** Whether the result of a check is a pass, and the message it carries
    ([none] when it is a boolean). *)
Definition passes (validateRes : StepRes) : bool :=
  match validateRes with
  | RObj pass _ => pass
  | RBool b => b
  end.

Definition said (none : value) (validateRes : StepRes) : value :=
  match validateRes with
  | RObj _ message => message
  | RBool _ => none
  end.

(** The rest of the chain of a rule, then the rules after it, run in one
    go by the loops [run_chain] and [run_rules] of [validateField]. *)
Definition rest_of {U R}
    (run_chain : RuleItem -> list (check (U:=U)) -> M U (option R))
    (run_rules : list RuleItem -> M U (promise R))
    (rule : RuleItem) (todo : list (check (U:=U))) (later : list RuleItem)
  : M U (promise R) :=
  r <- run_chain rule todo ;;
  match r with
  | Some err => ret (Rejected err)
  | None => run_rules later
  end.

(** Where a task of [field] stands among the [currentRules] of the field:
    while it waits, at a rule of the list, with the rules after it to come
    ([position] reads both off its state); when it rejected, the rejection
    is that of a rule of the list, under some message. *)
Definition placed {St R} (position : St -> RuleItem * list RuleItem)
    (rule_of : R -> option (string * RuleItem))
    (field : string) (currentRules : list RuleItem)
    (t : task St R) : Prop :=
  match t with
  | Waiting s =>
      exists passed, currentRules = passed ++ (position s).1 :: (position s).2
  | Settled (Rejected err) =>
      exists passed rule later msg,
        currentRules = passed ++ rule :: later
        /\ rule_of err = Some (field, with_message rule msg)
  | Settled _ => True
  end.

Definition stage_position {U L} (s : stage U L) : RuleItem * list RuleItem :=
  (rule s, later s).

(** What holds of the task of [field] all along: it is placed among the
    rules of the field; a field without rules has a task that resolved at
    once. *)
Definition stands {St R} (position : St -> RuleItem * list RuleItem)
    (rule_of : R -> option (string * RuleItem))
    (rules : gmap string (list RuleItem)) (field : string)
    (t : task St R) : Prop :=
  match rules !! field with
  | Some currentRules => placed position rule_of field currentRules t
  | None => t = Settled Resolved
  end.

(** What [validate] makes of its tasks.  [validate] is [run], its tasks
    are started by [start_task] and move by [resume].  Every field of
    [order] gets its task, whatever the tasks before it did.  Whatever the
    turns, the tasks stay those of [order], [keeps] holds of each, and the
    promise of [validate] follows from theirs as [Obs.aggregates] says:
    resolved when all resolved, pending while one has not settled, else
    rejected with exactly the entries of the rejected tasks.  From wherever
    the turns have led, more turns leave no task waiting, and from then on
    nothing moves. *)
Definition gathers {U St R}
    (start_task : string -> M U (task St R))
    (resume : string -> St -> M U (task St R))
    (run : list string -> list nat ->
           world U -> outcome (gmap string RuleItem) * world U)
    (entry : R -> option (string * RuleItem))
    (keeps : string -> task St R -> Prop)
    (order : list string) (w : world U) : Prop :=
  exists ps w1,
    start start_task order w = (Ok ps, w1)
    /\ ps.*1 = order
    /\ forall schedule, exists ps' w2 p,
         turns resume schedule ps w1 = (ps', w2)
         /\ ps'.*1 = order
         /\ Forall (fun ft => keeps ft.1 ft.2) ps'
         /\ run order schedule w = (Returned p, w2)
         /\ Obs.aggregates entry (results ps') p
         /\ (exists more, done (turns resume more ps' w2).1 = true)
         /\ (done ps' = true ->
             forall more, turns resume more ps' w2 = (ps', w2)).

End Turns.

(** ** What [validate] reports *)

Module Report.
Import Js Config Run.

(** The entry of [field] in the map [validate] rejected with. *)
Definition entry_of {U} (r : outcome (gmap string RuleItem) * world U)
    (field : string) : option RuleItem :=
  match fst r with
  | Returned (Rejected errorsMap) => errorsMap !! field
  | _ => None
  end.

(** The number of entries of that map. *)
Definition entries {U} (r : outcome (gmap string RuleItem) * world U) : nat :=
  match fst r with
  | Returned (Rejected errorsMap) => size errorsMap
  | _ => 0
  end.

End Report.

(** ** Callbacks that share a counter *)

Module Shared.
Import Js Config Run.

(** Callbacks over the counter [n] of the caller's state: 0 is
    [() => ++n !== 2]; 1 is
    [() => ++n === 2 ? Promise.reject("late") : Promise.resolve()]. *)
Definition env : Env nat := {|
  fn_call := fun f _ _ n =>
    match f with
    | 0%nat => (Returns (VBool (negb (S n =? 2)%nat)), S n)
    | 1%nat =>
        (Returns (VPromise (S n)
                    (if (S n =? 2)%nat then PRejected (VStr "late")
                     else PFulfilled VUndefined)), S n)
    | _ => (Returns VUndefined, n)
    end;
  fn_length := fun _ => 0%nat;
  regexp_test := fun _ _ => false;
  to_number := fun _ => NaN |}.

Definition start : world nat := mkWorld 0%nat [].

(** [{ validator: f0, message: msg }] *)
Definition counting (msg : string) : RuleItem :=
  mkRule VUndefined VUndefined VUndefined (VFun 0) VUndefined
         VUndefined VUndefined (VStr msg).

(** [new Validator({ rules: { a: [a1, a2], b: b1 } })], TypeScript. *)
Definition ts_pair : TS.Validator :=
  TS.constructor
    (TS.mkConfig {[ "a" := TS.Many [counting "a1"; counting "a2"];
                    "b" := TS.One (counting "b1") ]} None None).

(** [new Validator({ rules: { a: [a1, a2], b: b1 }, transform: {} })],
    2.0.0. *)
Definition v2_pair : V2.Validator :=
  V2.constructor
    (V2.mkConfig {[ "a" := V2.Many [counting "a1"; counting "a2"];
                    "b" := V2.One (counting "b1") ]} (Some [])).

(** [new Validator({ a: [a1, a2], b: b1 })], 1.0.0. *)
Definition v1_pair : V1.Validator :=
  V1.constructor
    {[ "a" := V1.Many [counting "a1"; counting "a2"];
       "b" := V1.One (counting "b1") ]}.

(** [{ validator: f1, message: msg }] *)
Definition awaiting (msg : string) : RuleItem :=
  mkRule VUndefined VUndefined VUndefined (VFun 1) VUndefined
         VUndefined VUndefined (VStr msg).

(** [new Validator({ a: [a1, a2], b: b1 })] with the rules of [awaiting],
    1.0.0. *)
Definition v1_waiting : V1.Validator :=
  V1.constructor
    {[ "a" := V1.Many [awaiting "a1"; awaiting "a2"];
       "b" := V1.One (awaiting "b1") ]}.

(** [{ a: "x", b: "y" }] *)
Definition form : value := VObj 1 [("a", VStr "x"); ("b", VStr "y")].

(** Two tasks that move in turn, the first one first, [n] times. *)
Definition in_turn (n : nat) : list nat := concat (replicate n [0; 1]%nat).

(** The first task takes [n] turns, then the second one does. *)
Definition one_by_one (n : nat) : list nat :=
  replicate n 0%nat ++ replicate n 1%nat.

End Shared.

(** * Properties *)

(** ** The effect monad *)

Section MonadFacts.
Import Js Config Run Obs.
Context {U : Type} (E : Env U).

Lemma bind_ok {A B} (m : M U A) (k : A -> M U B) w a w' :
  m w = (Ok a, w') -> bind m k w = k a w'.
Proof. intros H. unfold bind. now rewrite H. Qed.

Lemma bind_raise {A B} (m : M U A) (k : A -> M U B) w e w' :
  m w = (Raise e, w') -> bind m k w = (Raise e, w').
Proof. intros H. unfold bind. now rewrite H. Qed.

Lemma bind_suspended {A B} (m : M U A) (k : A -> M U B) w w' :
  m w = (Suspended, w') -> bind m k w = (Suspended, w').
Proof. intros H. unfold bind. now rewrite H. Qed.

Lemma call_fun at_ f this args (w : world U) :
  call E at_ (VFun f) this args w
  = match fn_call E f this args (ust w) with
    | (Returns v, u) => (Ok v, mkWorld u (trace w ++ [EvCall at_ f args]))
    | (Throws e, u) => (Raise e, mkWorld u (trace w ++ [EvCall at_ f args]))
    end.
Proof.
  unfold call, bind, emit. cbn [ust trace].
  destruct (fn_call E f this args (ust w)) as [[v|e] u]; reflexivity.
Qed.

(** *** What a computation appends to the trace *)

Lemma emits_ret {A} P (a : A) : emits (U:=U) P (ret a).
Proof. intros w. exists []. simpl. now rewrite app_nil_r. Qed.

Lemma emits_raise {A} P e : emits (U:=U) (A:=A) P (raise e).
Proof. intros w. exists []. simpl. now rewrite app_nil_r. Qed.

Lemma emits_suspend {A} P : emits (U:=U) (A:=A) P suspend.
Proof. intros w. exists []. simpl. now rewrite app_nil_r. Qed.

Lemma emits_emit P e : P e -> emits (U:=U) P (emit e).
Proof. intros He w. exists [e]. simpl. split; [reflexivity|]. now constructor. Qed.

Lemma emits_bind {A B} P (m : M U A) (k : A -> M U B) :
  emits P m -> (forall a, emits P (k a)) -> emits P (bind m k).
Proof.
  intros Hm Hk w. destruct (Hm w) as (evs1 & Ht1 & Hall1).
  unfold bind. destruct (m w) as [[a|e|] w1] eqn:Hmw; simpl in *.
  - destruct (Hk a w1) as (evs2 & Ht2 & Hall2).
    exists (evs1 ++ evs2). rewrite Ht2, Ht1, app_assoc. split; [reflexivity|].
    now apply Forall_app.
  - now exists evs1.
  - now exists evs1.
Qed.

Lemma emits_call P at_ f this args :
  (forall id, f = VFun id -> P (EvCall at_ id args)) ->
  emits P (call E at_ f this args).
Proof.
  intros HP. destruct f; try apply emits_raise.
  intros w. exists [EvCall at_ f args]. unfold call, bind, emit. simpl.
  destruct (fn_call E f this args (ust w)) as [[v|e] u]; simpl;
    (split; [reflexivity | constructor; [now apply HP | constructor]]).
Qed.

Lemma emits_await P v : emits (U:=U) P (await v).
Proof.
  destruct v; try apply emits_ret.
  destruct st; [apply emits_ret | apply emits_raise | apply emits_suspend].
Qed.

Lemma emits_try_catch {A} P (body : M U A) handler :
  emits P body -> (forall e, emits P (handler e)) ->
  emits P (try_catch body handler).
Proof.
  intros Hb Hh w. destruct (Hb w) as (evs1 & Ht1 & Hall1).
  unfold try_catch. destruct (body w) as [[a|e|] w1] eqn:Hbw; simpl in *.
  - now exists evs1.
  - destruct (Hh e w1) as (evs2 & Ht2 & Hall2).
    exists (evs1 ++ evs2). rewrite Ht2, Ht1, app_assoc. split; [reflexivity|].
    now apply Forall_app.
  - now exists evs1.
Qed.

Lemma emits_get_prop P v key : emits P (get_prop (U:=U) v key).
Proof. destruct v; first [apply emits_ret | apply emits_raise]. Qed.

Lemma emits_get_length P v : emits P (get_length E v).
Proof. destruct v; first [apply emits_ret | apply emits_raise]. Qed.

(** *** Independence of the trace *)

Lemma respects_ret {A} (a : A) : respects (U:=U) (ret a).
Proof. intros w1 w2 H. now split. Qed.

Lemma respects_raise {A} e : respects (U:=U) (A:=A) (raise e).
Proof. intros w1 w2 H. now split. Qed.

Lemma respects_suspend {A} : respects (U:=U) (A:=A) suspend.
Proof. intros w1 w2 H. now split. Qed.

Lemma respects_emit e : respects (U:=U) (emit e).
Proof. intros w1 w2 H. now split. Qed.

Lemma respects_bind {A B} (m : M U A) (k : A -> M U B) :
  respects m -> (forall a, respects (k a)) -> respects (bind m k).
Proof.
  intros Hm Hk w1 w2 H. destruct (Hm w1 w2 H) as [Hr Hu].
  unfold bind.
  destruct (m w1) as [r1 w1'], (m w2) as [r2 w2']. simpl in *. subst r2.
  destruct r1 as [a|e|]; simpl; auto. now apply Hk.
Qed.

Lemma respects_call at_ f this args : respects (call E at_ f this args).
Proof.
  destruct f; try apply respects_raise.
  intros w1 w2 H. unfold call, bind, emit. simpl. rewrite H.
  destruct (fn_call E f this args (ust w2)) as [[v|e] u]; now split.
Qed.

Lemma respects_await v : respects (U:=U) (await v).
Proof.
  destruct v; try apply respects_ret.
  destruct st; [apply respects_ret | apply respects_raise | apply respects_suspend].
Qed.

Lemma respects_try_catch {A} (body : M U A) handler :
  respects body -> (forall e, respects (handler e)) ->
  respects (try_catch body handler).
Proof.
  intros Hb Hh w1 w2 H. destruct (Hb w1 w2 H) as [Hr Hu].
  unfold try_catch.
  destruct (body w1) as [r1 w1'], (body w2) as [r2 w2']. simpl in *. subst r2.
  destruct r1 as [a|e|]; simpl; auto. now apply Hh.
Qed.

Lemma respects_get_prop v key : respects (get_prop (U:=U) v key).
Proof. destruct v; first [apply respects_ret | apply respects_raise]. Qed.

Lemma respects_get_length v : respects (get_length E v).
Proof. destruct v; first [apply respects_ret | apply respects_raise]. Qed.
End MonadFacts.

Create HintDb run.

#[local] Hint Resolve emits_ret emits_raise emits_suspend emits_await
  emits_get_prop emits_get_length respects_ret respects_raise respects_suspend
  respects_emit respects_call respects_await respects_get_prop
  respects_get_length : run.

(** Splits a computation along its binds, tests and matches. *)
Ltac run_split lem_bind lem_try :=
  repeat first
    [ progress cbv zeta
    | solve [auto with run]
    | apply lem_bind; [| intros ]
    | apply lem_try; [| intros ]
    | match goal with
      | |- context [if ?b then _ else _] => destruct b
      | |- context [match ?x with _ => _ end] => destruct x
      end ].

(** ** The chain methods of validator-ts.ts *)

Section TSMethods.
Import Js Config Run Statics Obs.
Context {U : Type} (E : Env U).
Local Open Scope run_scope.

Lemma shape_after_entry {A} (e : event) (body : M U A) :
  emits inner body ->
  forall w, exists evs,
    trace (snd (bind (emit e) (fun _ => body) w)) = trace w ++ e :: evs
    /\ Forall inner evs.
Proof.
  intros Hb w. unfold bind, emit.
  destruct (Hb (mkWorld (ust w) (trace w ++ [e]))) as (evs & Ht & Hall).
  exists evs. split; [|exact Hall].
  rewrite Ht. simpl. now rewrite <- app_assoc.
Qed.

Lemma emits_static_method name fn v :
  TS.static_method E name = Some fn -> emits inner (fn v).
Proof.
  unfold TS.static_method.
  repeat (destruct (String.eqb name _);
          [intros [= <-]; try apply emits_ret |]); [|discriminate].
  unfold isDate.
  run_split (@emits_bind U) (@emits_try_catch U).
  apply emits_call. intros; exact I.
Qed.

Lemma ts_required_shape : method_shape Required (TS._validateRequired (U:=U)).
Proof.
  intros rule v field w. apply shape_after_entry.
  run_split (@emits_bind U) (@emits_try_catch U).
Qed.

Lemma ts_type_shape : method_shape Type_ (TS._validateType E).
Proof.
  intros rule v field w. apply shape_after_entry.
  destruct (isEmpty v); [apply emits_ret|].
  cbv zeta. destruct (truthy _); [|apply emits_ret].
  destruct (oneOf _ _).
  - apply emits_bind.
    + unfold capitalize. destruct (type rule); auto with run.
    + intros name. destruct (TS.static_method E _) eqn:Hs; [|apply emits_raise].
      apply emits_bind; [|intros; apply emits_ret].
      eapply emits_static_method; eauto.
  - apply emits_bind; [|intros; apply emits_ret].
    apply emits_emit. exact I.
Qed.

Lemma ts_pattern_shape : method_shape Pattern (TS._validatePattern E).
Proof.
  intros rule v field w. apply shape_after_entry.
  destruct (isEmpty v); [apply emits_ret|].
  cbv zeta. destruct (truthy _); [|apply emits_ret].
  destruct (pattern rule); try apply emits_ret;
    (apply emits_bind; [apply emits_emit; exact I | intros; apply emits_ret]).
Qed.

Lemma emits_length_bound (bound : value) (cmp : value -> value -> bool)
    text v :
  emits inner
    (if truthy bound then
       if isInteger E bound && js_gt E bound (VNum (num_of_nat 0)) then
         len <- get_length E v ;; ret (RBool (cmp len bound))
       else warn text ;;; ret (RBool true)
     else ret (RBool true)).
Proof.
  destruct (truthy bound); [|apply emits_ret].
  destruct (_ && _).
  - apply emits_bind; [apply emits_get_length | intros; apply emits_ret].
  - apply emits_bind; [apply emits_emit; exact I | intros; apply emits_ret].
Qed.

Lemma ts_maxlen_shape : method_shape Maxlen (TS._validateMaxlen E).
Proof.
  intros rule v field w. apply shape_after_entry.
  destruct (isEmpty v); [apply emits_ret|].
  apply (emits_length_bound (maxlength rule) (js_le E)).
Qed.

Lemma ts_minlen_shape : method_shape Minlen (TS._validateMinlen E).
Proof.
  intros rule v field w. apply shape_after_entry.
  destruct (isEmpty v); [apply emits_ret|].
  apply (emits_length_bound (minlength rule) (js_ge E)).
Qed.

Lemma ts_enum_shape : method_shape Enum (TS._validateEnum (U:=U)).
Proof.
  intros rule v field w. apply shape_after_entry.
  destruct (isEmpty v); [apply emits_ret|].
  cbv zeta. destruct (truthy _); [|apply emits_ret].
  destruct (enum rule); try apply emits_ret;
    (apply emits_bind; [apply emits_emit; exact I | intros; apply emits_ret]).
Qed.

Lemma ts_custom_shape : method_shape Custom (TS._customValidate E).
Proof.
  intros rule v field w. apply shape_after_entry.
  destruct (isEmpty v); [apply emits_ret|].
  cbv zeta. destruct (truthy _); [|apply emits_ret].
  destruct (isFunction _).
  - apply emits_bind.
    + apply emits_try_catch.
      * apply emits_bind; [apply emits_call; intros; exact I|].
        intros r. destruct r; try (destruct (negb _); apply emits_ret).
        apply emits_bind; [apply emits_await | intros; apply emits_ret].
      * intros e. unfold TS.catch_block.
        apply emits_bind; [|intros; apply emits_ret].
        destruct (String.eqb (typeof e) "object");
          [apply emits_get_prop | apply emits_ret].
    + intros [r|]; apply emits_ret.
  - apply emits_bind; [apply emits_emit; exact I | intros; apply emits_ret].
Qed.
End TSMethods.

Section TSRespects.
Import Js Config Run Statics Obs.
Context {U : Type} (E : Env U).
Local Open Scope run_scope.

Lemma respects_static_method name fn v :
  TS.static_method E name = Some fn -> respects (fn v).
Proof.
  unfold TS.static_method.
  repeat (destruct (String.eqb name _);
          [intros [= <-]; try apply respects_ret |]); [|discriminate].
  unfold isDate. destruct v; auto with run.
  destruct (_ && _); auto with run.
  apply respects_bind; auto with run.
Qed.

Lemma respects_entry {A} e (body : M U A) :
  respects body -> respects (emit e ;;; body).
Proof. intros Hb. apply respects_bind; auto with run. Qed.

Lemma ts_required_respects : method_respects (TS._validateRequired (U:=U)).
Proof.
  intros rule v field. apply respects_entry.
  destruct (truthy _); auto with run.
Qed.

Lemma ts_type_respects : method_respects (TS._validateType E).
Proof.
  intros rule v field. apply respects_entry.
  destruct (isEmpty v); auto with run.
  cbv zeta. destruct (truthy _); auto with run.
  destruct (oneOf _ _).
  - apply respects_bind.
    + unfold capitalize. destruct (type rule); auto with run.
    + intros name. destruct (TS.static_method E _) eqn:Hs; auto with run.
      apply respects_bind; auto with run.
      eapply respects_static_method; eauto.
  - apply respects_bind; auto with run. apply respects_emit.
Qed.

Lemma ts_pattern_respects : method_respects (TS._validatePattern E).
Proof.
  intros rule v field. apply respects_entry.
  destruct (isEmpty v); auto with run.
  cbv zeta. destruct (truthy _); auto with run.
  destruct (pattern rule); auto with run;
    (apply respects_bind; auto with run; apply respects_emit).
Qed.

Lemma respects_length_bound (bound : value) (cmp : value -> value -> bool)
    text v :
  respects
    (if truthy bound then
       if isInteger E bound && js_gt E bound (VNum (num_of_nat 0)) then
         len <- get_length E v ;; ret (RBool (cmp len bound))
       else warn text ;;; ret (RBool true)
     else ret (RBool true)).
Proof.
  destruct (truthy bound); auto with run.
  destruct (_ && _); apply respects_bind; auto with run.
  apply respects_emit.
Qed.

Lemma ts_maxlen_respects : method_respects (TS._validateMaxlen E).
Proof.
  intros rule v field. apply respects_entry.
  destruct (isEmpty v); auto with run.
  apply (respects_length_bound (maxlength rule) (js_le E)).
Qed.

Lemma ts_minlen_respects : method_respects (TS._validateMinlen E).
Proof.
  intros rule v field. apply respects_entry.
  destruct (isEmpty v); auto with run.
  apply (respects_length_bound (minlength rule) (js_ge E)).
Qed.

Lemma ts_enum_respects : method_respects (TS._validateEnum (U:=U)).
Proof.
  intros rule v field. apply respects_entry.
  destruct (isEmpty v); auto with run.
  cbv zeta. destruct (truthy _); auto with run.
  destruct (enum rule); auto with run;
    (apply respects_bind; auto with run; apply respects_emit).
Qed.

Lemma ts_custom_respects : method_respects (TS._customValidate E).
Proof.
  intros rule v field. apply respects_entry.
  destruct (isEmpty v); auto with run.
  cbv zeta. destruct (truthy _); auto with run.
  destruct (isFunction _).
  - apply respects_bind.
    + apply respects_try_catch.
      * apply respects_bind; auto with run.
        intros r. destruct r; try (destruct (negb _); auto with run).
        apply respects_bind; auto with run.
      * intros e. unfold TS.catch_block.
        apply respects_bind; auto with run.
        destruct (String.eqb (typeof e) "object"); auto with run.
    + intros [r|]; auto with run.
  - apply respects_bind; auto with run. apply respects_emit.
Qed.

Lemma ts_notify_respects V message : respects (TS.notify E V message).
Proof.
  unfold TS.notify. destruct (isFunction message).
  - apply respects_bind; auto with run.
  - destruct (TS._messageHook V) as [hook|]; auto with run.
    destruct (truthy hook); auto with run.
    apply respects_bind; auto with run.
Qed.

Lemma ts_notify_emits V message : emits between (TS.notify E V message).
Proof.
  unfold TS.notify. destruct (isFunction message).
  - apply emits_bind; auto with run. apply emits_call. intros; exact I.
  - destruct (TS._messageHook V) as [hook|]; auto with run.
    destruct (truthy hook); auto with run.
    apply emits_bind; auto with run. apply emits_call. intros; exact I.
Qed.

(** The seven methods of the chain, with the step each one logs. *)
Lemma ts_chain_shapes :
  Forall2 method_shape documented_order (TS.chain E).
Proof.
  unfold documented_order, TS.chain.
  constructor; [apply ts_required_shape|].
  constructor; [apply ts_type_shape|].
  constructor; [apply ts_pattern_shape|].
  constructor; [apply ts_maxlen_shape|].
  constructor; [apply ts_minlen_shape|].
  constructor; [apply ts_enum_shape|].
  constructor; [apply ts_custom_shape|].
  constructor.
Qed.

Lemma ts_chain_respects : Forall method_respects (TS.chain E).
Proof.
  unfold TS.chain.
  constructor; [apply ts_required_respects|].
  constructor; [apply ts_type_respects|].
  constructor; [apply ts_pattern_respects|].
  constructor; [apply ts_maxlen_respects|].
  constructor; [apply ts_minlen_respects|].
  constructor; [apply ts_enum_respects|].
  constructor; [apply ts_custom_respects|].
  constructor.
Qed.
End TSRespects.

(** ** The loops of validator-ts.ts *)

Section TSLoop.
Import Js Config Run Statics Obs.
Context {U : Type} (E : Env U).
Local Open Scope run_scope.
Variables (V : TS.Validator) (field : string) (form : value) (fieldWrap : bool).

(** One turn of the inner loop. *)
Lemma run_chain_cons rule
    (validator : RuleItem -> value -> string -> M U StepRes) rest :
  TS.run_chain E V field form fieldWrap rule (validator :: rest)
  = (arg <- TS.argument E V field form ;;
     validateRes <- validator rule arg field ;;
     let '(pass, errMsg) :=
       match validateRes with
       | RObj pass message => (pass, message)
       | RBool b => (b, VStr "")
       end in
     if negb pass then
       let message := if truthy errMsg then errMsg else message rule in
       TS.notify E V message ;;;
       ret (Some (TS.reason field fieldWrap (with_message rule message)))
     else TS.run_chain E V field form fieldWrap rule rest).
Proof. reflexivity. Qed.

Lemma run_rules_cons rule rest :
  TS.run_rules E V field form fieldWrap (rule :: rest)
  = (r <- TS.run_chain E V field form fieldWrap rule (TS.chain E) ;;
     match r with
     | Some err => ret (Rejected err)
     | None => TS.run_rules E V field form fieldWrap rest
     end).
Proof. reflexivity. Qed.

Lemma run_chain_app rule (l1 l2 : list (RuleItem -> value -> string -> M U StepRes)) w :
  TS.run_chain E V field form fieldWrap rule (l1 ++ l2) w
  = match TS.run_chain E V field form fieldWrap rule l1 w with
    | (Ok None, w') => TS.run_chain E V field form fieldWrap rule l2 w'
    | other => other
    end.
Proof.
  revert w. induction l1 as [|m l1 IH]; intros w; [reflexivity|].
  rewrite <- app_comm_cons, !run_chain_cons.
  unfold bind.
  destruct (TS.argument E V field form w) as [[arg|e|] w1]; try reflexivity.
  destruct (m rule arg field w1) as [[res|e|] w2]; try reflexivity.
  destruct res as [[|]|[|] msg]; cbn [negb]; try apply IH;
    cbv zeta;
    match goal with
    | |- context [TS.notify E V ?m w2] =>
        destruct (TS.notify E V m w2) as [[[]|e|] w3]
    end; reflexivity.
Qed.

(** The chain is the six checks before the custom validator, then it. *)
Lemma run_chain_split rule w :
  TS.run_chain E V field form fieldWrap rule (TS.chain E) w
  = match TS.run_chain E V field form fieldWrap rule (firstn 6 (TS.chain E)) w with
    | (Ok None, w') =>
        TS.run_chain E V field form fieldWrap rule [TS._customValidate E] w'
    | other => other
    end.
Proof.
  exact (run_chain_app rule (firstn 6 (TS.chain E)) [TS._customValidate E] w).
Qed.

Lemma run_rules_app pre rest w :
  TS.run_rules E V field form fieldWrap (pre ++ rest) w
  = match TS.run_rules E V field form fieldWrap pre w with
    | (Ok Resolved, w') => TS.run_rules E V field form fieldWrap rest w'
    | other => other
    end.
Proof.
  revert w. induction pre as [|r pre IH]; intros w; [reflexivity|].
  rewrite <- app_comm_cons, !run_rules_cons.
  unfold bind.
  destruct (TS.run_chain E V field form fieldWrap r (TS.chain E) w)
    as [[[err|]|e|] w1]; try reflexivity.
  apply IH.
Qed.
End TSLoop.

Section TSOrder.
Import Js Config Run Statics Obs.
Context {U : Type} (E : Env U).
Local Open Scope run_scope.

Lemma entered_app evs1 evs2 : entered (evs1 ++ evs2) = entered evs1 ++ entered evs2.
Proof.
  induction evs1 as [|e evs1 IH]; [reflexivity|].
  destruct e; cbn; now rewrite ?IH.
Qed.

Lemma entered_quiet evs : Forall quiet evs -> entered evs = [].
Proof.
  induction 1 as [|e evs He _ IH]; [reflexivity|].
  destruct e; cbn in *; [exact IH | exact IH | contradiction].
Qed.

Lemma validator_calls_app f evs1 evs2 :
  validator_calls f (evs1 ++ evs2) = validator_calls f evs1 ++ validator_calls f evs2.
Proof.
  induction evs1 as [|e evs1 IH]; [reflexivity|].
  destruct e as [[] g args| |]; cbn; rewrite ?IH; try reflexivity.
  now destruct (f =? g)%nat.
Qed.

Lemma notification_silent f evs :
  Forall notification evs -> entered evs = [] /\ validator_calls f evs = [].
Proof.
  induction 1 as [|e evs He _ [IH1 IH2]]; [now split|].
  destruct e as [[] g args| |]; cbn in *; try contradiction; now split.
Qed.

Lemma inner_quiet e : inner e -> quiet e.
Proof. destruct e as [[] ? ?| |]; cbn; tauto. Qed.

Lemma between_quiet e : between e -> quiet e.
Proof. destruct e as [[] ? ?| |]; cbn; tauto. Qed.

Lemma ts_notify_notifies V message : emits notification (TS.notify E V message).
Proof.
  unfold TS.notify. destruct (isFunction message).
  - apply emits_bind; auto with run. apply emits_call. intros; exact I.
  - destruct (TS._messageHook V) as [hook|]; auto with run.
    destruct (truthy hook); auto with run.
    apply emits_bind; auto with run. apply emits_call. intros; exact I.
Qed.

Section Field.
Variables (V : TS.Validator) (field : string) (form : value) (fieldWrap : bool).

Lemma ts_argument_quiet : emits quiet (TS.argument E V field form).
Proof.
  unfold TS.argument. apply emits_bind; [apply emits_get_prop|].
  intros raw. unfold TS.currentTransform.
  destruct (truthy _); [|apply emits_ret].
  apply emits_call. intros; exact I.
Qed.

(** The methods a run of the inner loop enters are a prefix of the steps of
    the chain, in the order of the chain, and all of them when the rule
    passes. *)
Lemma ts_chain_entered rule steps
    (todo : list (RuleItem -> value -> string -> M U StepRes)) :
  Forall2 method_shape steps todo ->
  forall w, exists evs,
    trace (snd (TS.run_chain E V field form fieldWrap rule todo w))
    = trace w ++ evs
    /\ entered evs `prefix_of` steps
    /\ (fst (TS.run_chain E V field form fieldWrap rule todo w) = Ok None ->
        entered evs = steps).
Proof.
  intros Hshapes.
  induction Hshapes as [|s m steps todo Hm Hshapes IH]; intros w.
  - exists []. cbn. rewrite app_nil_r. repeat split. apply prefix_nil.
  - rewrite run_chain_cons. unfold bind.
    destruct (ts_argument_quiet w) as (evs_a & Ha & Hqa).
    destruct (TS.argument E V field form w) as [[v|e|] w1]; cbn [fst snd] in *.
    2,3: exists evs_a; rewrite (entered_quiet _ Hqa);
         split; [exact Ha | split; [apply prefix_nil | discriminate]].
    destruct (Hm rule v field w1) as (mid & Hmid & Hinner).
    assert (Hqm : entered mid = [])
      by (apply entered_quiet; eapply Forall_impl; [exact Hinner | apply inner_quiet]).
    destruct (m rule v field w1) as [[res|e|] w2]; cbn [fst snd] in *.
    2,3: exists (evs_a ++ EvEnter s rule v field :: mid);
         rewrite Hmid, Ha, <- app_assoc, entered_app, (entered_quiet _ Hqa);
         cbn [entered app]; rewrite Hqm;
         split; [reflexivity | split; [apply prefix_cons, prefix_nil | discriminate]].
    assert (Hstop : forall (w3 : world U) evs,
              trace w3 = trace w2 ++ evs -> entered evs = [] ->
              trace w3 = trace w ++ (evs_a ++ EvEnter s rule v field :: mid ++ evs)
              /\ entered (evs_a ++ EvEnter s rule v field :: mid ++ evs)
                 `prefix_of` s :: steps).
    { intros w3 evs Hw3 Hq. split.
      - rewrite Hw3, Hmid, Ha, <- !app_assoc. reflexivity.
      - rewrite entered_app, (entered_quiet _ Hqa). cbn [entered app].
        rewrite entered_app, Hqm, Hq. apply prefix_cons, prefix_nil. }
    destruct res as [[|]|[|] msg]; cbn [negb]; cbv zeta.
    1,3: destruct (IH w2) as (evs & Ht & Hpre & Hall);
         exists (evs_a ++ EvEnter s rule v field :: mid ++ evs);
         split; [rewrite Ht, Hmid, Ha, <- !app_assoc; reflexivity|];
         rewrite entered_app, (entered_quiet _ Hqa); cbn [entered app];
         rewrite entered_app, Hqm; cbn [app];
         split; [now apply prefix_cons | intros Hok; now rewrite (Hall Hok)].
    all: match goal with
      | |- context [TS.notify E V ?msg ?w0] =>
          destruct (ts_notify_emits E V msg w0) as (evs_n & Hn & Hqn);
          destruct (TS.notify E V msg w0) as [[[]|e|] w3]; cbn [fst snd ret] in *
      end;
      (assert (Hq : entered evs_n = [])
         by (apply entered_quiet; eapply Forall_impl;
             [exact Hqn | apply between_quiet]));
      destruct (Hstop w3 evs_n Hn Hq) as [Ht Hp];
      exists (evs_a ++ EvEnter s rule v field :: mid ++ evs_n);
      (split; [exact Ht | split; [exact Hp | discriminate]]).
Qed.

(** In validator-ts.ts the checks of a rule run in the documented order:
    required, type, pattern, maxlength, minlength, enum, validator. *)
Lemma ts_chain_in_documented_order rule w :
  exists evs,
    trace (snd (TS.run_chain E V field form fieldWrap rule (TS.chain E) w))
    = trace w ++ evs
    /\ entered evs `prefix_of` documented_order
    /\ (fst (TS.run_chain E V field form fieldWrap rule (TS.chain E) w) = Ok None ->
        entered evs = documented_order).
Proof. apply ts_chain_entered, ts_chain_shapes. Qed.
End Field.
End TSOrder.

Section TSShortCircuit.
Import Js Config Run Statics Obs.
Context {U : Type} (E : Env U).
Local Open Scope run_scope.
Variables (V : TS.Validator) (field : string) (form : value) (fieldWrap : bool).

(** The chain is required, type and pattern, then maxlength and the rest. *)
Lemma run_chain_at_maxlen rule w :
  TS.run_chain E V field form fieldWrap rule (TS.chain E) w
  = match TS.run_chain E V field form fieldWrap rule (firstn 3 (TS.chain E)) w with
    | (Ok None, w') =>
        TS.run_chain E V field form fieldWrap rule
          (TS._validateMaxlen E :: skipn 4 (TS.chain E)) w'
    | other => other
    end.
Proof.
  exact (run_chain_app E V field form fieldWrap rule (firstn 3 (TS.chain E))
           (TS._validateMaxlen E :: skipn 4 (TS.chain E)) w).
Qed.

(** In validator-ts.ts a failed maxlength check ends the call: once the
    check returned [false], [validateField] only notifies the failure; it
    enters no other chain method, of this rule or of a later one, and does
    not call the custom validator. *)
Lemma ts_failed_maxlength_ends_the_call pre rule post v f
    (w w0 w1 w2 w3 : world U) :
  isObject form = true ->
  TS._rules V !! field = Some (pre ++ rule :: post) ->
  TS.run_rules E V field form fieldWrap pre w = (Ok Resolved, w0) ->
  TS.run_chain E V field form fieldWrap rule (firstn 3 (TS.chain E)) w0
    = (Ok None, w1) ->
  TS.argument E V field form w1 = (Ok v, w2) ->
  TS._validateMaxlen E rule v field w2 = (Ok (RBool false), w3) ->
  exists p w4 evs,
    TS.validateField E V field form fieldWrap w = (Returned p, w4)
    /\ p <> Resolved
    /\ trace w4 = trace w3 ++ evs
    /\ entered evs = []
    /\ validator_calls f evs = [].
Proof.
  intros Hobj Hrules Hpre Hthree Harg Hmax.
  unfold TS.validateField. rewrite Hobj, Hrules. cbn [negb].
  unfold new_promise.
  rewrite run_rules_app, Hpre, run_rules_cons.
  unfold bind at 1. rewrite run_chain_at_maxlen, Hthree, run_chain_cons.
  rewrite (bind_ok _ _ _ _ _ Harg), (bind_ok _ _ _ _ _ Hmax).
  cbn [negb truthy String.eqb]. cbv zeta. unfold bind.
  destruct (ts_notify_notifies E V (message rule) w3) as (evs & Ht & Hall).
  destruct (notification_silent f evs Hall) as [Hent Hcalls].
  destruct (TS.notify E V (message rule) w3) as [[[]|e|] w4]; cbn [fst snd ret] in *;
    eexists _, w4, evs;
    (split; [reflexivity | split; [discriminate | auto]]).
Qed.
End TSShortCircuit.

(** ** The chain methods of validator-2.0.0.js *)

Section V2Methods.
Import Js Config Run Statics Obs.
Context {U : Type} (E : Env U).
Local Open Scope run_scope.

Lemma v2_isFloat_emits P v : emits P (V2.isFloat E v).
Proof. unfold V2.isFloat. destruct (isNumber E v); auto with run. Qed.

Lemma v2_isFloat_respects v : respects (V2.isFloat E v).
Proof. unfold V2.isFloat. destruct (isNumber E v); auto with run. Qed.

Lemma v2_emits_static_method name fn v :
  V2.static_method E name = Some fn -> emits inner (fn v).
Proof.
  unfold V2.static_method.
  repeat (destruct (String.eqb name _);
          [intros [= <-]; try apply emits_ret; try apply v2_isFloat_emits |]);
    [|discriminate].
  unfold isDate. destruct v; auto with run.
  destruct (_ && _); auto with run.
  apply emits_bind; auto with run. apply emits_call. intros; exact I.
Qed.

Lemma v2_respects_static_method name fn v :
  V2.static_method E name = Some fn -> respects (fn v).
Proof.
  unfold V2.static_method.
  repeat (destruct (String.eqb name _);
          [intros [= <-]; try apply respects_ret; try apply v2_isFloat_respects |]);
    [|discriminate].
  unfold isDate. destruct v; auto with run.
  destruct (_ && _); auto with run.
  apply respects_bind; auto with run.
Qed.

Lemma v2_required_shape : method_shape Required (V2._validateRequired (U:=U)).
Proof.
  intros rule v field w. apply shape_after_entry.
  destruct (truthy _); [destruct (isEmpty v)|]; apply emits_ret.
Qed.

Lemma v2_required_respects : method_respects (V2._validateRequired (U:=U)).
Proof.
  intros rule v field. apply respects_entry.
  destruct (truthy _); [destruct (isEmpty v)|]; apply respects_ret.
Qed.

Lemma v2_type_shape : method_shape Type_ (V2._validateType E).
Proof.
  intros rule v field w. apply shape_after_entry.
  cbv zeta. destruct (truthy _); [|apply emits_ret].
  destruct (oneOf _ _).
  - apply emits_bind.
    + unfold capitalize. destruct (type rule); auto with run.
    + intros name. destruct (V2.static_method E _) eqn:Hs; [|apply emits_raise].
      apply emits_bind; [eapply v2_emits_static_method; eauto|].
      intros b. destruct (negb b); apply emits_ret.
  - apply emits_bind; [|intros; apply emits_ret].
    apply emits_emit. exact I.
Qed.

Lemma v2_type_respects : method_respects (V2._validateType E).
Proof.
  intros rule v field. apply respects_entry.
  cbv zeta. destruct (truthy _); [|apply respects_ret].
  destruct (oneOf _ _).
  - apply respects_bind.
    + unfold capitalize. destruct (type rule); auto with run.
    + intros name. destruct (V2.static_method E _) eqn:Hs; [|apply respects_raise].
      apply respects_bind; [eapply v2_respects_static_method; eauto|].
      intros b. destruct (negb b); apply respects_ret.
  - apply respects_bind; auto with run. apply respects_emit.
Qed.

Lemma v2_pattern_shape : method_shape Pattern (V2._validatePattern E).
Proof.
  intros rule v field w. apply shape_after_entry.
  cbv zeta. destruct (truthy _); [|apply emits_ret].
  destruct (pattern rule); try (destruct (negb _)); try apply emits_ret;
    (apply emits_bind; [apply emits_emit; exact I | intros; apply emits_ret]).
Qed.

Lemma v2_pattern_respects : method_respects (V2._validatePattern E).
Proof.
  intros rule v field. apply respects_entry.
  cbv zeta. destruct (truthy _); [|apply respects_ret].
  destruct (pattern rule); try (destruct (negb _)); try apply respects_ret;
    (apply respects_bind; auto with run; apply respects_emit).
Qed.

Lemma v2_maxlen_shape : method_shape Maxlen (V2._validateMaxlen E).
Proof.
  intros rule v field w. apply shape_after_entry.
  apply (emits_length_bound E (maxlength rule) (js_le E)).
Qed.

Lemma v2_maxlen_respects : method_respects (V2._validateMaxlen E).
Proof.
  intros rule v field. apply respects_entry.
  apply (respects_length_bound E (maxlength rule) (js_le E)).
Qed.

Lemma v2_minlen_shape : method_shape Minlen (V2._validateMinlen E).
Proof.
  intros rule v field w. apply shape_after_entry.
  apply (emits_length_bound E (minlength rule) (js_ge E)).
Qed.

Lemma v2_minlen_respects : method_respects (V2._validateMinlen E).
Proof.
  intros rule v field. apply respects_entry.
  apply (respects_length_bound E (minlength rule) (js_ge E)).
Qed.

Lemma v2_enum_shape : method_shape Enum (V2._validateEnum (U:=U)).
Proof.
  intros rule v field w. apply shape_after_entry.
  cbv zeta. destruct (truthy _); [|apply emits_ret].
  destruct (enum rule); try apply emits_ret;
    (apply emits_bind; [apply emits_emit; exact I | intros; apply emits_ret]).
Qed.

Lemma v2_enum_respects : method_respects (V2._validateEnum (U:=U)).
Proof.
  intros rule v field. apply respects_entry.
  cbv zeta. destruct (truthy _); [|apply respects_ret].
  destruct (enum rule); try apply respects_ret;
    (apply respects_bind; auto with run; apply respects_emit).
Qed.

Lemma v2_custom_shape : method_shape Custom (V2._customValidate E).
Proof.
  intros rule v field w. apply shape_after_entry.
  cbv zeta. destruct (truthy _); [|apply emits_ret].
  destruct (isFunction _).
  - apply emits_bind.
    + apply emits_try_catch.
      * apply emits_bind; [apply emits_call; intros; exact I|].
        intros r. destruct r; try (destruct (negb _); apply emits_ret).
        apply emits_bind; [apply emits_await | intros; apply emits_ret].
      * intros e. unfold V2.catch_block.
        apply emits_bind; [|intros; apply emits_ret].
        destruct (String.eqb (typeof e) "object");
          [apply emits_get_prop | apply emits_ret].
    + intros [r|]; apply emits_ret.
  - apply emits_bind; [apply emits_emit; exact I | intros; apply emits_ret].
Qed.

Lemma v2_custom_respects : method_respects (V2._customValidate E).
Proof.
  intros rule v field. apply respects_entry.
  cbv zeta. destruct (truthy _); [|apply respects_ret].
  destruct (isFunction _).
  - apply respects_bind.
    + apply respects_try_catch.
      * apply respects_bind; auto with run.
        intros r. destruct r; try (destruct (negb _); auto with run).
        apply respects_bind; auto with run.
      * intros e. unfold V2.catch_block.
        apply respects_bind; auto with run.
        destruct (String.eqb (typeof e) "object"); auto with run.
    + intros [r|]; auto with run.
  - apply respects_bind; auto with run. apply respects_emit.
Qed.

(** The seven methods of the chain of 2.0.0, with the step each one logs. *)
Lemma v2_chain_shapes :
  Forall2 method_shape
    [Required; Type_; Pattern; Custom; Maxlen; Minlen; Enum] (V2.chain E).
Proof.
  unfold V2.chain.
  constructor; [apply v2_required_shape|].
  constructor; [apply v2_type_shape|].
  constructor; [apply v2_pattern_shape|].
  constructor; [apply v2_custom_shape|].
  constructor; [apply v2_maxlen_shape|].
  constructor; [apply v2_minlen_shape|].
  constructor; [apply v2_enum_shape|].
  constructor.
Qed.

Lemma v2_chain_respects : Forall method_respects (V2.chain E).
Proof.
  unfold V2.chain.
  constructor; [apply v2_required_respects|].
  constructor; [apply v2_type_respects|].
  constructor; [apply v2_pattern_respects|].
  constructor; [apply v2_custom_respects|].
  constructor; [apply v2_maxlen_respects|].
  constructor; [apply v2_minlen_respects|].
  constructor; [apply v2_enum_respects|].
  constructor.
Qed.
End V2Methods.

(** ** The guard on the data argument *)

Section Guard.
Import Js Config Run Statics Obs.
Context {U : Type} (E : Env U).

(** What the guard of [validate] and [validateField] turns away: every
    value whose [typeof] is not "object", and every array. *)
Lemma guard_throws_on_non_objects V field form fieldWrap (w : world U) :
  isObject form = false ->
  TS.validateField E V field form fieldWrap w
    = (Threw (mkError 0 "Form parameter is not an object"), w)
  /\ TS.validate E V form w
    = (Threw (mkError 0 "Form parameter is not an object"), w).
Proof.
  intros H. unfold TS.validateField, TS.validate. now rewrite H.
Qed.

(** [null] passes the guard, and then no rule can be checked: on a field
    with at least one rule, reading [form[field]] throws in the executor
    and the promise never settles. *)
Lemma null_form_never_settles V field fieldWrap rule rules (w : world U) :
  TS._rules V !! field = Some (rule :: rules) ->
  TS.validateField E V field VNull fieldWrap w = (Returned Pending, w).
Proof.
  intros Hrules. unfold TS.validateField. rewrite Hrules. reflexivity.
Qed.

Lemma isObject_spec form :
  isObject form = true <->
  match form with
  | VNull | VObj _ _ | VRegExp _ | VDate _ _ | VPromise _ _ => True
  | _ => False
  end.
Proof.
  destruct form; unfold isObject; simpl;
    split; intros H; first [exact I | reflexivity | discriminate | contradiction].
Qed.
End Guard.

(** C5.  The guard does not turn [null] away: [typeof null] is "object", so
    [validateField(field, null)] and [validate(null)] return a promise
    instead of throwing, and that promise never settles, because reading
    [form[field]] throws inside the executor. *)
Theorem null_passes_the_guard :
  Statics.isObject Js.VNull = true
  /\ fst (TS.validateField Sample.env (Sample.ts_with Sample.required_rule)
            "name" Js.VNull false Sample.start)
     = Config.Returned Config.Pending
  /\ fst (TS.validate Sample.env (Sample.ts_with Sample.required_rule)
            Js.VNull Sample.start)
     = Config.Returned Config.Pending.
Proof. cbv zeta. repeat apply conj; vm_compute; reflexivity. Qed.

(** ** The numeric predicates *)

(** C8.  In 1.0.0 and 2.0.0 [isFloat] calls [Validator.isTnteger], which does
    not exist: on every Number that is not NaN, 1.5 for one, it throws a
    TypeError instead of returning a boolean.  The TypeScript file returns
    [true] there.  In all three files [isInteger] is [false] on 1e21, an
    integer that [parseInt] reads back as 1 from its printed form "1e+21". *)
Theorem isFloat_calls_a_missing_static :
  forall (U : Type) (E : Run.Env U) (w : Run.world U),
    V2.isFloat E (Js.VNum Sample.one_and_a_half) w
      = (Run.Raise (Run.TypeError "Validator.isTnteger is not a function"), w)
    /\ V1.isFloat E (Js.VNum Sample.one_and_a_half) w
      = (Run.Raise (Run.TypeError "Validator.isTnteger is not a function"), w)
    /\ TS.isFloat E (Js.VNum Sample.one_and_a_half) = true
    /\ Js.number_to_string Sample.ten_to_21 = "1e+21"
    /\ Statics.isInteger E (Js.VNum Sample.ten_to_21) = false.
Proof. intros U E w. repeat apply conj; vm_compute; reflexivity. Qed.

Section Numeric.
Import Js Config Run Statics Obs.
Context {U : Type} (E : Env U).

(** In the TypeScript file both predicates are total, [isFloat] is the
    complement of [isInteger] on Numbers, and neither holds of a value
    that is not a Number or is NaN. *)
Lemma ts_isFloat_complement v :
  TS.isFloat E v = isNumber E v && negb (isInteger E v).
Proof. reflexivity. Qed.

Lemma isInteger_only_numbers v :
  isInteger E v = true -> exists n, v = VNum n /\ is_nan n = false.
Proof.
  unfold isInteger, isNumber. destruct v; simpl; try discriminate.
  intros H. exists n. split; [reflexivity|].
  destruct n; simpl in *; [discriminate | reflexivity | reflexivity].
Qed.

(** [isInteger] on a few Numbers: 5, -3, 0 and 1e20 are integers; 1.5,
    5e-7, NaN and Infinity are not; and a string of digits is not a
    Number. *)
Lemma isInteger_samples :
  isInteger E (VNum (Finite false 5 0)) = true
  /\ isInteger E (VNum (Finite true 3 0)) = true
  /\ isInteger E (VNum (Finite false 0 0)) = true
  /\ isInteger E (VNum (Finite false 1 20)) = true
  /\ isInteger E (VNum (Finite false 15 (-1))) = false
  /\ isInteger E (VNum (Finite false 5 (-7))) = false
  /\ isInteger E (VNum NaN) = false
  /\ isInteger E (VNum (Infinity false)) = false
  /\ isInteger E (VStr "5") = false.
Proof. repeat apply conj; vm_compute; reflexivity. Qed.

(** In 1.0.0 and 2.0.0 [isFloat] returns exactly on the values that are
    not Numbers, and on NaN. *)
Lemma v2_isFloat_spec v (w : world U) :
  V2.isFloat E v w =
    if isNumber E v
    then (Raise (TypeError "Validator.isTnteger is not a function"), w)
    else (Ok false, w).
Proof. unfold V2.isFloat. now destruct (isNumber E v). Qed.
End Numeric.

(** ** The order of the chain *)


(** C2.  validator-2.0.0.js runs the custom validator fourth, before the
    length and enum checks: on a rule [{ maxlength: 2, validator }] and the
    value "ab" the chain is entered in the order required, type, pattern,
    validator, maxlength, minlength, enum. *)
Theorem v2_runs_the_validator_before_the_bounds :
  let run := V2.validateField Sample.env (Sample.v2_with Sample.short_rule)
               "name" (Sample.form_of (Js.VStr "ab")) Sample.start in
  fst run = Config.Returned Config.Resolved
  /\ Obs.entered (Run.trace (snd run))
     = [Config.Required; Config.Type_; Config.Pattern; Config.Custom;
        Config.Maxlen; Config.Minlen; Config.Enum]
  /\ Obs.entered (Run.trace (snd run)) <> Obs.documented_order.
Proof.
  cbv zeta. split; [|split].
  - vm_compute. reflexivity.
  - vm_compute. reflexivity.
  - vm_compute. discriminate.
Qed.

(** C7.  validator-2.0.0.js calls the custom validator on a value whose
    maxlength check fails: with [{ maxlength: 2, validator }] and the value
    "abc" the validator is called on "abc", then the maxlength check
    rejects.  (The same misplaced chain entry as in C2.) *)
Theorem v2_calls_the_validator_on_a_value_too_long :
  let run := V2.validateField Sample.env (Sample.v2_with Sample.short_rule)
               "name" (Sample.form_of (Js.VStr "abc")) Sample.start in
  fst (V2._validateMaxlen Sample.env Sample.short_rule (Js.VStr "abc") "name"
         Sample.start)
    = Run.Ok (Config.RBool false)
  /\ fst run = Config.Returned (Config.Rejected ("name", Sample.short_rule))
  /\ Obs.validator_calls 0 (Run.trace (snd run)) = [[Js.VStr "abc"]]
  /\ Obs.entered (Run.trace (snd run))
     = [Config.Required; Config.Type_; Config.Pattern; Config.Custom;
        Config.Maxlen].
Proof. cbv zeta. repeat apply conj; vm_compute; reflexivity. Qed.

(** validator-ts.ts on the inputs of C2 and C7: the bounds run before the
    validator, and the validator is not called on the value that is too
    long. *)
Lemma ts_runs_the_bounds_before_the_validator :
  let passing := TS.validateField Sample.env (Sample.ts_with Sample.short_rule)
                   "name" (Sample.form_of (Js.VStr "ab")) false Sample.start in
  let failing := TS.validateField Sample.env (Sample.ts_with Sample.short_rule)
                   "name" (Sample.form_of (Js.VStr "abc")) false Sample.start in
  fst passing = Config.Returned Config.Resolved
  /\ Obs.entered (Run.trace (snd passing)) = Obs.documented_order
  /\ fst failing
     = Config.Returned (Config.Rejected (Config.Bare Sample.short_rule))
  /\ Obs.entered (Run.trace (snd failing))
     = [Config.Required; Config.Type_; Config.Pattern; Config.Maxlen]
  /\ Obs.validator_calls 0 (Run.trace (snd failing)) = [].
Proof. cbv zeta. repeat apply conj; vm_compute; reflexivity. Qed.

(** ** Empty values *)

(** C3.  validator-2.0.0.js has no emptiness test in its chain methods.  With
    the rule [{ maxlength: 2 }] and no [name] in the data, the maxlength
    check reads [undefined.length]: the TypeError is lost in the executor
    and [validateField] never settles.  With the rule [{ type: "number" }]
    the type check runs on [undefined] and fails, and [validateField]
    rejects a field that is not required. *)
Theorem v2_checks_an_empty_value :
  Statics.isEmpty Js.VUndefined = true
  /\ fst (V2._validateMaxlen Sample.env Sample.max_rule Js.VUndefined "name"
            Sample.start)
     = Run.Raise
         (Run.TypeError "Cannot read properties of undefined (reading 'length')")
  /\ fst (V2.validateField Sample.env (Sample.v2_with Sample.max_rule)
            "name" (Js.VObj 1 []) Sample.start)
     = Config.Returned Config.Pending
  /\ Js.truthy (Config.required Sample.number_rule) = false
  /\ fst (V2._validateType Sample.env Sample.number_rule Js.VUndefined "name"
            Sample.start)
     = Run.Ok (Config.RBool false)
  /\ fst (V2.validateField Sample.env (Sample.v2_with Sample.number_rule)
            "name" (Js.VObj 1 []) Sample.start)
     = Config.Returned (Config.Rejected ("name", Sample.number_rule)).
Proof. repeat apply conj; vm_compute; reflexivity. Qed.

(** validator-ts.ts on the inputs of C3: the checks are skipped and the
    field passes. *)
Lemma ts_skips_the_checks_of_an_empty_value :
  fst (TS._validateMaxlen Sample.env Sample.max_rule Js.VUndefined "name"
         Sample.start)
  = Run.Ok (Config.RBool true)
  /\ fst (TS.validateField Sample.env (Sample.ts_with Sample.max_rule)
            "name" (Js.VObj 1 []) false Sample.start)
     = Config.Returned Config.Resolved
  /\ fst (TS._validateType Sample.env Sample.number_rule Js.VUndefined "name"
            Sample.start)
     = Run.Ok (Config.RBool true)
  /\ fst (TS.validateField Sample.env (Sample.ts_with Sample.number_rule)
            "name" (Js.VObj 1 []) false Sample.start)
     = Config.Returned Config.Resolved.
Proof. repeat apply conj; vm_compute; reflexivity. Qed.

Section TSEmpty.
Import Js Config Run Statics Obs.
Context {U : Type} (E : Env U).
Local Open Scope run_scope.

Lemma isEmpty_spec v :
  isEmpty v = true <-> v = VStr "" \/ v = VNull \/ v = VUndefined.
Proof.
  split.
  - destruct v; try discriminate; auto.
    unfold isEmpty. simpl. rewrite !orb_false_r.
    intros H. apply String.eqb_eq in H. subst. auto.
  - intros [-> | [-> | ->]]; reflexivity.
Qed.

Lemma ts_type_skips_empty : skips_empty Type_ (TS._validateType E).
Proof. intros rule v field w H. unfold TS._validateType, bind, emit. now rewrite H. Qed.

Lemma ts_pattern_skips_empty : skips_empty Pattern (TS._validatePattern E).
Proof. intros rule v field w H. unfold TS._validatePattern, bind, emit. now rewrite H. Qed.

Lemma ts_maxlen_skips_empty : skips_empty Maxlen (TS._validateMaxlen E).
Proof. intros rule v field w H. unfold TS._validateMaxlen, bind, emit. now rewrite H. Qed.

Lemma ts_minlen_skips_empty : skips_empty Minlen (TS._validateMinlen E).
Proof. intros rule v field w H. unfold TS._validateMinlen, bind, emit. now rewrite H. Qed.

Lemma ts_enum_skips_empty : skips_empty Enum (TS._validateEnum (U:=U)).
Proof. intros rule v field w H. unfold TS._validateEnum, bind, emit. now rewrite H. Qed.

Lemma ts_custom_skips_empty : skips_empty Custom (TS._customValidate E).
Proof. intros rule v field w H. unfold TS._customValidate, bind, emit. now rewrite H. Qed.

(** [_validateRequired] fails exactly on an empty value of a rule whose
    [required] is truthy. *)
Lemma ts_required_result rule v field (w : world U) :
  TS._validateRequired rule v field w
  = (Ok (RBool (negb (truthy (required rule) && isEmpty v))),
     entered_world w Required rule v field).
Proof.
  unfold TS._validateRequired, bind, emit. simpl.
  destruct (truthy (required rule)); reflexivity.
Qed.

(** In the TypeScript file every check but [required] passes on an empty
    value, whatever the rule. *)
Lemma ts_only_required_fails_on_empty :
  Forall2 skips_empty [Type_; Pattern; Maxlen; Minlen; Enum; Custom]
          (tl (TS.chain E)).
Proof.
  simpl.
  constructor; [apply ts_type_skips_empty|].
  constructor; [apply ts_pattern_skips_empty|].
  constructor; [apply ts_maxlen_skips_empty|].
  constructor; [apply ts_minlen_skips_empty|].
  constructor; [apply ts_enum_skips_empty|].
  constructor; [apply ts_custom_skips_empty|].
  constructor.
Qed.

End TSEmpty.

(** ** Required fields *)

Section OwnFacts.
Import Js Config Run Statics.

Lemma read_lookup props key v :
  Own.read props key = Some v -> lookup_prop key props = v.
Proof.
  unfold Own.read. destruct (Own.has key props) eqn:Hhas.
  - now intros [= <-].
  - destruct (Own.inherited key); [discriminate|]. intros [= <-].
    induction props as [|[k x] props IH]; [reflexivity|].
    cbn [Own.has] in Hhas. apply orb_false_iff in Hhas as [Hk Hrest].
    cbn [lookup_prop]. rewrite Hk. now apply IH.
Qed.

Lemma read_absent props key v :
  Own.read props key = Some v -> Own.has key props = false -> v = VUndefined.
Proof.
  unfold Own.read. intros H Hhas. rewrite Hhas in H.
  destruct (Own.inherited key); congruence.
Qed.
End OwnFacts.

Section TSRequired.
Import Js Config Run Statics Obs.
Context {U : Type} (E : Env U).
Local Open Scope run_scope.
Variables (V : TS.Validator) (field : string) (form : value) (fieldWrap : bool).

(** The chain of a rule, from the check that follows [required]. *)
Lemma run_chain_after_required rule v (w0 w1 : world U) :
  TS.argument E V field form w0 = (Ok v, w1) ->
  TS.run_chain E V field form fieldWrap rule (TS.chain E) w0
  = if truthy (required rule) && isEmpty v then
      match TS.notify E V (message rule) (entered_world w1 Required rule v field) with
      | (Ok _, w2) =>
          (Ok (Some (TS.reason field fieldWrap (with_message rule (message rule)))),
           w2)
      | (Raise e, w2) => (Raise e, w2)
      | (Suspended, w2) => (Suspended, w2)
      end
    else
      TS.run_chain E V field form fieldWrap rule
        [ TS._validateType E; TS._validatePattern E; TS._validateMaxlen E;
          TS._validateMinlen E; TS._validateEnum; TS._customValidate E ]
        (entered_world w1 Required rule v field).
Proof.
  intros Harg. unfold TS.chain. rewrite run_chain_cons.
  rewrite (bind_ok _ _ _ _ _ Harg).
  rewrite (bind_ok _ _ _ _ _ (ts_required_result rule v field w1)).
  destruct (truthy (required rule) && isEmpty v); cbn [negb]; [|reflexivity].
  cbn [truthy String.eqb negb]. cbv zeta. unfold bind.
  destruct (TS.notify E V (message rule) _) as [[[]|e|] w2]; reflexivity.
Qed.
End TSRequired.

(** C6.  In validator-ts.ts, take a rule with [required] set, once the rules
    before it have passed, and the value [v] that the field has when the
    required check of the rule reads and transforms it.  The check fails
    exactly when [v] is the empty string, [null] or [undefined], which is
    what a field absent from a plain form gives when it has no transform and
    [Object.prototype] has no member of its name.  When the check fails,
    [validateField] notifies the failure and then rejects with the rule,
    under the rule's own message: it rejects if the notification returns and
    never settles if the notification throws.  When the check passes,
    [validateField] goes on with the six checks that follow in the chain,
    and then with the rules that follow. *)
Theorem required_rejects_an_empty_value :
  forall (U : Type) (E : Run.Env U) (V : TS.Validator) (field : string)
         (addr : nat) (props : list (string * Js.value)) (fieldWrap : bool)
         (pre : list Config.RuleItem) (rule : Config.RuleItem)
         (post : list Config.RuleItem) (raw configured v : Js.value)
         (w w0 w1 : Run.world U),
    let form := Js.VObj addr props in
    let entered := Obs.entered_world w1 Config.Required rule v field in
    Own.read props field = Some raw ->
    Own.read (default [] (TS._transform V)) field = Some configured ->
    TS._rules V !! field = Some (pre ++ rule :: post) ->
    Js.truthy (Config.required rule) = true ->
    TS.run_rules E V field form fieldWrap pre w = (Run.Ok Config.Resolved, w0) ->
    TS.argument E V field form w0 = (Run.Ok v, w1) ->
    (Own.has field props = false -> Js.truthy configured = false ->
     v = Js.VUndefined)
    /\ TS._validateRequired rule v field w1
       = (Run.Ok (Config.RBool (negb (Statics.isEmpty v))), entered)
    /\ (Statics.isEmpty v = true <->
        v = Js.VStr "" \/ v = Js.VNull \/ v = Js.VUndefined)
    /\ (Statics.isEmpty v = true ->
        TS.validateField E V field form fieldWrap w
        = match TS.notify E V (Config.message rule) entered with
          | (Run.Ok _, w2) =>
              (Config.Returned
                 (Config.Rejected
                    (TS.reason field fieldWrap
                       (Config.with_message rule (Config.message rule)))), w2)
          | (_, w2) => (Config.Returned Config.Pending, w2)
          end)
    /\ (Statics.isEmpty v = false ->
        TS.validateField E V field form fieldWrap w
        = let '(p, w') :=
            Run.new_promise
              (Run.bind
                 (TS.run_chain E V field form fieldWrap rule
                    [ TS._validateType E; TS._validatePattern E;
                      TS._validateMaxlen E; TS._validateMinlen E;
                      TS._validateEnum; TS._customValidate E ])
                 (fun r =>
                    match r with
                    | Some err => Run.ret (Config.Rejected err)
                    | None => TS.run_rules E V field form fieldWrap post
                    end))
              entered in
          (Config.Returned p, w')).
Proof.
  intros U E V field addr props fieldWrap pre rule post raw configured v w w0 w1
         form entered Hraw Hconf Hrules Hreq Hpre Harg.
  assert (Hfield :
             TS.validateField E V field form fieldWrap w
             = let '(q, w') :=
                 Run.new_promise
                   (Run.bind (TS.run_chain E V field form fieldWrap rule (TS.chain E))
                      (fun r => match r with
                                | Some err => Run.ret (Config.Rejected err)
                                | None => TS.run_rules E V field form fieldWrap post
                                end)) w0 in
               (Config.Returned q, w')).
  { unfold TS.validateField. cbn [Statics.isObject]. rewrite Hrules.
    change (negb (Statics.isObject form)) with false. cbv iota.
    unfold Run.new_promise. rewrite run_rules_app, Hpre, run_rules_cons.
    reflexivity. }
  repeat apply conj.
  - intros Habsent Hnone.
    unfold TS.argument, TS.currentTransform, Run.bind, form in Harg.
    cbn [Run.get_prop Run.ret] in Harg.
    rewrite (read_lookup _ _ _ Hconf), Hnone in Harg.
    rewrite (read_lookup _ _ _ Hraw) in Harg.
    injection Harg as <- _. exact (read_absent _ _ _ Hraw Habsent).
  - rewrite ts_required_result, Hreq. reflexivity.
  - apply isEmpty_spec.
  - apply isEmpty_spec.
  - intros Hv. rewrite Hfield. unfold Run.new_promise, Run.bind.
    rewrite (run_chain_after_required E V field form fieldWrap rule v w0 w1 Harg).
    rewrite Hreq, Hv. cbn [andb]. fold entered.
    destruct (TS.notify E V (Config.message rule) entered) as [[[]|e|] w2];
      reflexivity.
  - intros Hv. rewrite Hfield. unfold Run.new_promise, Run.bind.
    rewrite (run_chain_after_required E V field form fieldWrap rule v w0 w1 Harg).
    rewrite Hreq, Hv. cbn [andb]. reflexivity.
Qed.

(** The rule [{ required: true, message: "required" }] on a form without
    the field: rejected with the rule.  The rule
    [{ required: true, type: "string", message: "text" }] on
    [{ name: "abc" }]: the required check passes, the six checks that follow
    run, and the field is valid. *)
Lemma required_rejects_an_empty_value_witness :
  (exists w',
      TS.validateField Sample.env (Sample.ts_with Sample.required_rule) "name"
        (Js.VObj 1 []) false Sample.start
      = (Config.Returned (Config.Rejected (Config.Bare Sample.required_rule)),
         w'))
  /\ (exists w',
        TS.validateField Sample.env (Sample.ts_with Sample.text_rule) "name"
          (Sample.form_of (Js.VStr "abc")) false Sample.start
        = (Config.Returned Config.Resolved, w')
        /\ Obs.entered (Run.trace w') = Obs.documented_order).
Proof.
  split.
  - destruct (required_rejects_an_empty_value nat Sample.env
                (Sample.ts_with Sample.required_rule) "name" 1 [] false
                [] Sample.required_rule [] Js.VUndefined Js.VUndefined
                Js.VUndefined Sample.start Sample.start Sample.start)
      as (_ & _ & _ & Hrejects & _).
    + reflexivity.
    + reflexivity.
    + vm_compute. reflexivity.
    + reflexivity.
    + reflexivity.
    + reflexivity.
    + eexists. rewrite Hrejects by reflexivity. reflexivity.
  - destruct (required_rejects_an_empty_value nat Sample.env
                (Sample.ts_with Sample.text_rule) "name" 1
                [("name", Js.VStr "abc")] false
                [] Sample.text_rule [] (Js.VStr "abc") Js.VUndefined
                (Js.VStr "abc") Sample.start Sample.start Sample.start)
      as (_ & _ & _ & _ & Hgoes).
    + reflexivity.
    + reflexivity.
    + vm_compute. reflexivity.
    + reflexivity.
    + reflexivity.
    + reflexivity.
    + eexists. unfold Sample.form_of. rewrite Hgoes by reflexivity.
      split; vm_compute; reflexivity.
Defined.

(** The rule [{ required: true, message: f }] where [f] throws, on
    [{ name: "" }]: the value is empty and the promise does not reject. *)
Lemma a_throwing_message_keeps_required_from_rejecting :
  let rule :=
    Config.mkRule (Js.VBool true) Js.VUndefined Js.VUndefined Js.VUndefined
      Js.VUndefined Js.VUndefined Js.VUndefined (Js.VFun 2) in
  Js.truthy (Config.required rule) = true
  /\ Statics.isEmpty (Js.VStr "") = true
  /\ fst (TS.validateField Cases.env (Sample.ts_with rule) "name"
            (Sample.form_of (Js.VStr "")) false Cases.start)
     = Config.Returned Config.Pending.
Proof. repeat apply conj; vm_compute; reflexivity. Qed.

(** ** validator-2.0.0.js without [transform] *)

Section V2NoTransform.
Import Js Config Run Statics Obs.
Context {U : Type} (E : Env U).

Lemma v2_field_pending V field form rules (w : world U) :
  V2._transform V = None ->
  isObject form = true ->
  V2._rules V !! field = Some rules ->
  V2.validateField E V field form w = (Returned Pending, w).
Proof.
  intros Htr Hobj Hrules. unfold V2.validateField.
  rewrite Hobj, Hrules. cbn [negb].
  unfold new_promise, bind, V2.lookup_transform. now rewrite Htr.
Qed.

Lemma v2_tasks_pending V form fields (w : world U) :
  V2._transform V = None ->
  isObject form = true ->
  Forall (fun f => is_Some (V2._rules V !! f)) fields ->
  Aggregate.start_tasks (fun field => V2.validateField E V field form) fields w
  = (Ok (replicate (length fields) Pending), w).
Proof.
  intros Htr Hobj Hall. induction Hall as [|f fields [rules Hf] Hall IH].
  - reflexivity.
  - cbn [Aggregate.start_tasks]. unfold bind at 1.
    rewrite (v2_field_pending V f form rules w Htr Hobj Hf).
    unfold bind at 1. now rewrite IH.
Qed.

Lemma keys_configured {A} (m : gmap string A) :
  Forall (fun f => is_Some (m !! f)) (Aggregate.keys m).
Proof.
  unfold Aggregate.keys. apply Forall_forall. intros f Hf.
  apply list_elem_of_fmap in Hf as ([k x] & -> & Hkx).
  apply elem_of_map_to_list in Hkx. now exists x.
Qed.

Lemma keys_nonempty {A} (m : gmap string A) :
  m <> ∅ -> Aggregate.keys m <> [].
Proof.
  intros Hm Hk. apply Hm. apply map_to_list_empty_iff.
  unfold Aggregate.keys in Hk. now apply fmap_nil_inv in Hk.
Qed.
End V2NoTransform.




(** ** The message of a failing custom validator *)

Section TSMessage.
Import Js Config Run Statics Obs.
Context {U : Type} (E : Env U).
Local Open Scope run_scope.

(** The [catch] block of [_customValidate] on a payload other than [null]. *)
Lemma ts_catch_block err (w : world U) :
  err <> VNull ->
  TS.catch_block err w = (Ok (Some (RObj false (payload_message err))), w).
Proof. intros Hnull. destruct err; try reflexivity. contradiction. Qed.

Lemma ts_custom_on_failure rule f v field err (w : world U) u' :
  isEmpty v = false ->
  validator rule = VFun f ->
  fails_with E f v (ust w) err u' ->
  err <> VNull ->
  TS._customValidate E rule v field w
  = (Ok (RObj false (payload_message err)),
     mkWorld u' (trace w ++ [EvEnter Custom rule v field;
                             EvCall AtValidator f [v]])).
Proof.
  intros Hv Hf Hfail Hnull.
  unfold TS._customValidate. rewrite Hf.
  unfold bind at 1. unfold emit at 1. rewrite Hv.
  cbn [truthy isFunction typeof String.eqb Ascii.eqb Bool.eqb].
  unfold bind at 1. unfold try_catch.
  unfold bind at 1. rewrite call_fun. cbn [ust trace].
  destruct Hfail as [Hthrow | (addr & Hrej)].
  - rewrite Hthrow. rewrite ts_catch_block by exact Hnull.
    cbn. now rewrite <- app_assoc.
  - rewrite Hrej. unfold bind at 1. cbn [await raise].
    rewrite ts_catch_block by exact Hnull.
    cbn. now rewrite <- app_assoc.
Qed.

End TSMessage.

(** C4, as the code has it.  In validator-ts.ts, when the custom validator
    of a rule is reached on a value that is not empty and fails by throwing
    a payload, or by returning a promise rejected with it, and the payload
    is not [null]: the reported rule carries the payload's message (the
    payload itself when it is a string, its [message] property when it is an
    object) if that message is truthy, and the rule's own message in every
    other case: an empty string, a falsy or missing [message], a payload of
    another type.  The notification of the failure is taken to return. *)
Theorem custom_failure_message :
  forall (U : Type) (E : Run.Env U) (V : TS.Validator) (field : string)
         (form : Js.value) (fieldWrap : bool)
         (pre : list Config.RuleItem) (rule : Config.RuleItem)
         (post : list Config.RuleItem) (f : nat) (v err : Js.value)
         (w w0 w1 w2 : Run.world U) (u3 : U),
    Statics.isObject form = true ->
    TS._rules V !! field = Some (pre ++ rule :: post) ->
    TS.run_rules E V field form fieldWrap pre w = (Run.Ok Config.Resolved, w0) ->
    TS.run_chain E V field form fieldWrap rule (firstn 6 (TS.chain E)) w0
      = (Run.Ok None, w1) ->
    TS.argument E V field form w1 = (Run.Ok v, w2) ->
    Statics.isEmpty v = false ->
    Config.validator rule = Js.VFun f ->
    Obs.fails_with E f v (Run.ust w2) err u3 ->
    err <> Js.VNull ->
    Obs.notifies E V
      (if Js.truthy (Obs.payload_message err)
       then Obs.payload_message err else Config.message rule) ->
    exists w',
      TS.validateField E V field form fieldWrap w
      = (Config.Returned
           (Config.Rejected
              (TS.reason field fieldWrap
                 (Config.with_message rule
                    (if Js.truthy (Obs.payload_message err)
                     then Obs.payload_message err
                     else Config.message rule)))), w').
Proof.
  intros U E V field form fieldWrap pre rule post f v err w w0 w1 w2 u3
         Hobj Hrules Hpre Hsix Harg Hv Hf Hfail Hnull Hnot.
  unfold TS.validateField. rewrite Hobj, Hrules. cbn [negb].
  unfold Run.new_promise.
  rewrite run_rules_app, Hpre, run_rules_cons.
  unfold Run.bind at 1. rewrite run_chain_split, Hsix, run_chain_cons.
  rewrite (bind_ok _ _ _ _ _ Harg).
  rewrite (bind_ok _ _ _ _ _
             (ts_custom_on_failure E rule f v field err w2 u3 Hv Hf Hfail Hnull)).
  cbn [negb]. cbv zeta.
  match goal with
  | |- context [Run.bind (TS.notify E V _) _ ?w3] =>
      destruct (Hnot w3) as (w4 & Hn)
  end.
  rewrite (bind_ok _ _ _ _ _ Hn). cbn. now exists w4.
Qed.

Lemma custom_failure_message_witness :
  exists w',
    TS.validateField Sample.env (Sample.ts_with (Sample.custom_rule 1)) "name"
      (Sample.form_of (Js.VStr "x")) false Sample.start
    = (Config.Returned
         (Config.Rejected
            (Config.Bare
               (Config.with_message (Sample.custom_rule 1) (Js.VStr "wrong")))),
       w').
Proof.
  apply (custom_failure_message nat Sample.env
           (Sample.ts_with (Sample.custom_rule 1)) "name"
           (Sample.form_of (Js.VStr "x")) false [] (Sample.custom_rule 1) []
           1%nat (Js.VStr "x") (Js.VStr "wrong") Sample.start Sample.start
           (snd (TS.run_chain Sample.env (Sample.ts_with (Sample.custom_rule 1))
                   "name" (Sample.form_of (Js.VStr "x")) false
                   (Sample.custom_rule 1) (firstn 6 (TS.chain Sample.env))
                   Sample.start))
           (snd (TS.run_chain Sample.env (Sample.ts_with (Sample.custom_rule 1))
                   "name" (Sample.form_of (Js.VStr "x")) false
                   (Sample.custom_rule 1) (firstn 6 (TS.chain Sample.env))
                   Sample.start))
           0%nat).
  - reflexivity.
  - vm_compute. reflexivity.
  - reflexivity.
  - vm_compute. reflexivity.
  - vm_compute. reflexivity.
  - reflexivity.
  - reflexivity.
  - right. exists 1%nat. reflexivity.
  - discriminate.
  - intros w. exists w. reflexivity.
Defined.

(** C4, as stated, fails on a validator that rejects with the empty string:
    the reported rule keeps its own message "static". *)
Lemma empty_payload_keeps_the_rule_message :
  Obs.fails_with Sample.env 3 (Js.VStr "x") 0%nat (Js.VStr "") 0%nat
  /\ fst (TS.validateField Sample.env (Sample.ts_with (Sample.custom_rule 3))
            "name" (Sample.form_of (Js.VStr "x")) false Sample.start)
     = Config.Returned (Config.Rejected (Config.Bare (Sample.custom_rule 3)))
  /\ Config.message (Sample.custom_rule 3) = Js.VStr "static"
  /\ Config.message (Sample.custom_rule 3) <> Js.VStr "".
Proof.
  split; [right; exists 2%nat; reflexivity|].
  split; [vm_compute; reflexivity|].
  split; [reflexivity | discriminate].
Qed.

(** A validator that rejects with [null] makes the [catch] block itself
    throw, when it reads [err.message]: no failure is reported and the
    promise of [validateField] never settles. *)
Lemma null_payload_never_settles :
  Obs.fails_with Sample.env 4 (Js.VStr "x") 0%nat Js.VNull 0%nat
  /\ fst (TS.validateField Sample.env (Sample.ts_with (Sample.custom_rule 4))
            "name" (Sample.form_of (Js.VStr "x")) false Sample.start)
     = Config.Returned Config.Pending.
Proof.
  split; [right; exists 3%nat; reflexivity | vm_compute; reflexivity].
Qed.

(** ** The aggregate validator *)

Section Join.
Import Js Config Run Obs.
Context {U R : Type}.
Variable entry : R -> option (string * RuleItem).

Lemma rejected_spec (results : list (string * promise R)) err :
  err ∈ Aggregate.rejected results.*2 <->
  exists field, (field, Rejected err) ∈ results.
Proof.
  induction results as [|[g q] results IH]; cbn.
  - split; [intros H; inversion H | intros [f H]; inversion H].
  - assert (Htail : (exists f, (f, Rejected err) ∈ results) ->
                    exists f, (f, Rejected err) ∈ (g, q) :: results).
    { intros [f Hf]. exists f. now right. }
    destruct q as [|e|]; cbn; rewrite ?elem_of_cons, IH; split; auto.
    + intros [f Hf]. apply elem_of_cons in Hf as [Hf | Hf];
        [discriminate | now exists f].
    + intros [-> | H]; [exists g; now left | auto].
    + intros [f Hf]. apply elem_of_cons in Hf as [Hf | Hf].
      * injection Hf as -> ->. now left.
      * right. now exists f.
    + intros [f Hf]. apply elem_of_cons in Hf as [Hf | Hf];
        [discriminate | now exists f].
Qed.

Lemma pending_spec (results : list (string * promise R)) :
  existsb Aggregate.is_pending results.*2 = true <->
  exists field, (field, Pending) ∈ results.
Proof.
  induction results as [|[g q] results IH]; cbn.
  - split; [discriminate | intros [f H]; inversion H].
  - rewrite orb_true_iff, IH. split.
    + intros [Hq | [f Hf]].
      * destruct q; try discriminate. exists g. now left.
      * exists f. now right.
    + intros [f Hf]. apply elem_of_cons in Hf as [Hf | Hf].
      * injection Hf as -> <-. now left.
      * right. now exists f.
Qed.

Lemma entries_map_cons acc err (errors : list R) :
  entries_map entry acc (err :: errors)
  = entries_map entry
      (match entry err with
       | Some (field, rule) => <[field := rule]> acc
       | None => acc
       end) errors.
Proof. reflexivity. Qed.

(** The map after the rejections of [results] were entered over [acc]. *)
Lemma entries_map_lookup (results : list (string * promise R)) :
  NoDup results.*1 ->
  Forall (own_entry entry) results ->
  forall acc field rule,
    entries_map entry acc (Aggregate.rejected results.*2) !! field = Some rule
    <-> (exists err, (field, Rejected err) ∈ results
                     /\ entry err = Some (field, rule))
        \/ (acc !! field = Some rule
            /\ forall err, (field, Rejected err) ∉ results).
Proof.
  induction results as [|[g q] results IH]; intros Hnd Hown acc field rule.
  - cbn. split.
    + intros H. right. split; [exact H|]. intros err Herr. inversion Herr.
    + intros [(err & Herr & _) | [H _]]; [inversion Herr | exact H].
  - cbn in Hnd. apply NoDup_cons in Hnd as [Hg Hnd].
    apply Forall_cons in Hown as [Hq Hown].
    assert (Hfresh : forall q', (g, q') ∉ results).
    { intros q' Hin. apply Hg. apply list_elem_of_fmap. now exists (g, q'). }
    rewrite fmap_cons. cbn [snd].
    destruct q as [|e|]; cbn [Aggregate.rejected].
    + rewrite (IH Hnd Hown). split.
      * intros [(err & Herr & He) | [Hacc Hno]].
        -- left. exists err. split; [now right | exact He].
        -- right. split; [exact Hacc|]. intros err Herr.
           apply elem_of_cons in Herr as [Herr | Herr]; [discriminate|].
           now apply (Hno err).
      * intros [(err & Herr & He) | [Hacc Hno]].
        -- left. exists err. split; [|exact He].
           apply elem_of_cons in Herr as [Herr | Herr]; [discriminate | exact Herr].
        -- right. split; [exact Hacc|]. intros err Herr.
           apply (Hno err). now right.
    + destruct (Hq e eq_refl) as (r0 & He0). cbn in He0.
      rewrite entries_map_cons, He0.
      rewrite (IH Hnd Hown). split.
      * intros [(err & Herr & He) | [Hacc Hno]].
        -- left. exists err. split; [now right | exact He].
        -- destruct (decide (g = field)) as [-> | Hne].
           ++ rewrite lookup_insert_eq in Hacc. injection Hacc as ->.
              left. exists e. split; [now left | exact He0].
           ++ rewrite lookup_insert_ne in Hacc by exact Hne.
              right. split; [exact Hacc|]. intros err Herr.
              apply elem_of_cons in Herr as [Herr | Herr];
                [injection Herr as -> _; contradiction | now apply (Hno err)].
      * intros [(err & Herr & He) | [Hacc Hno]].
        -- apply elem_of_cons in Herr as [Herr | Herr].
           ++ injection Herr as -> ->. right.
              rewrite lookup_insert_eq. split; [congruence|].
              intros err Herr. now apply (Hfresh (Rejected err)).
           ++ left. now exists err.
        -- right. destruct (decide (g = field)) as [-> | Hne].
           ++ exfalso. apply (Hno e). now left.
           ++ rewrite lookup_insert_ne by exact Hne. split; [exact Hacc|].
              intros err Herr. apply (Hno err). now right.
    + rewrite (IH Hnd Hown). split.
      * intros [(err & Herr & He) | [Hacc Hno]].
        -- left. exists err. split; [now right | exact He].
        -- right. split; [exact Hacc|]. intros err Herr.
           apply elem_of_cons in Herr as [Herr | Herr]; [discriminate|].
           now apply (Hno err).
      * intros [(err & Herr & He) | [Hacc Hno]].
        -- left. exists err. split; [|exact He].
           apply elem_of_cons in Herr as [Herr | Herr]; [discriminate | exact Herr].
        -- right. split; [exact Hacc|]. intros err Herr.
           apply (Hno err). now right.
Qed.

(** The join, for any way [errorsMap] of building the map that enters the
    rejections in order. *)
Lemma join_aggregates errorsMap (results : list (string * promise R)) :
  (forall errors, errorsMap errors = entries_map entry ∅ errors) ->
  NoDup results.*1 ->
  Forall (own_entry entry) results ->
  aggregates entry results (Aggregate.join errorsMap results.*2).
Proof.
  intros Hmap Hnd Hown. unfold aggregates, Aggregate.join.
  destruct (existsb Aggregate.is_pending results.*2) eqn:Hpend.
  - apply pending_spec in Hpend as [f Hf]. repeat split.
    + intros Hall. specialize (Hall f Pending Hf). discriminate.
    + intros Hno _. exfalso. now apply (Hno f).
  - assert (Hnone : forall f, (f, Pending) ∉ results).
    { intros f Hf. assert (H : existsb Aggregate.is_pending results.*2 = true)
        by (apply pending_spec; now exists f). congruence. }
    destruct (Aggregate.rejected results.*2) as [|e0 errs] eqn:Hrej.
    + cbn. repeat split.
      * intros [f Hf]. exfalso. now apply (Hnone f).
      * intros _ (f & err & Hf). exfalso.
        assert (H : err ∈ Aggregate.rejected results.*2)
          by (apply rejected_spec; now exists f).
        rewrite Hrej in H. inversion H.
    + cbn [length Nat.ltb Nat.leb]. repeat split.
      * intros Hall.
        assert (H : e0 ∈ Aggregate.rejected results.*2)
          by (rewrite Hrej; now left).
        apply rejected_spec in H as [f Hf].
        specialize (Hall f _ Hf). discriminate.
      * intros [f Hf]. exfalso. now apply (Hnone f).
      * intros _ _. exists (errorsMap (e0 :: errs)). split; [reflexivity|].
        intros field rule. rewrite Hmap, <- Hrej.
        rewrite (entries_map_lookup results Hnd Hown). split.
        -- intros [H | [H _]]; [exact H | now rewrite lookup_empty in H].
        -- intros H. now left.
Qed.

End Join.

Section TSAggregate.
Import Js Config Run Statics Obs.
Context {U : Type} (E : Env U).
Local Open Scope run_scope.

Lemma ts_errorsMap_entries errors :
  TS.errorsMap errors = entries_map ts_entry ∅ errors.
Proof.
  unfold TS.errorsMap, entries_map. generalize (∅ : gmap string RuleItem).
  induction errors as [|err errors IH]; intros acc; [reflexivity|].
  cbn [foldl]. rewrite IH. now destruct err.
Qed.

Lemma ts_field_returns V field form fieldWrap (w : world U) :
  isObject form = true ->
  exists p w', TS.validateField E V field form fieldWrap w = (Returned p, w').
Proof.
  intros Hobj. unfold TS.validateField. rewrite Hobj. cbn [negb].
  destruct (TS._rules V !! field) as [rules|]; [|now exists Resolved, w].
  destruct (new_promise (TS.run_rules E V field form fieldWrap rules) w)
    as [p w'].
  now exists p, w'.
Qed.

Lemma ts_chain_rejection V field form fieldWrap rule
    (todo : list (RuleItem -> value -> string -> M U StepRes))
    (w : world U) err w' :
  TS.run_chain E V field form fieldWrap rule todo w = (Ok (Some err), w') ->
  exists msg, err = TS.reason field fieldWrap (with_message rule msg).
Proof.
  revert w. induction todo as [|m todo IH]; intros w; [discriminate|].
  rewrite run_chain_cons. unfold bind.
  destruct (TS.argument E V field form w) as [[arg|e|] w1]; try discriminate.
  destruct (m rule arg field w1) as [[res|e|] w2]; try discriminate.
  destruct res as [[|]|[|] msg]; cbn [negb]; cbv zeta; try apply IH;
    match goal with
    | |- context [TS.notify E V ?m w2] =>
        destruct (TS.notify E V m w2) as [[[]|e|] w3]
    end; try discriminate;
    intros [= <- <-]; eauto.
Qed.

Lemma ts_rules_rejection V field form fieldWrap rules (w : world U) err w' :
  TS.run_rules E V field form fieldWrap rules w = (Ok (Rejected err), w') ->
  exists pre rule post w0,
    rules = pre ++ rule :: post
    /\ TS.run_rules E V field form fieldWrap pre w = (Ok Resolved, w0)
    /\ TS.run_chain E V field form fieldWrap rule (TS.chain E) w0
       = (Ok (Some err), w').
Proof.
  revert w. induction rules as [|r rules IH]; intros w; [discriminate|].
  rewrite run_rules_cons. unfold bind.
  destruct (TS.run_chain E V field form fieldWrap r (TS.chain E) w)
    as [[[e|]|e|] w1] eqn:Hr; try discriminate.
  - intros [= <- <-]. now exists [], r, rules, w.
  - intros H. destruct (IH w1 H) as (pre & rule & post & w0 & -> & Hpre & Hrule).
    exists (r :: pre), rule, post, w0. repeat split; auto.
    rewrite run_rules_cons. unfold bind. now rewrite Hr.
Qed.

(** A task of [validate] that rejects does so with the first failing rule
    of its field, wrapped with the name of the field. *)
Lemma ts_task_rejection V field form (w : world U) err w' :
  TS.validateField E V field form true w = (Returned (Rejected err), w') ->
  ts_first_failure E V field form w err w'.
Proof.
  unfold TS.validateField.
  destruct (negb (isObject form)); [discriminate|].
  destruct (TS._rules V !! field) as [rules|] eqn:Hrules; [|discriminate].
  unfold new_promise.
  destruct (TS.run_rules E V field form true rules w) as [[p|e|] w1] eqn:Hrun;
    try discriminate.
  intros [= -> ->].
  destruct (ts_rules_rejection _ _ _ _ _ _ _ _ Hrun)
    as (pre & rule & post & w0 & -> & Hpre & Hrule).
  destruct (ts_chain_rejection _ _ _ _ _ _ _ _ _ Hrule) as (msg & ->).
  now exists pre, rule, post, msg, w0.
Qed.
End TSAggregate.

Section V2Aggregate.
Import Js Config Run Statics Obs.
Context {U : Type} (E : Env U).
Local Open Scope run_scope.

Lemma v2_errorsMap_entries errors :
  V2.errorsMap errors = entries_map v2_entry ∅ errors.
Proof.
  unfold V2.errorsMap, entries_map. generalize (∅ : gmap string RuleItem).
  induction errors as [|err errors IH]; intros acc; [reflexivity|].
  cbn [foldl]. rewrite IH. now destruct err.
Qed.

Lemma v2_field_returns V field form (w : world U) :
  isObject form = true ->
  exists p w', V2.validateField E V field form w = (Returned p, w').
Proof.
  intros Hobj. unfold V2.validateField. rewrite Hobj. cbn [negb].
  destruct (V2._rules V !! field) as [rules|]; [|now exists Resolved, w].
  destruct (new_promise _ w) as [p w'].
  now exists p, w'.
Qed.

(** One turn of the inner loop of 2.0.0. *)
Lemma v2_run_chain_cons field form configured rule
    (validator : RuleItem -> value -> string -> M U StepRes) rest :
  V2.run_chain E field form configured rule (validator :: rest)
  = (raw <- get_prop form field ;;
     arg <- V2.currentTransform E configured raw ;;
     validateRes <- validator rule arg field ;;
     let '(pass, errMsg) :=
       match validateRes with
       | RObj pass message => (pass, message)
       | RBool b => (b, VUndefined)
       end in
     if negb pass then
       ret (Some (field,
                  with_message rule
                    (if truthy errMsg then errMsg else message rule)))
     else V2.run_chain E field form configured rule rest).
Proof. reflexivity. Qed.

Lemma v2_run_rules_cons field form configured rule rest :
  V2.run_rules E field form configured (rule :: rest)
  = (r <- V2.run_chain E field form configured rule (V2.chain E) ;;
     match r with
     | Some err => ret (Rejected err)
     | None => V2.run_rules E field form configured rest
     end).
Proof. reflexivity. Qed.

Lemma v2_chain_rejection field form configured rule
    (todo : list (RuleItem -> value -> string -> M U StepRes))
    (w : world U) err w' :
  V2.run_chain E field form configured rule todo w = (Ok (Some err), w') ->
  exists msg, err = (field, with_message rule msg).
Proof.
  revert w. induction todo as [|m todo IH]; intros w; [discriminate|].
  rewrite v2_run_chain_cons. unfold bind.
  destruct (get_prop form field w) as [[raw|e|] w0]; try discriminate.
  destruct (V2.currentTransform E configured raw w0) as [[arg|e|] w1];
    try discriminate.
  destruct (m rule arg field w1) as [[res|e|] w2]; try discriminate.
  destruct res as [[|]|[|] msg]; cbn [negb]; try apply IH;
    intros [= <- <-]; eauto.
Qed.

Lemma v2_rules_rejection field form configured rules (w : world U) err w' :
  V2.run_rules E field form configured rules w = (Ok (Rejected err), w') ->
  exists pre rule post w0,
    rules = pre ++ rule :: post
    /\ V2.run_rules E field form configured pre w = (Ok Resolved, w0)
    /\ V2.run_chain E field form configured rule (V2.chain E) w0
       = (Ok (Some err), w').
Proof.
  revert w. induction rules as [|r rules IH]; intros w; [discriminate|].
  rewrite v2_run_rules_cons. unfold bind.
  destruct (V2.run_chain E field form configured r (V2.chain E) w)
    as [[[e|]|e|] w1] eqn:Hr; try discriminate.
  - intros [= <- <-]. now exists [], r, rules, w.
  - intros H. destruct (IH w1 H) as (pre & rule & post & w0 & -> & Hpre & Hrule).
    exists (r :: pre), rule, post, w0. repeat split; auto.
    rewrite v2_run_rules_cons. unfold bind. now rewrite Hr.
Qed.

Lemma v2_task_rejection V field form (w : world U) err w' :
  V2.validateField E V field form w = (Returned (Rejected err), w') ->
  v2_first_failure E V field form w err w'.
Proof.
  unfold V2.validateField.
  destruct (negb (isObject form)); [discriminate|].
  destruct (V2._rules V !! field) as [rules|] eqn:Hrules; [|discriminate].
  unfold new_promise, bind, V2.lookup_transform.
  destruct (V2._transform V) as [transforms|] eqn:Htr; [|discriminate].
  cbn [ret].
  destruct (V2.run_rules E field form (lookup_prop field transforms) rules w)
    as [[p|e|] w1] eqn:Hrun; try discriminate.
  intros [= -> ->].
  destruct (v2_rules_rejection _ _ _ _ _ _ _ Hrun)
    as (pre & rule & post & w0 & -> & Hpre & Hrule).
  destruct (v2_chain_rejection _ _ _ _ _ _ _ _ Hrule) as (msg & ->).
  now exists transforms, pre, rule, post, msg, w0.
Qed.
End V2Aggregate.

Section Keys.
Context {A : Type}.

Lemma keys_NoDup (m : gmap string A) : NoDup (Aggregate.keys m).
Proof. apply NoDup_fst_map_to_list. Qed.

Lemma keys_spec (m : gmap string A) field :
  field ∈ Aggregate.keys m <-> is_Some (m !! field).
Proof.
  unfold Aggregate.keys. rewrite list_elem_of_fmap. split.
  - intros ([k x] & -> & Hkx). apply elem_of_map_to_list in Hkx. now exists x.
  - intros [x Hx]. exists (field, x). split; [reflexivity|].
    now apply elem_of_map_to_list.
Qed.
End Keys.

(** ** The tasks of [validate], turn by turn *)

Section TurnsLoop.
Import Js Config Run Statics Turns.
Context {U R L : Type}.
Local Open Scope run_scope.
Variables (chain : list (check (U:=U))) (field : string).
Variable argument : L -> M U value.
Variable verdict : RuleItem -> StepRes -> M U (option R).

Local Notation "'stepL'" := (step (R:=R) field argument).
Local Notation "'rulesL'" := (rules_from (R:=R) chain field argument).
Local Notation "'resumeL'" := (resume chain field argument verdict).

Lemma step_cons l rule validator rest later next :
  stepL l rule (validator :: rest) later next
  = (arg <- argument l ;;
     validateRes <- validator rule arg field ;;
     ret (Waiting (mkStage l rule rest later validateRes))).
Proof. reflexivity. Qed.

(** A check that was called leaves the task waiting, with one check less
    to come. *)
Lemma step_waits l rule todo later next w s w' :
  todo <> [] ->
  stepL l rule todo later next w = (Ok (Waiting s), w') ->
  locals s = l /\ Turns.rule s = rule /\ Turns.later s = later
  /\ S (length (Turns.todo s)) = length todo.
Proof.
  destruct todo as [|validator rest]; [congruence|]. intros _.
  rewrite step_cons. unfold bind, ret.
  destruct (argument l w) as [[arg|e|] w1]; try discriminate.
  destruct (validator rule arg field w1) as [[r|e|] w2]; try discriminate.
  intros [= <- <-]. now cbn.
Qed.

Lemma step_settles l rule todo later next w p w' :
  todo <> [] ->
  stepL l rule todo later next w <> (Ok (Settled p), w').
Proof.
  destruct todo as [|validator rest]; [congruence|]. intros _.
  rewrite step_cons. unfold bind, ret.
  destruct (argument l w) as [[arg|e|] w1]; try discriminate.
  destruct (validator rule arg field w1) as [[r|e|] w2]; discriminate.
Qed.

Lemma rules_from_cons l rule later :
  rulesL l (rule :: later) = stepL l rule chain later (rulesL l later).
Proof. reflexivity. Qed.

Lemma rules_from_size l rules w s w' :
  rulesL l rules w = (Ok (Waiting s), w') ->
  (size chain s < length chain * length rules)%nat.
Proof.
  revert w. induction rules as [|rule later IH]; intros w; [discriminate|].
  rewrite rules_from_cons.
  destruct chain as [|validator rest] eqn:Hchain.
  - cbn [step]. intros H. apply IH in H. cbn in H. lia.
  - rewrite <- Hchain. intros H.
    apply step_waits in H as (_ & _ & Hlater & Htodo); [|now rewrite Hchain].
    unfold size. rewrite Hlater. cbn [length]. lia.
Qed.

(** Every turn leaves the task with fewer turns to take. *)
Lemma resume_size s w s' w' :
  executor (resumeL s) w = (Waiting s', w') ->
  (size chain s' < size chain s)%nat.
Proof.
  unfold executor, resume, bind.
  destruct (verdict (rule s) (awaited s) w) as [[[err|]|e|] w1]; try discriminate.
  destruct (Turns.todo s) as [|validator rest] eqn:Htodo.
  - cbn [step].
    destruct (rulesL (locals s) (later s) w1) as [[t|e|] w2] eqn:Hrun;
      try discriminate.
    intros [= -> <-]. apply rules_from_size in Hrun.
    unfold size at 2. rewrite Htodo. cbn [length]. lia.
  - destruct (stepL (locals s) (rule s) (validator :: rest) (later s) _ w1)
      as [[t|e|] w2] eqn:Hrun; try discriminate.
    intros [= -> <-].
    apply step_waits in Hrun as (_ & _ & Hlater & Hlen); [|discriminate].
    unfold size. rewrite Htodo, Hlater. cbn [length] in *. lia.
Qed.

(** *** Where a task stands among the rules of its field *)

Variable rule_of : R -> option (string * RuleItem).
Hypothesis Hverdict : forall rule validateRes w err w',
  verdict rule validateRes w = (Ok (Some err), w') ->
  exists msg, rule_of err = Some (field, with_message rule msg).

Lemma rules_from_placed currentRules l rules passed w t w' :
  currentRules = passed ++ rules ->
  rulesL l rules w = (Ok t, w') ->
  placed stage_position rule_of field currentRules t.
Proof.
  revert passed w. induction rules as [|rule later IH]; intros passed w Hsplit.
  - intros [= <- <-]. exact I.
  - rewrite rules_from_cons.
    destruct chain as [|validator rest] eqn:Hchain.
    + cbn [step]. apply (IH (passed ++ [rule])).
      now rewrite <- app_assoc.
    + rewrite <- Hchain. intros Hrun. destruct t as [s|p].
      * apply step_waits in Hrun as (_ & Hrule & Hlater & _);
          [|now rewrite Hchain].
        exists passed. cbn [stage_position fst snd]. now rewrite Hrule, Hlater.
      * exfalso. revert Hrun. apply step_settles. now rewrite Hchain.
Qed.

Lemma resume_placed currentRules s w :
  placed stage_position rule_of field currentRules (Waiting s) ->
  placed stage_position rule_of field currentRules (executor (resumeL s) w).1.
Proof.
  intros [passed Hsplit]. unfold executor, resume, bind.
  destruct (verdict (rule s) (awaited s) w) as [[[err|]|e|] w1] eqn:Hv;
    try exact I.
  - apply Hverdict in Hv as [msg Hmsg]. cbn.
    now exists passed, (rule s), (later s), msg.
  - destruct (Turns.todo s) as [|validator rest] eqn:Htodo.
    + cbn [step].
      destruct (rulesL (locals s) (later s) w1) as [[t|e|] w2] eqn:Hrun;
        try exact I.
      cbn [fst]. eapply (rules_from_placed _ _ _ (passed ++ [rule s]));
        [|exact Hrun]. now rewrite <- app_assoc.
    + destruct (stepL (locals s) (rule s) (validator :: rest) (later s) _ w1)
        as [[t|e|] w2] eqn:Hrun; try exact I.
      cbn [fst]. destruct t as [s'|p].
      * apply step_waits in Hrun as (_ & Hrule & Hlater & _); [|discriminate].
        exists passed. cbn [stage_position fst snd]. now rewrite Hrule, Hlater.
      * exfalso. revert Hrun. now apply step_settles.
Qed.
End TurnsLoop.

Section TurnsAlone.
Import Js Config Run Statics Turns.
Context {U R L : Type}.
Local Open Scope run_scope.

Lemma executor_bind {A St} (m : M U A) (k : A -> M U (task St R)) w :
  executor (x <- m ;; k x) w
  = match m w with
    | (Ok a, w1) => executor (k a) w1
    | (_, w1) => (Settled Pending, w1)
    end.
Proof. unfold executor, bind. now destruct (m w) as [[a|e|] w1]. Qed.

Lemma new_promise_bind {A} (m : M U A) (k : A -> M U (promise R)) w :
  new_promise (x <- m ;; k x) w
  = match m w with
    | (Ok a, w1) => new_promise (k a) w1
    | (_, w1) => (Pending, w1)
    end.
Proof. unfold new_promise, bind. now destruct (m w) as [[a|e|] w1]. Qed.

Lemma new_promise_ext (m m' : M U (promise R)) w :
  m w = m' w -> new_promise m w = new_promise m' w.
Proof. unfold new_promise. now intros ->. Qed.

Lemma finished_promise {St} (x : task St R * world U)
    (q : promise R * world U) :
  x = (let '(p, w') := q in (Settled p, w')) ->
  (let '(t, w) := x in (Returned (promise_of t), w))
  = (let '(p, w') := q in (Returned p, w')).
Proof. intros ->. now destruct q. Qed.

Variables (chain : list (check (U:=U))) (field : string).
Variable argument : L -> M U value.
Variable verdict : RuleItem -> StepRes -> M U (option R).
Variable resumeF : string -> stage U L -> M U (task (stage U L) R).
Hypothesis HresumeF : forall s,
  resumeF field s = resume chain field argument verdict s.

(** The two loops as [validateField] runs them when nothing comes in
    between. *)
Variable run_chain : L -> RuleItem -> list (check (U:=U)) -> M U (option R).
Variable run_rules : L -> list RuleItem -> M U (promise R).
Hypothesis Hchain_nil : forall l rule w, run_chain l rule [] w = (Ok None, w).
Hypothesis Hchain_cons : forall l rule validator rest w,
  run_chain l rule (validator :: rest) w
  = (arg <- argument l ;;
     validateRes <- validator rule arg field ;;
     r <- verdict rule validateRes ;;
     match r with
     | Some err => ret (Some err)
     | None => run_chain l rule rest
     end) w.
Hypothesis Hrules_nil : forall l w, run_rules l [] w = (Ok Resolved, w).
Hypothesis Hrules_cons : forall l rule later w,
  run_rules l (rule :: later) w
  = (r <- run_chain l rule chain ;;
     match r with
     | Some err => ret (Rejected err)
     | None => run_rules l later
     end) w.

Local Notation "'onward' l" := (rest_of (run_chain l) (run_rules l))
  (at level 10, l at level 9).

Lemma rest_of_nil l rule later w :
  onward l rule [] later w = run_rules l later w.
Proof. unfold rest_of, bind. now rewrite Hchain_nil. Qed.

Lemma rest_of_cons l rule validator rest later w :
  onward l rule (validator :: rest) later w
  = (arg <- argument l ;;
     validateRes <- validator rule arg field ;;
     r <- verdict rule validateRes ;;
     match r with
     | Some err => ret (Rejected err)
     | None => onward l rule rest later
     end) w.
Proof.
  unfold rest_of, bind. rewrite Hchain_cons. unfold bind.
  destruct (argument l w) as [[arg|e|] w1]; try reflexivity.
  destruct (validator rule arg field w1) as [[res|e|] w2]; try reflexivity.
  destruct (verdict rule res w2) as [[[err|]|e|] w3]; reflexivity.
Qed.

Lemma finish_settled n p (w : world U) :
  finish resumeF n field (Settled p) w = (Settled p, w).
Proof. now destruct n. Qed.

(** A check and what follows it, turn by turn and in one go. *)
Lemma finish_cons l rule validator rest later n w :
  (forall w', (let '(t, w1) :=
                 executor (step field argument l rule rest later
                             (rules_from chain field argument l later)) w' in
               finish resumeF n field t w1)
              = (let '(p, w2) := new_promise (onward l rule rest later) w' in
                 (Settled p, w2))) ->
  (let '(t, w1) :=
     executor (step field argument l rule (validator :: rest) later
                 (rules_from chain field argument l later)) w in
   finish resumeF (S n) field t w1)
  = (let '(p, w') :=
       new_promise (onward l rule (validator :: rest) later) w in
     (Settled p, w')).
Proof.
  intros IH. rewrite step_cons.
  rewrite (new_promise_ext _ _ _ (rest_of_cons l rule validator rest later w)).
  rewrite executor_bind, new_promise_bind.
  destruct (argument l w) as [[arg|e|] w1]; try apply finish_settled.
  rewrite executor_bind, new_promise_bind.
  destruct (validator rule arg field w1) as [[res|e|] w2];
    try apply finish_settled.
  unfold executor at 1, ret at 1. cbn [finish]. rewrite HresumeF.
  unfold resume. cbn [Turns.rule awaited Turns.todo Turns.later locals].
  rewrite executor_bind, new_promise_bind.
  destruct (verdict rule res w2) as [[[err|]|e|] w3];
    try apply finish_settled.
  apply IH.
Qed.

Lemma finish_step l later :
  forall rule todo n w,
    (length todo + length chain * length later <= n)%nat ->
    (let '(t, w1) :=
       executor (step field argument l rule todo later
                   (rules_from chain field argument l later)) w in
     finish resumeF n field t w1)
    = (let '(p, w') := new_promise (onward l rule todo later) w in
       (Settled p, w')).
Proof.
  induction later as [|next later IH]; intros rule todo;
    induction todo as [|validator rest IHtodo]; intros n w Hn.
  - cbn [step rules_from].
    rewrite (new_promise_ext _ _ _ (rest_of_nil l rule [] w)).
    unfold executor, new_promise, ret. rewrite Hrules_nil.
    apply finish_settled.
  - cbn [length] in Hn. destruct n as [|n]; [lia|].
    apply finish_cons. intros w'. apply IHtodo. cbn [length]. lia.
  - cbn [step]. rewrite rules_from_cons.
    rewrite (IH next chain n w) by (cbn [length] in Hn; nia).
    rewrite (new_promise_ext _ _ _ (rest_of_nil l rule (next :: later) w)).
    unfold new_promise, rest_of. now rewrite Hrules_cons.
  - cbn [length] in Hn. destruct n as [|n]; [lia|].
    apply finish_cons. intros w'. apply IHtodo. cbn [length]. lia.
Qed.

(** The rules of a field, turn by turn and in one go. *)
Lemma finish_rules l rules n w :
  (length chain * length rules <= n)%nat ->
  (let '(t, w1) := executor (rules_from chain field argument l rules) w in
   finish resumeF n field t w1)
  = (let '(p, w') := new_promise (run_rules l rules) w in (Settled p, w')).
Proof.
  intros Hn. destruct rules as [|rule later].
  - cbn [rules_from]. unfold executor, new_promise, ret.
    rewrite Hrules_nil. apply finish_settled.
  - rewrite rules_from_cons.
    rewrite (finish_step l later rule chain n w)
      by (cbn [length] in Hn; nia).
    unfold new_promise, rest_of. now rewrite Hrules_cons.
Qed.
End TurnsAlone.

Section TurnsPool.
Import Js Config Run Statics Turns.
Context {U St R : Type}.
Local Open Scope run_scope.
Variable start_task : string -> M U (task St R).
Variable resume : string -> St -> M U (task St R).

Local Notation "'startP'" := (start start_task).
Local Notation "'turnP'" := (turn resume).
Local Notation "'turnsP'" := (turns resume).

Lemma start_cons field rest w :
  startP (field :: rest) w
  = match start_task field w with
    | (Ok t, w1) =>
        match startP rest w1 with
        | (Ok ts, w2) => (Ok ((field, t) :: ts), w2)
        | (Raise e, w2) => (Raise e, w2)
        | (Suspended, w2) => (Suspended, w2)
        end
    | (Raise e, w1) => (Raise e, w1)
    | (Suspended, w1) => (Suspended, w1)
    end.
Proof.
  cbn [start]. unfold bind, ret. reflexivity.
Qed.

(** Every field gets its task, in order. *)
Lemma start_fields fields w ps w' :
  startP fields w = (Ok ps, w') -> ps.*1 = fields.
Proof.
  revert w ps. induction fields as [|field rest IH]; intros w ps.
  - now intros [= <- <-].
  - rewrite start_cons.
    destruct (start_task field w) as [[t|e|] w1]; try discriminate.
    destruct (startP rest w1) as [[ts|e|] w2] eqn:Hrest; try discriminate.
    intros [= <- <-]. cbn. f_equal. now apply (IH w1).
Qed.

(** When no call of [validateField] throws, [map] goes through. *)
Lemma start_total fields :
  (forall field w, exists t w', start_task field w = (Ok t, w')) ->
  forall w, exists ps w', startP fields w = (Ok ps, w').
Proof.
  intros Hstart. induction fields as [|field rest IH]; intros w.
  - now exists [], w.
  - rewrite start_cons. destruct (Hstart field w) as (t & w1 & ->).
    destruct (IH w1) as (ts & w2 & ->). now eexists _, _.
Qed.

Lemma turn_fields i ps w : (turnP i ps w).1.*1 = ps.*1.
Proof.
  unfold turn. destruct (ps !! i) as [[field [s|p]]|] eqn:Hi; try reflexivity.
  destruct (executor (resume field s) w) as [t w']. cbn [fst].
  rewrite list_fmap_insert. cbn [fst]. apply list_insert_id.
  rewrite list_lookup_fmap, Hi. reflexivity.
Qed.

Lemma turns_fields schedule ps w : (turnsP schedule ps w).1.*1 = ps.*1.
Proof.
  revert ps w. induction schedule as [|i rest IH]; intros ps w; [reflexivity|].
  cbn [turns]. pose proof (turn_fields i ps w) as Hi.
  destruct (turnP i ps w) as [ps' w']. rewrite IH. exact Hi.
Qed.

(** *** What holds of every task *)

Variable inv : string -> task St R -> Prop.
Hypothesis Hstart : forall field w t w',
  start_task field w = (Ok t, w') -> inv field t.
Hypothesis Hresume : forall field s w,
  inv field (Waiting s) -> inv field (executor (resume field s) w).1.

Lemma start_inv fields w ps w' :
  startP fields w = (Ok ps, w') -> Forall (fun ft => inv ft.1 ft.2) ps.
Proof.
  revert w ps. induction fields as [|field rest IH]; intros w ps.
  - intros [= <- <-]. constructor.
  - rewrite start_cons.
    destruct (start_task field w) as [[t|e|] w1] eqn:Ht; try discriminate.
    destruct (startP rest w1) as [[ts|e|] w2] eqn:Hrest; try discriminate.
    intros [= <- <-]. constructor; [now apply (Hstart field w t w1)|].
    now apply (IH w1).
Qed.

Lemma turn_inv i ps w :
  Forall (fun ft => inv ft.1 ft.2) ps ->
  Forall (fun ft => inv ft.1 ft.2) (turnP i ps w).1.
Proof.
  intros Hall. unfold turn.
  destruct (ps !! i) as [[field [s|p]]|] eqn:Hi; try exact Hall.
  pose proof (Hresume field s w) as Hr.
  destruct (executor (resume field s) w) as [t w']. cbn [fst] in *.
  apply Forall_insert; [exact Hall|]. cbn [fst snd]. apply Hr.
  exact (proj1 (Forall_lookup _ _) Hall i _ Hi).
Qed.

Lemma turns_inv schedule ps w :
  Forall (fun ft => inv ft.1 ft.2) ps ->
  Forall (fun ft => inv ft.1 ft.2) (turnsP schedule ps w).1.
Proof.
  revert ps w. induction schedule as [|i rest IH]; intros ps w Hall;
    [exact Hall|].
  cbn [turns]. pose proof (turn_inv i ps w Hall) as Hi.
  destruct (turnP i ps w) as [ps' w']. now apply IH.
Qed.

(** *** The end of the turns *)

Lemma done_or_waits (ps : list (string * task St R)) :
  done ps = true \/ exists i field s, ps !! i = Some (field, Waiting s).
Proof.
  induction ps as [|[field [s|p]] ps IH].
  - now left.
  - right. now exists 0%nat, field, s.
  - destruct IH as [IH | (i & f & s & Hi)]; [now left|].
    right. now exists (S i), f, s.
Qed.

(** Once no task waits, nothing moves. *)
Lemma turns_done schedule ps w :
  done ps = true -> turnsP schedule ps w = (ps, w).
Proof.
  intros Hdone. induction schedule as [|i rest IH]; [reflexivity|].
  cbn [turns]. assert (Hturn : turnP i ps w = (ps, w)).
  { unfold turn. destruct (ps !! i) as [[field [s|p]]|] eqn:Hi; try reflexivity.
    unfold done in Hdone. rewrite forallb_forall in Hdone.
    apply list_elem_of_lookup_2, list_elem_of_In in Hi.
    specialize (Hdone _ Hi). discriminate. }
  now rewrite Hturn.
Qed.

Variable size : St -> nat.
Hypothesis Hsize : forall field s w s' w',
  executor (resume field s) w = (Waiting s', w') -> (size s' < size s)%nat.

Lemma turn_left i field s ps w :
  ps !! i = Some (field, Waiting s) ->
  (turns_left size (turnP i ps w).1 < turns_left size ps)%nat.
Proof.
  intros Hi. unfold turn. rewrite Hi.
  pose proof (Hsize field s w) as Hs.
  destruct (executor (resume field s) w) as [t w']. cbn [fst].
  clear w. revert i Hi. induction ps as [|[g u] ps IH]; intros i Hi;
    [discriminate|].
  destruct i as [|i].
  - injection Hi as -> ->. cbn [insert list_insert turns_left].
    destruct t as [s'|p]; [specialize (Hs s' w' eq_refl)|]; lia.
  - cbn in Hi. specialize (IH i Hi).
    change (<[S i := (field, t)]> ((g, u) :: ps))
      with ((g, u) :: <[i := (field, t)]> ps).
    cbn [turns_left]. destruct u; lia.
Qed.

(** The turns come to an end: some schedule leaves no task waiting. *)
Lemma turns_complete ps w :
  exists schedule, done (turnsP schedule ps w).1 = true.
Proof.
  remember (turns_left size ps) as n eqn:Hn.
  revert ps w Hn. induction n as [n IH] using lt_wf_ind. intros ps w Hn.
  destruct (done_or_waits ps) as [Hdone | (i & field & s & Hi)].
  - now exists [].
  - pose proof (turn_left i field s ps w Hi) as Hless.
    destruct (turnP i ps w) as [ps' w'] eqn:Hturn. cbn [fst] in Hless.
    destruct (IH (turns_left size ps') ltac:(lia) ps' w' eq_refl)
      as [schedule Hdone].
    exists (i :: schedule). cbn [turns]. now rewrite Hturn.
Qed.
End TurnsPool.

(** *** The tasks of validator-ts.ts *)

Section TurnsTS.
Import Js Config Run Statics Obs Turns.
Context {U : Type} (E : Env U) (V : TS.Validator) (form : value).
Local Open Scope run_scope.

(** The inner loop of [validateField], with the lines after the [await]
    set apart. *)
Lemma ts_run_chain_verdict field fieldWrap rule
    (validator : RuleItem -> value -> string -> M U StepRes) rest w :
  TS.run_chain E V field form fieldWrap rule (validator :: rest) w
  = (arg <- TS.argument E V field form ;;
     validateRes <- validator rule arg field ;;
     r <- ts_verdict E V fieldWrap field rule validateRes ;;
     match r with
     | Some err => ret (Some err)
     | None => TS.run_chain E V field form fieldWrap rule rest
     end) w.
Proof.
  rewrite run_chain_cons. unfold bind, ts_verdict.
  destruct (TS.argument E V field form w) as [[arg|e|] w1]; try reflexivity.
  destruct (validator rule arg field w1) as [[res|e|] w2]; try reflexivity.
  destruct res as [[|]|[|] msg]; cbn [negb]; cbv zeta; try reflexivity;
    unfold bind;
    match goal with
    | |- context [TS.notify E V ?m w2] =>
        destruct (TS.notify E V m w2) as [[[]|e|] w3]
    end; reflexivity.
Qed.

(** A task that takes its turns in a row, with nothing in between, is
    [validateField]. *)
Lemma ts_alone field fieldWrap n (w : world U) :
  (forall rules, TS._rules V !! field = Some rules ->
                 7 * length rules <= n)%nat ->
  alone (ts_start E V form) (ts_resume E V form fieldWrap) n field w
  = TS.validateField E V field form fieldWrap w.
Proof.
  intros Hn. unfold alone, ts_start, TS.validateField.
  destruct (negb (isObject form)); [reflexivity|].
  destruct (TS._rules V !! field) as [rules|] eqn:Hrules.
  - pose proof (finish_rules (TS.chain E) field
                  (fun _ : unit => TS.argument E V field form)
                  (ts_verdict E V fieldWrap field)
                  (ts_resume E V form fieldWrap) (fun s => eq_refl)
                  (fun _ => TS.run_chain E V field form fieldWrap)
                  (fun _ => TS.run_rules E V field form fieldWrap)
                  (fun _ _ _ => eq_refl)
                  (fun _ => ts_run_chain_verdict field fieldWrap)
                  (fun _ _ => eq_refl)
                  (fun _ _ _ _ => eq_refl)
                  tt rules n w (Hn rules eq_refl)) as Hrun.
    cbv beta in Hrun. destruct (executor _ w) as [t w1].
    apply finished_promise, Hrun.
  - destruct n; reflexivity.
Qed.

(** What is kept of every task: it stands at a rule of its field. *)
Lemma ts_start_placed field (w : world U) t w' :
  ts_start E V form field w = (Ok t, w') ->
  stands stage_position ts_entry (TS._rules V) field t.
Proof.
  unfold ts_start, stands. destruct (negb (isObject form)); [discriminate|].
  destruct (TS._rules V !! field) as [rules|]; [|now intros [= <- <-]].
  unfold executor.
  destruct (rules_from _ _ _ tt rules w) as [[t0|e|] w1] eqn:Hrun;
    intros [= <- <-]; try exact I.
  eapply (rules_from_placed _ _ _ ts_entry rules _ rules []);
    [reflexivity | exact Hrun].
Qed.

Lemma ts_verdict_entry field rule validateRes (w : world U) err w' :
  ts_verdict E V true field rule validateRes w = (Ok (Some err), w') ->
  exists msg, ts_entry err = Some (field, with_message rule msg).
Proof.
  unfold ts_verdict.
  destruct validateRes as [[|]|[|] msg]; cbn [negb]; cbv zeta; try discriminate;
    unfold bind;
    match goal with
    | |- context [TS.notify E V ?m w] =>
        destruct (TS.notify E V m w) as [[[]|e|] w3]
    end; try discriminate; intros [= <- <-]; eauto.
Qed.

Lemma ts_resume_placed field s (w : world U) :
  stands stage_position ts_entry (TS._rules V) field (Waiting s) ->
  stands stage_position ts_entry (TS._rules V) field
         (executor (ts_resume E V form true field s) w).1.
Proof.
  unfold stands. destruct (TS._rules V !! field) as [rules|]; [|discriminate].
  apply resume_placed. apply ts_verdict_entry.
Qed.

(** A turn of a task: when the awaited check failed, the notification and
    the rejection with the rule the task stands at; when it passed, the
    loops go on from there. *)
Lemma ts_turn fieldWrap field (s : ts_stage) (w : world U) :
  executor (ts_resume E V form fieldWrap field s) w
  = if passes (awaited s) then
      executor (step field (fun _ => TS.argument E V field form)
                  (locals s) (rule s) (todo s) (later s)
                  (rules_from (TS.chain E) field
                     (fun _ => TS.argument E V field form)
                     (locals s) (later s))) w
    else
      let message := if truthy (said (VStr "") (awaited s))
                     then said (VStr "") (awaited s)
                     else message (rule s) in
      match TS.notify E V message w with
      | (Ok _, w') =>
          (Settled
             (Rejected (TS.reason field fieldWrap (with_message (rule s) message))),
           w')
      | (_, w') => (Settled Pending, w')
      end.
Proof.
  unfold ts_resume, resume. rewrite executor_bind. unfold ts_verdict.
  destruct (awaited s) as [[|]|[|] msg]; cbn [passes said negb]; cbv zeta;
    try reflexivity;
    unfold bind;
    match goal with
    | |- context [TS.notify E V ?m w] =>
        destruct (TS.notify E V m w) as [[[]|e|] w3]
    end; reflexivity.
Qed.

Lemma ts_start_returns field (w : world U) :
  isObject form = true ->
  exists t w', ts_start E V form field w = (Ok t, w').
Proof.
  intros Hobj. unfold ts_start. rewrite Hobj. cbn [negb].
  destruct (TS._rules V !! field) as [rules|]; [|now eexists _, _].
  destruct (executor _ w) as [t w']. now eexists _, _.
Qed.
End TurnsTS.

(** *** The tasks of validator-2.0.0.js *)

Section TurnsV2.
Import Js Config Run Statics Obs Turns.
Context {U : Type} (E : Env U) (V : V2.Validator) (form : value).
Local Open Scope run_scope.

Lemma v2_run_chain_verdict field configured rule
    (validator : RuleItem -> value -> string -> M U StepRes) rest w :
  V2.run_chain E field form configured rule (validator :: rest) w
  = (arg <- v2_argument E form field configured ;;
     validateRes <- validator rule arg field ;;
     r <- v2_verdict field rule validateRes ;;
     match r with
     | Some err => ret (Some err)
     | None => V2.run_chain E field form configured rule rest
     end) w.
Proof.
  rewrite v2_run_chain_cons. unfold bind, v2_argument, v2_verdict, bind.
  destruct (get_prop form field w) as [[raw|e|] w0]; try reflexivity.
  destruct (V2.currentTransform E configured raw w0) as [[arg|e|] w1];
    try reflexivity.
  destruct (validator rule arg field w1) as [[res|e|] w2]; try reflexivity.
  destruct res as [[|]|[|] msg]; reflexivity.
Qed.

Lemma v2_alone field n (w : world U) :
  (forall rules, V2._rules V !! field = Some rules ->
                 7 * length rules <= n)%nat ->
  alone (v2_start E V form) (v2_resume E form) n field w
  = V2.validateField E V field form w.
Proof.
  intros Hn. unfold alone, v2_start, V2.validateField.
  destruct (negb (isObject form)); [reflexivity|].
  destruct (V2._rules V !! field) as [rules|] eqn:Hrules.
  - rewrite executor_bind, new_promise_bind.
    destruct (V2.lookup_transform V field w) as [[configured|e|] w0];
      try (destruct n; reflexivity).
    pose proof (finish_rules (V2.chain E) field
                  (v2_argument E form field) (v2_verdict field)
                  (v2_resume E form) (fun s => eq_refl)
                  (V2.run_chain E field form)
                  (V2.run_rules E field form)
                  (fun _ _ _ => eq_refl)
                  (v2_run_chain_verdict field)
                  (fun _ _ => eq_refl)
                  (fun _ _ _ _ => eq_refl)
                  configured rules n w0 (Hn rules eq_refl)) as Hrun.
    cbv beta in Hrun. destruct (executor _ w0) as [t w1].
    apply finished_promise, Hrun.
  - destruct n; reflexivity.
Qed.

Lemma v2_start_placed field (w : world U) t w' :
  v2_start E V form field w = (Ok t, w') ->
  stands stage_position v2_entry (V2._rules V) field t.
Proof.
  unfold v2_start, stands. destruct (negb (isObject form)); [discriminate|].
  destruct (V2._rules V !! field) as [rules|]; [|now intros [= <- <-]].
  rewrite executor_bind.
  destruct (V2.lookup_transform V field w) as [[configured|e|] w0];
    try (intros [= <- <-]; exact I).
  unfold executor.
  destruct (rules_from _ _ _ configured rules w0) as [[t0|e|] w1] eqn:Hrun;
    intros [= <- <-]; try exact I.
  eapply (rules_from_placed _ _ _ v2_entry rules _ rules []);
    [reflexivity | exact Hrun].
Qed.

Lemma v2_verdict_entry field rule validateRes (w : world U) err w' :
  v2_verdict field rule validateRes w = (Ok (Some err), w') ->
  exists msg, v2_entry err = Some (field, with_message rule msg).
Proof.
  unfold v2_verdict.
  destruct validateRes as [[|]|[|] msg]; cbn [negb]; try discriminate;
    intros [= <- <-]; eauto.
Qed.

Lemma v2_resume_placed field s (w : world U) :
  stands stage_position v2_entry (V2._rules V) field (Waiting s) ->
  stands stage_position v2_entry (V2._rules V) field
         (executor (v2_resume E form field s) w).1.
Proof.
  unfold stands. destruct (V2._rules V !! field) as [rules|]; [|discriminate].
  apply resume_placed. apply v2_verdict_entry.
Qed.

Lemma v2_turn field (s : v2_stage) (w : world U) :
  executor (v2_resume E form field s) w
  = if passes (awaited s) then
      executor (step field (v2_argument E form field)
                  (locals s) (rule s) (todo s) (later s)
                  (rules_from (V2.chain E) field (v2_argument E form field)
                     (locals s) (later s))) w
    else
      (Settled
         (Rejected
            (field,
             with_message (rule s)
               (if truthy (said VUndefined (awaited s))
                then said VUndefined (awaited s)
                else message (rule s)))), w).
Proof.
  unfold v2_resume, resume. rewrite executor_bind. unfold v2_verdict.
  destruct (awaited s) as [[|]|[|] msg]; reflexivity.
Qed.

Lemma v2_start_returns field (w : world U) :
  isObject form = true ->
  exists t w', v2_start E V form field w = (Ok t, w').
Proof.
  intros Hobj. unfold v2_start. rewrite Hobj. cbn [negb].
  destruct (V2._rules V !! field) as [rules|]; [|now eexists _, _].
  destruct (executor _ w) as [t w']. now eexists _, _.
Qed.
End TurnsV2.

(** *** The join over the tasks *)

Section TurnsValidate.
Import Js Config Run Statics Obs Turns.
Context {U St R : Type}.
Local Open Scope run_scope.
Variable start_task : string -> M U (task St R).
Variable resume : string -> St -> M U (task St R).
Variables (form : value) (errorsMap : list R -> gmap string RuleItem).
Variable entry : R -> option (string * RuleItem).
Variable keeps : string -> task St R -> Prop.
Variable size : St -> nat.

Hypothesis Hobj : isObject form = true.
Hypothesis Hreturns : forall field w,
  exists t w', start_task field w = (Ok t, w').
Hypothesis Hstart : forall field w t w',
  start_task field w = (Ok t, w') -> keeps field t.
Hypothesis Hresume : forall field s w,
  keeps field (Waiting s) -> keeps field (executor (resume field s) w).1.
Hypothesis Hown : forall field err,
  keeps field (Settled (Rejected err)) ->
  exists rule, entry err = Some (field, rule).
Hypothesis Hmap : forall errors,
  errorsMap errors = entries_map entry ∅ errors.
Hypothesis Hsize : forall field s w s' w',
  executor (resume field s) w = (Waiting s', w') -> (size s' < size s)%nat.

Lemma results_fields (ps : list (string * task St R)) : (results ps).*1 = ps.*1.
Proof.
  unfold results. rewrite <- list_fmap_compose. reflexivity.
Qed.

Lemma results_own (ps : list (string * task St R)) :
  Forall (fun ft => keeps ft.1 ft.2) ps ->
  Forall (own_entry entry) (results ps).
Proof.
  induction 1 as [|[field t] ps Hk _ IH]; [constructor|].
  cbn. constructor; [|exact IH].
  intros err Herr. cbn [fst snd] in *.
  destruct t as [s|[|e|]]; try discriminate.
  injection Herr as ->. now apply Hown.
Qed.

Lemma validate_gathers order w :
  NoDup order ->
  gathers start_task resume
    (validate start_task resume form errorsMap) entry keeps order w.
Proof.
  intros Hnd.
  destruct (start_total start_task order Hreturns w) as (ps & w1 & Hps).
  pose proof (start_fields _ _ _ _ _ Hps) as Hfields.
  pose proof (start_inv start_task keeps Hstart _ _ _ _ Hps) as Hkeeps.
  exists ps, w1. split; [exact Hps|]. split; [exact Hfields|].
  intros schedule.
  pose proof (turns_fields resume schedule ps w1) as Hf.
  pose proof (turns_inv resume keeps Hresume schedule ps w1 Hkeeps) as Hk.
  destruct (turns resume schedule ps w1) as [ps' w2] eqn:Hturns.
  cbn [fst] in Hf, Hk.
  exists ps', w2, (Aggregate.join errorsMap (results ps').*2).
  split; [reflexivity|]. split; [congruence|]. split; [exact Hk|].
  split; [|split; [|split]].
  - unfold validate. rewrite Hobj. cbn [negb]. now rewrite Hps, Hturns.
  - apply join_aggregates; [exact Hmap | | now apply results_own].
    rewrite results_fields. congruence.
  - apply (turns_complete resume size Hsize).
  - intros Hdone more. now apply turns_done.
Qed.
End TurnsValidate.

(** C1.  On a data argument that passes the guard, [validate] (in
    validator-ts.ts and in validator-2.0.0.js alike) starts one task per
    configured field, in the order of the keys and whatever the tasks before
    did; the tasks then take turns at their awaits.  Whatever the order of
    the keys and of the turns: the promise of [validate] is resolved when
    every task resolved, stays pending while a task has not settled (for
    good when a task never settles), and is otherwise rejected with a map
    that has exactly one entry per field whose task rejected, the rule that
    task rejected with; and from wherever the turns have led, more turns
    bring every task to its end.  A task goes through the rules of its field
    in order: at each turn it leaves a check behind only if the awaited
    result is a pass, and it rejects, with the rule it stands at, exactly
    when the result is a failure (after the notification, in
    validator-ts.ts).  A task that takes its turns in a row is
    [validateField], which rejects with the first rule of the field that
    fails. *)
Theorem validate_reports_every_failing_field :
  forall (U : Type) (E : Run.Env U) (form : Js.value),
    Statics.isObject form = true ->
    (forall (V : TS.Validator) (order : list string) (w : Run.world U),
        Turns.lists_keys order (TS._rules V) ->
        Turns.gathers (Turns.ts_start E V form) (Turns.ts_resume E V form true)
          (Turns.ts_validate E V form) Obs.ts_entry
          (Turns.stands Turns.stage_position Obs.ts_entry (TS._rules V)) order w)
    /\ (forall (V : TS.Validator) (field : string) (s : Turns.ts_stage)
               (w : Run.world U),
          Turns.executor (Turns.ts_resume E V form true field s) w
          = if Turns.passes (Turns.awaited s) then
              Turns.executor
                (Turns.step field (fun _ => TS.argument E V field form)
                   (Turns.locals s) (Turns.rule s) (Turns.todo s) (Turns.later s)
                   (Turns.rules_from (TS.chain E) field
                      (fun _ => TS.argument E V field form)
                      (Turns.locals s) (Turns.later s))) w
            else
              let message :=
                if Js.truthy (Turns.said (Js.VStr "") (Turns.awaited s))
                then Turns.said (Js.VStr "") (Turns.awaited s)
                else Config.message (Turns.rule s) in
              match TS.notify E V message w with
              | (Run.Ok _, w') =>
                  (Turns.Settled
                     (Config.Rejected
                        (Config.Wrapped field
                           (Config.with_message (Turns.rule s) message))), w')
              | (_, w') => (Turns.Settled Config.Pending, w')
              end)
    /\ (forall (V : TS.Validator) (field : string) (n : nat) (w : Run.world U),
          (forall rules, TS._rules V !! field = Some rules ->
                         7 * length rules <= n)%nat ->
          Turns.alone (Turns.ts_start E V form) (Turns.ts_resume E V form true)
            n field w
          = TS.validateField E V field form true w)
    /\ (forall V field w err w',
          TS.validateField E V field form true w
            = (Config.Returned (Config.Rejected err), w') ->
          Obs.ts_first_failure E V field form w err w')
    /\ (forall (V : V2.Validator) (order : list string) (w : Run.world U),
          Turns.lists_keys order (V2._rules V) ->
          Turns.gathers (Turns.v2_start E V form) (Turns.v2_resume E form)
            (Turns.v2_validate E V form) Obs.v2_entry
            (Turns.stands Turns.stage_position Obs.v2_entry (V2._rules V))
            order w)
    /\ (forall (field : string) (s : Turns.v2_stage) (w : Run.world U),
          Turns.executor (Turns.v2_resume E form field s) w
          = if Turns.passes (Turns.awaited s) then
              Turns.executor
                (Turns.step field (Turns.v2_argument E form field)
                   (Turns.locals s) (Turns.rule s) (Turns.todo s) (Turns.later s)
                   (Turns.rules_from (V2.chain E) field
                      (Turns.v2_argument E form field)
                      (Turns.locals s) (Turns.later s))) w
            else
              (Turns.Settled
                 (Config.Rejected
                    (field,
                     Config.with_message (Turns.rule s)
                       (if Js.truthy (Turns.said Js.VUndefined (Turns.awaited s))
                        then Turns.said Js.VUndefined (Turns.awaited s)
                        else Config.message (Turns.rule s)))), w))
    /\ (forall (V : V2.Validator) (field : string) (n : nat) (w : Run.world U),
          (forall rules, V2._rules V !! field = Some rules ->
                         7 * length rules <= n)%nat ->
          Turns.alone (Turns.v2_start E V form) (Turns.v2_resume E form) n field w
          = V2.validateField E V field form w)
    /\ (forall V field w err w',
          V2.validateField E V field form w
            = (Config.Returned (Config.Rejected err), w') ->
          Obs.v2_first_failure E V field form w err w').
Proof.
  intros U E form Hobj. repeat apply conj.
  - intros V order w [Hnd _].
    apply (validate_gathers _ _ form TS.errorsMap Obs.ts_entry _
             (Turns.size (TS.chain E))); try assumption.
    + intros field w0. now apply ts_start_returns.
    + apply ts_start_placed.
    + apply ts_resume_placed.
    + intros field err. unfold Turns.stands.
      destruct (TS._rules V !! field) as [rules|]; [|discriminate].
      intros (passed & rule & later & msg & _ & Hentry). eauto.
    + apply ts_errorsMap_entries.
    + intros field s w0 s' w'. apply resume_size.
  - intros V field s w. apply (ts_turn E V form true).
  - intros V field n w. apply ts_alone.
  - intros V field w err w'. apply ts_task_rejection.
  - intros V order w [Hnd _].
    apply (validate_gathers _ _ form V2.errorsMap Obs.v2_entry _
             (Turns.size (V2.chain E))); try assumption.
    + intros field w0. now apply v2_start_returns.
    + apply v2_start_placed.
    + apply v2_resume_placed.
    + intros field err. unfold Turns.stands.
      destruct (V2._rules V !! field) as [rules|]; [|discriminate].
      intros (passed & rule & later & msg & _ & Hentry). eauto.
    + apply v2_errorsMap_entries.
    + intros field s w0 s' w'. apply resume_size.
  - intros field s w. apply v2_turn.
  - intros V field n w. apply v2_alone.
  - intros V field w err w'. apply v2_task_rejection.
Qed.

(** Two required fields, both empty, the keys in the order of the map. *)
Lemma validate_reports_every_failing_field_witness :
  Statics.isObject (Sample.form_of (Js.VStr "")) = true
  /\ Turns.gathers
       (Turns.ts_start Sample.env
          (Sample.ts_two Sample.required_rule Sample.text_rule)
          (Sample.form_of (Js.VStr "")))
       (Turns.ts_resume Sample.env
          (Sample.ts_two Sample.required_rule Sample.text_rule)
          (Sample.form_of (Js.VStr "")) true)
       (Turns.ts_validate Sample.env
          (Sample.ts_two Sample.required_rule Sample.text_rule)
          (Sample.form_of (Js.VStr "")))
       Obs.ts_entry
       (Turns.stands Turns.stage_position Obs.ts_entry
          (TS._rules (Sample.ts_two Sample.required_rule Sample.text_rule)))
       (Aggregate.keys
          (TS._rules (Sample.ts_two Sample.required_rule Sample.text_rule)))
       Sample.start.
Proof.
  split; [reflexivity|].
  apply (proj1 (validate_reports_every_failing_field nat Sample.env
                  (Sample.form_of (Js.VStr "")) eq_refl)).
  split; [apply keys_NoDup | intros field; apply keys_spec].
Defined.

(** The rule [{ validator: f, message: "static" }] where [f] returns a
    promise that never settles, on [{ name: "x" }]: the field does not fail,
    no task waits after seven turns, and [validate] has neither resolved nor
    rejected. *)
Lemma a_validator_that_never_settles_keeps_validate_pending :
  fst (TS.validateField Cases.env (Sample.ts_with (Sample.custom_rule 1)) "name"
         (Sample.form_of (Js.VStr "x")) true Cases.start)
  = Config.Returned Config.Pending
  /\ Turns.final
       (Turns.ts_start Cases.env (Sample.ts_with (Sample.custom_rule 1))
          (Sample.form_of (Js.VStr "x")))
       (Turns.ts_resume Cases.env (Sample.ts_with (Sample.custom_rule 1))
          (Sample.form_of (Js.VStr "x")) true)
       ["name"] (replicate 7 0%nat) Cases.start
     = true
  /\ fst (Turns.ts_validate Cases.env (Sample.ts_with (Sample.custom_rule 1))
            (Sample.form_of (Js.VStr "x")) ["name"] (replicate 7 0%nat)
            Cases.start)
     = Config.Returned Config.Pending
  /\ Turns.final
       (Turns.v2_start Cases.env (Sample.v2_with (Sample.custom_rule 1))
          (Sample.form_of (Js.VStr "x")))
       (Turns.v2_resume Cases.env (Sample.form_of (Js.VStr "x")))
       ["name"] (replicate 7 0%nat) Cases.start
     = true
  /\ fst (Turns.v2_validate Cases.env (Sample.v2_with (Sample.custom_rule 1))
            (Sample.form_of (Js.VStr "x")) ["name"] (replicate 7 0%nat)
            Cases.start)
     = Config.Returned Config.Pending.
Proof. repeat apply conj; vm_compute; reflexivity. Qed.

(** Two required fields, both empty: both are in the map, each with its own
    rule, whichever task moves first. *)
Lemma both_failing_fields_are_reported :
  forall schedule, In schedule [[0; 1]; [1; 0]]%nat ->
    let r := Turns.ts_validate Sample.env
               (Sample.ts_two Sample.required_rule Sample.text_rule)
               (Sample.form_of (Js.VStr "")) ["name"; "phone"] schedule
               Sample.start in
    Report.entry_of r "name" = Some Sample.required_rule
    /\ Report.entry_of r "phone" = Some Sample.text_rule
    /\ Report.entries r = 2%nat.
Proof.
  intros schedule [<- | [<- | []]]; repeat apply conj; vm_compute; reflexivity.
Qed.

(** With validators that share a counter, the turns decide which field
    fails: [() => ++n !== 2] under [a: [a1, a2]] and [b: b1].  When the two
    tasks move in turn, the second call of the validator is that of [b1];
    when the task of [a] runs to its end first, it is that of [a2].  In
    1.0.0 a task that awaits nothing runs to its end when it is started, and
    the second call is that of [a2] whatever the turns. *)
Lemma the_turns_decide_which_field_fails :
  let ts := Turns.ts_validate Shared.env Shared.ts_pair Shared.form ["a"; "b"] in
  let v2 := Turns.v2_validate Shared.env Shared.v2_pair Shared.form ["a"; "b"] in
  let v1 := Turns.v1_validate Shared.env Shared.v1_pair Shared.form ["a"; "b"] in
  (Report.entry_of (ts (Shared.in_turn 14) Shared.start) "a" = None
   /\ Report.entry_of (ts (Shared.in_turn 14) Shared.start) "b"
      = Some (Shared.counting "b1"))
  /\ (Report.entry_of (ts (Shared.one_by_one 14) Shared.start) "a"
      = Some (Shared.counting "a2")
      /\ Report.entry_of (ts (Shared.one_by_one 14) Shared.start) "b" = None)
  /\ (Report.entry_of (v2 (Shared.in_turn 14) Shared.start) "a" = None
      /\ Report.entry_of (v2 (Shared.in_turn 14) Shared.start) "b"
         = Some (Shared.counting "b1"))
  /\ (Report.entry_of (v2 (Shared.one_by_one 14) Shared.start) "a"
      = Some (Shared.counting "a2")
      /\ Report.entry_of (v2 (Shared.one_by_one 14) Shared.start) "b" = None)
  /\ (Report.entry_of (v1 (Shared.in_turn 14) Shared.start) "a"
      = Some (Shared.counting "a2")
      /\ Report.entry_of (v1 (Shared.in_turn 14) Shared.start) "b" = None
      /\ Report.entry_of (v1 [] Shared.start) "a" = Some (Shared.counting "a2")).
Proof. repeat apply conj; vm_compute; reflexivity. Qed.

(** ** The transform *)

Section PerStep.
Import Js Config Run Statics Obs.
Context {U : Type} (E : Env U).
Local Open Scope run_scope.

Lemma inner_between e : inner e -> between e.
Proof. destruct e as [[] ? ?| |]; cbn; tauto. Qed.

Lemma per_step_entered f raw s rule v field mid :
  Forall between mid ->
  per_step f raw (EvCall AtTransform f [raw] :: EvEnter s rule v field :: mid).
Proof.
  intros Hmid. rewrite <- (app_nil_r mid).
  apply per_step_more; [exact Hmid | constructor].
Qed.

(** The end of a turn of the loop on a failed check: whatever [finish] does
    after the notification, as long as it leaves the trace alone. *)
Lemma traced_tail {A} (w w2 : world U) (m : M U A) f raw s rule v field mid :
  trace w2 = (trace w ++ [EvCall AtTransform f [raw]])
             ++ EvEnter s rule v field :: mid ->
  Forall between mid ->
  emits between m ->
  exists evs, trace (snd (m w2)) = trace w ++ evs /\ per_step f raw evs.
Proof.
  intros Hw2 Hmid Hm. destruct (Hm w2) as (evs & Ht & Hall).
  exists (EvCall AtTransform f [raw] :: EvEnter s rule v field :: mid ++ evs).
  split.
  - rewrite Ht, Hw2, <- !app_assoc. reflexivity.
  - apply per_step_entered. now apply Forall_app.
Qed.

Lemma traced_more {A} (w w2 : world U) (m : M U A) f raw s rule v field mid :
  trace w2 = (trace w ++ [EvCall AtTransform f [raw]])
             ++ EvEnter s rule v field :: mid ->
  Forall between mid ->
  traced f raw m ->
  exists evs, trace (snd (m w2)) = trace w ++ evs /\ per_step f raw evs.
Proof.
  intros Hw2 Hmid Hm. destruct (Hm w2) as (evs & Ht & Hps).
  exists (EvCall AtTransform f [raw] :: EvEnter s rule v field :: mid ++ evs).
  split.
  - rewrite Ht, Hw2, <- !app_assoc. reflexivity.
  - now apply per_step_more.
Qed.

Section TS.
Variables (V : TS.Validator) (field : string) (form : value) (fieldWrap : bool).
Variables (f : nat) (raw : value).
Hypothesis Hconfigured :
  lookup_prop field (default [] (TS._transform V)) = VFun f.
Hypothesis Hraw : forall w : world U, get_prop form field w = (Ok raw, w).

Lemma ts_argument_run (w : world U) :
  TS.argument E V field form w
  = match fn_call E f ThisUndefined [raw] (ust w) with
    | (Returns v, u) =>
        (Ok v, mkWorld u (trace w ++ [EvCall AtTransform f [raw]]))
    | (Throws e, u) =>
        (Raise e, mkWorld u (trace w ++ [EvCall AtTransform f [raw]]))
    end.
Proof.
  unfold TS.argument, bind. rewrite Hraw.
  unfold TS.currentTransform. rewrite Hconfigured. cbn [truthy].
  apply call_fun.
Qed.

(** A failed check: the notification, then [finish]. *)
Lemma ts_fail_emits {A} msg err (finish : ErrRes -> M U A) (next : M U A) :
  (forall err, emits between (finish err)) ->
  emits between
    (r <- (TS.notify E V msg ;;; ret (Some err)) ;;
     match r with Some err => finish err | None => next end).
Proof.
  intros Hfinish w. unfold bind.
  destruct (ts_notify_emits E V msg w) as (evs & Ht & Hall).
  destruct (TS.notify E V msg w) as [[[]|e|] w1]; cbn [snd] in Ht.
  - cbn [ret]. destruct (Hfinish err w1) as (evs' & Ht' & Hall').
    exists (evs ++ evs'). rewrite Ht', Ht, app_assoc.
    split; [reflexivity | now apply Forall_app].
  - now exists evs.
  - now exists evs.
Qed.

Lemma ts_chain_traced {A} rule steps
    (todo : list (RuleItem -> value -> string -> M U StepRes))
    (finish : ErrRes -> M U A) (next : M U A) :
  Forall2 method_shape steps todo ->
  (forall err, emits between (finish err)) ->
  traced f raw next ->
  traced f raw
    (r <- TS.run_chain E V field form fieldWrap rule todo ;;
     match r with Some err => finish err | None => next end).
Proof.
  intros Hshapes Hfinish Hnext.
  induction Hshapes as [|s m steps todo Hm Hshapes IH]; intros w.
  - apply Hnext.
  - rewrite run_chain_cons. unfold bind at 1 2.
    rewrite ts_argument_run.
    destruct (fn_call E f ThisUndefined [raw] (ust w)) as [[v|e] u].
    2:{ exists [EvCall AtTransform f [raw]]. split; [reflexivity | constructor]. }
    set (w1 := mkWorld u (trace w ++ [EvCall AtTransform f [raw]])).
    destruct (Hm rule v field w1) as (mid & Hmid & Hinner).
    assert (Hbetween : Forall between mid)
      by (eapply Forall_impl; [exact Hinner | apply inner_between]).
    unfold bind at 1.
    destruct (m rule v field w1) as [[res|e|] w2]; cbn [snd] in Hmid.
    + destruct res as [[|]|[|] msg]; cbn [negb]; cbv zeta.
      * exact (traced_more w w2 _ f raw s rule v field mid Hmid Hbetween IH).
      * exact (traced_tail w w2 _ f raw s rule v field mid Hmid Hbetween
                 (ts_fail_emits _ _ finish next Hfinish)).
      * exact (traced_more w w2 _ f raw s rule v field mid Hmid Hbetween IH).
      * exact (traced_tail w w2 _ f raw s rule v field mid Hmid Hbetween
                 (ts_fail_emits _ _ finish next Hfinish)).
    + exists (EvCall AtTransform f [raw] :: EvEnter s rule v field :: mid).
      split; [cbn; rewrite Hmid; cbn; now rewrite <- app_assoc|].
      now apply per_step_entered.
    + exists (EvCall AtTransform f [raw] :: EvEnter s rule v field :: mid).
      split; [cbn; rewrite Hmid; cbn; now rewrite <- app_assoc|].
      now apply per_step_entered.
Qed.

Lemma ts_rules_traced rules :
  traced f raw (TS.run_rules E V field form fieldWrap rules).
Proof.
  induction rules as [|rule rules IH].
  - intros w. exists []. cbn. rewrite app_nil_r. split; [reflexivity | constructor].
  - rewrite run_rules_cons.
    eapply (ts_chain_traced rule documented_order (TS.chain E)
              (fun err => ret (Rejected err))).
    + apply ts_chain_shapes.
    + intros err. apply emits_ret.
    + exact IH.
Qed.

(** The trace of a call of [validateField] on a field whose transform is
    the function [f]. *)
Lemma ts_field_traced (w : world U) :
  exists evs,
    trace (snd (TS.validateField E V field form fieldWrap w)) = trace w ++ evs
    /\ per_step f raw evs.
Proof.
  unfold TS.validateField.
  destruct (negb (isObject form));
    [exists []; cbn; rewrite app_nil_r; split; [reflexivity | constructor]|].
  destruct (TS._rules V !! field) as [rules|];
    [|exists []; cbn; rewrite app_nil_r; split; [reflexivity | constructor]].
  destruct (ts_rules_traced rules w) as (evs & Ht & Hps).
  exists evs. split; [|exact Hps].
  unfold new_promise.
  destruct (TS.run_rules E V field form fieldWrap rules w) as [[p|e|] w'];
    exact Ht.
Qed.

(** *** A pure transform *)

Section Pure.
Variable out : value.
Hypothesis Hpure : pure_on E f raw out.

Lemma ts_argument_pure (w : world U) :
  TS.argument E V field form w
  = (Ok out, mkWorld (ust w) (trace w ++ [EvCall AtTransform f [raw]])).
Proof. rewrite ts_argument_run, (Hpure ThisUndefined (ust w)). reflexivity. Qed.

Lemma once_ts_chain_cons rule
    (validator : RuleItem -> value -> string -> M U StepRes) rest :
  Once.ts_run_chain E V field fieldWrap out rule (validator :: rest)
  = (validateRes <- validator rule out field ;;
     let '(pass, errMsg) :=
       match validateRes with
       | RObj pass message => (pass, message)
       | RBool b => (b, VStr "")
       end in
     if negb pass then
       let message := if truthy errMsg then errMsg else message rule in
       TS.notify E V message ;;;
       ret (Some (TS.reason field fieldWrap (with_message rule message)))
     else Once.ts_run_chain E V field fieldWrap out rule rest).
Proof. reflexivity. Qed.

Lemma ts_chain_once rule
    (todo : list (RuleItem -> value -> string -> M U StepRes)) :
  Forall method_respects todo ->
  forall w1 w2, ust w1 = ust w2 ->
    visible (TS.run_chain E V field form fieldWrap rule todo w1)
    = visible (Once.ts_run_chain E V field fieldWrap out rule todo w2).
Proof.
  intros Hall. induction Hall as [|m todo Hm Hall IH]; intros w1 w2 Hu.
  - unfold visible. cbn. now rewrite Hu.
  - rewrite run_chain_cons, once_ts_chain_cons. unfold bind.
    rewrite ts_argument_pure.
    set (w1' := mkWorld (ust w1) (trace w1 ++ [EvCall AtTransform f [raw]])).
    destruct (Hm rule out field w1' w2 Hu) as [Hr Hu'].
    destruct (m rule out field w1') as [r1 w1''],
             (m rule out field w2) as [r2 w2'']. cbn [fst snd] in Hr, Hu'.
    subst r2.
    destruct r1 as [res|e|]; [|unfold visible; cbn; now rewrite Hu'..].
    destruct res as [[|]|[|] msg]; cbn [negb]; cbv zeta;
      try (apply IH; exact Hu');
      match goal with
      | |- context [TS.notify E V ?msg w1''] =>
          destruct (ts_notify_respects E V msg w1'' w2'' Hu') as [Hn Hun];
          destruct (TS.notify E V msg w1'') as [n1 w13],
                   (TS.notify E V msg w2'') as [n2 w23];
          cbn [fst snd] in Hn, Hun; subst n2;
          destruct n1 as [[]|e|]; unfold visible; cbn; now rewrite Hun
      end.
Qed.

Lemma ts_rules_once rules :
  forall w1 w2, ust w1 = ust w2 ->
    visible (TS.run_rules E V field form fieldWrap rules w1)
    = visible (Once.ts_run_rules E V field fieldWrap out rules w2).
Proof.
  induction rules as [|rule rules IH]; intros w1 w2 Hu;
    [unfold visible; cbn; now rewrite Hu|].
  rewrite run_rules_cons. cbn [Once.ts_run_rules]. unfold bind.
  pose proof (ts_chain_once rule (TS.chain E) (ts_chain_respects E) w1 w2 Hu)
    as Hv.
  destruct (TS.run_chain E V field form fieldWrap rule (TS.chain E) w1)
    as [r1 w1'],
    (Once.ts_run_chain E V field fieldWrap out rule (TS.chain E) w2)
    as [r2 w2'].
  injection Hv as -> Hu'.
  destruct r2 as [[err|]|e|]; try (unfold visible; cbn; now rewrite Hu').
  now apply IH.
Qed.

(** With a pure transform the per-step code and the once-only design agree
    on the promise and on the caller's state. *)
Lemma ts_field_once (w : world U) :
  visible (TS.validateField E V field form fieldWrap w)
  = visible (Once.ts_validateField E V field form fieldWrap w).
Proof.
  unfold TS.validateField, Once.ts_validateField.
  destruct (negb (isObject form)); [reflexivity|].
  destruct (TS._rules V !! field) as [rules|]; [|reflexivity].
  unfold new_promise, bind. rewrite ts_argument_pure.
  set (w' := mkWorld (ust w) (trace w ++ [EvCall AtTransform f [raw]])).
  pose proof (ts_rules_once rules w w' eq_refl) as Hv.
  destruct (TS.run_rules E V field form fieldWrap rules w) as [r1 w1],
           (Once.ts_run_rules E V field fieldWrap out rules w') as [r2 w2].
  injection Hv as -> Hu.
  destruct r2 as [p|e|]; unfold visible; cbn; now rewrite Hu.
Qed.
End Pure.
End TS.

Section V2.
Variables (field : string) (form : value) (f : nat) (raw : value).
Hypothesis Hraw : forall w : world U, get_prop form field w = (Ok raw, w).

(** [currentTransform(form[field])] in 2.0.0, the transform being [f]. *)
Lemma v2_argument_run (w : world U) :
  (raw <- get_prop form field ;; V2.currentTransform E (VFun f) raw) w
  = match fn_call E f ThisUndefined [raw] (ust w) with
    | (Returns v, u) =>
        (Ok v, mkWorld u (trace w ++ [EvCall AtTransform f [raw]]))
    | (Throws e, u) =>
        (Raise e, mkWorld u (trace w ++ [EvCall AtTransform f [raw]]))
    end.
Proof.
  unfold bind. rewrite Hraw. unfold V2.currentTransform. cbn [truthy].
  apply call_fun.
Qed.

Lemma v2_run_chain_turn rule
    (validator : RuleItem -> value -> string -> M U StepRes) rest w :
  V2.run_chain E field form (VFun f) rule (validator :: rest) w
  = (arg <- (raw <- get_prop form field ;; V2.currentTransform E (VFun f) raw) ;;
     validateRes <- validator rule arg field ;;
     let '(pass, errMsg) :=
       match validateRes with
       | RObj pass message => (pass, message)
       | RBool b => (b, VUndefined)
       end in
     if negb pass then
       ret (Some (field,
                  with_message rule
                    (if truthy errMsg then errMsg else message rule)))
     else V2.run_chain E field form (VFun f) rule rest) w.
Proof.
  rewrite v2_run_chain_cons. unfold bind.
  destruct (get_prop form field w) as [[r|e|] w0]; reflexivity.
Qed.

Lemma v2_chain_traced {A} rule steps
    (todo : list (RuleItem -> value -> string -> M U StepRes))
    (finish : V2.Failure -> M U A) (next : M U A) :
  Forall2 method_shape steps todo ->
  (forall err, emits between (finish err)) ->
  traced f raw next ->
  traced f raw
    (r <- V2.run_chain E field form (VFun f) rule todo ;;
     match r with Some err => finish err | None => next end).
Proof.
  intros Hshapes Hfinish Hnext.
  induction Hshapes as [|s m steps todo Hm Hshapes IH]; intros w.
  - apply Hnext.
  - unfold bind at 1. rewrite v2_run_chain_turn. unfold bind at 1.
    rewrite v2_argument_run.
    destruct (fn_call E f ThisUndefined [raw] (ust w)) as [[v|e] u].
    2:{ exists [EvCall AtTransform f [raw]]. split; [reflexivity | constructor]. }
    set (w1 := mkWorld u (trace w ++ [EvCall AtTransform f [raw]])).
    destruct (Hm rule v field w1) as (mid & Hmid & Hinner).
    assert (Hbetween : Forall between mid)
      by (eapply Forall_impl; [exact Hinner | apply inner_between]).
    unfold bind at 1.
    destruct (m rule v field w1) as [[res|e|] w2]; cbn [snd] in Hmid.
    + destruct res as [[|]|[|] msg]; cbn [negb].
      * exact (traced_more w w2 _ f raw s rule v field mid Hmid Hbetween IH).
      * exact (traced_tail w w2 _ f raw s rule v field mid Hmid Hbetween
                 (Hfinish _)).
      * exact (traced_more w w2 _ f raw s rule v field mid Hmid Hbetween IH).
      * exact (traced_tail w w2 _ f raw s rule v field mid Hmid Hbetween
                 (Hfinish _)).
    + exists (EvCall AtTransform f [raw] :: EvEnter s rule v field :: mid).
      split; [cbn; rewrite Hmid; cbn; now rewrite <- app_assoc|].
      now apply per_step_entered.
    + exists (EvCall AtTransform f [raw] :: EvEnter s rule v field :: mid).
      split; [cbn; rewrite Hmid; cbn; now rewrite <- app_assoc|].
      now apply per_step_entered.
Qed.

Lemma v2_rules_traced rules :
  traced f raw (V2.run_rules E field form (VFun f) rules).
Proof.
  induction rules as [|rule rules IH].
  - intros w. exists []. cbn. rewrite app_nil_r. split; [reflexivity | constructor].
  - rewrite v2_run_rules_cons.
    eapply (v2_chain_traced rule _ (V2.chain E) (fun err => ret (Rejected err))).
    + apply v2_chain_shapes.
    + intros err. apply emits_ret.
    + exact IH.
Qed.

Lemma v2_field_traced V transforms (w : world U) :
  V2._transform V = Some transforms ->
  lookup_prop field transforms = VFun f ->
  exists evs,
    trace (snd (V2.validateField E V field form w)) = trace w ++ evs
    /\ per_step f raw evs.
Proof.
  intros Htr Hf. unfold V2.validateField.
  destruct (negb (isObject form));
    [exists []; cbn; rewrite app_nil_r; split; [reflexivity | constructor]|].
  destruct (V2._rules V !! field) as [rules|];
    [|exists []; cbn; rewrite app_nil_r; split; [reflexivity | constructor]].
  destruct (v2_rules_traced rules w) as (evs & Ht & Hps).
  exists evs. split; [|exact Hps].
  unfold new_promise, bind, V2.lookup_transform. rewrite Htr. cbn [ret].
  rewrite Hf.
  destruct (V2.run_rules E field form (VFun f) rules w) as [[p|e|] w'];
    exact Ht.
Qed.

Section Pure.
Variable out : value.
Hypothesis Hpure : pure_on E f raw out.

Lemma v2_argument_pure (w : world U) :
  (raw <- get_prop form field ;; V2.currentTransform E (VFun f) raw) w
  = (Ok out, mkWorld (ust w) (trace w ++ [EvCall AtTransform f [raw]])).
Proof. rewrite v2_argument_run, (Hpure ThisUndefined (ust w)). reflexivity. Qed.

Lemma once_v2_chain_cons rule
    (validator : RuleItem -> value -> string -> M U StepRes) rest :
  Once.v2_run_chain field out rule (validator :: rest)
  = (validateRes <- validator rule out field ;;
     let '(pass, errMsg) :=
       match validateRes with
       | RObj pass message => (pass, message)
       | RBool b => (b, VUndefined)
       end in
     if negb pass then
       ret (Some (field,
                  with_message rule
                    (if truthy errMsg then errMsg else message rule)))
     else Once.v2_run_chain field out rule rest).
Proof. reflexivity. Qed.

Lemma v2_chain_once rule
    (todo : list (RuleItem -> value -> string -> M U StepRes)) :
  Forall method_respects todo ->
  forall w1 w2, ust w1 = ust w2 ->
    visible (V2.run_chain E field form (VFun f) rule todo w1)
    = visible (Once.v2_run_chain field out rule todo w2).
Proof.
  intros Hall. induction Hall as [|m todo Hm Hall IH]; intros w1 w2 Hu.
  - unfold visible. cbn. now rewrite Hu.
  - rewrite v2_run_chain_turn, once_v2_chain_cons. unfold bind at 1.
    rewrite v2_argument_pure. unfold bind.
    set (w1' := mkWorld (ust w1) (trace w1 ++ [EvCall AtTransform f [raw]])).
    destruct (Hm rule out field w1' w2 Hu) as [Hr Hu'].
    destruct (m rule out field w1') as [r1 w1''],
             (m rule out field w2) as [r2 w2'']. cbn [fst snd] in Hr, Hu'.
    subst r2.
    destruct r1 as [res|e|]; [|unfold visible; cbn; now rewrite Hu'..].
    destruct res as [[|]|[|] msg]; cbn [negb];
      try (apply IH; exact Hu'); unfold visible; cbn; now rewrite Hu'.
Qed.

Lemma v2_rules_once rules :
  forall w1 w2, ust w1 = ust w2 ->
    visible (V2.run_rules E field form (VFun f) rules w1)
    = visible (Once.v2_run_rules E field out rules w2).
Proof.
  induction rules as [|rule rules IH]; intros w1 w2 Hu;
    [unfold visible; cbn; now rewrite Hu|].
  rewrite v2_run_rules_cons. cbn [Once.v2_run_rules]. unfold bind.
  pose proof (v2_chain_once rule (V2.chain E) (v2_chain_respects E) w1 w2 Hu)
    as Hv.
  destruct (V2.run_chain E field form (VFun f) rule (V2.chain E) w1)
    as [r1 w1'],
    (Once.v2_run_chain field out rule (V2.chain E) w2) as [r2 w2'].
  injection Hv as -> Hu'.
  destruct r2 as [[err|]|e|]; try (unfold visible; cbn; now rewrite Hu').
  now apply IH.
Qed.

Lemma v2_field_once V transforms (w : world U) :
  V2._transform V = Some transforms ->
  lookup_prop field transforms = VFun f ->
  visible (V2.validateField E V field form w)
  = visible (Once.v2_validateField E V field form w).
Proof.
  intros Htr Hf. unfold V2.validateField, Once.v2_validateField.
  destruct (negb (isObject form)); [reflexivity|].
  destruct (V2._rules V !! field) as [rules|]; [|reflexivity].
  unfold new_promise. unfold bind at 1 2. unfold V2.lookup_transform.
  rewrite Htr. cbn [ret]. rewrite Hf.
  pose proof (v2_argument_pure w) as Harg. unfold bind at 1 in Harg.
  unfold bind at 1 2. rewrite Hraw in *.
  rewrite Harg.
  set (w' := mkWorld (ust w) (trace w ++ [EvCall AtTransform f [raw]])).
  pose proof (v2_rules_once rules w w' eq_refl) as Hv.
  destruct (V2.run_rules E field form (VFun f) rules w) as [r1 w1],
           (Once.v2_run_rules E field out rules w') as [r2 w2].
  injection Hv as -> Hu.
  destruct r2 as [p|e|]; unfold visible; cbn; now rewrite Hu.
Qed.
End Pure.
End V2.
End PerStep.



Section DigitFacts.
Import Js Digits.

Lemma sapp_cons c (s t : string) : String c s +:+ t = String c (s +:+ t).
Proof. reflexivity. Qed.

Lemma sapp_assoc (a b c : string) : (a +:+ b) +:+ c = a +:+ (b +:+ c).
Proof.
  induction a as [|x a IH]; [reflexivity|]. rewrite !sapp_cons. f_equal. exact IH.
Qed.

Lemma sapp_nil_r (a : string) : a +:+ "" = a.
Proof. induction a as [|x a IH]; [reflexivity|]. rewrite sapp_cons. f_equal. exact IH. Qed.

Lemma slength_app (a b : string) :
  String.length (a +:+ b) = (String.length a + String.length b)%nat.
Proof.
  induction a as [|x a IH]; [reflexivity|]. rewrite sapp_cons. simpl. now rewrite IH.
Qed.

Lemma read_digits_stops s acc : stops s = true -> read_digits s acc = acc.
Proof. destruct s as [|c r]; simpl; [reflexivity|]. now destruct (digit_of c). Qed.

Lemma read_digits_app s rest a :
  all_digits s = true ->
  read_digits (s +:+ rest) (Some a) = read_digits rest (Some (value_from s a)).
Proof.
  revert a. induction s as [|c r IH]; intros a H; [reflexivity|].
  rewrite sapp_cons. simpl in *.
  destruct (digit_of c) as [d|]; [|discriminate]. simpl. now rewrite IH.
Qed.

Lemma read_digits_first c r rest :
  all_digits (String c r) = true ->
  read_digits (String c r +:+ rest) None
  = read_digits rest (Some (value_from (String c r) 0)).
Proof.
  intros H. rewrite sapp_cons. simpl in *. destruct (digit_of c) as [d|]; [|discriminate].
  simpl. now rewrite read_digits_app.
Qed.

Lemma value_from_app s t a : value_from (s +:+ t) a = value_from t (value_from s a).
Proof.
  revert a. induction s as [|c r IH]; intros a; [reflexivity|].
  rewrite sapp_cons. simpl. apply IH.
Qed.

Lemma all_digits_app s t : all_digits (s +:+ t) = all_digits s && all_digits t.
Proof.
  induction s as [|c r IH]; [reflexivity|]. rewrite sapp_cons. simpl.
  now destruct (digit_of c).
Qed.

Lemma value_from_zeros m a : value_from (zeros m) a = (a * 10 ^ N.of_nat m)%N.
Proof.
  revert a. induction m as [|m IH]; intros a.
  - simpl. lia.
  - cbn [zeros value_from]. rewrite IH.
    replace (default 0%N (digit_of zero_char)) with 0%N by reflexivity.
    rewrite Nat2N.inj_succ, N.pow_succ_r'. lia.
Qed.

Lemma all_digits_zeros m : all_digits (zeros m) = true.
Proof. induction m as [|m IH]; [reflexivity | exact IH]. Qed.

Lemma slength_zeros m : String.length (zeros m) = m.
Proof. induction m as [|m IH]; simpl; [reflexivity | now rewrite IH]. Qed.

Ltac eval_digit :=
  repeat match goal with
    | |- context [digit_of ?c] =>
        let v := eval vm_compute in (digit_of c) in change (digit_of c) with v
    end;
  cbn [default from_option id].

(** The digits [Number::toString] prints are those of the number. *)
Lemma value_from_uint_acc u p :
  value_from (NilEmpty.string_of_uint u) (N.pos p) = N.pos (Pos.of_uint_acc u p).
Proof.
  revert p. induction u; intros p; cbn [NilEmpty.string_of_uint value_from Pos.of_uint_acc];
    [reflexivity | rewrite <- IHu; f_equal; eval_digit; lia ..].
Qed.

Lemma value_from_uint u : value_from (NilEmpty.string_of_uint u) 0 = Pos.of_uint u.
Proof.
  induction u; cbn [NilEmpty.string_of_uint value_from Pos.of_uint];
    [reflexivity | exact IHu | eval_digit; apply value_from_uint_acc ..].
Qed.

Lemma all_digits_uint u : all_digits (NilEmpty.string_of_uint u) = true.
Proof. induction u; simpl; auto. Qed.

Lemma value_from_printed d :
  value_from (NilEmpty.string_of_uint (N.to_uint d)) 0 = d.
Proof. rewrite value_from_uint. apply DecimalN.Unsigned.of_to. Qed.

End DigitFacts.

Section DigitFacts2.
Import Js Digits.

Lemma string_rev_onto_app s acc : string_rev_onto s acc = srev s +:+ acc.
Proof.
  unfold srev. revert acc. induction s as [|c r IH]; intros acc; [reflexivity|].
  simpl. rewrite (IH (String c acc)), (IH (String c "")), sapp_assoc. reflexivity.
Qed.

Lemma srev_cons c s : srev (String c s) = srev s +:+ String c "".
Proof. unfold srev at 1. simpl. apply string_rev_onto_app. Qed.

Lemma srev_app s t : srev (s +:+ t) = srev t +:+ srev s.
Proof.
  induction s as [|c r IH]; [now rewrite sapp_nil_r|].
  rewrite sapp_cons, !srev_cons, IH, sapp_assoc. reflexivity.
Qed.

Lemma srev_involutive s : srev (srev s) = s.
Proof.
  induction s as [|c r IH]; [reflexivity|].
  rewrite srev_cons, srev_app, IH. reflexivity.
Qed.

Lemma srev_zeros m : srev (zeros m) = zeros m.
Proof.
  induction m as [|m IH]; [reflexivity|].
  cbn [zeros]. rewrite srev_cons, IH. clear IH.
  induction m as [|m IH]; [reflexivity|].
  cbn [zeros]. rewrite sapp_cons. f_equal. exact IH.
Qed.

Lemma slength_srev s : String.length (srev s) = String.length s.
Proof.
  induction s as [|c r IH]; [reflexivity|].
  rewrite srev_cons, slength_app, IH. simpl. lia.
Qed.

(** [drop_zeros] takes a run of zeros off the front. *)
Lemma drop_zeros_spec t :
  exists m, t = zeros m +:+ drop_zeros t
            /\ match drop_zeros t with
               | String c _ => Ascii.eqb c zero_char = false
               | EmptyString => True
               end.
Proof.
  induction t as [|c r (m & Hm & Hhead)].
  - exists 0%nat. now split.
  - simpl. destruct (Ascii.eqb c zero_char) eqn:Hc.
    + apply Ascii.eqb_eq in Hc. subst c. exists (S m). split; [|exact Hhead].
      cbn [zeros]. rewrite sapp_cons. f_equal. exact Hm.
    + exists 0%nat. split; [reflexivity | exact Hc].
Qed.

Lemma digit_of_range c x : digit_of c = Some x -> (x <= 9)%N.
Proof.
  unfold digit_of. destruct (_ && _) eqn:H; [|discriminate].
  intros [= <-]. apply andb_true_iff in H as [H1 H2].
  apply Nat.leb_le in H1, H2. lia.
Qed.

Lemma digit_of_zero c x :
  digit_of c = Some x -> Ascii.eqb c zero_char = false -> (1 <= x)%N.
Proof.
  unfold digit_of. destruct (_ && _) eqn:H; [|discriminate].
  intros [= <-] Hc. apply andb_true_iff in H as [H1 H2].
  apply Nat.leb_le in H1, H2.
  destruct (Nat.eq_dec (nat_of_ascii c) 48%nat) as [E48|]; [|lia].
  apply Ascii.eqb_neq in Hc. exfalso. apply Hc.
  rewrite <- (ascii_nat_embedding c), E48. reflexivity.
Qed.

Lemma value_from_bounds s a :
  all_digits s = true ->
  (a * 10 ^ N.of_nat (String.length s) <= value_from s a
   < (a + 1) * 10 ^ N.of_nat (String.length s))%N.
Proof.
  revert a. induction s as [|c r IH]; intros a H.
  - simpl. lia.
  - simpl in H. destruct (digit_of c) as [x|] eqn:Hx; [|discriminate].
    pose proof (digit_of_range c x Hx) as Hr.
    cbn [value_from String.length]. rewrite Hx. cbn [default from_option id].
    specialize (IH (10 * a + x)%N H).
    rewrite Nat2N.inj_succ, N.pow_succ_r'.
    set (p := (10 ^ N.of_nat (String.length r))%N) in *.
    nia.
Qed.

(** What [significant] returns: the printed digits without their trailing
    zeros, and the number of zeros taken off. *)
Lemma significant_spec d :
  let all := NilEmpty.string_of_uint (N.to_uint d) in
  let '(kept, dropped) := significant d in
  all = kept +:+ zeros dropped
  /\ all_digits kept = true
  /\ d = (value_from kept 0 * 10 ^ N.of_nat dropped)%N
  /\ (d <> 0%N -> (value_from kept 0 mod 10 <> 0)%N).
Proof.
  cbv zeta. unfold significant.
  set (all := NilEmpty.string_of_uint (N.to_uint d)).
  fold (srev all). fold (srev (drop_zeros (srev all))).
  destruct (drop_zeros_spec (srev all)) as (m & Hm & Hhead).
  assert (Hall : all = srev (drop_zeros (srev all)) +:+ zeros m).
  { rewrite <- (srev_involutive all) at 1. rewrite Hm at 1.
    now rewrite srev_app, srev_zeros. }
  assert (Hlen : (String.length all - String.length (srev (drop_zeros (srev all))))%nat = m).
  { rewrite Hall at 1. rewrite slength_app, slength_zeros. lia. }
  rewrite Hlen.
  assert (Hdig : all_digits all = true) by apply all_digits_uint.
  rewrite Hall, all_digits_app in Hdig. apply andb_true_iff in Hdig as [Hk _].
  assert (Hd : d = (value_from (srev (drop_zeros (srev all))) 0 * 10 ^ N.of_nat m)%N).
  { rewrite <- (value_from_printed d) at 1. fold all. rewrite Hall at 1.
    now rewrite value_from_app, value_from_zeros. }
  repeat split; try assumption.
  intros Hnz. destruct (drop_zeros (srev all)) as [|c t] eqn:Hdz.
  - exfalso. apply Hnz. rewrite Hd. reflexivity.
  - rewrite srev_cons, value_from_app. cbn [value_from].
    rewrite srev_cons, all_digits_app in Hk. apply andb_true_iff in Hk as [_ Hc].
    simpl in Hc. destruct (digit_of c) as [x|] eqn:Hx; [|discriminate].
    cbn [default from_option id].
    pose proof (digit_of_range c x Hx). pose proof (digit_of_zero c x Hx Hhead).
    rewrite N.add_comm, N.mul_comm, N.Div0.mod_add.
    rewrite N.mod_small; lia.
Qed.

(** A positive number is printed without a leading zero. *)
Lemma printed_leading d :
  d <> 0%N ->
  exists c r x, NilEmpty.string_of_uint (N.to_uint d) = String c r
                /\ digit_of c = Some x /\ (1 <= x)%N.
Proof.
  intros Hd. destruct d as [|p]; [congruence|]. cbn [N.to_uint].
  pose proof (DecimalPos.Unsigned.to_of (Pos.to_uint p)) as Hn.
  rewrite DecimalPos.Unsigned.of_to in Hn. cbn [N.to_uint] in Hn.
  pose proof (DecimalPos.Unsigned.to_uint_nonzero p) as Hz.
  unfold Decimal.unorm in Hn.
  assert (Hh : Pos.to_uint p = Decimal.nzhead (Pos.to_uint p)).
  { destruct (Decimal.nzhead (Pos.to_uint p)); congruence. }
  pose proof (DecimalFacts.nzhead_nonzero (Pos.to_uint p)) as Hnz.
  rewrite <- Hh in Hnz.
  pose proof (DecimalPos.Unsigned.to_uint_nonnil p) as Hnil.
  destruct (Pos.to_uint p) as [|u|u|u|u|u|u|u|u|u|u]; cbn [NilEmpty.string_of_uint];
    [congruence | exfalso; now apply (Hnz u) | ..];
    eexists _, _, _; (split; [reflexivity | split; [vm_compute; reflexivity | lia]]).
Qed.

Lemma printed_size d :
  d <> 0%N ->
  (10 ^ N.of_nat (String.length (NilEmpty.string_of_uint (N.to_uint d)) - 1) <= d
   < 10 ^ N.of_nat (String.length (NilEmpty.string_of_uint (N.to_uint d))))%N.
Proof.
  intros Hd. destruct (printed_leading d Hd) as (c & r & x & Hs & Hx & Hx1).
  pose proof (all_digits_uint (N.to_uint d)) as Hall.
  pose proof (value_from_printed d) as Hv.
  pose proof (value_from_bounds _ 0%N Hall) as Hb.
  rewrite Hv in Hb. split; [|lia].
  rewrite Hs in Hall, Hv |- *. simpl in Hall. rewrite Hx in Hall.
  cbn [value_from] in Hv. rewrite Hx in Hv. cbn [default from_option id] in Hv.
  pose proof (value_from_bounds r (10 * 0 + x)%N Hall) as Hb2. rewrite Hv in Hb2.
  cbn [String.length]. replace (S (String.length r) - 1)%nat with (String.length r) by lia.
  nia.
Qed.

End DigitFacts2.

Section IntegerFacts.
Import Js Config Run Statics Digits.
Context {U : Type} (E : Env U).

Lemma parseInt_shape s :
  parseInt s = NaN \/ exists neg m, parseInt s = Finite neg m 0.
Proof.
  unfold parseInt.
  destruct (match trim_start s with
            | String "-" r => (true, r)
            | String "+" r => (false, r)
            | _ => (false, trim_start s)
            end) as [neg body].
  destruct (read_digits body None) as [m|]; [right; now exists neg, m | now left].
Qed.

Lemma parseInt_minus body :
  parseInt (String "-" body)
  = match read_digits body None with
    | None => NaN
    | Some m => Finite true m 0
    end.
Proof. reflexivity. Qed.

Lemma parseInt_digit c x body :
  digit_of c = Some x ->
  parseInt (String c body)
  = match read_digits (String c body) None with
    | None => NaN
    | Some m => Finite false m 0
    end.
Proof.
  intros H.
  destruct c as [[] [] [] [] [] [] [] []];
    try (vm_compute in H; discriminate); reflexivity.
Qed.

(** What [parseInt] reads back from a printed number whose digits start
    with [String c r] and go on with [rest], which is not a digit. *)
Lemma parseInt_printed (neg : bool) c r rest :
  all_digits (String c r) = true -> stops rest = true ->
  parseInt (if neg then "-" +:+ (String c r +:+ rest) else String c r +:+ rest)
  = Finite neg (value_from (String c r) 0) 0.
Proof.
  intros Hd Hs.
  assert (Hread : read_digits (String c r +:+ rest) None
                  = Some (value_from (String c r) 0)).
  { rewrite read_digits_first by exact Hd. now apply read_digits_stops. }
  destruct neg.
  - change ("-" +:+ (String c r +:+ rest)) with (String "-" (String c r +:+ rest)).
    rewrite parseInt_minus, Hread. reflexivity.
  - simpl in Hd. destruct (digit_of c) as [x|] eqn:Hx; [|discriminate].
    rewrite sapp_cons in *. rewrite (parseInt_digit c x _ Hx), Hread. reflexivity.
Qed.

End IntegerFacts.

Section IntegerFacts2.
Import Js Config Run Statics Digits.
Context {U : Type} (E : Env U).

Lemma isInteger_num n :
  isInteger E (VNum n) = num_eq (parseInt (number_to_string n)) n.
Proof.
  unfold isInteger, isNumber, isNaN. cbn [typeof ToNumber String.eqb Ascii.eqb Bool.eqb andb strict_eq].
  destruct n; try reflexivity.
Qed.

Lemma signed_abs neg d : Z.abs (signed neg d) = Z.of_N d.
Proof. unfold signed. destruct neg; lia. Qed.

(** A number with a fractional part is no integer: whatever [parseInt]
    returns differs from it. *)
Lemma num_eq_fraction neg' m neg d e K dropped :
  d = (K * 10 ^ N.of_nat dropped)%N -> (K mod 10 <> 0)%N ->
  e + Z.of_nat dropped < 0 ->
  num_eq (Finite neg' m 0) (Finite neg d e) = false.
Proof.
  intros Hd HK Hneg. cbn [num_eq].
  assert (He : e < 0) by lia.
  rewrite Z.min_r by lia. rewrite Z.sub_diag, Z.pow_0_r, Z.mul_1_r.
  apply Z.eqb_neq. intros Heq.
  apply (f_equal Z.abs) in Heq. rewrite Z.abs_mul, !signed_abs in Heq.
  rewrite Z.abs_pow in Heq. change (Z.abs 10) with 10 in Heq.
  apply HK.
  assert (Hsplit : 0 - e = (0 - e - Z.of_nat dropped - 1) + 1 + Z.of_nat dropped) by lia.
  rewrite Hsplit, !Z.pow_add_r, Z.pow_1_r in Heq by lia.
  rewrite Hd, N2Z.inj_mul, N2Z.inj_pow, nat_N_Z in Heq.
  change (Z.of_N 10) with 10 in Heq.
  assert (Hp : 0 < 10 ^ Z.of_nat dropped) by (apply Z.pow_pos_nonneg; lia).
  assert (HKz : Z.of_N K = Z.of_N m * 10 ^ (0 - e - Z.of_nat dropped - 1) * 10) by nia.
  apply N2Z.inj. rewrite N2Z.inj_mod. change (Z.of_N 10) with 10. change (Z.of_N 0) with 0.
  rewrite HKz. apply Z.mod_mul. lia.
Qed.
End IntegerFacts2.

Section IntegerFacts3.
Import Js Config Run Statics Digits.
Context {U : Type} (E : Env U).

Lemma number_to_string_finite neg d e kept dropped :
  d <> 0%N -> significant d = (kept, dropped) ->
  number_to_string (Finite neg d e)
  = let k := Z.of_nat (String.length kept) in
    let n := e + Z.of_nat dropped + k in
    let body :=
      if (k <=? n) && (n <=? 21) then kept +:+ zeros (Z.to_nat (n - k))
      else if (0 <? n) && (n <=? 21) then
        take_str (Z.to_nat n) kept +:+ "." +:+ drop_str (Z.to_nat n) kept
      else if (-6 <? n) && (n <=? 0) then
        "0." +:+ zeros (Z.to_nat (- n)) +:+ kept
      else
        let ex := (if n - 1 <? 0 then "-" else "+") +:+ string_of_Z_abs (n - 1) in
        if (k =? 1) then kept +:+ "e" +:+ ex
        else take_str 1 kept +:+ "." +:+ drop_str 1 kept +:+ "e" +:+ ex in
    if neg then "-" +:+ body else body.
Proof.
  intros Hd Hs. unfold number_to_string. rewrite Hs.
  apply N.eqb_neq in Hd. rewrite Hd. reflexivity.
Qed.

(** The digits, then as many zeros as the exponent asks for, read back as
    the number itself. *)
Lemma num_eq_integer neg K dropped e :
  0 <= e + Z.of_nat dropped ->
  num_eq (Finite neg (K * 10 ^ N.of_nat (Z.to_nat (e + Z.of_nat dropped))) 0)
         (Finite neg (K * 10 ^ N.of_nat dropped) e) = true.
Proof.
  intros Hint. cbn [num_eq]. apply Z.eqb_eq.
  unfold signed.
  rewrite !N2Z.inj_mul, !N2Z.inj_pow, !nat_N_Z, Z2Nat.id by lia.
  change (Z.of_N 10) with 10.
  assert (H : Z.of_N K * 10 ^ (e + Z.of_nat dropped) * 10 ^ (0 - Z.min 0 e)
              = Z.of_N K * 10 ^ Z.of_nat dropped * 10 ^ (e - Z.min 0 e)).
  { rewrite <- !Z.mul_assoc, <- !Z.pow_add_r by lia. do 2 f_equal. lia. }
  destruct neg; lia.
Qed.

(** A number of more than 21 digits is printed with an exponent, and
    [parseInt] reads one digit of it. *)
Lemma num_eq_large neg' v neg d e (len : nat) :
  (v < 10 ^ 21)%N -> (10 ^ N.of_nat (len - 1) <= d)%N -> (1 <= len)%nat ->
  21 < e + Z.of_nat len ->
  num_eq (Finite neg' v 0) (Finite neg d e) = false.
Proof.
  intros Hv Hd Hlen Hbig. cbn [num_eq]. apply Z.eqb_neq. intros Heq.
  apply (f_equal Z.abs) in Heq. rewrite !Z.abs_mul, !signed_abs, !Z.abs_pow in Heq.
  change (Z.abs 10) with 10 in Heq.
  apply N2Z.inj_le in Hd. rewrite N2Z.inj_pow, nat_N_Z in Hd.
  change (Z.of_N 10) with 10 in Hd.
  assert (Hv' : Z.of_N v < 10 ^ 21).
  { apply N2Z.inj_lt in Hv. rewrite N2Z.inj_pow in Hv. exact Hv. }
  destruct (Z.le_gt_cases 0 e) as [He|He].
  - rewrite Z.min_l in Heq by lia. rewrite !Z.sub_0_r, Z.pow_0_r, Z.mul_1_r in Heq.
    assert (10 ^ 21 <= 10 ^ Z.of_nat (len - 1) * 10 ^ e).
    { rewrite <- Z.pow_add_r by lia. apply Z.pow_le_mono_r; lia. }
    assert (0 < 10 ^ e) by (apply Z.pow_pos_nonneg; lia).
    assert (10 ^ 21 = 1000000000000000000000) by reflexivity.
    nia.
  - rewrite Z.min_r in Heq by lia. rewrite Z.sub_diag, Z.pow_0_r, Z.mul_1_r in Heq.
    assert (10 ^ 21 * 10 ^ (0 - e) <= 10 ^ Z.of_nat (len - 1)).
    { rewrite <- Z.pow_add_r by lia. apply Z.pow_le_mono_r; lia. }
    assert (0 < 10 ^ (0 - e)) by (apply Z.pow_pos_nonneg; lia).
    assert (10 ^ 21 = 1000000000000000000000) by reflexivity.
    nia.
Qed.

Lemma isInteger_finite neg d e kept dropped :
  d <> 0%N -> significant d = (kept, dropped) ->
  isInteger E (VNum (Finite neg d e))
  = (0 <=? e + Z.of_nat dropped)
    && (e + Z.of_nat (String.length (NilEmpty.string_of_uint (N.to_uint d))) <=? 21).
Proof.
  intros Hd Hs. rewrite isInteger_num.
  pose proof (significant_spec d) as Hspec. cbv zeta in Hspec. rewrite Hs in Hspec.
  destruct Hspec as (Hall & Hdig & Hval & Hmod). specialize (Hmod Hd).
  destruct (Z.leb_spec 0 (e + Z.of_nat dropped)) as [Hint|Hfrac]; cbn [andb].
  2:{ destruct (parseInt_shape (number_to_string (Finite neg d e)))
        as [-> | (neg' & m & ->)]; [reflexivity|].
      eapply num_eq_fraction; eauto. }
  rewrite (number_to_string_finite neg d e kept dropped Hd Hs). cbv zeta.
  pose proof (printed_size d Hd) as [Hlow _].
  assert (Hlen : String.length (NilEmpty.string_of_uint (N.to_uint d))
                 = (String.length kept + dropped)%nat).
  { rewrite Hall, slength_app, slength_zeros. lia. }
  rewrite Hlen in *. clear Hlen.
  destruct kept as [|c r]; [exfalso; now apply Hmod|].
  set (k := Z.of_nat (String.length (String c r))).
  set (n := e + Z.of_nat dropped + k).
  assert (Hk : 1 <= k) by (unfold k; cbn [String.length]; lia).
  assert (Hkn : (k <=? n) = true) by (apply Z.leb_le; lia).
  rewrite Hkn. cbn [andb].
  replace (e + Z.of_nat (String.length (String c r) + dropped)) with n by (unfold n, k; lia).
  destruct (Z.leb_spec n 21) as [Hsmall|Hbig].
  - replace (n - k) with (e + Z.of_nat dropped) by (unfold n; lia).
    set (m := Z.to_nat (e + Z.of_nat dropped)).
    assert (Hb : String c r +:+ zeros m = String c (r +:+ zeros m) +:+ "")
      by (now rewrite sapp_nil_r, sapp_cons).
    rewrite Hb, parseInt_printed; [| | reflexivity].
    2:{ rewrite <- sapp_cons, all_digits_app, Hdig. apply all_digits_zeros. }
    rewrite <- sapp_cons, value_from_app, value_from_zeros, Hval.
    now apply num_eq_integer.
  - replace ((0 <? n) && false) with false by now rewrite andb_false_r.
    replace ((-6 <? n) && (n <=? 0)) with false.
    2:{ symmetry. apply andb_false_iff. right. apply Z.leb_gt. lia. }
    assert (Hone : forall rest, stops rest = true ->
              num_eq (parseInt (if neg then "-" +:+ (String c "" +:+ rest)
                                else String c "" +:+ rest))
                     (Finite neg d e) = false).
    { intros rest Hrest. rewrite parseInt_printed; [| | exact Hrest].
      2:{ simpl in Hdig |- *. now destruct (digit_of c). }
      apply (num_eq_large _ _ _ _ _ (String.length (String c r) + dropped)).
      - cbn [value_from]. simpl in Hdig. destruct (digit_of c) as [x|] eqn:Hx; [|discriminate].
        cbn [default from_option id]. pose proof (digit_of_range c x Hx).
        change (10 ^ 21)%N with 1000000000000000000000%N. lia.
      - exact Hlow.
      - cbn [String.length]. lia.
      - unfold n, k in Hbig. lia. }
    destruct (Z.eqb_spec k 1) as [Hk1|Hk1].
    + assert (r = "") as ->.
      { unfold k in Hk1. cbn [String.length] in Hk1. destruct r; [reflexivity|].
        cbn [String.length] in Hk1. lia. }
      apply Hone. reflexivity.
    + change (take_str 1 (String c r)) with (String c ""). apply Hone. reflexivity.
Qed.

Lemma num_eq_sym a b : num_eq a b = num_eq b a.
Proof.
  destruct a as [|na|na da ea], b as [|nb|nb db eb]; cbn [num_eq]; try reflexivity.
  - now destruct na, nb.
  - rewrite (Z.min_comm eb ea). apply Z.eqb_sym.
Qed.

Lemma isInteger_zero neg e : isInteger E (VNum (Finite neg 0 e)) = true.
Proof.
  rewrite isInteger_num.
  change (number_to_string (Finite neg 0 e)) with "0".
  change (parseInt "0") with (Finite false 0 0).
  cbn [num_eq]. unfold signed. apply Z.eqb_eq. destruct neg; lia.
Qed.
End IntegerFacts3.

Section IntegerSpec.
Lemma isInteger_iff :
  forall (U : Type) (E : Run.Env U) (v : Js.value),
    Statics.isInteger E v = true <->
    exists (neg : bool) (z : N),
      (z < 10 ^ 21)%N /\ Js.strict_eq v (Js.VNum (Js.Finite neg z 0)) = true.
Proof.
  intros U E v. split.
  - intros H. destruct (isInteger_only_numbers E v H) as (n & -> & Hn).
    destruct n as [|b|neg d e]; [discriminate | destruct b; discriminate |].
    destruct (N.eq_dec d 0%N) as [->|Hd].
    { exists neg, 0%N. split; [reflexivity|]. cbn [Js.strict_eq Js.num_eq].
      unfold Js.signed. apply Z.eqb_eq. destruct neg; lia. }
    destruct (Js.significant d) as [kept dropped] eqn:Hs.
    rewrite (isInteger_finite E neg d e kept dropped Hd Hs) in H.
    apply andb_true_iff in H as [Hint Hlen].
    apply Z.leb_le in Hint, Hlen.
    pose proof (significant_spec d) as Hspec. cbv zeta in Hspec. rewrite Hs in Hspec.
    destruct Hspec as (Hall & Hdig & Hval & _).
    set (K := Digits.value_from kept 0) in *.
    exists neg, (K * 10 ^ N.of_nat (Z.to_nat (e + Z.of_nat dropped)))%N. split.
    + pose proof (value_from_bounds kept 0%N Hdig) as [_ HK]. fold K in HK.
      rewrite Hall, slength_app, slength_zeros in Hlen.
      apply N2Z.inj_lt. rewrite N2Z.inj_mul, !N2Z.inj_pow, nat_N_Z, Z2Nat.id by lia.
      apply N2Z.inj_lt in HK. rewrite N2Z.inj_mul, N2Z.inj_pow, nat_N_Z in HK.
      change (Z.of_N 10) with 10 in *. change (Z.of_N 21) with 21.
      change (Z.of_N (0 + 1)) with 1 in HK. rewrite Z.mul_1_l in HK.
      assert (Hp : 0 < 10 ^ (e + Z.of_nat dropped)) by (apply Z.pow_pos_nonneg; lia).
      assert (Hle : 10 ^ Z.of_nat (String.length kept) * 10 ^ (e + Z.of_nat dropped)
                    <= 10 ^ 21).
      { rewrite <- Z.pow_add_r by lia. apply Z.pow_le_mono_r; lia. }
      nia.
    + cbn [Js.strict_eq]. rewrite num_eq_sym, Hval. now apply num_eq_integer.
  - intros (neg & z & Hz & Heq).
    destruct v; try discriminate. cbn [Js.strict_eq] in Heq.
    destruct n as [|b|neg' d e]; try discriminate.
    destruct (N.eq_dec d 0%N) as [->|Hd]; [apply isInteger_zero|].
    destruct (Js.significant d) as [kept dropped] eqn:Hs.
    rewrite (isInteger_finite E neg' d e kept dropped Hd Hs).
    pose proof (significant_spec d) as Hspec. cbv zeta in Hspec. rewrite Hs in Hspec.
    destruct Hspec as (Hall & Hdig & Hval & Hmod). specialize (Hmod Hd).
    rewrite num_eq_sym in Heq.
    apply andb_true_iff. split.
    + apply Z.leb_le. destruct (Z.le_gt_cases 0 (e + Z.of_nat dropped)) as [|Hfrac]; [assumption|].
      rewrite (num_eq_fraction neg z neg' d e _ dropped Hval Hmod Hfrac) in Heq.
      discriminate.
    + apply Z.leb_le.
      destruct (Z.le_gt_cases (e + Z.of_nat (String.length (NilEmpty.string_of_uint (N.to_uint d)))) 21)
        as [|Hbig]; [assumption|].
      pose proof (printed_size d Hd) as [Hlow _].
      pose proof (printed_leading d Hd) as (c & r & x & Hpr & _).
      rewrite (num_eq_large neg z neg' d e _ Hz Hlow) in Heq; [discriminate | | exact Hbig].
      rewrite Hpr. cbn [String.length]. lia.
Qed.

End IntegerSpec.

(** ** The numeric predicates, in full *)

(** X1.  [isInteger] holds exactly of the integers below 10^21 in absolute
    value: a value passes when, and only when, it is a Number equal to [z]
    or to [-z] for a natural number [z < 10^21].  So NaN, the infinities,
    every number with a fractional part and every value that is not a Number
    fail, and so does every integer of 22 digits or more, which
    [Number::toString] prints with an exponent and [parseInt] reads back as
    its first digit. *)
Theorem isInteger_holds_of_the_integers_below_1e21 :
  forall (U : Type) (E : Run.Env U) (v : Js.value),
    Statics.isInteger E v = true <->
    exists (neg : bool) (z : N),
      (z < 10 ^ 21)%N /\ Js.strict_eq v (Js.VNum (Js.Finite neg z 0)) = true.
Proof. intros U E v. apply isInteger_iff. Qed.

(** X2.  In validator-ts.ts [isFloat] holds exactly of the Numbers that
    [isInteger] refuses, NaN apart: a value passes when, and only when, it
    is a Number, is not NaN, and is no integer below 10^21 in absolute value.
    Besides the numbers with a fractional part this lets through the two
    infinities and the integers of 22 digits or more. *)
Theorem ts_isFloat_holds_of_the_other_numbers :
  forall (U : Type) (E : Run.Env U) (v : Js.value),
    TS.isFloat E v = true <->
    exists n, v = Js.VNum n
              /\ Js.is_nan n = false
              /\ forall (neg : bool) (z : N),
                   (z < 10 ^ 21)%N -> Js.num_eq n (Js.Finite neg z 0) = false.
Proof.
  intros U E v. unfold TS.isFloat. rewrite andb_true_iff, negb_true_iff. split.
  - intros [Hnum Hint].
    assert (Hn : exists n, v = Js.VNum n /\ Js.is_nan n = false).
    { unfold Statics.isNumber, Run.isNaN in Hnum.
      destruct v; try discriminate. exists n. split; [reflexivity|].
      cbn in Hnum. now apply negb_true_iff in Hnum. }
    destruct Hn as (n & -> & Hnan). exists n. repeat split; [exact Hnan|].
    intros neg z Hz. destruct (Js.num_eq n (Js.Finite neg z 0)) eqn:Heq; [|reflexivity].
    assert (Statics.isInteger E (Js.VNum n) = true); [|congruence].
    apply isInteger_iff. now exists neg, z.
  - intros (n & -> & Hnan & Hno). split.
    + unfold Statics.isNumber, Run.isNaN. cbn. now rewrite Hnan.
    + destruct (Statics.isInteger E (Js.VNum n)) eqn:Hint; [|reflexivity].
      apply isInteger_iff in Hint as (neg & z & Hz & Heq).
      cbn [Js.strict_eq] in Heq. rewrite (Hno neg z Hz) in Heq. discriminate.
Qed.

(** ** The length bounds *)

Section LengthBounds.
Import Js Config Run Statics Obs Digits Outcome.
Context {U : Type} (E : Env U).
Local Open Scope run_scope.

Lemma isInteger_small n : (n < 10 ^ 21)%N -> isInteger E (VNum (num_of_N n)) = true.
Proof.
  intros Hn. unfold num_of_N.
  destruct (N.eq_dec n 0%N) as [->|Hnz]; [apply isInteger_zero|].
  destruct (significant n) as [kept dropped] eqn:Hs.
  rewrite (isInteger_finite E false n 0 kept dropped Hnz Hs).
  apply andb_true_iff. split; [apply Z.leb_le; lia|]. apply Z.leb_le.
  pose proof (printed_size n Hnz) as [Hlow _].
  pose proof (printed_leading n Hnz) as (c & r & x & Hpr & _).
  set (len := String.length (NilEmpty.string_of_uint (N.to_uint n))) in *.
  assert (Hlen : (1 <= len)%nat) by (unfold len; rewrite Hpr; cbn [String.length]; lia).
  assert (Hlt : (10 ^ N.of_nat (len - 1) < 10 ^ 21)%N) by lia.
  apply N.pow_lt_mono_r_iff in Hlt; lia.
Qed.

Lemma js_gt_zero n : (0 < n)%N -> js_gt E (VNum (num_of_N n)) (VNum (num_of_nat 0)) = true.
Proof.
  intros Hn. unfold js_gt, num_of_N, num_of_nat. cbn [ToNumber num_lt signed].
  apply Z.ltb_lt. cbn. lia.
Qed.

Lemma js_le_count len n :
  js_le E (VNum (num_of_nat len)) (VNum (num_of_N n)) = (N.of_nat len <=? n)%N.
Proof.
  unfold js_le, num_le, num_of_N, num_of_nat. cbn [ToNumber is_nan negb andb num_lt signed].
  rewrite Z.min_id, Z.sub_diag, Z.pow_0_r, !Z.mul_1_r.
  destruct (N.leb_spec (N.of_nat len) n); [apply negb_true_iff, Z.ltb_ge | apply negb_false_iff, Z.ltb_lt]; lia.
Qed.

Lemma js_ge_count len n :
  js_ge E (VNum (num_of_nat len)) (VNum (num_of_N n)) = (n <=? N.of_nat len)%N.
Proof.
  unfold js_ge, num_le, num_of_N, num_of_nat. cbn [ToNumber is_nan negb andb num_lt signed].
  rewrite Z.min_id, Z.sub_diag, Z.pow_0_r, !Z.mul_1_r.
  destruct (N.leb_spec n (N.of_nat len)); [apply negb_true_iff, Z.ltb_ge | apply negb_false_iff, Z.ltb_lt]; lia.
Qed.

Lemma truthy_num_of_N n : (0 < n)%N -> truthy (VNum (num_of_N n)) = true.
Proof. intros Hn. cbn. apply negb_true_iff, N.eqb_neq. lia. Qed.

Lemma get_length_counted v len (w : world U) :
  counted v = Some len -> get_length E v w = (Ok (VNum (num_of_nat len)), w).
Proof. destruct v; try discriminate; intros [= <-]; reflexivity. Qed.

Lemma get_length_lengthless v (w : world U) :
  lengthless v = true -> get_length E v w = (Ok VUndefined, w).
Proof. destruct v; try discriminate; reflexivity. Qed.

(** The body the two length checks share, on a bound that is a positive
    integer. *)
Lemma length_bound_run n (cmp : value -> value -> bool) text v (w : world U) :
  (0 < n < 10 ^ 21)%N ->
  (if truthy (VNum (num_of_N n)) then
     if isInteger E (VNum (num_of_N n))
        && js_gt E (VNum (num_of_N n)) (VNum (num_of_nat 0)) then
       len <- get_length E v ;; ret (RBool (cmp len (VNum (num_of_N n))))
     else warn text ;;; ret (RBool true)
   else ret (RBool true)) w
  = (len <- get_length E v ;; ret (RBool (cmp len (VNum (num_of_N n))))) w.
Proof.
  intros [Hpos Hlt].
  now rewrite truthy_num_of_N, isInteger_small, js_gt_zero.
Qed.
End LengthBounds.

(** X3.  A maxlength or minlength that is a positive integer counts the
    characters of a string and the elements of an array: the maxlength check
    passes exactly when there are at most that many, the minlength check
    exactly when there are at least that many.  In validator-ts.ts this is
    so on every value that is not empty; validator-2.0.0.js has the same
    comparison without the test for emptiness. *)
Theorem length_bounds_count_characters :
  forall (U : Type) (E : Run.Env U) (rule : Config.RuleItem) (v : Js.value)
         (field : string) (w : Run.world U) (n : N) (len : nat),
    (0 < n < 10 ^ 21)%N ->
    Outcome.counted v = Some len ->
    (Config.maxlength rule = Js.VNum (Outcome.num_of_N n) ->
       (Statics.isEmpty v = false ->
        TS._validateMaxlen E rule v field w
        = (Run.Ok (Config.RBool (N.of_nat len <=? n)%N),
           Obs.entered_world w Config.Maxlen rule v field))
       /\ V2._validateMaxlen E rule v field w
          = (Run.Ok (Config.RBool (N.of_nat len <=? n)%N),
             Obs.entered_world w Config.Maxlen rule v field))
    /\ (Config.minlength rule = Js.VNum (Outcome.num_of_N n) ->
       (Statics.isEmpty v = false ->
        TS._validateMinlen E rule v field w
        = (Run.Ok (Config.RBool (n <=? N.of_nat len)%N),
           Obs.entered_world w Config.Minlen rule v field))
       /\ V2._validateMinlen E rule v field w
          = (Run.Ok (Config.RBool (n <=? N.of_nat len)%N),
             Obs.entered_world w Config.Minlen rule v field)).
Proof.
  intros U E rule v field w n len Hn Hlen.
  split; intros Hrule; split; try intros Hne;
    unfold TS._validateMaxlen, V2._validateMaxlen, TS._validateMinlen,
      V2._validateMinlen;
    rewrite ?Hne, Hrule; cbv zeta;
    unfold Run.bind at 1; unfold Run.emit at 1;
    rewrite length_bound_run by exact Hn;
    unfold Run.bind; rewrite (get_length_counted E v len _ Hlen);
    unfold Run.ret, Obs.entered_world; cbn [Run.ust Run.trace];
    rewrite ?js_le_count, ?js_ge_count; reflexivity.
Qed.

Lemma length_bounds_count_characters_witness :
  fst (TS._validateMaxlen Sample.env Sample.max_rule (Js.VStr "abc") "name"
         Sample.start)
  = Run.Ok (Config.RBool false)
  /\ fst (V2._validateMaxlen Sample.env Sample.max_rule
            (Js.VArr 7 [Js.VNull; Js.VNull]) "name" Sample.start)
     = Run.Ok (Config.RBool true).
Proof.
  split.
  - destruct (length_bounds_count_characters nat Sample.env Sample.max_rule
                (Js.VStr "abc") "name" Sample.start 2%N 3%nat) as [Hmax _];
      [lia | reflexivity |].
    destruct (Hmax eq_refl) as [Hts _]. now rewrite (Hts eq_refl).
  - destruct (length_bounds_count_characters nat Sample.env Sample.max_rule
                (Js.VArr 7 [Js.VNull; Js.VNull]) "name" Sample.start 2%N 2%nat)
      as [Hmax _]; [lia | reflexivity |].
    destruct (Hmax eq_refl) as [_ Hv2]. now rewrite Hv2.
Defined.

(** X4.  A value with no [length] of its own (a number, a boolean, a date,
    a regular expression, a promise) fails a maxlength check and a minlength
    check alike, whatever the bound: [undefined] compares false with every
    number. *)
Theorem values_without_length_fail_both_bounds :
  forall (U : Type) (E : Run.Env U) (rule : Config.RuleItem) (v : Js.value)
         (field : string) (w : Run.world U) (n : N),
    (0 < n < 10 ^ 21)%N ->
    Outcome.lengthless v = true ->
    (Config.maxlength rule = Js.VNum (Outcome.num_of_N n) ->
       TS._validateMaxlen E rule v field w
       = (Run.Ok (Config.RBool false), Obs.entered_world w Config.Maxlen rule v field)
       /\ V2._validateMaxlen E rule v field w
          = (Run.Ok (Config.RBool false), Obs.entered_world w Config.Maxlen rule v field))
    /\ (Config.minlength rule = Js.VNum (Outcome.num_of_N n) ->
       TS._validateMinlen E rule v field w
       = (Run.Ok (Config.RBool false), Obs.entered_world w Config.Minlen rule v field)
       /\ V2._validateMinlen E rule v field w
          = (Run.Ok (Config.RBool false), Obs.entered_world w Config.Minlen rule v field)).
Proof.
  intros U E rule v field w n Hn Hv.
  assert (Hne : Statics.isEmpty v = false) by (destruct v; try discriminate; reflexivity).
  split; intros Hrule; split;
    unfold TS._validateMaxlen, V2._validateMaxlen, TS._validateMinlen,
      V2._validateMinlen;
    rewrite ?Hne, Hrule; cbv zeta;
    unfold Run.bind at 1; unfold Run.emit at 1;
    rewrite length_bound_run by exact Hn;
    unfold Run.bind; rewrite (get_length_lengthless E v _ Hv);
    reflexivity.
Qed.

Lemma values_without_length_fail_both_bounds_witness :
  fst (TS._validateMaxlen Sample.env Sample.max_rule
         (Js.VNum (Js.Finite false 7 0)) "name" Sample.start)
  = Run.Ok (Config.RBool false).
Proof.
  destruct (values_without_length_fail_both_bounds nat Sample.env Sample.max_rule
              (Js.VNum (Js.Finite false 7 0)) "name" Sample.start 2%N)
    as [Hmax _]; [lia | reflexivity |].
  destruct (Hmax eq_refl) as [Hts _]. now rewrite Hts.
Defined.

(** ** What each check does with its constraint *)

Section Malformed.
Import Js Config Run Statics Obs Outcome.
Context {U : Type} (E : Env U).
Local Open Scope run_scope.

Lemma entry_then_warning {A} e text (r : A) (w : world U) :
  (emit e ;;; (warn text ;;; ret r)) w
  = (Ok r, mkWorld (ust w) (trace w ++ [e; EvWarn text])).
Proof.
  unfold bind, warn, emit, ret. cbn [ust trace]. now rewrite <- app_assoc.
Qed.

Lemma ts_bad_type :
  warns_and_passes Type_ (TS._validateType E) bad_type
    (fun field => "There is a type in field " +:+ field +:+ " that is unsupported")
    true.
Proof.
  intros rule v field w Hv Hbad. unfold bad_type in Hbad.
  apply andb_true_iff in Hbad as [Ht Hone]. apply negb_true_iff in Hone.
  unfold TS._validateType. rewrite (Hv eq_refl). cbv zeta. rewrite Ht, Hone. apply entry_then_warning.
Qed.

Lemma v2_bad_type :
  warns_and_passes Type_ (V2._validateType E) bad_type
    (fun field => "There is a type in field " +:+ field +:+ " that is unsupported")
    false.
Proof.
  intros rule v field w _ Hbad. unfold bad_type in Hbad.
  apply andb_true_iff in Hbad as [Ht Hone]. apply negb_true_iff in Hone.
  unfold V2._validateType. cbv zeta. rewrite Ht, Hone. apply entry_then_warning.
Qed.

Lemma ts_bad_pattern :
  warns_and_passes Pattern (TS._validatePattern E) bad_pattern
    (fun field => "There is a pattern in field " +:+ field
                  +:+ " that is not of type regexp")
    true.
Proof.
  intros rule v field w Hv Hbad. unfold bad_pattern in Hbad.
  apply andb_true_iff in Hbad as [Ht Hre]. apply negb_true_iff in Hre.
  unfold TS._validatePattern. rewrite (Hv eq_refl). cbv zeta. rewrite Ht.
  destruct (pattern rule); try discriminate; apply entry_then_warning.
Qed.

Lemma v2_bad_pattern :
  warns_and_passes Pattern (V2._validatePattern E) bad_pattern
    (fun field => "There is a pattern in field " +:+ field
                  +:+ " that is not of type regexp")
    false.
Proof.
  intros rule v field w _ Hbad. unfold bad_pattern in Hbad.
  apply andb_true_iff in Hbad as [Ht Hre]. apply negb_true_iff in Hre.
  unfold V2._validatePattern. cbv zeta. rewrite Ht.
  destruct (pattern rule); try discriminate; apply entry_then_warning.
Qed.

Lemma ts_bad_validator :
  warns_and_passes Custom (TS._customValidate E) bad_validator
    (fun field => "There is a validator in field " +:+ field
                  +:+ " that is not of type function")
    true.
Proof.
  intros rule v field w Hv Hbad. unfold bad_validator in Hbad.
  apply andb_true_iff in Hbad as [Ht Hfn]. apply negb_true_iff in Hfn.
  unfold TS._customValidate. rewrite (Hv eq_refl). cbv zeta. rewrite Ht, Hfn. apply entry_then_warning.
Qed.

Lemma v2_bad_validator :
  warns_and_passes Custom (V2._customValidate E) bad_validator
    (fun field => "There is a validator in field " +:+ field
                  +:+ " that is not of type function")
    false.
Proof.
  intros rule v field w _ Hbad. unfold bad_validator in Hbad.
  apply andb_true_iff in Hbad as [Ht Hfn]. apply negb_true_iff in Hfn.
  unfold V2._customValidate. cbv zeta. rewrite Ht, Hfn. apply entry_then_warning.
Qed.

Lemma ts_bad_maxlength :
  warns_and_passes Maxlen (TS._validateMaxlen E)
    (fun rule => bad_bound E (maxlength rule))
    (fun field => "There is a maxLength in the field " +:+ field
                  +:+ " that is not a positive integer type")
    true.
Proof.
  intros rule v field w Hv Hbad. unfold bad_bound in Hbad.
  apply andb_true_iff in Hbad as [Ht Hint]. apply negb_true_iff in Hint.
  unfold TS._validateMaxlen. rewrite (Hv eq_refl). cbv zeta. rewrite Ht, Hint. apply entry_then_warning.
Qed.

Lemma v2_bad_maxlength :
  warns_and_passes Maxlen (V2._validateMaxlen E)
    (fun rule => bad_bound E (maxlength rule))
    (fun field => "There is a maxLength in the field " +:+ field
                  +:+ " that is not a positive integer type")
    false.
Proof.
  intros rule v field w _ Hbad. unfold bad_bound in Hbad.
  apply andb_true_iff in Hbad as [Ht Hint]. apply negb_true_iff in Hint.
  unfold V2._validateMaxlen. cbv zeta. rewrite Ht, Hint. apply entry_then_warning.
Qed.

Lemma ts_bad_minlength :
  warns_and_passes Minlen (TS._validateMinlen E)
    (fun rule => bad_bound E (minlength rule))
    (fun field => "There is a minlength in the field " +:+ field
                  +:+ " that is not a positive integer type")
    true.
Proof.
  intros rule v field w Hv Hbad. unfold bad_bound in Hbad.
  apply andb_true_iff in Hbad as [Ht Hint]. apply negb_true_iff in Hint.
  unfold TS._validateMinlen. rewrite (Hv eq_refl). cbv zeta. rewrite Ht, Hint. apply entry_then_warning.
Qed.

Lemma v2_bad_minlength :
  warns_and_passes Minlen (V2._validateMinlen E)
    (fun rule => bad_bound E (minlength rule))
    (fun field => "There is a minlength in the field " +:+ field
                  +:+ " that is not a positive integer type")
    false.
Proof.
  intros rule v field w _ Hbad. unfold bad_bound in Hbad.
  apply andb_true_iff in Hbad as [Ht Hint]. apply negb_true_iff in Hint.
  unfold V2._validateMinlen. cbv zeta. rewrite Ht, Hint. apply entry_then_warning.
Qed.

Lemma ts_bad_enum :
  warns_and_passes Enum (TS._validateEnum (U:=U)) bad_enum
    (fun field => "There is a minlength in the field " +:+ field
                  +:+ " that is not a positive array type")
    true.
Proof.
  intros rule v field w Hv Hbad. unfold bad_enum in Hbad.
  apply andb_true_iff in Hbad as [Ht Harr]. apply negb_true_iff in Harr.
  unfold TS._validateEnum. rewrite (Hv eq_refl). cbv zeta. rewrite Ht.
  destruct (enum rule); try discriminate; apply entry_then_warning.
Qed.

Lemma v2_bad_enum :
  warns_and_passes Enum (V2._validateEnum (U:=U)) bad_enum
    (fun field => "There is a minlength in the field " +:+ field
                  +:+ " that is not a positive array type")
    false.
Proof.
  intros rule v field w _ Hbad. unfold bad_enum in Hbad.
  apply andb_true_iff in Hbad as [Ht Harr]. apply negb_true_iff in Harr.
  unfold V2._validateEnum. cbv zeta. rewrite Ht.
  destruct (enum rule); try discriminate; apply entry_then_warning.
Qed.
End Malformed.

(** X5.  A constraint that is set but unusable never rejects a value: a
    type outside the ten supported names, a pattern that is not a regular
    expression, a validator that is not a function, a maxlength or minlength
    that is not a positive integer, an enum that is not an array.  The check
    prints one warning that names the field and passes.  In validator-ts.ts
    this is so on every value that is not empty (an empty one passes before
    the constraint is looked at); in validator-2.0.0.js on every value. *)
Theorem malformed_constraints_warn_and_pass :
  forall (U : Type) (E : Run.Env U),
    (Outcome.warns_and_passes Config.Type_ (TS._validateType E) Outcome.bad_type
       (fun field => "There is a type in field " +:+ field +:+ " that is unsupported")
       true
     /\ Outcome.warns_and_passes Config.Pattern (TS._validatePattern E)
          Outcome.bad_pattern
          (fun field => "There is a pattern in field " +:+ field
                        +:+ " that is not of type regexp")
          true
     /\ Outcome.warns_and_passes Config.Maxlen (TS._validateMaxlen E)
          (fun rule => Outcome.bad_bound E (Config.maxlength rule))
          (fun field => "There is a maxLength in the field " +:+ field
                        +:+ " that is not a positive integer type")
          true
     /\ Outcome.warns_and_passes Config.Minlen (TS._validateMinlen E)
          (fun rule => Outcome.bad_bound E (Config.minlength rule))
          (fun field => "There is a minlength in the field " +:+ field
                        +:+ " that is not a positive integer type")
          true
     /\ Outcome.warns_and_passes Config.Enum (TS._validateEnum (U:=U))
          Outcome.bad_enum
          (fun field => "There is a minlength in the field " +:+ field
                        +:+ " that is not a positive array type")
          true
     /\ Outcome.warns_and_passes Config.Custom (TS._customValidate E)
          Outcome.bad_validator
          (fun field => "There is a validator in field " +:+ field
                        +:+ " that is not of type function")
          true)
    /\ (Outcome.warns_and_passes Config.Type_ (V2._validateType E) Outcome.bad_type
          (fun field => "There is a type in field " +:+ field +:+ " that is unsupported")
          false
        /\ Outcome.warns_and_passes Config.Pattern (V2._validatePattern E)
             Outcome.bad_pattern
             (fun field => "There is a pattern in field " +:+ field
                           +:+ " that is not of type regexp")
             false
        /\ Outcome.warns_and_passes Config.Custom (V2._customValidate E)
             Outcome.bad_validator
             (fun field => "There is a validator in field " +:+ field
                           +:+ " that is not of type function")
             false
        /\ Outcome.warns_and_passes Config.Maxlen (V2._validateMaxlen E)
             (fun rule => Outcome.bad_bound E (Config.maxlength rule))
             (fun field => "There is a maxLength in the field " +:+ field
                           +:+ " that is not a positive integer type")
             false
        /\ Outcome.warns_and_passes Config.Minlen (V2._validateMinlen E)
             (fun rule => Outcome.bad_bound E (Config.minlength rule))
             (fun field => "There is a minlength in the field " +:+ field
                           +:+ " that is not a positive integer type")
             false
        /\ Outcome.warns_and_passes Config.Enum (V2._validateEnum (U:=U))
             Outcome.bad_enum
             (fun field => "There is a minlength in the field " +:+ field
                           +:+ " that is not a positive array type")
             false).
Proof.
  intros U E. split.
  - split; [apply ts_bad_type|].
    split; [apply ts_bad_pattern|].
    split; [apply ts_bad_maxlength|].
    split; [apply ts_bad_minlength|].
    split; [apply ts_bad_enum | apply ts_bad_validator].
  - split; [apply v2_bad_type|].
    split; [apply v2_bad_pattern|].
    split; [apply v2_bad_validator|].
    split; [apply v2_bad_maxlength|].
    split; [apply v2_bad_minlength | apply v2_bad_enum].
Qed.

(** A rule in which every constraint is malformed passes the whole chain
    of validator-ts.ts with six warnings. *)
Lemma malformed_constraints_warn_and_pass_witness :
  let run := TS.validateField Cases.env (Sample.ts_with Cases.malformed_rule)
               "name" (Sample.form_of (Js.VStr "abc")) false Cases.start in
  fst (TS._validateMaxlen Cases.env Cases.malformed_rule (Js.VStr "abc") "name"
         Cases.start)
  = Run.Ok (Config.RBool true)
  /\ fst run = Config.Returned Config.Resolved
  /\ length (Outcome.warnings (Run.trace (snd run))) = 6%nat.
Proof.
  cbv zeta. split; [|split; vm_compute; reflexivity].
  destruct (malformed_constraints_warn_and_pass nat Cases.env)
    as [(_ & _ & Hmax & _) _].
  now rewrite (Hmax Cases.malformed_rule (Js.VStr "abc") "name" Cases.start).
Defined.

Section CustomOutcomes.
Import Js Config Run Statics Obs Outcome.
Context {U : Type} (E : Env U).
Local Open Scope run_scope.

(** The [try] block of [_customValidate], the same in both files, when
    the validator returns [x]. *)
Lemma try_block_returns {A} f v x u (handler : value -> M U (option A))
    (failed : A) (w : world U) :
  fn_call E f ThisUndefined [v] (ust w) = (Returns x, u) ->
  (forall a err, x <> VPromise a (PRejected err)) ->
  try_catch
    (validRes <- call E AtValidator (VFun f) ThisUndefined [v] ;;
     match validRes with
     | VPromise _ _ => await validRes ;;; ret None
     | _ => if negb (truthy validRes) then ret (Some failed) else ret None
     end) handler w
  = (match x with
     | VPromise _ PPending => Suspended
     | VPromise _ (PFulfilled _) => Ok None
     | _ => Ok (if truthy x then None else Some failed)
     end, mkWorld u (trace w ++ [EvCall AtValidator f [v]])).
Proof.
  intros Hcall Hrej. unfold try_catch, bind at 1. rewrite call_fun, Hcall.
  destruct x as [| |b|n|s|a l|a l|g|r|a t|a st];
    try (destruct (truthy _); reflexivity).
  destruct st as [y|err|]; [reflexivity | now destruct (Hrej a err) | reflexivity].
Qed.
End CustomOutcomes.

(** X6.  How [_customValidate] reads what the caller's validator returns.
    A value that is not a promise is read by its truthiness: the check
    passes on a truthy one and fails on a falsy one.  A promise is read by
    how it settles only: once fulfilled the check passes whatever the value
    it was fulfilled with, [false] included; a promise that never settles
    leaves the check waiting for ever.  (A validator that throws or rejects
    is excluded here.)  The validator is called once, on the value,
    after the entry of the method. *)
Theorem custom_validator_outcomes :
  forall (U : Type) (E : Run.Env U) (rule : Config.RuleItem) (v : Js.value)
         (field : string) (w : Run.world U) (f : nat) (x : Js.value) (u : U),
    Config.validator rule = Js.VFun f ->
    Run.fn_call E f Run.ThisUndefined [v] (Run.ust w) = (Run.Returns x, u) ->
    (forall a err, x <> Js.VPromise a (Js.PRejected err)) ->
    let verdict :=
      match x with
      | Js.VPromise _ Js.PPending => Run.Suspended
      | Js.VPromise _ (Js.PFulfilled _) => Run.Ok (Config.RBool true)
      | _ => Run.Ok (Config.RBool (Js.truthy x))
      end in
    (Statics.isEmpty v = false ->
     TS._customValidate E rule v field w
     = (verdict, Outcome.validated w rule v field f u))
    /\ V2._customValidate E rule v field w
       = (verdict, Outcome.validated w rule v field f u).
Proof.
  intros U E rule v field w f x u Hrule Hcall Hrej verdict.
  assert (Hrun : forall (handler : Js.value -> Run.M U (option Config.StepRes)),
            Run.bind (Run.emit (Run.EvEnter Config.Custom rule v field))
              (fun _ =>
                 Run.bind
                   (Run.try_catch
                      (Run.bind (Run.call E Run.AtValidator (Js.VFun f)
                                   Run.ThisUndefined [v])
                         (fun validRes =>
                            match validRes with
                            | Js.VPromise _ _ =>
                                Run.bind (Run.await validRes) (fun _ => Run.ret None)
                            | _ => if negb (Js.truthy validRes)
                                   then Run.ret (Some (Config.RBool false))
                                   else Run.ret None
                            end)) handler)
                   (fun early => match early with
                                 | Some r => Run.ret r
                                 | None => Run.ret (Config.RBool true)
                                 end)) w
            = (verdict, Outcome.validated w rule v field f u)).
  { intros handler. unfold Run.bind at 1, Run.emit at 1. unfold Run.bind at 1.
    rewrite (try_block_returns E f v x u handler (Config.RBool false)); try assumption.
    unfold verdict, Outcome.validated. cbn [Run.ust Run.trace]. rewrite <- app_assoc.
    destruct x as [| |b|n|s|a l|a l|g|r|a t|a st];
      try (destruct (Js.truthy _); reflexivity).
    destruct st as [y|err|]; reflexivity. }
  split; [intros Hv|];
    unfold TS._customValidate, V2._customValidate; rewrite ?Hv, Hrule;
    cbv zeta; cbn [Js.truthy Statics.isFunction Js.typeof String.eqb Ascii.eqb Bool.eqb];
    apply Hrun.
Qed.

(** A validator that returns a promise fulfilled with [false] passes. *)
Lemma custom_validator_outcomes_witness :
  TS._customValidate Cases.env (Sample.custom_rule 0) (Js.VStr "abc") "name"
    Cases.start
  = (Run.Ok (Config.RBool true),
     Outcome.validated Cases.start (Sample.custom_rule 0) (Js.VStr "abc") "name"
       0%nat 0%nat).
Proof.
  destruct (custom_validator_outcomes nat Cases.env (Sample.custom_rule 0)
              (Js.VStr "abc") "name" Cases.start 0%nat
              (Js.VPromise 1 (Js.PFulfilled (Js.VBool false))) 0%nat)
    as [Hts _]; [reflexivity | reflexivity | discriminate |].
  exact (Hts eq_refl).
Defined.

Section TypeNames.
Import Js Config Run Statics Obs Outcome.
Context {U : Type} (E : Env U).
Local Open Scope run_scope.

Lemma bind_bool_eta (m : M U bool) (w : world U) :
  (b <- m ;; if negb b then ret (RBool false) else ret (RBool true)) w
  = (b <- m ;; ret (RBool b)) w.
Proof. unfold bind. destruct (m w) as [[[]|e|] w']; reflexivity. Qed.

Lemma ts_type_dispatch rule v field t p (w : world U) :
  type rule = VStr t -> In (t, p) (ts_predicates E) -> isEmpty v = false ->
  TS._validateType E rule v field w
  = (b <- p v ;; ret (RBool b)) (entered_world w Type_ rule v field).
Proof.
  intros Ht Hin Hv. unfold TS._validateType. rewrite Hv, Ht. cbv zeta.
  unfold ts_predicates in Hin. cbn [In] in Hin.
  repeat (destruct Hin as [[= <- <-] | Hin]; [reflexivity|]).
  contradiction.
Qed.

Lemma v2_type_dispatch rule v field t p (w : world U) :
  type rule = VStr t -> In (t, p) (v2_predicates E) ->
  V2._validateType E rule v field w
  = (b <- p v ;; ret (RBool b)) (entered_world w Type_ rule v field).
Proof.
  intros Ht Hin. rewrite <- bind_bool_eta.
  unfold V2._validateType. rewrite Ht. cbv zeta.
  unfold v2_predicates in Hin. cbn [In] in Hin.
  repeat (destruct Hin as [[= <- <-] | Hin]; [reflexivity|]).
  contradiction.
Qed.
End TypeNames.

(** X7.  Each of the ten supported type names reaches the static predicate
    named after it: [_validateType] builds the name ["is" + capitalize(type)]
    and the class has a method of that name for every entry of
    [Validator.types], so that the check returns what that predicate
    returns on the value ("string" runs [isString], ..., "regexp" runs
    [isRegexp]).  In validator-2.0.0.js "float" reaches the [isFloat] that
    throws on numbers. *)
Theorem type_names_reach_their_predicates :
  forall (U : Type) (E : Run.Env U),
    map (fun entry => Js.VStr entry.1) (Outcome.ts_predicates E) = Statics.types
    /\ map (fun entry => Js.VStr entry.1) (Outcome.v2_predicates E) = Statics.types
    /\ (forall rule v field t p (w : Run.world U),
          Config.type rule = Js.VStr t ->
          In (t, p) (Outcome.ts_predicates E) ->
          Statics.isEmpty v = false ->
          TS._validateType E rule v field w
          = Run.bind (p v) (fun b => Run.ret (Config.RBool b))
              (Obs.entered_world w Config.Type_ rule v field))
    /\ (forall rule v field t p (w : Run.world U),
          Config.type rule = Js.VStr t ->
          In (t, p) (Outcome.v2_predicates E) ->
          V2._validateType E rule v field w
          = Run.bind (p v) (fun b => Run.ret (Config.RBool b))
              (Obs.entered_world w Config.Type_ rule v field)).
Proof.
  intros U E. split; [reflexivity|]. split; [reflexivity|]. split.
  - intros rule v field t p w. apply ts_type_dispatch.
  - intros rule v field t p w. apply v2_type_dispatch.
Qed.

(** The rule [{ type: "number" }] on the string "12": [isNumber] is asked,
    and says no. *)
Lemma type_names_reach_their_predicates_witness :
  fst (TS._validateType Sample.env Sample.number_rule (Js.VStr "12") "name"
         Sample.start)
  = Run.Ok (Config.RBool false).
Proof.
  destruct (type_names_reach_their_predicates nat Sample.env)
    as (_ & _ & Hts & _).
  rewrite (Hts Sample.number_rule (Js.VStr "12") "name" "number"
             (fun v => Run.ret (Statics.isNumber Sample.env v)) Sample.start);
    [reflexivity | reflexivity | | reflexivity].
  right. left. reflexivity.
Defined.

Section EnumFacts.
Import Js Config Run Statics Obs Outcome.

Lemma oneOf_spec v items :
  oneOf v items = true <-> exists x, x ∈ items /\ strict_eq v x = true.
Proof.
  induction items as [|y items IH]; cbn [oneOf].
  - split; [discriminate | intros (x & Hin & _); inversion Hin].
  - destruct (strict_eq v y) eqn:Hy.
    + split; [intros _; exists y; split; [now left | exact Hy] | reflexivity].
    + rewrite IH. split.
      * intros (x & Hin & Hx). exists x. split; [now right | exact Hx].
      * intros (x & Hin & Hx). apply elem_of_cons in Hin as [->|Hin];
          [congruence | now exists x].
Qed.

Lemma oneOf_nan items : oneOf (VNum NaN) items = false.
Proof.
  induction items as [|y items IH]; [reflexivity|].
  cbn [oneOf]. destruct y; cbn [strict_eq num_eq]; exact IH.
Qed.
End EnumFacts.

(** X8.  The enum check is membership under [===].  With an [enum] that
    is an array, the check passes exactly when some element of the array is
    strictly equal to the value: a number matches a number of the same value
    and never a string of its digits, an object or an array matches itself
    only, and [NaN] matches nothing, itself included.  In validator-ts.ts
    this is the result on every value that is not empty, in 2.0.0 on every
    value; [oneOf] itself throws when its second argument is not an
    array. *)
Theorem enum_is_membership_under_strict_equality :
  forall (U : Type) (rule : Config.RuleItem) (v : Js.value) (field : string)
         (w : Run.world U) (addr : nat) (items : list Js.value),
    Config.enum rule = Js.VArr addr items ->
    (Statics.isEmpty v = false ->
     TS._validateEnum rule v field w
     = (Run.Ok (Config.RBool (Statics.oneOf v items)),
        Obs.entered_world w Config.Enum rule v field))
    /\ V2._validateEnum rule v field w
       = (Run.Ok (Config.RBool (Statics.oneOf v items)),
          Obs.entered_world w Config.Enum rule v field)
    /\ Untyped.oneOf v (Js.VArr addr items) = Run.Ok (Statics.oneOf v items)
    /\ (Statics.oneOf v items = true
        <-> exists x, x ∈ items /\ Js.strict_eq v x = true)
    /\ Statics.oneOf (Js.VNum Js.NaN) items = false
    /\ (forall validList,
          Statics.isArray validList = false ->
          Untyped.oneOf v validList
          = Run.Raise (Js.mkError 0 "validList must be of array type")).
Proof.
  intros U rule v field w addr items Hrule.
  split; [intros Hv; unfold TS._validateEnum; now rewrite Hv, Hrule|].
  split; [unfold V2._validateEnum; now rewrite Hrule|].
  split; [reflexivity|].
  split; [apply oneOf_spec|].
  split; [apply oneOf_nan|].
  intros validList Harr. unfold Untyped.oneOf. now rewrite Harr.
Qed.

(** The rule [{ enum: [1, "a"] }]: the string "1" is not in the list. *)
Lemma enum_is_membership_under_strict_equality_witness :
  let rule :=
    Config.mkRule Js.VUndefined Js.VUndefined Js.VUndefined Js.VUndefined
      Js.VUndefined Js.VUndefined
      (Js.VArr 1 [Js.VNum (Js.Finite false 1 0); Js.VStr "a"]) (Js.VStr "m") in
  fst (TS._validateEnum rule (Js.VStr "1") "name" Sample.start)
  = Run.Ok (Config.RBool false).
Proof.
  cbv zeta.
  destruct (enum_is_membership_under_strict_equality nat
              (Config.mkRule Js.VUndefined Js.VUndefined Js.VUndefined
                 Js.VUndefined Js.VUndefined Js.VUndefined
                 (Js.VArr 1 [Js.VNum (Js.Finite false 1 0); Js.VStr "a"])
                 (Js.VStr "m"))
              (Js.VStr "1") "name" Sample.start 1
              [Js.VNum (Js.Finite false 1 0); Js.VStr "a"] eq_refl) as [Hts _].
  now rewrite (Hts eq_refl).
Defined.

(** ** The field validator of validator-ts.ts *)

Section FieldWrap.
Import Js Config Run Statics Obs Outcome.
Context {U : Type} (E : Env U).
Local Open Scope run_scope.
Variables (V : TS.Validator) (field : string) (form : value).

Lemma run_chain_wrap rule
    (todo : list (RuleItem -> value -> string -> M U StepRes)) w :
  TS.run_chain E V field form true rule todo w
  = match TS.run_chain E V field form false rule todo w with
    | (Ok r, w') => (Ok (wrap field <$> r), w')
    | other => other
    end
  /\ forall err w',
       TS.run_chain E V field form false rule todo w = (Ok (Some err), w') ->
       exists bare, err = Bare bare.
Proof.
  revert w. induction todo as [|m todo IH]; intros w.
  - split; [reflexivity | discriminate].
  - rewrite !run_chain_cons. unfold bind.
    destruct (TS.argument E V field form w) as [[arg|e|] w1];
      [| split; [reflexivity | discriminate] ..].
    destruct (m rule arg field w1) as [[res|e|] w2];
      [| split; [reflexivity | discriminate] ..].
    destruct res as [[|]|[|] msg]; cbn [negb]; try apply IH; cbv zeta;
      match goal with
      | |- context [TS.notify E V ?msg0 w2] =>
          destruct (TS.notify E V msg0 w2) as [[[]|e|] w3]
      end;
      (split; [reflexivity | try discriminate]);
      intros err w' [= <- <-]; eexists; reflexivity.
Qed.

Lemma run_rules_wrap rules w :
  TS.run_rules E V field form true rules w
  = match TS.run_rules E V field form false rules w with
    | (Ok (Rejected err), w') => (Ok (Rejected (wrap field err)), w')
    | other => other
    end
  /\ forall err w',
       TS.run_rules E V field form false rules w = (Ok (Rejected err), w') ->
       exists bare, err = Bare bare.
Proof.
  revert w. induction rules as [|rule rules IH]; intros w.
  - split; [reflexivity | discriminate].
  - rewrite !run_rules_cons. unfold bind.
    destruct (run_chain_wrap rule (TS.chain E) w) as [-> Hbare].
    destruct (TS.run_chain E V field form false rule (TS.chain E) w)
      as [[[err|]|e|] w1]; cbn [fmap option_fmap option_map];
      [| apply IH | split; [reflexivity | discriminate] ..].
    split; [reflexivity|]. intros err' w' [= <- <-]. eapply Hbare. reflexivity.
Qed.
End FieldWrap.

(** X9.  The third argument of [validateField] changes the shape of the
    rejection and nothing else: with [fieldWrap] the call runs the same
    checks, calls the same functions in the same order and leaves the same
    state as without it, and where the plain call rejects with a rule the
    wrapping call rejects with [{ field, rule }] around that rule.  The
    plain call never rejects with a wrapped rule. *)
Theorem fieldWrap_only_wraps_the_rejection :
  forall (U : Type) (E : Run.Env U) (V : TS.Validator) (field : string)
         (form : Js.value) (w : Run.world U),
    let plain := TS.validateField E V field form false w in
    TS.validateField E V field form true w
    = (Outcome.wrap_outcome field (fst plain), snd plain)
    /\ forall err, fst plain = Config.Returned (Config.Rejected err) ->
                   exists rule, err = Config.Bare rule.
Proof.
  intros U E V field form w. cbv zeta. unfold TS.validateField.
  destruct (negb (Statics.isObject form)); [split; [reflexivity | discriminate]|].
  destruct (TS._rules V !! field) as [rules|]; [|split; [reflexivity | discriminate]].
  unfold Run.new_promise.
  destruct (run_rules_wrap E V field form rules w) as [-> Hbare].
  destruct (TS.run_rules E V field form false rules w) as [[[|err|]|e|] w1];
    cbn [fst snd Outcome.wrap_outcome]; (split; [reflexivity | try discriminate]).
  intros err' [= <-]. eapply Hbare. reflexivity.
Qed.

Lemma fieldWrap_only_wraps_the_rejection_witness :
  fst (TS.validateField Sample.env (Sample.ts_with Sample.required_rule) "name"
         (Js.VObj 1 []) true Sample.start)
  = Config.Returned (Config.Rejected (Config.Wrapped "name" Sample.required_rule)).
Proof.
  destruct (fieldWrap_only_wraps_the_rejection nat Sample.env
              (Sample.ts_with Sample.required_rule) "name" (Js.VObj 1 [])
              Sample.start) as [-> _].
  vm_compute. reflexivity.
Defined.

(** X10.  [validateField] stops at the first check that fails.  When the
    rules before [rule] passed, the checks of [rule] before the method [m]
    passed, and [m] returned a failing result on the transformed value, the
    call does one more thing, the notification of the failure, and rejects
    with [rule] carrying the resolved message; no later check of the rule
    and no later rule is run.  If the notification throws, the promise is
    left pending. *)
Theorem first_failure_ends_the_call :
  forall (U : Type) (E : Run.Env U) (V : TS.Validator) (field : string)
         (form : Js.value) (fieldWrap : bool)
         (pre : list Config.RuleItem) (rule : Config.RuleItem)
         (post : list Config.RuleItem)
         (before : list (Config.RuleItem -> Js.value -> string
                         -> Run.M U Config.StepRes))
         (m : Config.RuleItem -> Js.value -> string -> Run.M U Config.StepRes)
         (after : list (Config.RuleItem -> Js.value -> string
                        -> Run.M U Config.StepRes))
         (v : Js.value) (validateRes : Config.StepRes)
         (w w0 w1 w2 w3 : Run.world U),
    Statics.isObject form = true ->
    TS._rules V !! field = Some (pre ++ rule :: post) ->
    TS.chain E = before ++ m :: after ->
    TS.run_rules E V field form fieldWrap pre w = (Run.Ok Config.Resolved, w0) ->
    TS.run_chain E V field form fieldWrap rule before w0 = (Run.Ok None, w1) ->
    TS.argument E V field form w1 = (Run.Ok v, w2) ->
    m rule v field w2 = (Run.Ok validateRes, w3) ->
    Outcome.passed validateRes = false ->
    let message := Outcome.failure_message rule validateRes in
    TS.validateField E V field form fieldWrap w
    = match TS.notify E V message w3 with
      | (Run.Ok _, w4) =>
          (Config.Returned
             (Config.Rejected
                (TS.reason field fieldWrap (Config.with_message rule message))),
           w4)
      | (_, w4) => (Config.Returned Config.Pending, w4)
      end.
Proof.
  intros U E V field form fieldWrap pre rule post before m after v validateRes
    w w0 w1 w2 w3 Hobj Hrules Hchain Hpre Hbefore Harg Hm Hfail message.
  unfold TS.validateField. rewrite Hobj, Hrules. cbn [negb].
  unfold Run.new_promise.
  rewrite run_rules_app, Hpre, run_rules_cons.
  unfold Run.bind at 1. rewrite Hchain, run_chain_app, Hbefore, run_chain_cons.
  rewrite (bind_ok _ _ _ _ _ Harg), (bind_ok _ _ _ _ _ Hm).
  unfold message, Outcome.failure_message.
  destruct validateRes as [b|pass msg]; cbn [Outcome.passed] in Hfail; subst;
    cbn [negb]; cbv zeta; unfold Run.bind;
    match goal with
    | |- context [TS.notify E V ?msg0 w3] =>
        destruct (TS.notify E V msg0 w3) as [[[]|e|] w4]
    end; reflexivity.
Qed.

(** The rule [{ maxlength: 2, validator }] on "abc": the maxlength check
    fails after required, type and pattern passed, and the call ends there. *)
Lemma first_failure_ends_the_call_witness :
  let V := Sample.ts_with Sample.short_rule in
  let form := Sample.form_of (Js.VStr "abc") in
  let w1 := snd (TS.run_chain Sample.env V "name" form false Sample.short_rule
                   (firstn 3 (TS.chain Sample.env)) Sample.start) in
  let w3 := snd (TS._validateMaxlen Sample.env Sample.short_rule (Js.VStr "abc")
                   "name" w1) in
  TS.validateField Sample.env V "name" form false Sample.start
  = (Config.Returned (Config.Rejected (Config.Bare Sample.short_rule)), w3).
Proof.
  cbv zeta.
  refine (eq_trans
            (first_failure_ends_the_call nat Sample.env
               (Sample.ts_with Sample.short_rule) "name"
               (Sample.form_of (Js.VStr "abc")) false [] Sample.short_rule []
               (firstn 3 (TS.chain Sample.env)) (TS._validateMaxlen Sample.env)
               (skipn 4 (TS.chain Sample.env)) (Js.VStr "abc") (Config.RBool false)
               Sample.start Sample.start _ _ _ _ _ _ _ _ _ _ _) _).
  - reflexivity.
  - vm_compute. reflexivity.
  - reflexivity.
  - reflexivity.
  - vm_compute. reflexivity.
  - vm_compute. reflexivity.
  - vm_compute. reflexivity.
  - reflexivity.
  - vm_compute. reflexivity.
Defined.

Section Notifications.
Import Js Config Run Statics Obs Outcome.
Context {U : Type} (E : Env U).
Local Open Scope run_scope.

Lemma notifications_app evs1 evs2 :
  notifications (evs1 ++ evs2) = notifications evs1 ++ notifications evs2.
Proof.
  induction evs1 as [|e evs1 IH]; [reflexivity|].
  destruct e as [[] g args| |]; cbn; now rewrite ?IH.
Qed.

Lemma notifications_unnotified evs : Forall unnotified evs -> notifications evs = [].
Proof.
  induction 1 as [|e evs He _ IH]; [reflexivity|].
  destruct e as [[] g args| |]; cbn in *; try contradiction; exact IH.
Qed.

Lemma inner_unnotified e : inner e -> unnotified e.
Proof. destruct e as [[] ? ?| |]; cbn; tauto. Qed.

Lemma ts_argument_unnotified V field form :
  emits unnotified (TS.argument E V field form).
Proof.
  unfold TS.argument. apply emits_bind; [apply emits_get_prop|].
  intros raw. unfold TS.currentTransform.
  destruct (truthy _); [|apply emits_ret].
  apply emits_call. intros; exact I.
Qed.

(** What the notification of a failure appends to the trace. *)
Lemma ts_notify_trace V message (w : world U) :
  trace (snd (TS.notify E V message w)) = trace w ++ notification_of V message.
Proof.
  unfold TS.notify, notification_of.
  destruct message as [| |b|n|s|a l|a l|f|r|a t|a st];
    cbn [isFunction typeof String.eqb Ascii.eqb Bool.eqb];
    try (destruct (TS._messageHook V) as [[| |b'|n'|s'|a' l'|a' l'|h|r'|a' t'|a' st']|];
         cbn [truthy];
         try (unfold ret; cbn [snd trace]; now rewrite app_nil_r);
         try (match goal with |- context [if ?c then _ else _] => destruct c end;
              unfold ret, call, raise, bind; cbn [snd trace]; now rewrite app_nil_r);
         unfold bind; rewrite call_fun;
         destruct (fn_call E h ThisInstance _ (ust w)) as [[x|e] u]; reflexivity).
  unfold bind. rewrite call_fun.
  destruct (fn_call E f ThisUndefined [] (ust w)) as [[x|e] u]; reflexivity.
Qed.

Lemma notifications_of_notification V message :
  notifications (notification_of V message) = notification_of V message.
Proof.
  unfold notification_of.
  destruct message; try (destruct (TS._messageHook V) as [[]|]); reflexivity.
Qed.

Lemma notification_of_length V message : (length (notification_of V message) <= 1)%nat.
Proof.
  unfold notification_of.
  destruct message; try (destruct (TS._messageHook V) as [[]|]); cbn; lia.
Qed.

Section Field.
Variables (V : TS.Validator) (field : string) (form : value) (fieldWrap : bool).

Lemma run_chain_notifications rule steps
    (todo : list (RuleItem -> value -> string -> M U StepRes)) :
  Forall2 method_shape steps todo ->
  forall w, exists evs,
    trace (snd (TS.run_chain E V field form fieldWrap rule todo w)) = trace w ++ evs
    /\ match fst (TS.run_chain E V field form fieldWrap rule todo w) with
       | Ok None => notifications evs = []
       | Ok (Some err) =>
           notifications evs = notification_of V (message (rule_of err))
       | _ => (length (notifications evs) <= 1)%nat
       end.
Proof.
  intros Hshapes.
  induction Hshapes as [|s m steps todo Hm Hshapes IH]; intros w.
  - exists []. cbn. now rewrite app_nil_r.
  - rewrite run_chain_cons. unfold bind.
    destruct (ts_argument_unnotified V field form w) as (evs_a & Ha & Hqa).
    apply notifications_unnotified in Hqa.
    destruct (TS.argument E V field form w) as [[v|e|] w1]; cbn [fst snd] in *.
    2,3: exists evs_a; rewrite Hqa; split; [exact Ha | cbn; lia].
    destruct (Hm rule v field w1) as (mid & Hmid & Hinner).
    assert (Hqm : notifications (EvEnter s rule v field :: mid) = []).
    { cbn. apply notifications_unnotified.
      eapply Forall_impl; [exact Hinner | apply inner_unnotified]. }
    destruct (m rule v field w1) as [[res|e|] w2]; cbn [fst snd] in *.
    2,3: exists (evs_a ++ EvEnter s rule v field :: mid);
         rewrite Hmid, Ha, <- app_assoc, notifications_app, Hqa, Hqm;
         split; [reflexivity | cbn; lia].
    assert (Hpre : forall (w3 : world U) evs,
              trace w3 = trace w2 ++ evs ->
              trace w3 = trace w ++ (evs_a ++ (EvEnter s rule v field :: mid) ++ evs)
              /\ notifications (evs_a ++ (EvEnter s rule v field :: mid) ++ evs)
                 = notifications evs).
    { intros w3 evs Hw3. split.
      - rewrite Hw3, Hmid, Ha, <- !app_assoc. reflexivity.
      - now rewrite !notifications_app, Hqa, Hqm. }
    destruct res as [[|]|[|] msg]; cbn [negb]; cbv zeta.
    1,3: destruct (IH w2) as (evs & Ht & Hn);
         destruct (Hpre _ evs Ht) as [Ht' Hn'];
         exists (evs_a ++ (EvEnter s rule v field :: mid) ++ evs);
         split; [exact Ht' | rewrite Hn'; exact Hn].
    all: match goal with
      | |- context [TS.notify E V ?msg0 ?w0] =>
          pose proof (ts_notify_trace V msg0 w0) as Hn;
          pose proof (notification_of_length V msg0) as Hlen;
          destruct (TS.notify E V msg0 w0) as [[[]|e|] w3]; cbn [fst snd ret] in *;
          destruct (Hpre w3 _ Hn) as [Ht' Hn'];
          exists (evs_a ++ (EvEnter s rule v field :: mid) ++ notification_of V msg0);
          (split; [exact Ht' | rewrite Hn'])
      end;
      rewrite ?notifications_of_notification; try exact Hlen;
      unfold TS.reason; destruct fieldWrap; reflexivity.
Qed.

Lemma run_rules_notifications rules w :
  exists evs,
    trace (snd (TS.run_rules E V field form fieldWrap rules w)) = trace w ++ evs
    /\ match fst (TS.run_rules E V field form fieldWrap rules w) with
       | Ok Resolved => notifications evs = []
       | Ok (Rejected err) =>
           notifications evs = notification_of V (message (rule_of err))
       | _ => (length (notifications evs) <= 1)%nat
       end.
Proof.
  revert w. induction rules as [|rule rules IH]; intros w.
  - exists []. cbn. now rewrite app_nil_r.
  - rewrite run_rules_cons. unfold bind.
    destruct (run_chain_notifications rule _ _ (ts_chain_shapes E) w)
      as (evs1 & Ht1 & Hn1).
    destruct (TS.run_chain E V field form fieldWrap rule (TS.chain E) w)
      as [[[err|]|e|] w1]; cbn [fst snd ret] in *;
      try (exists evs1; split; assumption).
    destruct (IH w1) as (evs2 & Ht2 & Hn2).
    exists (evs1 ++ evs2). rewrite Ht2, Ht1, <- app_assoc. split; [reflexivity|].
    now rewrite notifications_app, Hn1.
Qed.
End Field.
End Notifications.

(** X11.  [validateField] notifies a failure exactly once, and notifies
    nothing else.  When the promise rejects, the calls of message functions
    and of the message hook made during the call are the one notification
    of the message the rejection carries: the message itself is called,
    with no argument, when it is a function; otherwise the hook, when one is
    configured, is called on that message.  When the promise resolves there
    was no such call; when the guard throws nothing was called at all; and a
    call that never settles notified at most once. *)
Theorem a_rejection_is_notified_once :
  forall (U : Type) (E : Run.Env U) (V : TS.Validator) (field : string)
         (form : Js.value) (fieldWrap : bool) (w : Run.world U),
    let run := TS.validateField E V field form fieldWrap w in
    exists evs,
      Run.trace (snd run) = Run.trace w ++ evs
      /\ match fst run with
         | Config.Returned Config.Resolved => Outcome.notifications evs = []
         | Config.Returned (Config.Rejected err) =>
             Outcome.notifications evs
             = Outcome.notification_of V (Config.message (Outcome.rule_of err))
         | Config.Returned Config.Pending =>
             (length (Outcome.notifications evs) <= 1)%nat
         | Config.Threw _ => evs = []
         end.
Proof.
  intros U E V field form fieldWrap w. cbv zeta. unfold TS.validateField.
  destruct (negb (Statics.isObject form)).
  { exists []. cbn. now rewrite app_nil_r. }
  destruct (TS._rules V !! field) as [rules|].
  2:{ exists []. cbn. now rewrite app_nil_r. }
  unfold Run.new_promise.
  destruct (run_rules_notifications E V field form fieldWrap rules w)
    as (evs & Ht & Hn).
  destruct (TS.run_rules E V field form fieldWrap rules w) as [[[|err|]|e|] w1];
    cbn [fst snd] in *; exists evs; (split; [exact Ht | exact Hn]).
Qed.

Section DataOnly.
Import Js Config Run Statics Obs Outcome.
Context {U : Type} (E : Env U).
Local Open Scope run_scope.

Lemma answers_after_entry e (body : M U StepRes) (w : world U) :
  (forall w0, exists b w', body w0 = (Ok (RBool b), w') /\ ust w' = ust w0) ->
  exists b w', (emit e ;;; body) w = (Ok (RBool b), w') /\ ust w' = ust w.
Proof.
  intros Hb. unfold bind, emit.
  destruct (Hb (mkWorld (ust w) (trace w ++ [e]))) as (b & w' & -> & Hu).
  now exists b, w'.
Qed.

Lemma answers_ret b (w0 : world U) :
  exists b' w', ret (RBool b) w0 = (Ok (RBool b'), w') /\ ust w' = ust w0.
Proof. now exists b, w0. Qed.

Lemma answers_warn text b (w0 : world U) :
  exists b' w', (warn text ;;; ret (RBool b)) w0 = (Ok (RBool b'), w')
                /\ ust w' = ust w0.
Proof. eexists _, _. split; reflexivity. Qed.

Lemma one_of_the_types t :
  oneOf t types = true ->
  exists name, t = VStr name
    /\ In name ["string"; "number"; "boolean"; "function"; "float"; "integer";
                "array"; "object"; "date"; "regexp"].
Proof.
  unfold types. cbn [oneOf].
  destruct t as [| |b|n|s|a l|a l|f|r|a d|a st]; cbn [strict_eq]; try discriminate.
  intros H. exists s. split; [reflexivity|].
  repeat match type of H with
    | (if String.eqb s ?name then _ else _) = true =>
        destruct (String.eqb_spec s name) as [Heq|_]; [subst s; cbn [In]; auto 15|]
    end.
  discriminate.
Qed.

Lemma ts_required_answers rule : answers rule (TS._validateRequired (U:=U)).
Proof.
  intros v field w. apply answers_after_entry. intros w0.
  destruct (truthy _); apply answers_ret.
Qed.

Lemma ts_type_answers rule :
  strict_eq (type rule) (VStr "date") = false -> answers rule (TS._validateType E).
Proof.
  intros Hdate v field w. apply answers_after_entry. intros w0.
  destruct (isEmpty v); [apply answers_ret|]. cbv zeta.
  destruct (truthy (type rule)); [|apply answers_ret].
  destruct (oneOf (type rule) types) eqn:Hone; [|apply answers_warn].
  destruct (one_of_the_types _ Hone) as (name & Ht & Hin).
  rewrite Ht in *. cbn [In] in Hin.
  repeat (destruct Hin as [<- | Hin];
          [first [discriminate Hdate | eexists _, _; split; reflexivity]|]).
  contradiction.
Qed.

Lemma ts_pattern_answers rule : answers rule (TS._validatePattern E).
Proof.
  intros v field w. apply answers_after_entry. intros w0.
  destruct (isEmpty v); [apply answers_ret|]. cbv zeta.
  destruct (truthy _); [|apply answers_ret].
  destruct (pattern rule); first [apply answers_ret | apply answers_warn].
Qed.

Lemma length_bound_answers bound (cmp : value -> value -> bool) text v
    (w0 : world U) :
  isEmpty v = false ->
  exists b w',
    (if truthy bound then
       if isInteger E bound && js_gt E bound (VNum (num_of_nat 0)) then
         len <- get_length E v ;; ret (RBool (cmp len bound))
       else warn text ;;; ret (RBool true)
     else ret (RBool true)) w0 = (Ok (RBool b), w')
    /\ ust w' = ust w0.
Proof.
  intros Hv. destruct (truthy bound); [|apply answers_ret].
  destruct (_ && _); [|apply answers_warn].
  destruct v; try discriminate; eexists _, _; split; reflexivity.
Qed.

Lemma ts_maxlen_answers rule : answers rule (TS._validateMaxlen E).
Proof.
  intros v field w. apply answers_after_entry. intros w0.
  destruct (isEmpty v) eqn:Hv; [apply answers_ret|].
  now apply (length_bound_answers (maxlength rule) (js_le E)).
Qed.

Lemma ts_minlen_answers rule : answers rule (TS._validateMinlen E).
Proof.
  intros v field w. apply answers_after_entry. intros w0.
  destruct (isEmpty v) eqn:Hv; [apply answers_ret|].
  now apply (length_bound_answers (minlength rule) (js_ge E)).
Qed.

Lemma ts_enum_answers rule : answers rule (TS._validateEnum (U:=U)).
Proof.
  intros v field w. apply answers_after_entry. intros w0.
  destruct (isEmpty v); [apply answers_ret|]. cbv zeta.
  destruct (truthy _); [|apply answers_ret].
  destruct (enum rule); first [apply answers_ret | apply answers_warn].
Qed.

Lemma ts_custom_answers rule :
  isFunction (validator rule) = false -> answers rule (TS._customValidate E).
Proof.
  intros Hfn v field w. apply answers_after_entry. intros w0.
  destruct (isEmpty v); [apply answers_ret|]. cbv zeta.
  destruct (truthy _); [|apply answers_ret].
  rewrite Hfn. apply answers_warn.
Qed.

Lemma ts_chain_answers rule :
  data_only rule = true -> Forall (answers rule) (TS.chain E).
Proof.
  unfold data_only. intros H.
  apply andb_true_iff in H as [H Hdate]. apply andb_true_iff in H as [Hfn _].
  apply negb_true_iff in Hdate, Hfn.
  unfold TS.chain.
  constructor; [apply ts_required_answers|].
  constructor; [now apply ts_type_answers|].
  constructor; [apply ts_pattern_answers|].
  constructor; [apply ts_maxlen_answers|].
  constructor; [apply ts_minlen_answers|].
  constructor; [apply ts_enum_answers|].
  constructor; [now apply ts_custom_answers|].
  constructor.
Qed.

Section Field.
Variables (V : TS.Validator) (field : string) (form : value) (fieldWrap : bool).
Hypothesis Hobj : isObject form = true.
Hypothesis Hform : form <> VNull.
Hypothesis Htransform :
  truthy (lookup_prop field (default [] (TS._transform V))) = false.
Hypothesis Hhook : forall hook, TS._messageHook V = Some hook -> truthy hook = false.

Lemma ts_argument_plain (w : world U) :
  exists v, TS.argument E V field form w = (Ok v, w).
Proof.
  unfold TS.argument, TS.currentTransform, bind. rewrite Htransform.
  destruct form; try discriminate; try congruence; eexists; reflexivity.
Qed.

Lemma ts_notify_plain message (w : world U) :
  isFunction message = false -> TS.notify E V message w = (Ok tt, w).
Proof.
  intros Hm. unfold TS.notify. rewrite Hm.
  destruct (TS._messageHook V) as [hook|] eqn:Hh; [|reflexivity].
  now rewrite (Hhook hook eq_refl).
Qed.

Lemma run_chain_settles rule
    (todo : list (RuleItem -> value -> string -> M U StepRes)) :
  isFunction (message rule) = false ->
  Forall (answers rule) todo ->
  forall w, exists r w',
    TS.run_chain E V field form fieldWrap rule todo w = (Ok r, w')
    /\ ust w' = ust w.
Proof.
  intros Hmsg Hall. induction Hall as [|m todo Hm Hall IH]; intros w.
  - now exists None, w.
  - rewrite run_chain_cons.
    destruct (ts_argument_plain w) as (v & Harg).
    rewrite (bind_ok _ _ _ _ _ Harg).
    destruct (Hm v field w) as (b & w1 & Hrun & Hu).
    rewrite (bind_ok _ _ _ _ _ Hrun).
    destruct b; cbn [negb].
    + destruct (IH w1) as (r & w' & -> & Hu').
      exists r, w'. split; [reflexivity | congruence].
    + cbn [truthy String.eqb negb]. cbv zeta.
      rewrite (bind_ok _ _ _ _ _ (ts_notify_plain _ w1 Hmsg)).
      eexists _, w1. split; [reflexivity | exact Hu].
Qed.

Lemma run_rules_settles rules :
  Forall (fun rule => data_only rule = true) rules ->
  forall w, exists p w',
    TS.run_rules E V field form fieldWrap rules w = (Ok p, w')
    /\ p <> Pending /\ ust w' = ust w.
Proof.
  induction 1 as [|rule rules Hrule Hall IH]; intros w.
  - exists Resolved, w. repeat split. discriminate.
  - rewrite run_rules_cons.
    assert (Hmsg : isFunction (message rule) = false).
    { unfold data_only in Hrule. apply andb_true_iff in Hrule as [H _].
      apply andb_true_iff in H as [_ H]. now apply negb_true_iff in H. }
    destruct (run_chain_settles rule (TS.chain E) Hmsg (ts_chain_answers rule Hrule) w)
      as (r & w1 & Hrun & Hu).
    rewrite (bind_ok _ _ _ _ _ Hrun).
    destruct r as [err|].
    + exists (Rejected err), w1. repeat split; [discriminate | exact Hu].
    + destruct (IH w1) as (p & w' & -> & Hp & Hu').
      exists p, w'. repeat split; [exact Hp | congruence].
Qed.
End Field.
End DataOnly.

Section DataOnlyBatch.
Import Js Config Run Statics Outcome.
Context {U : Type} (E : Env U) (V : TS.Validator) (form : value).
Hypothesis Hobj : isObject form = true.
Hypothesis Hform : form <> VNull.
Hypothesis Hhook : forall hook, TS._messageHook V = Some hook -> truthy hook = false.

Lemma field_settles field fieldWrap rules (w : world U) :
  TS._rules V !! field = Some rules ->
  truthy (lookup_prop field (default [] (TS._transform V))) = false ->
  Forall (fun rule => data_only rule = true) rules ->
  exists p w',
    TS.validateField E V field form fieldWrap w = (Returned p, w')
    /\ p <> Pending /\ ust w' = ust w.
Proof.
  intros Hrules Htr Hall.
  unfold TS.validateField. rewrite Hobj, Hrules. cbn [negb].
  unfold new_promise.
  destruct (run_rules_settles E V field form fieldWrap Hobj Hform Htr Hhook rules
              Hall w) as (p & w' & -> & Hp & Hu).
  now exists p, w'.
Qed.

End DataOnlyBatch.

(** X12.  Without callbacks validator-ts.ts always settles.  Take a plain
    form in which the field holds a primitive value, or is missing, and an
    instance whose [transform] is an object or is left out.  When the field
    has no transform, there is no message hook, and no rule of the field has
    a validator function, a message function, the type "date" or a regular
    expression for [pattern], the promise of [validateField] resolves or
    rejects, and the caller's state is as it was.  ([Own.read] keeps out the
    fields that [Object.prototype] has a member for and the form or the
    transform has not.) *)
Theorem rules_without_callbacks_always_settle :
  forall (U : Type) (E : Run.Env U) (V : TS.Validator) (field : string)
         (addr : nat) (props : list (string * Js.value)) (fieldWrap : bool)
         (rules : list Config.RuleItem) (raw configured : Js.value)
         (w : Run.world U),
    Own.read props field = Some raw ->
    Own.primitive raw = true ->
    Own.read (default [] (TS._transform V)) field = Some configured ->
    Js.truthy configured = false ->
    (forall hook, TS._messageHook V = Some hook -> Js.truthy hook = false) ->
    TS._rules V !! field = Some rules ->
    Forall (fun rule => Outcome.data_only rule && Own.no_regexp rule = true)
           rules ->
    exists p w',
      TS.validateField E V field (Js.VObj addr props) fieldWrap w
      = (Config.Returned p, w')
      /\ p <> Config.Pending
      /\ Run.ust w' = Run.ust w.
Proof.
  intros U E V field addr props fieldWrap rules raw configured w
         Hraw Hprim Hconf Hnone Hhook Hrules Hall.
  apply (field_settles E V (Js.VObj addr props) eq_refl) with (rules := rules);
    try assumption.
  - discriminate.
  - now rewrite (read_lookup _ _ _ Hconf).
  - eapply Forall_impl; [exact Hall|].
    intros rule H. now apply andb_true_iff in H as [H _].
Qed.

(** The rule [{ maxlength: 2, message: "too long" }] on [{ name: 7 }]. *)
Lemma rules_without_callbacks_always_settle_witness :
  exists p w',
    TS.validateField Sample.env (Sample.ts_with Sample.max_rule) "name"
      (Sample.form_of (Js.VNum (Js.Finite false 7 0))) false Sample.start
    = (Config.Returned p, w')
    /\ p <> Config.Pending
    /\ Run.ust w' = 0%nat.
Proof.
  apply (rules_without_callbacks_always_settle nat Sample.env
           (Sample.ts_with Sample.max_rule) "name" 1
           [("name", Js.VNum (Js.Finite false 7 0))] false [Sample.max_rule]
           (Js.VNum (Js.Finite false 7 0)) Js.VUndefined Sample.start).
  - reflexivity.
  - reflexivity.
  - reflexivity.
  - reflexivity.
  - intros hook H. discriminate H.
  - vm_compute. reflexivity.
  - repeat constructor.
Defined.

(** ** validator-1.0.0.js and validator-2.0.0.js *)

Section Simulation.
Import Js Config Run Statics Obs Compare.
Context {U : Type} (E : Env U).
Local Open Scope run_scope.

Lemma external_app evs1 evs2 :
  external (evs1 ++ evs2) = external evs1 ++ external evs2.
Proof.
  induction evs1 as [|e evs1 IH]; [reflexivity|].
  destruct e; cbn; now rewrite ?IH.
Qed.

Lemma alike_refl (w : world U) : alike w w.
Proof. now split. Qed.

Lemma simulates_ret {A} (a : A) : simulates (U:=U) (ret a) (ret a).
Proof. intros w1 w2 H. now split. Qed.

Lemma simulates_raise {A} e : simulates (U:=U) (A:=A) (raise e) (raise e).
Proof. intros w1 w2 H. now split. Qed.

Lemma simulates_suspend {A} : simulates (U:=U) (A:=A) suspend suspend.
Proof. intros w1 w2 H. now split. Qed.

Lemma simulates_bind {A B} (m1 m2 : M U A) (k1 k2 : A -> M U B) :
  simulates m1 m2 -> (forall a, simulates (k1 a) (k2 a)) ->
  simulates (bind m1 k1) (bind m2 k2).
Proof.
  intros Hm Hk w1 w2 H. destruct (Hm w1 w2 H) as [Hr Hw]. unfold bind.
  destruct (m1 w1) as [r1 w1'], (m2 w2) as [r2 w2']. cbn [fst snd] in *. subst r2.
  destruct r1 as [a|e|]; [now apply Hk | now split | now split].
Qed.

Lemma simulates_emit e : simulates (U:=U) (emit e) (emit e).
Proof.
  intros w1 w2 [Hu Ht]. split; [reflexivity|]. split; [exact Hu|].
  unfold emit. cbn [snd trace]. now rewrite !external_app, Ht.
Qed.

(** The entry of a chain method does not show. *)
Lemma simulates_entry {A} s rule v field (m1 m2 : M U A) :
  simulates m1 m2 -> simulates m1 (emit (EvEnter s rule v field) ;;; m2).
Proof.
  intros Hm w1 w2 [Hu Ht]. unfold bind, emit. apply Hm.
  split; [exact Hu|]. cbn [trace]. rewrite external_app. cbn.
  now rewrite app_nil_r.
Qed.

Lemma simulates_call at_ f this args :
  simulates (call E at_ f this args) (call E at_ f this args).
Proof.
  destruct f; try apply simulates_raise.
  intros w1 w2 [Hu Ht]. rewrite !call_fun, Hu.
  destruct (fn_call E f this args (ust w2)) as [[v|e] u];
    (split; [reflexivity|]); (split; [reflexivity|]); cbn [snd trace];
    now rewrite !external_app, Ht.
Qed.

Lemma simulates_await v : simulates (U:=U) (await v) (await v).
Proof.
  destruct v; try apply simulates_ret.
  destruct st; [apply simulates_ret | apply simulates_raise | apply simulates_suspend].
Qed.

Lemma simulates_get_prop v key : simulates (U:=U) (get_prop v key) (get_prop v key).
Proof. destruct v; first [apply simulates_ret | apply simulates_raise]. Qed.

Lemma simulates_get_length v : simulates (get_length E v) (get_length E v).
Proof. destruct v; first [apply simulates_ret | apply simulates_raise]. Qed.

Lemma simulates_try_catch {A} (b1 b2 : M U A) h1 h2 :
  simulates b1 b2 -> (forall e, simulates (h1 e) (h2 e)) ->
  simulates (try_catch b1 h1) (try_catch b2 h2).
Proof.
  intros Hb Hh w1 w2 H. destruct (Hb w1 w2 H) as [Hr Hw]. unfold try_catch.
  destruct (b1 w1) as [r1 w1'], (b2 w2) as [r2 w2']. cbn [fst snd] in *. subst r2.
  destruct r1 as [a|e|]; [now split | now apply Hh | now split].
Qed.

Lemma simulates_isDate v : simulates (isDate E v) (isDate E v).
Proof.
  unfold isDate. destruct v; try apply simulates_ret; try apply simulates_raise.
  destruct (_ && _); [|apply simulates_ret].
  apply simulates_bind; [apply simulates_call | intros; apply simulates_ret].
Qed.

Lemma simulates_isFloat v : simulates (V1.isFloat E v) (V2.isFloat E v).
Proof.
  unfold V1.isFloat, V2.isFloat.
  destruct (isNumber E v); [apply simulates_raise | apply simulates_ret].
Qed.

(** The same name reaches the same predicate in both files. *)
Lemma simulates_static_method name :
  match V1.static_method E name, V2.static_method E name with
  | Some fn1, Some fn2 => forall v, simulates (fn1 v) (fn2 v)
  | None, None => True
  | _, _ => False
  end.
Proof.
  unfold V1.static_method, V2.static_method.
  repeat (destruct (String.eqb name _);
          [intros v; first [apply simulates_ret | apply simulates_isFloat
                           | apply simulates_isDate] |]).
  exact I.
Qed.
End Simulation.

Section Legacy.
Import Js Config Run Statics Obs Compare.
Context {U : Type} (E : Env U).
Local Open Scope run_scope.
Variables (field : string) (form raw : value).
Hypothesis Hread : forall w : world U, get_prop form field w = (Ok raw, w).

Lemma with_message_same rule : with_message rule (message rule) = rule.
Proof. now destruct rule. Qed.

Lemma alike_entered (w1 w2 : world U) s rule v fld :
  alike w1 w2 -> alike w1 (mkWorld (ust w2) (trace w2 ++ [EvEnter s rule v fld])).
Proof.
  intros [Hu Ht]. split; [exact Hu|]. cbn [trace]. rewrite external_app. cbn.
  now rewrite app_nil_r.
Qed.

Lemma alike_event (w1 w2 : world U) (u : U) e :
  alike w1 w2 ->
  alike (mkWorld u (trace w1 ++ [e])) (mkWorld u (trace w2 ++ [e])).
Proof.
  intros [Hu Ht]. split; [reflexivity|]. cbn [trace]. now rewrite !external_app, Ht.
Qed.

Lemma alike_warned (w1 w2 : world U) e :
  alike w1 w2 ->
  alike (mkWorld (ust w1) (trace w1 ++ [e])) (mkWorld (ust w2) (trace w2 ++ [e])).
Proof.
  intros [Hu Ht]. split; [exact Hu|]. cbn [trace]. now rewrite !external_app, Ht.
Qed.

Ltac settle :=
  cbn [fst snd]; rewrite ?with_message_same;
  first [ now split
        | split; [reflexivity | now apply alike_event]
        | split; [reflexivity | now apply alike_warned]
        | split; [reflexivity | now apply alike_entered] ].

Lemma legacy_required rule :
  simulates (U:=U) (V1.check_required field form rule)
            (r <- V2._validateRequired rule raw field ;;
             ret (v2_verdict field rule r)).
Proof.
  intros w1 w2 Hw. apply (alike_entered _ _ Required rule raw field) in Hw.
  unfold V1.check_required, V2._validateRequired, bind, emit, ret.
  destruct (truthy (required rule)); [rewrite Hread; destruct (isEmpty raw)|];
    cbn [v2_verdict negb truthy]; settle.
Qed.

Lemma legacy_pattern rule :
  simulates (V1.check_pattern E field form rule)
            (r <- V2._validatePattern E rule raw field ;;
             ret (v2_verdict field rule r)).
Proof.
  intros w1 w2 Hw. apply (alike_entered _ _ Pattern rule raw field) in Hw.
  unfold V1.check_pattern, V2._validatePattern, bind, warn, emit, ret.
  cbv zeta. destruct (truthy (pattern rule)); [|settle].
  destruct (pattern rule); try settle.
  rewrite Hread. destruct (regexp_test E r raw); cbn [v2_verdict negb truthy]; settle.
Qed.

(** The three checks 1.0.0 does not have pass in silence when their
    constraint is not set. *)
Lemma legacy_bounds rule :
  legacy rule = true ->
  simulates (ret None)
            (r <- V2._validateMaxlen E rule raw field ;;
             ret (v2_verdict field rule r))
  /\ simulates (ret None)
               (r <- V2._validateMinlen E rule raw field ;;
                ret (v2_verdict field rule r))
  /\ simulates (U:=U) (ret None)
               (r <- V2._validateEnum rule raw field ;;
                ret (v2_verdict field rule r)).
Proof.
  unfold legacy. intros H.
  apply andb_true_iff in H as [H Henum]. apply andb_true_iff in H as [Hmax Hmin].
  apply negb_true_iff in Hmax, Hmin, Henum.
  split; [|split]; intros w1 w2 Hw;
    unfold V2._validateMaxlen, V2._validateMinlen, V2._validateEnum, bind, emit, ret;
    cbv zeta; rewrite ?Hmax, ?Hmin, ?Henum;
    (split; [reflexivity | now apply alike_entered]).
Qed.
Lemma bind_entry {A B} e (body : M U A) (k : A -> M U B) (w : world U) :
  bind (bind (emit e) (fun _ => body)) k w
  = bind body k (mkWorld (ust w) (trace w ++ [e])).
Proof. reflexivity. Qed.

Lemma legacy_type rule :
  simulates (V1.check_type E field form rule)
            (r <- V2._validateType E rule raw field ;;
             ret (v2_verdict field rule r)).
Proof.
  intros w1 w2 Hw. apply (alike_entered _ _ Type_ rule raw field) in Hw.
  unfold V1.check_type, V2._validateType. rewrite bind_entry. cbv zeta.
  set (w2' := mkWorld (ust w2) (trace w2 ++ [EvEnter Type_ rule raw field])) in *.
  destruct (truthy (type rule)); [|now split].
  destruct (oneOf (type rule) types).
  2:{ unfold bind, warn, emit, ret. settle. }
  unfold capitalize.
  destruct (type rule) as [| |b|n|s|a l|a l|f|r|a d|a st]; try (now split).
  unfold bind, ret. cbv beta iota.
  set (name := "is" +:+ _).
  pose proof (simulates_static_method E name) as Hfn.
  destruct (V1.static_method E name) as [fn1|], (V2.static_method E name) as [fn2|];
    try contradiction; rewrite Hread.
  - destruct (Hfn raw w1 w2' Hw) as [Hr Hw'].
    destruct (fn1 raw w1) as [r1 w1'], (fn2 raw w2') as [r2 w2''].
    cbn [fst snd] in *. subst r2.
    destruct r1 as [[|]|e|]; cbn [negb v2_verdict truthy fst snd];
      rewrite ?with_message_same; now split.
  - now split.
Qed.

Lemma legacy_validator rule :
  simulates (V1.check_validator E field form rule)
            (r <- V2._customValidate E rule raw field ;;
             ret (v2_verdict field rule r)).
Proof.
  intros w1 w2 Hw. apply (alike_entered _ _ Custom rule raw field) in Hw.
  unfold V1.check_validator, V2._customValidate. rewrite bind_entry. cbv zeta.
  set (w2' := mkWorld (ust w2) (trace w2 ++ [EvEnter Custom rule raw field])) in *.
  destruct (truthy (validator rule)); [|now split].
  destruct (isFunction (validator rule)) eqn:Hfn.
  2:{ unfold bind, warn, emit, ret. settle. }
  destruct (validator rule) as [| |b|n|s|a l|a l|f|r|a d|a st]; try discriminate.
  unfold try_catch, bind. rewrite Hread, !call_fun.
  destruct Hw as [Hu Ht]. rewrite Hu.
  assert (Hev : forall u : U,
            alike (mkWorld u (trace w1 ++ [EvCall AtValidator f [raw]]))
                  (mkWorld u (trace w2' ++ [EvCall AtValidator f [raw]])))
    by (intros u; apply alike_event; now split).
  assert (Hcatch : forall err (u : U),
    agree (V1.catch_block field rule err
             (mkWorld u (trace w1 ++ [EvCall AtValidator f [raw]])))
          (let (r, w') :=
             let (r, w') :=
               V2.catch_block err
                 (mkWorld u (trace w2' ++ [EvCall AtValidator f [raw]])) in
             match r with
             | Ok a => (match a with
                        | Some r0 => ret r0
                        | None => ret (RBool true)
                        end) w'
             | Raise e => (Raise e, w')
             | Suspended => (Suspended, w')
             end in
           match r with
           | Ok a => ret (v2_verdict field rule a) w'
           | Raise e => (Raise e, w')
           | Suspended => (Suspended, w')
           end)).
  { intros err u. unfold V1.catch_block, V2.catch_block, bind, ret.
    destruct err; cbn [typeof String.eqb Ascii.eqb Bool.eqb];
      cbv beta iota zeta delta [get_prop ret raise v2_verdict negb];
      (split; [reflexivity | apply Hev]). }
  destruct (fn_call E f ThisUndefined [raw] (ust w2')) as [[x|err] u];
    [|apply Hcatch].
  destruct x as [| |b|n|s|a l|a l|g|r|a d|a st];
    try (match goal with
         | |- context [negb (truthy ?y)] => destruct (truthy y)
         end;
         cbv beta iota zeta delta [ret negb v2_verdict truthy];
         rewrite ?with_message_same; (split; [reflexivity | apply Hev])).
  destruct st as [y|err|]; cbv beta iota zeta delta [await ret raise suspend];
    [split; [reflexivity | apply Hev] | apply Hcatch
    | split; [reflexivity | apply Hev]].
Qed.
Lemma simulates_then {A} (t1 t2 : M U (option A)) rest1 rest2 :
  simulates t1 t2 -> simulates rest1 rest2 ->
  simulates (r <- t1 ;; match r with Some err => ret (Some err) | None => rest1 end)
            (r <- t2 ;; match r with Some err => ret (Some err) | None => rest2 end).
Proof.
  intros Ht Hrest. apply simulates_bind; [exact Ht|].
  intros [err|]; [apply simulates_ret | exact Hrest].
Qed.

(** A check of 2.0.0 that 1.0.0 does not have, after the last check of
    1.0.0. *)
Lemma simulates_more {A} (m1 t2 rest2 : M U (option A)) :
  simulates m1 (r <- t2 ;; match r with Some err => ret (Some err) | None => ret None end) ->
  simulates (ret None) rest2 ->
  simulates m1 (r <- t2 ;; match r with Some err => ret (Some err) | None => rest2 end).
Proof.
  intros Hm Hrest w1 w2 Hw. specialize (Hm w1 w2 Hw). unfold bind in *.
  destruct (t2 w2) as [[[err|]|e|] w2']; try exact Hm.
  destruct Hm as [Hr Hw']. cbn [fst snd ret] in *.
  destruct (Hrest (snd (m1 w1)) w2' Hw') as [Hr2 Hw2]. cbn [fst snd ret] in *.
  split; [congruence | exact Hw2].
Qed.

Lemma simulates_last {A} (m1 t2 : M U (option A)) :
  simulates m1 t2 ->
  simulates m1 (r <- t2 ;; match r with Some err => ret (Some err) | None => ret None end).
Proof.
  intros Hm w1 w2 Hw. specialize (Hm w1 w2 Hw). unfold bind.
  destruct (t2 w2) as [[[err|]|e|] w2']; exact Hm.
Qed.

Variable configured : value.
Hypothesis Hconfigured : truthy configured = false.

(** One turn of the chain of 2.0.0 on a field that has no transform. *)
Lemma v2_plain_turn rule
    (m : RuleItem -> value -> string -> M U StepRes) rest (w : world U) :
  V2.run_chain E field form configured rule (m :: rest) w
  = (r <- (x <- m rule raw field ;; ret (v2_verdict field rule x)) ;;
     match r with
     | Some err => ret (Some err)
     | None => V2.run_chain E field form configured rule rest
     end) w.
Proof.
  rewrite v2_run_chain_cons. unfold bind. rewrite Hread.
  unfold V2.currentTransform. rewrite Hconfigured. unfold ret at 1.
  destruct (m rule raw field w) as [[[[|]|[|] msg]|e|] w']; reflexivity.
Qed.

Lemma simulates_ext {A} (m1 m2 m2' : M U A) :
  (forall w, m2 w = m2' w) -> simulates m1 m2' -> simulates m1 m2.
Proof. intros Heq H w1 w2 Hw. rewrite Heq. now apply H. Qed.

Lemma legacy_rule rule :
  legacy rule = true ->
  simulates (V1.check_rule E field form rule)
            (V2.run_chain E field form configured rule (V2.chain E)).
Proof.
  intros Hleg. destruct (legacy_bounds rule Hleg) as (Hmax & Hmin & Henum).
  unfold V1.check_rule, V1.and_then, V2.chain.
  eapply simulates_ext; [apply v2_plain_turn|].
  apply simulates_then; [apply legacy_required|].
  eapply simulates_ext; [apply v2_plain_turn|].
  apply simulates_then; [apply legacy_type|].
  eapply simulates_ext; [apply v2_plain_turn|].
  apply simulates_then; [apply legacy_pattern|].
  eapply simulates_ext; [apply v2_plain_turn|].
  apply simulates_more; [apply simulates_last, legacy_validator|].
  eapply simulates_ext; [apply v2_plain_turn|].
  apply simulates_more; [apply simulates_last, Hmax|].
  eapply simulates_ext; [apply v2_plain_turn|].
  apply simulates_more; [apply simulates_last, Hmin|].
  eapply simulates_ext; [apply v2_plain_turn|].
  apply simulates_more; [apply simulates_last, Henum|].
  apply simulates_ret.
Qed.

Lemma legacy_rules rules :
  Forall (fun rule => legacy rule = true) rules ->
  simulates (V1.run_rules E field form rules)
            (V2.run_rules E field form configured rules).
Proof.
  induction 1 as [|rule rules Hrule Hall IH]; [apply simulates_ret|].
  cbn [V1.run_rules V2.run_rules].
  apply simulates_bind; [now apply legacy_rule|].
  intros [err|]; [apply simulates_ret | exact IH].
Qed.
End Legacy.

Section LegacyField.
Import Js Config Run Statics Obs Compare.
Context {U : Type} (E : Env U).
Local Open Scope run_scope.
Variables (rules : gmap string (list RuleItem)) (transforms : list (string * value)).
Variable form : value.
Hypothesis Hform : form <> VNull.

Lemma read_form field :
  isObject form = true ->
  exists raw, forall w : world U, get_prop form field w = (Ok raw, w).
Proof.
  destruct form; try discriminate; try congruence; intros _;
    eexists; intros w; reflexivity.
Qed.

Lemma legacy_field field (w1 w2 : world U) :
  truthy (lookup_prop field transforms) = false ->
  (forall rs, rules !! field = Some rs -> Forall (fun rule => legacy rule = true) rs) ->
  alike w1 w2 ->
  agree (V1.validateField E (V1.mkValidator rules) field form w1)
        (V2.validateField E (V2.mkValidator rules (Some transforms)) field form w2).
Proof.
  intros Htr Hleg Hw. unfold V1.validateField, V2.validateField.
  cbn [V1._rules V2._rules].
  destruct (isObject form) eqn:Hobj; cbn [negb]; [|now split].
  destruct (rules !! field) as [rs|] eqn:Hrules; [|now split].
  destruct (read_form field Hobj) as (raw & Hread).
  unfold new_promise, V2.lookup_transform, bind. cbn [V2._transform ret].
  destruct (legacy_rules E field form raw Hread _ Htr rs (Hleg rs eq_refl) w1 w2 Hw)
    as [Hr Hw'].
  destruct (V1.run_rules E field form rs w1) as [r1 w1'],
           (V2.run_rules E field form (lookup_prop field transforms) rs w2)
             as [r2 w2'].
  cbn [fst snd] in *. subst r2. destruct r1 as [p|e|]; now split.
Qed.

End LegacyField.



(** ** The type "float" in 1.0.0 and 2.0.0 *)

Section FloatRule.
Import Js Config Run Statics Obs Outcome.
Context {U : Type} (E : Env U).
Local Open Scope run_scope.

Lemma v2_float_check rule v field (w : world U) :
  type rule = VStr "float" ->
  fst (V2._validateType E rule v field w) <> Ok (RBool true)
  /\ forall pass msg, fst (V2._validateType E rule v field w) <> Ok (RObj pass msg).
Proof.
  intros Ht.
  rewrite (v2_type_dispatch E rule v field "float" (V2.isFloat E) w Ht)
    by (cbn; tauto).
  unfold bind, V2.isFloat. destruct (isNumber E v); cbn; split; congruence.
Qed.

Lemma v2_float_chain field form configured rule (w : world U) :
  type rule = VStr "float" ->
  fst (V2.run_chain E field form configured rule (V2.chain E) w) <> Ok None.
Proof.
  intros Ht. unfold V2.chain. rewrite v2_run_chain_cons. unfold bind.
  destruct (get_prop form field w) as [[raw|e|] w0]; try discriminate.
  destruct (V2.currentTransform E configured raw w0) as [[arg|e|] w1];
    try discriminate.
  destruct (V2._validateRequired rule arg field w1) as [[res|e|] w2];
    try discriminate.
  destruct res as [[|]|[|] msg]; cbn [negb]; try discriminate.
  all: rewrite v2_run_chain_cons; unfold bind;
    destruct (get_prop form field w2) as [[raw'|e|] w3]; try discriminate;
    destruct (V2.currentTransform E configured raw' w3) as [[arg'|e|] w4];
    try discriminate;
    destruct (v2_float_check rule arg' field w4 Ht) as [Hno Hobj];
    destruct (V2._validateType E rule arg' field w4) as [[res'|e|] w5];
    try discriminate;
    destruct res' as [[|]|pass' msg']; cbn [negb fst] in *; try discriminate;
    try congruence; exfalso; now apply (Hobj pass' msg').
Qed.

Lemma v2_float_rules field form configured rules (w : world U) :
  Exists (fun rule => type rule = VStr "float") rules ->
  fst (V2.run_rules E field form configured rules w) <> Ok Resolved.
Proof.
  intros Hex. revert w. induction Hex as [rule rules Ht|rule rules Hex IH]; intros w;
    rewrite v2_run_rules_cons; unfold bind, ret.
  - pose proof (v2_float_chain field form configured rule w Ht) as Hno.
    destruct (V2.run_chain E field form configured rule (V2.chain E) w)
      as [[[err|]|e|] w1]; cbn [fst] in *; congruence.
  - destruct (V2.run_chain E field form configured rule (V2.chain E) w)
      as [[[err|]|e|] w1]; cbn [fst]; try discriminate. apply IH.
Qed.

Lemma v1_float_rule field form rule (w : world U) :
  type rule = VStr "float" ->
  fst (V1.check_rule E field form rule w) <> Ok None.
Proof.
  intros Ht. unfold V1.check_rule, V1.and_then, bind.
  destruct (V1.check_required field form rule w) as [[[err|]|e|] w1];
    [discriminate | | discriminate ..].
  unfold V1.check_type. rewrite Ht. cbv zeta.
  cbn [truthy String.eqb Ascii.eqb Bool.eqb negb].
  change (oneOf (VStr "float") types) with true. cbv beta iota.
  change (capitalize (VStr "float")) with (ret (U:=U) "Float").
  unfold bind, ret. cbv beta iota.
  change (V1.static_method E ("is" +:+ "Float")) with (Some (V1.isFloat E)).
  cbv beta iota. unfold V1.isFloat.
  destruct (get_prop form field w1) as [[raw|e|] w2]; try discriminate.
  destruct (isNumber E raw); discriminate.
Qed.

Lemma v1_float_rules field form rules (w : world U) :
  Exists (fun rule => type rule = VStr "float") rules ->
  fst (V1.run_rules E field form rules w) <> Ok Resolved.
Proof.
  intros Hex. revert w. induction Hex as [rule rules Ht|rule rules Hex IH]; intros w;
    cbn [V1.run_rules]; unfold bind, ret.
  - pose proof (v1_float_rule field form rule w Ht) as Hno.
    destruct (V1.check_rule E field form rule w) as [[[err|]|e|] w1];
      cbn [fst] in *; congruence.
  - destruct (V1.check_rule E field form rule w) as [[[err|]|e|] w1];
      cbn [fst]; try discriminate. apply IH.
Qed.
End FloatRule.

(** X14.  In validator-1.0.0.js and validator-2.0.0.js a field with a rule
    of type "float" never validates: [isFloat] calls a method that does not
    exist, so the type check throws on every number (the promise is left
    pending) and fails on everything else.  Whatever the form, the other
    rules and the caller's functions do, [validateField] on such a field
    does not resolve. *)
Theorem a_float_rule_never_validates :
  forall (U : Type) (E : Run.Env U) (field : string) (form : Js.value)
         (rules : list Config.RuleItem) (w : Run.world U),
    Exists (fun rule => Config.type rule = Js.VStr "float") rules ->
    (forall V, V2._rules V !! field = Some rules ->
               fst (V2.validateField E V field form w)
               <> Config.Returned Config.Resolved)
    /\ (forall V, V1._rules V !! field = Some rules ->
                  fst (V1.validateField E V field form w)
                  <> Config.Returned Config.Resolved).
Proof.
  intros U E field form rules w Hex. split; intros V Hrules.
  - unfold V2.validateField. destruct (negb (Statics.isObject form)); [discriminate|].
    rewrite Hrules. unfold Run.new_promise, Run.bind, V2.lookup_transform.
    destruct (V2._transform V) as [transforms|]; [|discriminate].
    cbn [Run.ret].
    pose proof (v2_float_rules E field form (Js.lookup_prop field transforms)
                  rules w Hex) as Hno.
    destruct (V2.run_rules E field form _ rules w) as [[[|err|]|e|] w1];
      cbn [fst] in *; congruence.
  - unfold V1.validateField. destruct (negb (Statics.isObject form)); [discriminate|].
    rewrite Hrules. unfold Run.new_promise.
    pose proof (v1_float_rules E field form rules w Hex) as Hno.
    destruct (V1.run_rules E field form rules w) as [[[|err|]|e|] w1];
      cbn [fst] in *; congruence.
Qed.

(** The rule [{ type: "float" }] on 1.5: 2.0.0 never settles, where
    validator-ts.ts resolves. *)
Lemma a_float_rule_never_validates_witness :
  fst (V2.validateField Sample.env (Sample.v2_with Cases.float_rule) "name"
         (Sample.form_of (Js.VNum Sample.one_and_a_half)) Sample.start)
  <> Config.Returned Config.Resolved
  /\ fst (TS.validateField Sample.env (Sample.ts_with Cases.float_rule) "name"
            (Sample.form_of (Js.VNum Sample.one_and_a_half)) false Sample.start)
     = Config.Returned Config.Resolved.
Proof.
  split; [|vm_compute; reflexivity].
  destruct (a_float_rule_never_validates nat Sample.env "name"
              (Sample.form_of (Js.VNum Sample.one_and_a_half))
              [Cases.float_rule] Sample.start) as [Hv2 _].
  - left. reflexivity.
  - apply Hv2. vm_compute. reflexivity.
Defined.

(** ** The type "date" on a missing value in 1.0.0 and 2.0.0 *)

Section DateRule.
Import Js Config Run Statics Obs Outcome.
Context {U : Type} (E : Env U).
Local Open Scope run_scope.
Variables (field : string) (addr : nat) (props : list (string * value)).
Hypothesis Hmissing :
  lookup_prop field props = VUndefined \/ lookup_prop field props = VNull.

Lemma isDate_missing (w : world U) :
  isDate E (lookup_prop field props) w = (Raise no_getTime, w).
Proof. destruct Hmissing as [-> | ->]; reflexivity. Qed.

Lemma v2_date_chain configured rule (w : world U) :
  truthy configured = false ->
  truthy (required rule) = false ->
  type rule = VStr "date" ->
  fst (V2.run_chain E field (VObj addr props) configured rule (V2.chain E) w)
  = Raise no_getTime.
Proof.
  intros Hc Hreq Ht. unfold V2.chain.
  rewrite v2_run_chain_cons. unfold bind at 1. cbn [get_prop]. unfold ret at 1.
  unfold bind at 1. unfold V2.currentTransform at 1. rewrite Hc. unfold ret at 1.
  unfold bind at 1. unfold V2._validateRequired. rewrite Hreq.
  unfold seq, bind, emit, ret. cbn [negb].
  rewrite v2_run_chain_cons. unfold bind at 1. cbn [get_prop]. unfold ret at 1.
  unfold bind at 1. unfold V2.currentTransform at 1. rewrite Hc. unfold ret at 1.
  unfold bind at 1.
  rewrite (v2_type_dispatch E rule _ field "date" (isDate E) _ Ht)
    by (cbn; tauto).
  unfold bind at 1. rewrite isDate_missing. reflexivity.
Qed.

Lemma v2_run_rules_app form configured pre rest (w w0 : world U) :
  V2.run_rules E field form configured pre w = (Ok Resolved, w0) ->
  V2.run_rules E field form configured (pre ++ rest) w
  = V2.run_rules E field form configured rest w0.
Proof.
  revert w. induction pre as [|r pre IH]; intros w.
  - now intros [= ->].
  - cbn [app]. rewrite !v2_run_rules_cons. unfold bind.
    destruct (V2.run_chain E field form configured r (V2.chain E) w)
      as [[[err|]|e|] w1]; try discriminate.
    apply IH.
Qed.

Lemma v1_date_rule rule (w : world U) :
  truthy (required rule) = false ->
  type rule = VStr "date" ->
  fst (V1.check_rule E field (VObj addr props) rule w) = Raise no_getTime.
Proof.
  intros Hreq Ht. unfold V1.check_rule, V1.and_then.
  unfold bind at 1. unfold V1.check_required. rewrite Hreq. unfold ret at 1.
  unfold bind at 1. unfold V1.check_type. rewrite Ht. cbv zeta.
  cbn [truthy String.eqb Ascii.eqb Bool.eqb negb].
  change (oneOf (VStr "date") types) with true. cbv beta iota.
  change (capitalize (VStr "date")) with (ret (U:=U) "Date").
  unfold bind, ret. cbv beta iota.
  change (V1.static_method E ("is" +:+ "Date")) with (Some (isDate E)).
  cbv beta iota. cbn [get_prop]. unfold ret. rewrite isDate_missing.
  reflexivity.
Qed.

Lemma v1_run_rules_app form pre rest (w w0 : world U) :
  V1.run_rules E field form pre w = (Ok Resolved, w0) ->
  V1.run_rules E field form (pre ++ rest) w = V1.run_rules E field form rest w0.
Proof.
  revert w. induction pre as [|r pre IH]; intros w.
  - now intros [= ->].
  - cbn [app V1.run_rules]. unfold bind.
    destruct (V1.check_rule E field form r w) as [[[err|]|e|] w1];
      try discriminate.
    apply IH.
Qed.
End DateRule.



(** ** The aggregate of 1.0.0 *)

Section V1Aggregate.
Import Js Config Run Statics Obs Outcome.
Context {U : Type} (E : Env U).
Local Open Scope run_scope.

Lemma v1_errorsMap_entries errors :
  V1.errorsMap errors = entries_map v1_entry ∅ errors.
Proof.
  unfold V1.errorsMap, entries_map. generalize (∅ : gmap string RuleItem).
  induction errors as [|err errors IH]; intros acc; [reflexivity|].
  cbn [foldl]. rewrite IH. now destruct err.
Qed.

Lemma v1_field_returns V field form (w : world U) :
  isObject form = true ->
  exists p w', V1.validateField E V field form w = (Returned p, w').
Proof.
  intros Hobj. unfold V1.validateField. rewrite Hobj. cbn [negb].
  destruct (V1._rules V !! field) as [rules|]; [|now exists Resolved, w].
  destruct (new_promise _ w) as [p w'].
  now exists p, w'.
Qed.

Lemma same_message rule : with_message rule (message rule) = rule.
Proof. now destruct rule. Qed.

(** Each test of the loop body rejects with the field and the rule. *)
Lemma v1_required_rejection field form rule (w : world U) err w' :
  V1.check_required (U:=U) field form rule w = (Ok (Some err), w') ->
  err = (field, rule).
Proof.
  unfold V1.check_required. destruct (truthy (required rule)); [|discriminate].
  unfold bind. destruct (get_prop form field w) as [[v|e|] w0]; try discriminate.
  destruct (isEmpty v); [|discriminate]. now intros [= <- _].
Qed.

Lemma v1_type_rejection field form rule (w : world U) err w' :
  V1.check_type E field form rule w = (Ok (Some err), w') ->
  err = (field, rule).
Proof.
  unfold V1.check_type. cbv zeta.
  destruct (truthy (type rule)); [|discriminate].
  destruct (oneOf (type rule) types).
  - unfold bind at 1.
    destruct (capitalize (type rule) w) as [[name|e|] w0]; try discriminate.
    destruct (V1.static_method E ("is" +:+ name)) as [fn|].
    + unfold bind.
      destruct (get_prop form field w0) as [[v|e|] w1]; try discriminate.
      destruct (fn v w1) as [[b|e|] w2]; try discriminate.
      destruct b; cbn [negb]; [discriminate|]. now intros [= <- _].
    + unfold seq, bind.
      destruct (get_prop form field w0) as [[v|e|] w1]; discriminate.
  - unfold seq, bind, warn, emit, ret. discriminate.
Qed.

Lemma v1_pattern_rejection field form rule (w : world U) err w' :
  V1.check_pattern E field form rule w = (Ok (Some err), w') ->
  err = (field, rule).
Proof.
  unfold V1.check_pattern. cbv zeta.
  destruct (truthy (pattern rule)); [|discriminate].
  destruct (pattern rule);
    try (unfold seq, bind, warn, emit, ret; discriminate).
  unfold bind. destruct (get_prop form field w) as [[v|e|] w0]; try discriminate.
  destruct (regexp_test E r v); cbn [negb]; [discriminate|]. now intros [= <- _].
Qed.

Lemma v1_validator_rejection field form rule (w : world U) err w' :
  V1.check_validator E field form rule w = (Ok (Some err), w') ->
  exists msg, err = (field, with_message rule msg).
Proof.
  unfold V1.check_validator. cbv zeta.
  destruct (truthy (validator rule)); [|discriminate].
  destruct (isFunction (validator rule)).
  - unfold try_catch.
    match goal with |- context [match ?m w with _ => _ end] =>
      destruct (m w) as [[r|e|] w0] eqn:Hbody end.
    + intros [= -> ->]. exists (message rule). rewrite same_message.
      revert Hbody. unfold bind.
      destruct (get_prop form field w) as [[v|e|] w1]; try discriminate.
      destruct (call E AtValidator (validator rule) ThisUndefined [v] w1)
        as [[res|e|] w2]; try discriminate.
      destruct res; try (destruct (truthy _); cbn [negb]; intros [= <- _];
                         reflexivity);
        try (cbn [truthy negb]; intros [= <- _]; reflexivity).
      all: unfold seq, bind;
        match goal with |- context [await ?p ?x] =>
          destruct (await p x) as [[?|?|] ?] end; discriminate.
    + unfold V1.catch_block. cbv zeta. unfold bind.
      match goal with |- context [match ?m w0 with _ => _ end] =>
        destruct (m w0) as [[errMsg|e'|] w1] end; try discriminate.
      intros [= <- _]. eauto.
    + discriminate.
  - unfold seq, bind, warn, emit, ret. discriminate.
Qed.

Lemma v1_check_rejection field form rule (w : world U) err w' :
  V1.check_rule E field form rule w = (Ok (Some err), w') ->
  exists msg, err = (field, with_message rule msg).
Proof.
  unfold V1.check_rule, V1.and_then. unfold bind.
  destruct (V1.check_required (U:=U) field form rule w) as [[[e1|]|e|] w1] eqn:H1;
    try discriminate.
  { intros [= <- _]. exists (message rule). rewrite same_message.
    eapply v1_required_rejection, H1. }
  destruct (V1.check_type E field form rule w1) as [[[e2|]|e|] w2] eqn:H2;
    try discriminate.
  { intros [= <- _]. exists (message rule). rewrite same_message.
    eapply v1_type_rejection, H2. }
  destruct (V1.check_pattern E field form rule w2) as [[[e3|]|e|] w3] eqn:H3;
    try discriminate.
  { intros [= <- _]. exists (message rule). rewrite same_message.
    eapply v1_pattern_rejection, H3. }
  apply v1_validator_rejection.
Qed.

Lemma v1_rules_rejection field form rules (w : world U) err w' :
  V1.run_rules E field form rules w = (Ok (Rejected err), w') ->
  exists pre rule post w0,
    rules = pre ++ rule :: post
    /\ V1.run_rules E field form pre w = (Ok Resolved, w0)
    /\ V1.check_rule E field form rule w0 = (Ok (Some err), w').
Proof.
  revert w. induction rules as [|r rules IH]; intros w; [discriminate|].
  cbn [V1.run_rules]. unfold bind.
  destruct (V1.check_rule E field form r w) as [[[e|]|e|] w1] eqn:Hr;
    try discriminate.
  - intros [= <- <-]. now exists [], r, rules, w.
  - intros H. destruct (IH w1 H) as (pre & rule & post & w0 & -> & Hpre & Hrule).
    exists (r :: pre), rule, post, w0. repeat split; auto.
    cbn [V1.run_rules]. unfold bind. now rewrite Hr.
Qed.

Lemma v1_task_rejection V field form (w : world U) err w' :
  V1.validateField E V field form w = (Returned (Rejected err), w') ->
  v1_first_failure E V field form w err w'.
Proof.
  unfold V1.validateField.
  destruct (negb (isObject form)); [discriminate|].
  destruct (V1._rules V !! field) as [rules|] eqn:Hrules; [|discriminate].
  unfold new_promise.
  destruct (V1.run_rules E field form rules w) as [[p|e|] w1] eqn:Hrun;
    try discriminate.
  intros [= -> ->].
  destruct (v1_rules_rejection _ _ _ _ _ _ Hrun)
    as (pre & rule & post & w0 & -> & Hpre & Hrule).
  destruct (v1_check_rejection _ _ _ _ _ _ Hrule) as (msg & ->).
  now exists pre, rule, post, msg, w0.
Qed.
End V1Aggregate.

(** *** The tasks of validator-1.0.0.js *)

Section TurnsV1.
Import Js Config Run Statics Obs Outcome Turns.
Context {U : Type} (E : Env U) (form : value) (field : string).
Local Open Scope run_scope.

Local Notation "'front' rule" :=
  (V1.and_then (V1.check_required field form rule)
     (V1.and_then (V1.check_type E field form rule)
                  (V1.check_pattern E field form rule)))
  (at level 10, rule at level 9).

(** The loop body of 1.0.0, cut at its [await]. *)
Lemma v1_run_rules_split rule later (w : world U) :
  V1.run_rules E field form (rule :: later) w
  = (r <- front rule ;;
     match r with
     | Some err => ret (Rejected err)
     | None =>
         if truthy (validator rule) then
           if isFunction (validator rule) then
             x <- v1_try E form field rule ;;
             match x with
             | inl validRes =>
                 r2 <- try_catch (await validRes ;;; ret None)
                                 (V1.catch_block field rule) ;;
                 match r2 with
                 | Some err => ret (Rejected err)
                 | None => V1.run_rules E field form later
                 end
             | inr (Some err) => ret (Rejected err)
             | inr None => V1.run_rules E field form later
             end
           else
             warn ("There is a validator in field " +:+ field
                   +:+ " that is not of type function") ;;;
             V1.run_rules E field form later
         else V1.run_rules E field form later
     end) w.
Proof.
  cbn [V1.run_rules]. unfold V1.check_rule, V1.and_then, bind.
  destruct (V1.check_required field form rule w) as [[[e1|]|e|] w1];
    try reflexivity.
  destruct (V1.check_type E field form rule w1) as [[[e2|]|e|] w2];
    try reflexivity.
  destruct (V1.check_pattern E field form rule w2) as [[[e3|]|e|] w3];
    try reflexivity.
  unfold V1.check_validator, v1_try. cbv zeta.
  destruct (truthy (validator rule)); [|reflexivity].
  destruct (isFunction (validator rule)); [|reflexivity].
  unfold try_catch, bind.
  destruct (get_prop form field w3) as [[v|e|] w4].
  - destruct (call E AtValidator (validator rule) ThisUndefined [v] w4)
      as [[res|e|] w5].
    + destruct res; try (destruct (negb (truthy _)); reflexivity).
      cbv beta iota delta [ret].
      destruct (await (VPromise addr st) w5) as [[x|e|] w6]; reflexivity.
    + destruct (V1.catch_block field rule e w5) as [[[err|]|e'|] w6];
        reflexivity.
    + reflexivity.
  - destruct (V1.catch_block field rule e w4) as [[[err|]|e'|] w5];
      reflexivity.
  - reflexivity.
Qed.

Lemma v1_rules_cons rule later :
  v1_rules E form field (rule :: later)
  = (r <- front rule ;;
     match r with
     | Some err => ret (Settled (Rejected err))
     | None =>
         if truthy (validator rule) then
           if isFunction (validator rule) then
             x <- v1_try E form field rule ;;
             match x with
             | inl validRes => ret (Waiting (mkV1Stage rule later validRes))
             | inr (Some err) => ret (Settled (Rejected err))
             | inr None => v1_rules E form field later
             end
           else
             warn ("There is a validator in field " +:+ field
                   +:+ " that is not of type function") ;;;
             v1_rules E form field later
         else v1_rules E form field later
     end).
Proof. reflexivity. Qed.

Lemma v1_finish_settled n p (w : world U) :
  finish (v1_resume E form) n field (Settled p) w = (Settled p, w).
Proof. now destruct n. Qed.

(** The rules of a field, turn by turn and in one go. *)
Lemma v1_finish_rules rules :
  forall n w,
    (length rules <= n)%nat ->
    (let '(t, w1) := executor (v1_rules E form field rules) w in
     finish (v1_resume E form) n field t w1)
    = (let '(p, w') := new_promise (V1.run_rules E field form rules) w in
       (Settled p, w')).
Proof.
  induction rules as [|rule later IH]; intros n w Hn.
  - apply v1_finish_settled.
  - cbn [length] in Hn.
    rewrite (new_promise_ext _ _ _ (v1_run_rules_split rule later w)).
    rewrite v1_rules_cons, executor_bind, new_promise_bind.
    destruct (front rule w) as [[[err|]|e|] w1]; try apply v1_finish_settled.
    destruct (truthy (validator rule)); [|apply IH; lia].
    destruct (isFunction (validator rule)).
    + rewrite executor_bind, new_promise_bind.
      destruct (v1_try E form field rule w1) as [[[p|[err|]]|e|] w2];
        try apply v1_finish_settled; [|apply IH; lia].
      unfold executor at 1, ret at 1.
      destruct n as [|n]; [lia|]. cbn [finish]. unfold v1_resume.
      cbn [Turns.validRes v1_rule v1_later].
      rewrite executor_bind, new_promise_bind.
      destruct (try_catch (await p ;;; ret None) (V1.catch_block field rule) w2)
        as [[[err|]|e|] w3]; try apply v1_finish_settled.
      apply IH. lia.
    + rewrite executor_bind, new_promise_bind. unfold warn, emit.
      apply IH. lia.
Qed.

(** *** Where a task of 1.0.0 stands *)

Lemma v1_front_rejection rule (w : world U) err w' :
  front rule w = (Ok (Some err), w') ->
  exists msg, v1_entry err = Some (field, with_message rule msg).
Proof.
  intros H. exists (message rule). rewrite same_message.
  unfold v1_entry. f_equal. revert H. unfold V1.and_then, bind.
  destruct (V1.check_required field form rule w) as [[[e1|]|e|] w1] eqn:H1;
    try discriminate.
  { intros [= <- _]. eapply v1_required_rejection, H1. }
  destruct (V1.check_type E field form rule w1) as [[[e2|]|e|] w2] eqn:H2;
    try discriminate.
  { intros [= <- _]. eapply v1_type_rejection, H2. }
  intros H3. eapply v1_pattern_rejection, H3.
Qed.

Lemma v1_catch_rejection rule e (w : world U) err w' :
  V1.catch_block field rule e w = (Ok (Some err), w') ->
  exists msg, v1_entry err = Some (field, with_message rule msg).
Proof.
  unfold V1.catch_block. cbv zeta. unfold bind.
  match goal with |- context [match ?m w with _ => _ end] =>
    destruct (m w) as [[errMsg|e'|] w1] end; try discriminate.
  intros [= <- _]. eauto.
Qed.

Lemma v1_try_rejection rule (w : world U) err w' :
  v1_try E form field rule w = (Ok (inr (Some err)), w') ->
  exists msg, v1_entry err = Some (field, with_message rule msg).
Proof.
  unfold v1_try, try_catch, bind.
  destruct (get_prop form field w) as [[v|e|] w1].
  - destruct (call E AtValidator (validator rule) ThisUndefined [v] w1)
      as [[res|e|] w2].
    + destruct res; try (destruct (negb (truthy _)); try discriminate;
                         intros [= <- _]; exists (message rule);
                         now rewrite same_message).
      discriminate.
    + destruct (V1.catch_block field rule e w2) as [[[err'|]|e'|] w3] eqn:Hc;
        try discriminate.
      intros [= <- _]. eapply v1_catch_rejection, Hc.
    + discriminate.
  - destruct (V1.catch_block field rule e w1) as [[[err'|]|e'|] w3] eqn:Hc;
      try discriminate.
    intros [= <- _]. eapply v1_catch_rejection, Hc.
  - discriminate.
Qed.

Lemma v1_await_rejection rule p (w : world U) err w' :
  try_catch (await p ;;; ret None) (V1.catch_block field rule) w
  = (Ok (Some err), w') ->
  exists msg, v1_entry err = Some (field, with_message rule msg).
Proof.
  unfold try_catch, bind.
  destruct (await p w) as [[x|e|] w1]; try discriminate.
  apply v1_catch_rejection.
Qed.

Lemma v1_rules_placed currentRules rules :
  forall passed (w : world U) t w',
    currentRules = passed ++ rules ->
    v1_rules E form field rules w = (Ok t, w') ->
    placed v1_position v1_entry field currentRules t
    /\ forall s, t = Waiting s -> (length (v1_later s) < length rules)%nat.
Proof.
  induction rules as [|rule later IH]; intros passed w t w' Hsplit.
  - intros [= <- <-]. split; [exact I | discriminate].
  - assert (Hnext : forall w0,
               v1_rules E form field later w0 = (Ok t, w') ->
               placed v1_position v1_entry field currentRules t
               /\ forall s, t = Waiting s ->
                            (length (v1_later s) < length (rule :: later))%nat).
    { intros w0 Hrun.
      destruct (IH (passed ++ [rule]) w0 t w') as [Hp Hs];
        [now rewrite <- app_assoc | exact Hrun |].
      split; [exact Hp|]. intros s Hw. specialize (Hs s Hw). cbn [length]. lia. }
    rewrite v1_rules_cons. unfold bind at 1.
    destruct (front rule w) as [[[err|]|e|] w1] eqn:Hfront; try discriminate.
    { intros [= <- <-]. split; [|discriminate].
      destruct (v1_front_rejection rule w err w1 Hfront) as [msg Hmsg].
      now exists passed, rule, later, msg. }
    destruct (truthy (validator rule)); [|apply Hnext].
    destruct (isFunction (validator rule)).
    + unfold bind at 1.
      destruct (v1_try E form field rule w1) as [[[p|[err|]]|e|] w2] eqn:Htry;
        try discriminate.
      * intros [= <- <-]. split.
        -- now exists passed.
        -- intros s [= <-]. cbn. lia.
      * intros [= <- <-]. split; [|discriminate].
        destruct (v1_try_rejection rule w1 err w2 Htry) as [msg Hmsg].
        now exists passed, rule, later, msg.
      * apply Hnext.
    + unfold bind at 1, warn, emit. apply Hnext.
Qed.

(** A turn of a task of 1.0.0: when the promise is fulfilled the loop goes
    on with the next rule; when it is rejected the [catch] block rejects
    with the rule the task stands at; a promise that never settles keeps
    the task for good. *)
Lemma v1_turn s (w : world U) :
  executor (v1_resume E form field s) w
  = match await (validRes s) w with
    | (Ok _, w') => executor (v1_rules E form field (v1_later s)) w'
    | (Raise e, w') =>
        match V1.catch_block field (v1_rule s) e w' with
        | (Ok (Some err), w2) => (Settled (Rejected err), w2)
        | (Ok None, w2) => executor (v1_rules E form field (v1_later s)) w2
        | (_, w2) => (Settled Pending, w2)
        end
    | (Suspended, w') => (Settled Pending, w')
    end.
Proof.
  unfold v1_resume. rewrite executor_bind. unfold try_catch, bind.
  destruct (await (validRes s) w) as [[x|e|] w1]; try reflexivity.
  destruct (V1.catch_block field (v1_rule s) e w1) as [[[err|]|e'|] w2];
    reflexivity.
Qed.

Lemma v1_resume_size s (w : world U) s' w' :
  executor (v1_resume E form field s) w = (Waiting s', w') ->
  (v1_size s' < v1_size s)%nat.
Proof.
  unfold executor, v1_resume, bind.
  destruct (try_catch _ _ w) as [[[err|]|e|] w1]; try discriminate.
  destruct (v1_rules E form field (v1_later s) w1) as [[t|e|] w2] eqn:Hrun;
    try discriminate.
  intros [= -> <-].
  destruct (v1_rules_placed (v1_later s) (v1_later s) [] w1 _ w2 eq_refl Hrun)
    as [_ Hs].
  exact (Hs s' eq_refl).
Qed.

Lemma v1_resume_stays currentRules s (w : world U) :
  placed v1_position v1_entry field currentRules (Waiting s) ->
  placed v1_position v1_entry field currentRules
         (executor (v1_resume E form field s) w).1.
Proof.
  intros [passed Hsplit]. cbn [v1_position fst snd] in Hsplit.
  unfold executor, v1_resume, bind.
  destruct (try_catch _ _ w) as [[[err|]|e|] w1] eqn:Hawait; try exact I.
  - destruct (v1_await_rejection _ _ _ _ _ Hawait) as [msg Hmsg].
    now exists passed, (v1_rule s), (v1_later s), msg.
  - destruct (v1_rules E form field (v1_later s) w1) as [[t|e|] w2] eqn:Hrun;
      try exact I.
    cbn [fst].
    apply (v1_rules_placed currentRules (v1_later s) (passed ++ [v1_rule s])
             w1 t w2); [now rewrite <- app_assoc | exact Hrun].
Qed.
End TurnsV1.

Section TurnsV1Field.
Import Js Config Run Statics Obs Outcome Turns.
Context {U : Type} (E : Env U) (V : V1.Validator) (form : value).
Local Open Scope run_scope.

(** A task of 1.0.0 that takes its turns in a row is [validateField]. *)
Lemma v1_alone field n (w : world U) :
  (forall rules, V1._rules V !! field = Some rules -> length rules <= n)%nat ->
  alone (v1_start E V form) (v1_resume E form) n field w
  = V1.validateField E V field form w.
Proof.
  intros Hn. unfold alone, v1_start, V1.validateField.
  destruct (negb (isObject form)); [reflexivity|].
  destruct (V1._rules V !! field) as [rules|] eqn:Hrules.
  - pose proof (v1_finish_rules E form field rules n w (Hn rules eq_refl))
      as Hrun.
    destruct (executor _ w) as [t w1]. apply finished_promise, Hrun.
  - destruct n; reflexivity.
Qed.

Lemma v1_start_stands field (w : world U) t w' :
  v1_start E V form field w = (Ok t, w') ->
  stands v1_position v1_entry (V1._rules V) field t.
Proof.
  unfold v1_start, stands. destruct (negb (isObject form)); [discriminate|].
  destruct (V1._rules V !! field) as [rules|]; [|now intros [= <- <-]].
  unfold executor.
  destruct (v1_rules E form field rules w) as [[t0|e|] w1] eqn:Hrun;
    intros [= <- <-]; try exact I.
  now apply (v1_rules_placed E form field rules rules [] w t0 w1).
Qed.

Lemma v1_resume_stands field s (w : world U) :
  stands v1_position v1_entry (V1._rules V) field (Waiting s) ->
  stands v1_position v1_entry (V1._rules V) field
         (executor (v1_resume E form field s) w).1.
Proof.
  unfold stands. destruct (V1._rules V !! field) as [rules|]; [|discriminate].
  apply v1_resume_stays.
Qed.

Lemma v1_start_returns field (w : world U) :
  isObject form = true ->
  exists t w', v1_start E V form field w = (Ok t, w').
Proof.
  intros Hobj. unfold v1_start. rewrite Hobj. cbn [negb].
  destruct (V1._rules V !! field) as [rules|]; [|now eexists _, _].
  destruct (executor _ w) as [t w']. now eexists _, _.
Qed.
End TurnsV1Field.

(** X16.  [validate] of validator-1.0.0.js reports every failing field.  On
    a form that passes the guard it starts one task per key of the rules,
    whatever the tasks before did; a task runs in one stretch up to the
    promise of a custom validator, where it waits its turn.  Whatever the
    order of the keys and of the turns: the promise of [validate] is
    resolved when every task resolved, stays pending while a task has not
    settled, and is otherwise rejected with a map that has exactly one
    entry per field whose task rejected, the rule that task rejected with;
    and from wherever the turns have led, more turns bring every task to its
    end.  At its turn a task goes on with the next rule when the promise it
    awaited is fulfilled, and rejects with the rule it stands at, under the
    message of the payload, when the promise is rejected.  A task that takes
    its turns in a row is [validateField], which rejects with the first rule
    of the field that fails. *)
Theorem v1_validate_reports_every_failing_field :
  forall (U : Type) (E : Run.Env U) (V : V1.Validator) (form : Js.value),
    Statics.isObject form = true ->
    (forall (order : list string) (w : Run.world U),
        Turns.lists_keys order (V1._rules V) ->
        Turns.gathers (Turns.v1_start E V form) (Turns.v1_resume E form)
          (Turns.v1_validate E V form) Outcome.v1_entry
          (Turns.stands Turns.v1_position Outcome.v1_entry (V1._rules V))
          order w)
    /\ (forall (field : string) (s : Turns.v1_stage) (w : Run.world U),
          Turns.executor (Turns.v1_resume E form field s) w
          = match Run.await (Turns.validRes s) w with
            | (Run.Ok _, w') =>
                Turns.executor (Turns.v1_rules E form field (Turns.v1_later s)) w'
            | (Run.Raise e, w') =>
                match V1.catch_block field (Turns.v1_rule s) e w' with
                | (Run.Ok (Some err), w2) =>
                    (Turns.Settled (Config.Rejected err), w2)
                | (Run.Ok None, w2) =>
                    Turns.executor
                      (Turns.v1_rules E form field (Turns.v1_later s)) w2
                | (_, w2) => (Turns.Settled Config.Pending, w2)
                end
            | (Run.Suspended, w') => (Turns.Settled Config.Pending, w')
            end)
    /\ (forall (field : string) (n : nat) (w : Run.world U),
          (forall rules, V1._rules V !! field = Some rules ->
                         length rules <= n)%nat ->
          Turns.alone (Turns.v1_start E V form) (Turns.v1_resume E form) n field w
          = V1.validateField E V field form w)
    /\ (forall field w err w',
          V1.validateField E V field form w
            = (Config.Returned (Config.Rejected err), w') ->
          Outcome.v1_first_failure E V field form w err w').
Proof.
  intros U E V form Hobj. repeat apply conj.
  - intros order w [Hnd _].
    apply (validate_gathers _ _ form V1.errorsMap Outcome.v1_entry _
             Turns.v1_size); try assumption.
    + intros field w0. now apply v1_start_returns.
    + apply v1_start_stands.
    + apply v1_resume_stands.
    + intros field err. unfold Turns.stands.
      destruct (V1._rules V !! field) as [rules|]; [|discriminate].
      intros (passed & rule & later & msg & _ & Hentry). eauto.
    + apply v1_errorsMap_entries.
    + intros field s w0 s' w'. apply v1_resume_size.
  - intros field s w. apply v1_turn.
  - intros field n w. apply v1_alone.
  - intros field w err w'. apply v1_task_rejection.
Qed.

(** Two required fields, both empty, the keys in the order of the map. *)
Lemma v1_validate_reports_every_failing_field_witness :
  Statics.isObject (Sample.form_of (Js.VStr "")) = true
  /\ Turns.gathers
       (Turns.v1_start Sample.env
          (V1.mkValidator
             (TS._rules (Sample.ts_two Sample.required_rule Sample.text_rule)))
          (Sample.form_of (Js.VStr "")))
       (Turns.v1_resume Sample.env (Sample.form_of (Js.VStr "")))
       (Turns.v1_validate Sample.env
          (V1.mkValidator
             (TS._rules (Sample.ts_two Sample.required_rule Sample.text_rule)))
          (Sample.form_of (Js.VStr "")))
       Outcome.v1_entry
       (Turns.stands Turns.v1_position Outcome.v1_entry
          (TS._rules (Sample.ts_two Sample.required_rule Sample.text_rule)))
       (Aggregate.keys
          (TS._rules (Sample.ts_two Sample.required_rule Sample.text_rule)))
       Sample.start.
Proof.
  split; [reflexivity|].
  apply (proj1 (v1_validate_reports_every_failing_field nat Sample.env
                  (V1.mkValidator
                     (TS._rules (Sample.ts_two Sample.required_rule
                                   Sample.text_rule)))
                  (Sample.form_of (Js.VStr "")) eq_refl)).
  split; [apply keys_NoDup | intros field; apply keys_spec].
Defined.

(** With [() => ++n === 2 ? Promise.reject("late") : Promise.resolve()]
    under [a: [a1, a2]] and [b: b1], the task of [a] waits at the promise of
    [a1] when the task of [b] is started: the second call is that of [b1],
    and [validate] reports [b] whatever the turns, where [validateField]
    on [a] alone stops at [a2]. *)
Lemma v1_tasks_wait_at_a_promise :
  let v1 := Turns.v1_validate Shared.env Shared.v1_waiting Shared.form ["a"; "b"] in
  (forall schedule,
      In schedule [Shared.in_turn 3; Shared.one_by_one 3; [1; 0; 0; 1]]%nat ->
      Report.entry_of (v1 schedule Shared.start) "a" = None
      /\ Report.entry_of (v1 schedule Shared.start) "b"
         = Some (Config.with_message (Shared.awaiting "b1") (Js.VStr "late")))
  /\ fst (V1.validateField Shared.env Shared.v1_waiting "a" Shared.form
            Shared.start)
     = Config.Returned
         (Config.Rejected
            ("a", Config.with_message (Shared.awaiting "a2") (Js.VStr "late"))).
Proof.
  split.
  - intros schedule [<- | [<- | [<- | []]]]; split; vm_compute; reflexivity.
  - vm_compute. reflexivity.
Qed.

(** ** The constructors *)

Section Constructors.
Import Js Config Run Statics Untyped.

Lemma foldl_insert_lookup {A} (f : string -> A) (keys : list string)
    (acc : gmap string A) (field : string) :
  foldl (fun acc k => <[k := f k]> acc) acc keys !! field
  = if bool_decide (field ∈ keys) then Some (f field) else acc !! field.
Proof.
  revert acc. induction keys as [|k keys IH]; intros acc; [reflexivity|].
  cbn [foldl]. rewrite IH.
  destruct (decide (field ∈ keys)) as [Hin|Hnin].
  - rewrite !bool_decide_eq_true_2; [reflexivity | now right | exact Hin].
  - rewrite (bool_decide_eq_false_2 _ Hnin).
    destruct (decide (field = k)) as [->|Hne].
    + rewrite bool_decide_eq_true_2 by now left. apply lookup_insert_eq.
    + rewrite bool_decide_eq_false_2.
      * now apply lookup_insert_ne.
      * intros Hin. apply elem_of_cons in Hin as [?|?]; contradiction.
Qed.

Lemma collect_lookup props field :
  collect props !! field
  = if bool_decide (field ∈ props.*1)
    then Some (normalize (lookup_prop field props))
    else None.
Proof. unfold collect. now rewrite foldl_insert_lookup, lookup_empty. Qed.

Lemma fill_ok rules :
  isObject rules = true ->
  (exists filled, fill rules = Ok filled) <-> rules <> VNull.
Proof.
  destruct rules; try discriminate; intros _; cbn [fill];
    (split; [intros [filled H]; congruence | intros H; try congruence; eauto]).
Qed.

Lemma ts_constructor_accepts config :
  (exists inst, ts_constructor config = Ok inst) <-> ts_accepts config.
Proof.
  unfold ts_constructor, ts_accepts. split.
  - intros [inst H].
    destruct (isObject config) eqn:Hobj; cbn [negb] in H; [|discriminate].
    destruct config as [| |b|n|s|a l|a props|f|r|a d|a st]; try discriminate;
      cbn [prop] in H; try discriminate.
    exists a, props. split; [reflexivity|].
    destruct (isObject (lookup_prop "rules" props)) eqn:Hrules; cbn [negb] in H;
      [|discriminate].
    destruct (truthy (lookup_prop "transform" props)) eqn:Htr; cbn [andb] in H.
    + destruct (isObject (lookup_prop "transform" props)) eqn:Hto; cbn [negb] in H;
        [|discriminate].
      destruct (truthy (lookup_prop "messageHook" props)) eqn:Hmh; cbn [andb] in H.
      * destruct (isFunction (lookup_prop "messageHook" props)) eqn:Hfn;
          cbn [negb] in H; [|discriminate].
        repeat split; auto. intros Hnull. rewrite Hnull in H. discriminate.
      * repeat split; auto; try discriminate.
        intros Hnull. rewrite Hnull in H. discriminate.
    + destruct (truthy (lookup_prop "messageHook" props)) eqn:Hmh; cbn [andb] in H.
      * destruct (isFunction (lookup_prop "messageHook" props)) eqn:Hfn;
          cbn [negb] in H; [|discriminate].
        repeat split; auto; try discriminate.
        intros Hnull. rewrite Hnull in H. discriminate.
      * repeat split; auto; try discriminate.
        intros Hnull. rewrite Hnull in H. discriminate.
  - intros (a & props & -> & Hrules & Hnull & Htr & Hmh).
    cbn [isObject typeof String.eqb Ascii.eqb Bool.eqb isArray negb andb prop].
    rewrite Hrules. cbn [negb].
    destruct (truthy (lookup_prop "transform" props)); cbn [andb];
      [rewrite (Htr eq_refl); cbn [negb]|];
      (destruct (truthy (lookup_prop "messageHook" props)); cbn [andb];
       [rewrite (Hmh eq_refl); cbn [negb]|]);
      destruct (proj2 (fill_ok _ Hrules) Hnull) as [filled ->]; eauto.
Qed.

Lemma v2_constructor_accepts config :
  (exists inst, v2_constructor config = Ok inst) <-> v2_accepts config.
Proof.
  unfold v2_constructor, v2_accepts. split.
  - intros [inst H].
    destruct (isObject config) eqn:Hobj; [|cbn [negb] in H; discriminate].
    destruct config as [| |b|n|s|a l|a props|f|r|a d|a st]; try discriminate;
      cbn [prop] in H; try discriminate.
    exists a, props. split; [reflexivity|].
    destruct (truthy (lookup_prop "transform" props)) eqn:Htr; cbn [andb] in H.
    + destruct (isObject (lookup_prop "transform" props)) eqn:Hto; cbn [negb] in H;
        [|discriminate].
      destruct (isObject (lookup_prop "rules" props)) eqn:Hrules; cbn [negb] in H;
        [|discriminate].
      repeat split; auto. intros Hnull. rewrite Hnull in H. discriminate.
    + destruct (isObject (lookup_prop "rules" props)) eqn:Hrules; cbn [negb] in H;
        [|discriminate].
      repeat split; auto; try discriminate.
      intros Hnull. rewrite Hnull in H. discriminate.
  - intros (a & props & -> & Hrules & Hnull & Htr).
    cbn [isObject typeof String.eqb Ascii.eqb Bool.eqb isArray negb andb prop].
    destruct (truthy (lookup_prop "transform" props)); cbn [andb];
      [rewrite (Htr eq_refl); cbn [negb]|];
      rewrite Hrules; cbn [negb];
      destruct (proj2 (fill_ok _ Hrules) Hnull) as [filled ->]; eauto.
Qed.

Lemma v1_constructor_accepts rules :
  (exists inst, v1_constructor rules = Ok inst)
  <-> isObject rules = true /\ rules <> VNull.
Proof.
  unfold v1_constructor. split.
  - intros [inst H]. destruct (isObject rules) eqn:Hobj; cbn [negb] in H;
      [|discriminate].
    split; [reflexivity|]. intros ->. discriminate.
  - intros [Hobj Hnull]. rewrite Hobj. cbn [negb].
    destruct (proj2 (fill_ok _ Hobj) Hnull) as [filled ->]. eauto.
Qed.
End Constructors.

(** X17.  What the three constructors accept.  The constructor of
    validator-ts.ts returns an instance exactly when [config] is a plain
    object whose [rules] is an object other than [null] and not an array,
    whose [transform] is falsy or an object, and whose [messageHook] is falsy
    or a function; on everything else it throws.  The constructor of
    validator-2.0.0.js accepts the same configurations (it has no
    [messageHook]): its first line, [rules = config], never lets a bare
    object of rules through, so the call of 1.0.0, [new Validator(rules)],
    throws there unless [rules] has a key "rules" that holds an object.  The
    constructor of 1.0.0 accepts every object that is not an array and not
    [null]. *)
Theorem what_the_constructors_accept :
  (forall config,
      (exists inst, Untyped.ts_constructor config = Run.Ok inst)
      <-> Untyped.ts_accepts config)
  /\ (forall config,
        (exists inst, Untyped.v2_constructor config = Run.Ok inst)
        <-> Untyped.v2_accepts config)
  /\ (forall rules,
        (exists inst, Untyped.v1_constructor rules = Run.Ok inst)
        <-> Statics.isObject rules = true /\ rules <> Js.VNull).
Proof.
  split; [exact ts_constructor_accepts|].
  split; [exact v2_constructor_accepts | exact v1_constructor_accepts].
Qed.

Section Normalize.
Import Js Config Run Statics Untyped.

Lemma fill_listed rules filled field :
  fill rules = Ok filled -> filled !! field = listed rules field.
Proof.
  destruct rules; try discriminate; cbn [fill listed]; intros [= <-];
    try apply lookup_empty.
  apply collect_lookup.
Qed.

Lemma ts_constructor_fields config inst :
  ts_constructor config = Ok inst ->
  (forall field, _rules inst !! field = listed (prop config "rules") field)
  /\ _transform inst = prop config "transform"
  /\ _messageHook inst = prop config "messageHook".
Proof.
  unfold ts_constructor. destruct (negb (isObject config)); [discriminate|].
  destruct config; try discriminate; cbv zeta;
    (destruct (negb (isObject _)); [discriminate|]);
    (destruct (_ && _); [discriminate|]); (destruct (_ && _); [discriminate|]);
    (destruct (fill _) as [filled|e|] eqn:Hfill; try discriminate);
    intros [= <-]; cbn [_rules _transform _messageHook];
    (split; [intros field; now apply fill_listed | now split]).
Qed.

Lemma v2_constructor_fields config inst :
  v2_constructor config = Ok inst ->
  (forall field, _rules inst !! field = listed (prop config "rules") field)
  /\ _transform inst = prop config "transform".
Proof.
  unfold v2_constructor. cbv zeta. destruct (isObject config) eqn:Hobj.
  - destruct config; try discriminate;
      (destruct (_ && _); [discriminate|]);
      (destruct (negb (isObject _)); [discriminate|]);
      (destruct (fill _) as [filled|e|] eqn:Hfill; try discriminate);
      intros [= <-]; cbn [_rules _transform];
      (split; [intros field; now apply fill_listed | reflexivity]).
  - discriminate.
Qed.

Lemma v1_constructor_fields rules inst :
  v1_constructor rules = Ok inst ->
  forall field, _rules inst !! field = listed rules field.
Proof.
  unfold v1_constructor. destruct (negb (isObject rules)); [discriminate|].
  destruct (fill rules) as [filled|e|] eqn:Hfill; try discriminate.
  intros [= <-] field. now apply fill_listed.
Qed.
End Normalize.



(** ** The matcher *)

Section Matcher.
Import Js Pattern.

Lemma sapp_nil_l (s : string) : "" +:+ s = s.
Proof. reflexivity. Qed.

Lemma in_eats p (st st' : state) :
  In st' (eats p st) <->
  exists c r, st.2 = String c r /\ p (code c) = true /\ st' = (false, r).
Proof.
  unfold eats. destruct st as [f [|c r]]; cbn [snd].
  - split; [intros [] | intros (c & r & H & _); discriminate].
  - destruct (p (code c)) eqn:Hp; cbn [In]; split.
    + intros [<-|[]]. now exists c, r.
    + intros (c' & r' & [= <- <-] & _ & ->). now left.
    + intros [].
    + intros (c' & r' & [= <- <-] & Hp' & _). congruence.
Qed.

Lemma exactly_ext step step' n st :
  (forall x, step x = step' x) -> exactly step n st = exactly step' n st.
Proof.
  intros H. revert st. induction n as [|n IH]; intros st; [reflexivity|].
  cbn [exactly]. rewrite H. apply flat_map_ext. exact IH.
Qed.

Lemma upto_ext step step' n st :
  (forall x, step x = step' x) -> upto step n st = upto step' n st.
Proof.
  intros H. revert st. induction n as [|n IH]; intros st; [reflexivity|].
  cbn [upto]. f_equal. rewrite H. apply flat_map_ext. intros m.
  now rewrite IH.
Qed.

Lemma in_exactly step n (st st' : state) :
  In st' (exactly step (S n) st) <->
  exists m, In m (step st) /\ In st' (exactly step n m).
Proof. cbn [exactly]. apply in_flat_map. Qed.

Lemma in_upto step n (st st' : state) :
  In st' (upto step n st) <->
  st' = st
  \/ exists k m, n = S k /\ In m (step st) /\ shorter m st = true
                 /\ In st' (upto step k m).
Proof.
  destruct n as [|k]; cbn [upto In].
  - split; [intros [<-|[]]; now left | intros [->|(k & m & H & _)]; [now left|]].
    discriminate.
  - rewrite in_flat_map. split.
    + intros [<-|(m & Hm & Hin)]; [now left|]. right.
      destruct (shorter m st) eqn:Hs; [|destruct Hin]. now exists k, m.
    + intros [->|(k' & m & [= <-] & Hm & Hs & Hin)]; [now left|]. right.
      exists m. split; [exact Hm|]. now rewrite Hs.
Qed.

(** Repetitions of one character. *)
Lemma in_exactly_eats p n (st st' : state) :
  In st' (exactly (eats p) n st) <->
  exists w, String.length w = n /\ every p w = true
            /\ st.2 = w +:+ st'.2 /\ st'.1 = st.1 && at_start w.
Proof.
  revert st. induction n as [|n IH]; intros st.
  - cbn [exactly In]. split.
    + intros [<-|[]]. exists "". repeat split. now rewrite andb_true_r.
    + intros (w & Hlen & _ & Hs & Hf). destruct w; [|discriminate]. left.
      rewrite sapp_nil_l in Hs. cbn in Hf. destruct st, st'; cbn in *.
      rewrite andb_true_r in Hf. congruence.
  - rewrite in_exactly. split.
    + intros (m & Hm & Hin). apply in_eats in Hm as (c & r & Hst & Hp & ->).
      apply IH in Hin as (w & Hlen & Hw & Hs & Hf). cbn [fst snd] in *.
      exists (String c w). cbn [String.length every at_start].
      rewrite Hp, Hw, sapp_cons, <- Hs, Hst, Hf, andb_false_r. now subst n.
    + intros (w & Hlen & Hw & Hs & Hf). destruct w as [|c w]; [discriminate|].
      cbn [every] in Hw. apply andb_true_iff in Hw as [Hp Hw].
      rewrite sapp_cons in Hs. exists (false, w +:+ st'.2). split.
      * apply in_eats. now exists c, (w +:+ st'.2).
      * apply IH. exists w. cbn [fst snd String.length at_start] in *.
        rewrite andb_false_r in Hf. repeat split; auto; now injection Hlen.
Qed.

Lemma in_upto_eats p n (st st' : state) :
  In st' (upto (eats p) n st) <->
  exists w, (String.length w <= n)%nat /\ every p w = true
            /\ st.2 = w +:+ st'.2 /\ st'.1 = st.1 && at_start w.
Proof.
  revert st. induction n as [|n IH]; intros st; rewrite in_upto.
  - split.
    + intros [->|(k & m & H & _)]; [|discriminate]. exists "".
      repeat split; [cbn; lia | now rewrite andb_true_r].
    + intros (w & Hlen & _ & Hs & Hf). destruct w; [|cbn in Hlen; lia]. left.
      rewrite sapp_nil_l in Hs. cbn in Hf. destruct st, st'; cbn in *.
      rewrite andb_true_r in Hf. congruence.
  - split.
    + intros [->|(k & m & [= <-] & Hm & _ & Hin)].
      * exists "". repeat split; [cbn; lia | now rewrite andb_true_r].
      * apply in_eats in Hm as (c & r & Hst & Hp & ->).
        apply IH in Hin as (w & Hlen & Hw & Hs & Hf). cbn [fst snd] in *.
        exists (String c w). cbn [String.length every at_start].
        rewrite Hp, Hw, sapp_cons, <- Hs, Hst, Hf, andb_false_r.
        repeat split. lia.
    + intros (w & Hlen & Hw & Hs & Hf). destruct w as [|c w].
      * left. rewrite sapp_nil_l in Hs. cbn in Hf. destruct st, st'; cbn in *.
        rewrite andb_true_r in Hf. congruence.
      * right. cbn [every] in Hw. apply andb_true_iff in Hw as [Hp Hw].
        rewrite sapp_cons in Hs. exists n, (false, w +:+ st'.2).
        split; [reflexivity|]. split; [|split].
        -- apply in_eats. now exists c, (w +:+ st'.2).
        -- unfold shorter. cbn [snd]. rewrite Hs. cbn [String.length].
           apply Nat.ltb_lt. lia.
        -- apply IH. exists w. cbn [fst snd String.length at_start] in *.
           rewrite andb_false_r in Hf. repeat split; auto. lia.
Qed.

(** [a{min,max}] and [a{min,}] for an [a] that matches one character. *)
Lemma in_rep_eats a p min max (st st' : state) :
  (forall x, run a x = eats p x) ->
  (forall k, max = Some k -> (min <= k)%nat) ->
  In st' (run (Rep a min max) st) <->
  exists w, (min <= String.length w)%nat
            /\ (forall k, max = Some k -> (String.length w <= k)%nat)
            /\ every p w = true
            /\ st.2 = w +:+ st'.2 /\ st'.1 = st.1 && at_start w.
Proof.
  intros Ha Hmax. cbn [run]. rewrite in_flat_map. split.
  - intros (m & Hm & Hin).
    rewrite (exactly_ext _ _ _ _ Ha) in Hm.
    apply in_exactly_eats in Hm as (w1 & Hl1 & Hw1 & Hs1 & Hf1).
    rewrite (upto_ext _ _ _ _ Ha) in Hin.
    apply in_upto_eats in Hin as (w2 & Hl2 & Hw2 & Hs2 & Hf2).
    exists (w1 +:+ w2). rewrite slength_app. repeat split.
    + lia.
    + intros k Hk. rewrite Hk in Hl2. specialize (Hmax k Hk). lia.
    + clear -Hw1 Hw2. induction w1 as [|c w1 IH]; [exact Hw2|].
      rewrite sapp_cons. cbn [every] in *.
      apply andb_true_iff in Hw1 as [-> Hw1]. now apply IH.
    + now rewrite sapp_assoc, <- Hs2.
    + rewrite Hf2, Hf1, <- andb_assoc. f_equal. now destruct w1.
  - intros (w & Hmin & Hk & Hw & Hs & Hf).
    set (w1 := take_str min w). set (w2 := drop_str min w).
    assert (Hsplit : w = w1 +:+ w2 /\ String.length w1 = min).
    { subst w1 w2. clear -Hmin. revert w Hmin.
      induction min as [|n IH]; intros w Hmin; [now split|].
      destruct w as [|c w]; [cbn in Hmin; lia|]. cbn [take_str drop_str].
      cbn [String.length] in Hmin. destruct (IH w) as [H1 H2]; [lia|].
      rewrite sapp_cons, <- H1. cbn [String.length]. now rewrite H2. }
    destruct Hsplit as [Hw12 Hl1].
    assert (Hevery : every p w1 = true /\ every p w2 = true).
    { rewrite Hw12 in Hw. clear -Hw. induction w1 as [|c w1 IH]; [now split|].
      rewrite sapp_cons in Hw. cbn [every] in *.
      apply andb_true_iff in Hw as [-> Hw]. now apply IH. }
    destruct Hevery as [He1 He2].
    exists (st.1 && at_start w1, w2 +:+ st'.2). split.
    + rewrite (exactly_ext _ _ _ _ Ha). apply in_exactly_eats.
      exists w1. cbn [fst snd]. repeat split; auto.
      now rewrite Hs, Hw12, sapp_assoc.
    + cbn [snd]. rewrite (upto_ext _ _ _ _ Ha). apply in_upto_eats.
      exists w2. cbn [fst snd]. repeat split; auto.
      * destruct max as [k|].
        -- specialize (Hk k eq_refl). rewrite Hw12, slength_app in Hk. lia.
        -- rewrite slength_app. lia.
      * rewrite Hf, Hw12, <- andb_assoc. f_equal. now destruct w1.
Qed.
End Matcher.

Section MatcherRules.
Import Js Pattern Digits.

Lemma found_spec r st : found r st = true <-> exists st', In st' (run r st).
Proof.
  unfold found. destruct (run r st) as [|m l]; split.
  - discriminate.
  - intros (st' & []).
  - intros _. exists m. now left.
  - reflexivity.
Qed.

Lemma in_tails s t :
  In t (tails s) <-> exists c pre, s = String c pre +:+ t.
Proof.
  induction s as [|x s IH]; cbn [tails In].
  - split; [intros [] | intros (c & pre & H); discriminate].
  - rewrite IH. split.
    + intros [<-|(c & pre & ->)].
      * now exists x, "".
      * now exists x, (String c pre).
    + intros (c & pre & H). rewrite sapp_cons in H. injection H as <- ->.
      destruct pre as [|c' pre]; [now left|]. right. now exists c', pre.
Qed.

(** [test] tries the pattern after every prefix of the string. *)
Lemma test_spec r s :
  test r s = true <->
  exists pre t st', s = pre +:+ t /\ In st' (run r (at_start pre, t)).
Proof.
  unfold test. rewrite orb_true_iff, existsb_exists, found_spec. split.
  - intros [(st' & H)|(t & Ht & H)].
    + now exists "", s, st'.
    + apply in_tails in Ht as (c & pre & ->).
      apply found_spec in H as (st' & H). now exists (String c pre), t, st'.
  - intros (pre & t & st' & -> & H). destruct pre as [|c pre].
    + left. now exists st'.
    + right. exists t. split; [apply in_tails; now exists c, pre|].
      apply found_spec. now exists st'.
Qed.

Lemma in_cat a b st st' :
  In st' (run (Cat a b) st) <-> exists m, In m (run a st) /\ In st' (run b m).
Proof. cbn [run]. apply in_flat_map. Qed.

Lemma in_alt a b st st' :
  In st' (run (Alt a b) st) <-> In st' (run a st) \/ In st' (run b st).
Proof. cbn [run]. apply in_app_iff. Qed.

Lemma in_bol st st' : In st' (run Bol st) <-> st.1 = true /\ st' = st.
Proof.
  cbn [run]. destruct st.1; cbn [In]; split; try tauto.
  - intros [<-|[]]. now split.
  - intros [_ ->]. now left.
  - intros [H _]. discriminate.
Qed.

Lemma in_eol st st' : In st' (run Eol st) <-> st.2 = "" /\ st' = st.
Proof.
  cbn [run]. destruct st.2; cbn [In]; split; try tauto.
  - intros [<-|[]]. now split.
  - intros [_ ->]. now left.
  - intros [H _]. discriminate.
Qed.

Lemma in_chr c st st' :
  In st' (run (Chr c) st) <-> st.2 = String c st'.2 /\ st'.1 = false.
Proof.
  cbn [run]. rewrite in_eats. split.
  - intros (x & r & Hst & Hx & ->). apply N.eqb_eq in Hx.
    unfold code in Hx. apply (f_equal ascii_of_N) in Hx.
    rewrite !ascii_N_embedding in Hx. subst x. now split.
  - intros [Hst Hf]. exists c, st'.2. rewrite N.eqb_refl. repeat split; auto.
    destruct st'; cbn in *. now subst.
Qed.

Lemma in_not_ahead a st st' :
  In st' (run (NotAhead a) st) <-> run a st = [] /\ st' = st.
Proof.
  cbn [run]. destruct (run a st); cbn [In]; split.
  - intros [<-|[]]. now split.
  - intros [_ ->]. now left.
  - intros [].
  - intros [H _]. discriminate.
Qed.

(** A pattern that starts with [^] matches at index 0 only. *)
Lemma test_anchored r s :
  test (Cat Bol r) s = true <-> exists st', In st' (run r (true, s)).
Proof.
  rewrite test_spec. split.
  - intros (pre & t & st' & -> & H). apply in_cat in H as (m & Hm & H).
    apply in_bol in Hm as [Hf ->]. cbn [fst] in Hf.
    destruct pre; [|discriminate]. now exists st'.
  - intros (st' & H). exists "", s, st'. split; [reflexivity|].
    apply in_cat. exists (true, s). split; [now apply in_bol | exact H].
Qed.

Lemma is_digit_code c :
  is_digit (code c) = match digit_of c with Some _ => true | None => false end.
Proof. destruct c as [[] [] [] [] [] [] [] []]; reflexivity. Qed.

Lemma every_digit s : every is_digit s = all_digits s.
Proof.
  induction s as [|c s IH]; [reflexivity|]. cbn [every all_digits].
  rewrite is_digit_code, IH. now destruct (digit_of c).
Qed.

(** [\d{min,max}] *)
Lemma in_digits min max (st st' : state) :
  (forall k, max = Some k -> (min <= k)%nat) ->
  In st' (run (Rep d min max) st) <->
  exists w, (min <= String.length w)%nat
            /\ (forall k, max = Some k -> (String.length w <= k)%nat)
            /\ all_digits w = true
            /\ st.2 = w +:+ st'.2 /\ st'.1 = st.1 && at_start w.
Proof.
  intros Hmax. rewrite (in_rep_eats d is_digit); [|reflexivity|exact Hmax].
  now setoid_rewrite every_digit.
Qed.

(** [\d{n}] *)
Lemma in_times_d n (st st' : state) :
  In st' (run (Times n d) st) <->
  exists w, String.length w = n /\ all_digits w = true
            /\ st.2 = w +:+ st'.2 /\ st'.1 = st.1 && at_start w.
Proof.
  unfold Times. rewrite in_digits by (intros k [= <-]; lia). split.
  - intros (w & H1 & H2 & H). exists w. specialize (H2 n eq_refl).
    split; [lia | exact H].
  - intros (w & H1 & H). exists w. split; [lia|]. split; [|exact H].
    intros k [= <-]. lia.
Qed.
End MatcherRules.

(** ** The identity card number *)

Section IdCard.
Import Js Pattern Digits.

Lemma test_alt a b s :
  test (Alt a b) s = true <-> test a s = true \/ test b s = true.
Proof.
  rewrite !test_spec. split.
  - intros (pre & t & st' & Hs & H). apply in_alt in H as [H|H];
      [left | right]; now exists pre, t, st'.
  - intros [(pre & t & st' & Hs & H)|(pre & t & st' & Hs & H)];
      exists pre, t, st'; (split; [exact Hs|]); apply in_alt; auto.
Qed.

Lemma tested_true pattern v s :
  ToString v = Some s ->
  tested pattern v = Some true <-> test pattern s = true.
Proof.
  intros Hs. unfold tested. rewrite Hs. cbn. split; congruence.
Qed.

Lemma in_digit (st st' : state) :
  In st' (run d st) <->
  exists c, st.2 = String c st'.2 /\ all_digits (String c "") = true
            /\ st'.1 = false.
Proof.
  unfold d. cbn [run]. rewrite in_eats. cbn [escape_has all_digits]. split.
  - intros (c & r & Hst & Hc & ->). exists c. rewrite is_digit_code in Hc.
    destruct (digit_of c); [now repeat split | discriminate].
  - intros (c & Hst & Hc & Hf). exists c, st'.2. rewrite is_digit_code.
    destruct (digit_of c); [|discriminate]. repeat split; auto.
    destruct st'; cbn in *. now subst.
Qed.

(** [^\d{n}$] *)
Lemma digits_to_the_end n s :
  test (seq Bol [Times n d; Eol]) s = true <->
  String.length s = n /\ all_digits s = true.
Proof.
  cbn [seq]. rewrite test_anchored. split.
  - intros (st' & H). apply in_cat in H as (m & Hm & H).
    apply in_times_d in Hm as (w & Hlen & Hw & Hs & _).
    apply in_eol in H as [Hend _]. cbn [snd] in Hs.
    rewrite Hend, sapp_nil_r in Hs. now subst.
  - intros [Hlen Hw]. exists (at_start s, ""). apply in_cat.
    exists (at_start s, ""). split; [|now apply in_eol].
    apply in_times_d. exists s. cbn [fst snd]. now rewrite sapp_nil_r.
Qed.

Lemma idCard_spec s :
  test idCard s = true <->
  (all_digits s = true /\ (String.length s = 15 \/ String.length s = 18)%nat)
  \/ exists t c,
       s = t +:+ String c "" /\ String.length t = 17%nat
       /\ all_digits t = true /\ (c = "X" \/ c = "x")%char.
Proof.
  unfold idCard. rewrite !test_alt, !digits_to_the_end.
  cbn [seq]. rewrite test_anchored. split.
  - intros [[H1 H2]|[[H1 H2]|(st' & H)]]; [left; auto | left; auto |].
    apply in_cat in H as (m & Hm & H).
    apply in_times_d in Hm as (t & Hlen & Ht & Hs & _).
    apply in_cat in H as (m' & Hm' & H). apply in_eol in H as [Hend _].
    cbn [snd] in Hs.
    apply in_alt in Hm' as [Hm'|Hm'].
    + left. apply in_digit in Hm' as (c & Hc & Hd & _).
      rewrite Hc, Hend in Hs. subst s.
      rewrite all_digits_app, Ht, Hd, slength_app, Hlen. split; [reflexivity|].
      now right.
    + right.
      assert (Hc : exists c, m.2 = String c m'.2 /\ (c = "X" \/ c = "x")%char).
      { apply in_alt in Hm' as [Hm'|Hm']; apply in_chr in Hm' as [Hc _]; eauto. }
      destruct Hc as (c & Hc & Hx). exists t, c. rewrite Hs, Hc, Hend. auto.
  - intros [[Hd [Hlen|Hlen]]|(t & c & -> & Hlen & Ht & Hx)]; auto.
    right. right. exists (false, ""). apply in_cat.
    exists (at_start t, String c ""). split.
    + apply in_times_d. exists t. cbn [fst snd]. auto.
    + apply in_cat. exists (false, ""). split; [|now apply in_eol].
      apply in_alt. right. apply in_alt.
      destruct Hx as [-> | ->]; [left | right]; now apply in_chr.
Qed.
End IdCard.

(** X19.  [isIdCard] looks at the shape only.  On a value whose string is
    [s] it holds exactly when [s] is 15 digits, or 18 digits, or 17 digits
    and then ["X"] or ["x"]; no digit is checked against another.  The
    value is converted first, so the number 123456789012345 passes as its
    digits do. *)
Theorem isIdCard_holds_of_15_or_18_characters :
  forall (v : Js.value) (s : string),
    Pattern.ToString v = Some s ->
    Pattern.isIdCard v = Some true <->
    (Digits.all_digits s = true
     /\ (String.length s = 15 \/ String.length s = 18)%nat)
    \/ exists t c,
         s = t +:+ String c "" /\ String.length t = 17%nat
         /\ Digits.all_digits t = true /\ (c = "X" \/ c = "x")%char.
Proof.
  intros v s Hs. unfold Pattern.isIdCard. rewrite (tested_true _ v s Hs).
  apply idCard_spec.
Qed.

Lemma isIdCard_holds_of_15_or_18_characters_witness :
  Pattern.isIdCard (Js.VNum (Js.Finite false 123456789012345 0)) = Some true.
Proof.
  apply (isIdCard_holds_of_15_or_18_characters
           (Js.VNum (Js.Finite false 123456789012345 0)) "123456789012345").
  - vm_compute. reflexivity.
  - left. split; [reflexivity | now left].
Defined.

(** ** The mobile phone number *)

Section Phone.
Import Js Pattern Digits.

Lemma in_among items (st st' : state) :
  In st' (run (Among items) st) <->
  exists c, st.2 = String c st'.2
            /\ existsb (item_has (code c)) items = true /\ st'.1 = false.
Proof.
  cbn [run]. rewrite in_eats. split.
  - intros (c & r & Hst & Hc & ->). now exists c.
  - intros (c & Hst & Hc & Hf). exists c, st'.2. repeat split; auto.
    destruct st'; cbn in *. now subst.
Qed.

Lemma all_digits_digit s : all_digits s = every is_digit s.
Proof. symmetry. apply every_digit. Qed.

(** The third character of each of the four prefixes. *)
Lemma after_13 b :
  existsb (item_has (code b)) [span "0" "9"] = digit b.
Proof. destruct b as [[] [] [] [] [] [] [] []]; reflexivity. Qed.

Lemma after_14 b :
  existsb (item_has (code b)) [Just "5"; Just "|"; Just "7"]%char
  = (Ascii.eqb b "5" || Ascii.eqb b "7" || Ascii.eqb b "|")%char.
Proof. destruct b as [[] [] [] [] [] [] [] []]; reflexivity. Qed.

Lemma after_15 b :
  existsb (item_has (code b))
    [Just "0"; Just "|"; Just "1"; Just "|"; Just "2"; Just "|"; Just "3";
     Just "|"; Just "4"; Just "|"; Just "5"; Just "|"; Just "6"; Just "|";
     Just "7"; Just "|"; Just "8"; Just "|"; Just "9"]%char
  = (digit b || Ascii.eqb b "|")%char.
Proof. destruct b as [[] [] [] [] [] [] [] []]; reflexivity. Qed.

Lemma after_18 b :
  existsb (item_has (code b))
    [Just "0"; Just "|"; Just "1"; Just "|"; Just "2"; Just "|"; Just "3";
     Just "|"; Just "5"; Just "|"; Just "6"; Just "|"; Just "7"; Just "|";
     Just "8"; Just "|"; Just "9"]%char
  = (digit b && negb (Ascii.eqb b "4") || Ascii.eqb b "|")%char.
Proof. destruct b as [[] [] [] [] [] [] [] []]; reflexivity. Qed.

Lemma in_prefix x y items (st st' : state) :
  In st' (run (seq (Chr x) [Chr y; Among items]) st) <->
  exists b, st.2 = String x (String y (String b st'.2))
            /\ existsb (item_has (code b)) items = true /\ st'.1 = false.
Proof.
  cbn [seq]. rewrite in_cat. split.
  - intros (m & Hm & H). apply in_chr in Hm as [Hx _].
    apply in_cat in H as (m' & Hm' & H). apply in_chr in Hm' as [Hy _].
    apply in_among in H as (b & Hb & Hin & Hf). exists b.
    now rewrite Hx, Hy, Hb.
  - intros (b & Hst & Hin & Hf).
    exists (false, String y (String b st'.2)). split; [now apply in_chr|].
    apply in_cat. exists (false, String b st'.2). split; [now apply in_chr|].
    apply in_among. now exists b.
Qed.

Lemma phone_spec s :
  test phone s = true <->
  exists a b t,
    s = String "1" (String a (String b t))
    /\ String.length t = 8%nat /\ all_digits t = true
    /\ ((a = "3"%char /\ digit b = true)
        \/ (a = "4" /\ (b = "5" \/ b = "7" \/ b = "|"))%char
        \/ (a = "5"%char /\ (digit b = true \/ b = "|"%char))
        \/ (a = "8"%char
            /\ (digit b = true /\ b <> "4"%char \/ b = "|"%char))).
Proof.
  unfold phone. cbn [seq]. rewrite test_anchored. split.
  - intros (st' & H). apply in_cat in H as (m & Hm & H).
    apply in_cat in H as (m' & Hm' & H). apply in_eol in H as [Hend _].
    apply in_times_d in Hm' as (t & Hlen & Ht & Hs & _).
    rewrite Hend, sapp_nil_r in Hs.
    assert (Hpre : exists a b,
               s = String "1" (String a (String b m.2))
               /\ ((a = "3"%char /\ digit b = true)
                   \/ (a = "4" /\ (b = "5" \/ b = "7" \/ b = "|"))%char
                   \/ (a = "5"%char /\ (digit b = true \/ b = "|"%char))
                   \/ (a = "8"%char
                       /\ (digit b = true /\ b <> "4"%char \/ b = "|"%char)))).
    { apply in_alt in Hm as [Hm|Hm]; [|apply in_alt in Hm as [Hm|Hm];
                                        [|apply in_alt in Hm as [Hm|Hm]]];
        apply (in_prefix _ _ _ (true, s)) in Hm as (b & Hst & Hb & _);
        cbn [snd] in Hst.
      - rewrite after_13 in Hb. exists "3"%char, b. auto.
      - rewrite after_14 in Hb. exists "4"%char, b. split; [exact Hst|].
        right. left. split; [reflexivity|].
        apply orb_true_iff in Hb as [Hb|Hb];
          [apply orb_true_iff in Hb as [Hb|Hb]|]; apply Ascii.eqb_eq in Hb; auto.
      - rewrite after_15 in Hb. exists "5"%char, b. split; [exact Hst|].
        right. right. left. split; [reflexivity|].
        apply orb_true_iff in Hb as [Hb|Hb]; [now left|].
        apply Ascii.eqb_eq in Hb. now right.
      - rewrite after_18 in Hb. exists "8"%char, b. split; [exact Hst|].
        right. right. right. split; [reflexivity|].
        apply orb_true_iff in Hb as [Hb|Hb].
        + apply andb_true_iff in Hb as [Hd Hb]. left. split; [exact Hd|].
          intros ->. discriminate.
        + apply Ascii.eqb_eq in Hb. now right. }
    destruct Hpre as (a & b & Hst & Hab). exists a, b, t.
    now rewrite Hst, Hs.
  - intros (a & b & t & -> & Hlen & Ht & Hab).
    exists (false, ""). apply in_cat. exists (false, t). split.
    + destruct Hab as [[-> Hb]|[[-> Hb]|[[-> Hb]|[-> Hb]]]].
      * apply in_alt. left. apply in_prefix. exists b. now rewrite after_13.
      * apply in_alt. right. apply in_alt. left. apply in_prefix. exists b.
        rewrite after_14. repeat split.
        destruct Hb as [->|[->| ->]]; reflexivity.
      * apply in_alt. right. apply in_alt. right. apply in_alt. left.
        apply in_prefix. exists b. rewrite after_15. repeat split.
        destruct Hb as [->| ->]; [reflexivity|]. apply orb_true_r.
      * apply in_alt. right. apply in_alt. right. apply in_alt. right.
        apply in_prefix. exists b. rewrite after_18. repeat split.
        destruct Hb as [[Hd Hb]| ->]; [|apply orb_true_r].
        rewrite Hd. apply orb_true_iff. left. cbn [andb].
        apply negb_true_iff. now apply Ascii.eqb_neq.
    + apply in_cat. exists (false, ""). split; [|now apply in_eol].
      apply in_times_d. exists t. cbn [fst snd]. now rewrite sapp_nil_r.
Qed.
End Phone.

(** X20.  What [isPhone] takes for a mobile number.  On a value whose
    string is [s] it holds exactly when [s] has eleven characters, "1", a
    second and a third, then eight digits, where the second and the third
    are: "3" and a digit; "4" and one of "5", "7"; "5" and a digit; "8" and
    a digit other than "4"; or, after "4", "5" and "8", the bar ["|"], which
    the pattern lists inside its brackets.  Numbers that begin with 16, 17
    or 19 fail. *)
Theorem isPhone_holds_of_four_prefixes :
  forall (v : Js.value) (s : string),
    Pattern.ToString v = Some s ->
    Pattern.isPhone v = Some true <->
    exists a b t,
      s = String "1" (String a (String b t))
      /\ String.length t = 8%nat /\ Digits.all_digits t = true
      /\ ((a = "3"%char /\ Pattern.digit b = true)
          \/ (a = "4" /\ (b = "5" \/ b = "7" \/ b = "|"))%char
          \/ (a = "5"%char /\ (Pattern.digit b = true \/ b = "|"%char))
          \/ (a = "8"%char
              /\ (Pattern.digit b = true /\ b <> "4"%char \/ b = "|"%char))).
Proof.
  intros v s Hs. unfold Pattern.isPhone. rewrite (tested_true _ v s Hs).
  apply phone_spec.
Qed.

Lemma isPhone_holds_of_four_prefixes_witness :
  Pattern.isPhone (Js.VStr "14|12345678") = Some true.
Proof.
  apply (isPhone_holds_of_four_prefixes (Js.VStr "14|12345678") "14|12345678").
  - reflexivity.
  - exists "4"%char, "|"%char, "12345678". repeat split.
    right. left. split; [reflexivity|]. right. now right.
Defined.

(** ** The telephone number *)

Section Tel.
Import Js Pattern Digits.

Lemma in_opt a (st st' : state) :
  In st' (run (Opt a) st) <->
  st' = st \/ (In st' (run a st) /\ shorter st' st = true).
Proof.
  unfold Opt. cbn [run exactly flat_map]. rewrite app_nil_r.
  change (1 - 0)%nat with 1%nat. rewrite in_upto. split.
  - intros [->|(k & m & [= <-] & Hm & Hs & H)]; [now left|].
    apply in_upto in H as [->|(k & m' & H & _)]; [now right | discriminate].
  - intros [->|[H Hs]]; [now left|]. right. exists 0%nat, st'.
    repeat split; auto. now left.
Qed.

Lemma in_any (st st' : state) :
  In st' (run Any st) <->
  exists c, st.2 = String c st'.2 /\ is_line_end (code c) = false
            /\ st'.1 = false.
Proof.
  cbn [run]. rewrite in_eats. split.
  - intros (c & r & Hst & Hc & ->). exists c.
    apply negb_true_iff in Hc. now repeat split.
  - intros (c & Hst & Hc & Hf). exists c, st'.2. rewrite Hc.
    repeat split; auto. destruct st'; cbn in *. now subst.
Qed.

(** [\d{3,4}-] *)
Lemma in_area (st st' : state) :
  In st' (run (Cat (Rep d 3 (Some 4%nat)) (Chr "-")) st) <->
  exists a, st.2 = (a +:+ "-") +:+ st'.2 /\ all_digits a = true
            /\ (String.length a = 3 \/ String.length a = 4)%nat
            /\ st'.1 = false.
Proof.
  rewrite in_cat. split.
  - intros (m & Hm & H).
    apply in_digits in Hm as (a & Hmin & Hmax & Ha & Hs & _);
      [|intros k [= <-]; lia].
    specialize (Hmax 4%nat eq_refl). apply in_chr in H as [Hc Hf].
    exists a. rewrite Hs, Hc, sapp_assoc. repeat split; auto. lia.
  - intros (a & Hs & Ha & Hlen & Hf).
    exists (st.1 && at_start a, String "-" st'.2). split.
    + apply in_digits; [intros k [= <-]; lia|]. exists a. cbn [fst snd].
      rewrite Hs, sapp_assoc. repeat split; auto; [lia|].
      intros k [= <-]. lia.
    + now apply in_chr.
Qed.

(** [\d{3.4}-] *)
Lemma in_braces (st st' : state) :
  In st' (run (seq d [Chr "{"; Chr "3"; Any; Chr "4"; Chr "}"; Chr "-"]%char) st)
  <->
  exists c x, st.2 = String c ("{3" +:+ String x "4}-") +:+ st'.2
              /\ digit c = true /\ is_line_end (code x) = false
              /\ st'.1 = false.
Proof.
  cbn [seq]. rewrite in_cat. split.
  - intros (m1 & H1 & H). apply in_cat in H as (m2 & H2 & H).
    apply in_cat in H as (m3 & H3 & H). apply in_cat in H as (m4 & H4 & H).
    apply in_cat in H as (m5 & H5 & H). apply in_cat in H as (m6 & H6 & H).
    apply in_digit in H1 as (c & Hc & Hd & _).
    apply in_chr in H2 as [E2 _]. apply in_chr in H3 as [E3 _].
    apply in_any in H4 as (x & E4 & Hx & _).
    apply in_chr in H5 as [E5 _]. apply in_chr in H6 as [E6 _].
    apply in_chr in H as [E7 Hf].
    exists c, x. rewrite Hc, E2, E3, E4, E5, E6, E7. repeat split; auto.
    unfold digit. rewrite is_digit_code. cbn [all_digits] in Hd.
    now destruct (digit_of c).
  - intros (c & x & Hs & Hc & Hx & Hf).
    exists (false, "{3" +:+ String x "4}-" +:+ st'.2). split.
    { apply in_digit. exists c. cbn [fst snd all_digits].
      unfold digit in Hc. rewrite is_digit_code in Hc.
      destruct (digit_of c); [|discriminate]. repeat split. exact Hs. }
    apply in_cat. exists (false, "3" +:+ String x "4}-" +:+ st'.2).
    split; [now apply in_chr|].
    apply in_cat. exists (false, String x "4}-" +:+ st'.2).
    split; [now apply in_chr|].
    apply in_cat. exists (false, "4}-" +:+ st'.2).
    split; [apply in_any; now exists x|].
    apply in_cat. exists (false, "}-" +:+ st'.2). split; [now apply in_chr|].
    apply in_cat. exists (false, "-" +:+ st'.2). split; [now apply in_chr|].
    now apply in_chr.
Qed.

Lemma tel_spec s :
  test tel s = true <->
  exists p t,
    s = p +:+ t /\ all_digits t = true
    /\ (String.length t = 7 \/ String.length t = 8)%nat
    /\ (p = ""
        \/ (exists a, p = a +:+ "-" /\ all_digits a = true
                      /\ (String.length a = 3 \/ String.length a = 4)%nat)
        \/ (exists c x, p = String c ("{3" +:+ String x "4}-")
                        /\ digit c = true /\ is_line_end (code x) = false)).
Proof.
  unfold tel. cbn [seq]. rewrite test_anchored. split.
  - intros (st' & H). apply in_cat in H as (m & Hm & H).
    apply in_cat in H as (m' & Hm' & H). apply in_eol in H as [Hend _].
    apply in_digits in Hm' as (t & Hmin & Hmax & Ht & Hs & _);
      [|intros k [= <-]; lia].
    specialize (Hmax 8%nat eq_refl). rewrite Hend, sapp_nil_r in Hs.
    assert (Hp : exists p,
               s = p +:+ m.2
               /\ (p = ""
                   \/ (exists a, p = a +:+ "-" /\ all_digits a = true
                                 /\ (String.length a = 3
                                     \/ String.length a = 4)%nat)
                   \/ (exists c x, p = String c ("{3" +:+ String x "4}-")
                                   /\ digit c = true
                                   /\ is_line_end (code x) = false))).
    { apply in_opt in Hm as [->|[Hm _]]; [exists ""; auto|].
      apply in_alt in Hm as [Hm|Hm].
      - apply in_area in Hm as (a & Ha & Hd & Hlen & _). cbn [snd] in Ha.
        exists (a +:+ "-"). split; [exact Ha|]. right. left. now exists a.
      - apply in_braces in Hm as (c & x & Hcx & Hc & Hx & _). cbn [snd] in Hcx.
        exists (String c ("{3" +:+ String x "4}-")). split; [exact Hcx|].
        right. right. now exists c, x. }
    destruct Hp as (p & Hsp & Hp). exists p, t. rewrite Hsp, Hs.
    repeat split; auto. lia.
  - intros (p & t & -> & Ht & Hlen & Hp).
    exists (at_start p && at_start t, "").
    apply in_cat. exists (at_start p, t). split.
    + apply in_opt. destruct Hp as [->|[(a & -> & Ha & Hla)|(c & x & -> & Hc & Hx)]].
      * now left.
      * right. split.
        -- apply in_alt. left. apply in_area. exists a. cbn [fst snd].
           repeat split; auto.
           destruct a; [cbn in Hla; lia | reflexivity].
        -- unfold shorter. cbn [snd]. rewrite !slength_app. cbn [String.length].
           apply Nat.ltb_lt. lia.
      * right. split.
        -- apply in_alt. right. apply in_braces. exists c, x. cbn [fst snd].
           now repeat split.
        -- unfold shorter. cbn [snd]. rewrite slength_app.
           cbn [String.length]. apply Nat.ltb_lt. lia.
    + apply in_cat. exists (at_start p && at_start t, ""). split;
        [|now apply in_eol].
      apply in_digits; [intros k [= <-]; lia|]. exists t. cbn [fst snd].
      rewrite sapp_nil_r. repeat split; auto; [lia|]. intros k [= <-]. lia.
Qed.
End Tel.

(** X21.  What [isTel] takes for a telephone number.  On a value whose
    string is [s] it holds exactly when [s] is seven or eight digits,
    alone, or after an area code of three or four digits and a hyphen, or
    after seven characters of the form digit, "{3", any character, "4}-":
    in the second branch of the pattern [{3.4}] is no count, so that
    ["1{3x4}-1234567"] passes. *)
Theorem isTel_holds_of_seven_or_eight_digits :
  forall (v : Js.value) (s : string),
    Pattern.ToString v = Some s ->
    Pattern.isTel v = Some true <->
    exists p t,
      s = p +:+ t /\ Digits.all_digits t = true
      /\ (String.length t = 7 \/ String.length t = 8)%nat
      /\ (p = ""
          \/ (exists a, p = a +:+ "-" /\ Digits.all_digits a = true
                        /\ (String.length a = 3 \/ String.length a = 4)%nat)
          \/ (exists c x, p = String c ("{3" +:+ String x "4}-")
                          /\ Pattern.digit c = true
                          /\ Pattern.is_line_end (Pattern.code x) = false)).
Proof.
  intros v s Hs. unfold Pattern.isTel. rewrite (tested_true _ v s Hs).
  apply tel_spec.
Qed.

Lemma isTel_holds_of_seven_or_eight_digits_witness :
  Pattern.isTel (Js.VStr "1{3x4}-1234567") = Some true.
Proof.
  apply (isTel_holds_of_seven_or_eight_digits
           (Js.VStr "1{3x4}-1234567") "1{3x4}-1234567").
  - reflexivity.
  - exists "1{3x4}-", "1234567". repeat split; [now left|].
    right. right. now exists "1"%char, "x"%char.
Defined.

(** ** The postal code *)

Section PostalCode.
Import Js Pattern Digits.

Lemma one_to_nine c :
  existsb (item_has (code c)) [span "1" "9"]
  = digit c && negb (Ascii.eqb c "0").
Proof. destruct c as [[] [] [] [] [] [] [] []]; reflexivity. Qed.

Lemma no_digit_ahead (st : state) : run d st = [] <-> stops st.2 = true.
Proof.
  unfold d. cbn [run]. unfold eats, stops. destruct st.2 as [|c r].
  - tauto.
  - cbn [escape_has]. rewrite is_digit_code.
    destruct (digit_of c); split; congruence.
Qed.

Lemma postalCode_spec s :
  test postalCode s = true <->
  exists pre c t post,
    s = pre +:+ String c t +:+ post
    /\ digit c = true /\ c <> "0"%char
    /\ String.length t = 5%nat /\ all_digits t = true
    /\ stops post = true.
Proof.
  unfold postalCode. cbn [seq]. rewrite test_spec. split.
  - intros (pre & t0 & st' & -> & H). apply in_cat in H as (m & Hm & H).
    apply in_among in Hm as (c & Hc & Hin & _). cbn [snd] in Hc.
    apply in_cat in H as (m' & Hm' & H).
    apply in_times_d in Hm' as (t & Hlen & Ht & Hs & _).
    apply in_not_ahead in H as [Hno _]. apply no_digit_ahead in Hno.
    rewrite one_to_nine in Hin. apply andb_true_iff in Hin as [Hd Hz].
    exists pre, c, t, m'.2. rewrite Hc, Hs, sapp_cons. repeat split; auto.
    intros ->. discriminate.
  - intros (pre & c & t & post & -> & Hd & Hz & Hlen & Ht & Hstop).
    exists pre, (String c t +:+ post), (false, post). split; [reflexivity|].
    apply in_cat. exists (false, t +:+ post). split.
    + apply in_among. exists c. rewrite one_to_nine, Hd. cbn [fst snd andb].
      repeat split. apply negb_true_iff. now apply Ascii.eqb_neq.
    + apply in_cat. exists (false, post). split.
      * apply in_times_d. exists t. cbn [fst snd]. auto.
      * apply in_not_ahead. split; [|reflexivity]. now apply no_digit_ahead.
Qed.
End PostalCode.

(** X22.  [isPostalCode] looks for a postal code anywhere in the string.
    On a value whose string is [s] it holds exactly when [s] contains six
    digits in a row, the first not "0", that no digit follows; what stands
    before them is free.  So text around the code passes, and so does
    every run of seven digits or more whose sixth digit from the end is
    not "0", like "1234567". *)
Theorem isPostalCode_holds_of_six_digits_anywhere :
  forall (v : Js.value) (s : string),
    Pattern.ToString v = Some s ->
    Pattern.isPostalCode v = Some true <->
    exists pre c t post,
      s = pre +:+ String c t +:+ post
      /\ Pattern.digit c = true /\ c <> "0"%char
      /\ String.length t = 5%nat /\ Digits.all_digits t = true
      /\ Digits.stops post = true.
Proof.
  intros v s Hs. unfold Pattern.isPostalCode. rewrite (tested_true _ v s Hs).
  apply postalCode_spec.
Qed.

Lemma isPostalCode_holds_of_six_digits_anywhere_witness :
  Pattern.isPostalCode (Js.VNum (Js.Finite false 1234567 0)) = Some true.
Proof.
  apply (isPostalCode_holds_of_six_digits_anywhere
           (Js.VNum (Js.Finite false 1234567 0)) "1234567").
  - vm_compute. reflexivity.
  - exists "1", "2"%char, "34567", "". repeat split. discriminate.
Defined.

(** ** The URL *)

Section Url.
Import Js Pattern Digits.

Lemma scheme_letters c :
  existsb (item_has (code c)) [span "a" "z"; span "A" "z"]
  = ((65 <=? code c) && (code c <=? 122))%N.
Proof. destruct c as [[] [] [] [] [] [] [] []]; reflexivity. Qed.

(** A string that is not empty ends with a character. *)
Lemma last_character p (w : string) :
  w <> "" -> every p w = true ->
  exists init c, w = init +:+ String c "" /\ p (code c) = true.
Proof.
  induction w as [|x w IH]; [congruence|]. intros _ Hw. cbn [every] in Hw.
  apply andb_true_iff in Hw as [Hx Hw]. destruct w as [|y w].
  - now exists "", x.
  - destruct IH as (init & c & Hinit & Hc); [discriminate | exact Hw |].
    exists (String x init), c. now rewrite sapp_cons, <- Hinit.
Qed.

Lemma url_spec s :
  test url s = true <->
  exists pre c post,
    s = pre +:+ String c ("://" +:+ post) /\ (65 <= code c <= 122)%N.
Proof.
  unfold url. cbn [seq]. rewrite test_spec. split.
  - intros (pre & t & st' & -> & H). apply in_cat in H as (m1 & H1 & H).
    apply in_cat in H as (m2 & H2 & H). apply in_cat in H as (m3 & H3 & H).
    apply in_cat in H as (m4 & H4 & _).
    apply (in_rep_eats _ (fun n => existsb (item_has n)
                                     [span "a" "z"; span "A" "z"])) in H1
      as (w & Hmin & _ & Hw & Hs & _); [|reflexivity|discriminate].
    apply in_chr in H2 as [E2 _]. apply in_chr in H3 as [E3 _].
    apply in_chr in H4 as [E4 _]. cbn [snd] in Hs.
    destruct (last_character
                (fun n => existsb (item_has n) [span "a" "z"; span "A" "z"]) w)
      as (init & c & -> & Hc);
      [destruct w; [cbn in Hmin; lia | discriminate] | exact Hw |].
    rewrite scheme_letters in Hc. apply andb_true_iff in Hc as [Hlo Hhi].
    apply N.leb_le in Hlo, Hhi.
    exists (pre +:+ init), c, m4.2. split; [|lia].
    rewrite Hs, E2, E3, E4, !sapp_assoc. reflexivity.
  - intros (pre & c & post & -> & Hlo & Hhi).
    exists pre, (String c ("://" +:+ post)), (false, post).
    split; [reflexivity|].
    apply in_cat. exists (false, "://" +:+ post). split.
    { apply (in_rep_eats _ (fun n => existsb (item_has n)
                                       [span "a" "z"; span "A" "z"]));
        [reflexivity | discriminate |].
      exists (String c ""). cbn [fst snd String.length every at_start].
      rewrite scheme_letters, andb_false_r, andb_true_r. repeat split.
      - lia.
      - discriminate.
      - apply andb_true_iff. split; now apply N.leb_le. }
    apply in_cat. exists (false, "//" +:+ post). split; [now apply in_chr|].
    apply in_cat. exists (false, "/" +:+ post). split; [now apply in_chr|].
    apply in_cat. exists (false, post). split; [now apply in_chr|].
    apply (in_rep_eats _ (fun n => negb (existsb (item_has n) [Esc Space])));
      [reflexivity | discriminate |].
    exists "". cbn [fst snd String.length every at_start]. repeat split.
    + lia.
    + discriminate.
Qed.
End Url.

(** X23.  [isUrl] asks little of a URL.  It holds exactly of the strings of
    at most 2048 characters that contain, anywhere, a character between "A"
    and "z" followed by "://": the range [A-z] of the pattern takes in the
    six characters between "Z" and "a", nothing has to follow the slashes,
    and what stands before the scheme is free.  Every value that is not a
    string fails. *)
Theorem isUrl_holds_of_a_scheme_anywhere :
  forall v : Js.value,
    Pattern.isUrl v = true <->
    exists s pre c post,
      v = Js.VStr s /\ (String.length s <= 2048)%nat
      /\ s = pre +:+ String c ("://" +:+ post)
      /\ (65 <= Pattern.code c <= 122)%N.
Proof.
  intros v. unfold Pattern.isUrl. split.
  - destruct v; try discriminate. intros H.
    apply andb_true_iff in H as [Hlen H]. apply Nat.leb_le in Hlen.
    apply url_spec in H as (pre & c & post & Hs & Hc).
    now exists s, pre, c, post.
  - intros (s & pre & c & post & -> & Hlen & Hs & Hc).
    apply andb_true_iff. split; [now apply Nat.leb_le|].
    apply url_spec. now exists pre, c, post.
Qed.

(** ** The IPv4 address *)

Section Ip.
Import Js Pattern Digits.

Lemma in_times n a (st st' : state) :
  In st' (run (Times n a) st) <-> In st' (exactly (run a) n st).
Proof.
  unfold Times. cbn [run]. rewrite Nat.sub_diag, in_flat_map. split.
  - intros (m & Hm & [<-|[]]). exact Hm.
  - intros H. exists st'. split; [exact H | now left].
Qed.

Lemma zero_to_five c :
  existsb (item_has (code c)) [span "0" "5"]
  = match digit_of c with Some k => (k <=? 5)%N | None => false end.
Proof. destruct c as [[] [] [] [] [] [] [] []]; reflexivity. Qed.

Lemma zero_to_four c :
  existsb (item_has (code c)) [span "0" "4"]
  = match digit_of c with Some k => (k <=? 4)%N | None => false end.
Proof. destruct c as [[] [] [] [] [] [] [] []]; reflexivity. Qed.

Lemma zero_to_one c :
  existsb (item_has (code c)) [span "0" "1"]
  = match digit_of c with Some k => (k <=? 1)%N | None => false end.
Proof. destruct c as [[] [] [] [] [] [] [] []]; reflexivity. Qed.

Lemma digit_two c : digit_of c = Some 2%N <-> c = "2"%char.
Proof.
  split; [|now intros ->].
  destruct c as [[] [] [] [] [] [] [] []]; vm_compute; congruence.
Qed.

Lemma digit_five c : digit_of c = Some 5%N <-> c = "5"%char.
Proof.
  split; [|now intros ->].
  destruct c as [[] [] [] [] [] [] [] []]; vm_compute; congruence.
Qed.

(** What [octet] says of one, two and three characters. *)
Lemma octet_one a : octet (String a "") = true <-> is_Some (digit_of a).
Proof.
  unfold octet. cbn [all_digits value_from String.length].
  destruct (digit_of a) as [k|] eqn:Ha.
  - split; [intros _; now exists k|]. intros _.
    pose proof (digit_of_range a k Ha).
    cbn [default from_option id andb Nat.leb]. apply N.leb_le. lia.
  - split; [discriminate | intros [x Hx]; discriminate].
Qed.

Lemma octet_two a b :
  octet (String a (String b "")) = true
  <-> is_Some (digit_of a) /\ is_Some (digit_of b).
Proof.
  unfold octet. cbn [all_digits value_from String.length].
  destruct (digit_of a) as [k|] eqn:Ha.
  - destruct (digit_of b) as [l|] eqn:Hb.
    + split; [intros _; split; eexists; reflexivity|]. intros _.
      pose proof (digit_of_range a k Ha). pose proof (digit_of_range b l Hb).
      cbn [default from_option id andb Nat.leb]. apply N.leb_le. lia.
    + split; [discriminate | intros [_ [x Hx]]; discriminate].
  - split; [discriminate | intros [[x Hx] _]; discriminate].
Qed.

Lemma octet_three a b c :
  octet (String a (String b (String c ""))) = true
  <-> exists k l n,
        digit_of a = Some k /\ digit_of b = Some l /\ digit_of c = Some n
        /\ (100 * k + 10 * l + n <= 255)%N.
Proof.
  unfold octet. cbn [all_digits value_from String.length].
  destruct (digit_of a) as [k|] eqn:Ha;
    [|split; [discriminate | intros (? & ? & ? & H & _); discriminate]].
  destruct (digit_of b) as [l|] eqn:Hb;
    [|split; [discriminate | intros (? & ? & ? & _ & H & _); discriminate]].
  destruct (digit_of c) as [n|] eqn:Hc;
    [|split; [discriminate | intros (? & ? & ? & _ & _ & H & _); discriminate]].
  cbn [default from_option id andb Nat.leb]. split.
  - intros H. apply N.leb_le in H. exists k, l, n. repeat split. lia.
  - intros (k' & l' & n' & [= <-] & [= <-] & [= <-] & H).
    apply N.leb_le. lia.
Qed.

Lemma octet_shape o :
  octet o = true ->
  all_digits o = true /\ (1 <= String.length o <= 3)%nat.
Proof.
  unfold octet. intros H. apply andb_true_iff in H as [H _].
  apply andb_true_iff in H as [H H3]. apply andb_true_iff in H as [H H1].
  apply Nat.leb_le in H1, H3. auto.
Qed.

(** One part of the address. *)
Lemma in_ip_part (st st' : state) :
  In st' (run ip_part st) <->
  exists o, st.2 = o +:+ st'.2 /\ octet o = true /\ st'.1 = false.
Proof.
  unfold ip_part. rewrite in_alt. split.
  - intros [H|H].
    + apply in_cat in H as (m & Hm & H). apply in_chr in Hm as [E1 _].
      apply in_alt in H as [H|H].
      * apply in_cat in H as (m' & Hm' & H). apply in_chr in Hm' as [E2 _].
        apply in_among in H as (c & E3 & Hc & Hf). rewrite zero_to_five in Hc.
        exists (String "2" (String "5" (String c ""))). rewrite E1, E2, E3.
        repeat split; auto. apply octet_three.
        destruct (digit_of c) as [n|] eqn:Hn; [|discriminate].
        apply N.leb_le in Hc. exists 2%N, 5%N, n. repeat split. lia.
      * apply in_cat in H as (m' & Hm' & H).
        apply in_among in Hm' as (b & E2 & Hb & _). rewrite zero_to_four in Hb.
        apply in_digit in H as (c & E3 & Hc & Hf). cbn [all_digits] in Hc.
        exists (String "2" (String b (String c ""))). rewrite E1, E2, E3.
        repeat split; auto. apply octet_three.
        destruct (digit_of b) as [l|] eqn:Hl; [|discriminate].
        destruct (digit_of c) as [n|] eqn:Hn; [|discriminate].
        apply N.leb_le in Hb. pose proof (digit_of_range c n Hn).
        exists 2%N, l, n. repeat split. lia.
    + apply in_cat in H as (m & Hm & H).
      apply in_digits in H as (t & Hmin & Hmax & Ht & Hs & Hf);
        [|intros k [= <-]; lia].
      specialize (Hmax 2%nat eq_refl).
      assert (Hf' : st'.1 = false).
      { rewrite Hf. destruct t; [cbn in Hmin; lia|]. apply andb_false_r. }
      apply in_opt in Hm as [->|[Hm _]].
      * exists t. repeat split; auto.
        destruct t as [|a [|b [|c t]]]; cbn [String.length] in *; try lia.
        -- apply octet_one. cbn [all_digits] in Ht.
           destruct (digit_of a); [now eexists | discriminate].
        -- apply octet_two. cbn [all_digits] in Ht.
           destruct (digit_of a); [|discriminate].
           destruct (digit_of b); [|discriminate]. split; now eexists.
      * apply in_among in Hm as (a & E1 & Ha & _). rewrite zero_to_one in Ha.
        exists (String a t). rewrite E1, Hs, sapp_cons. repeat split; auto.
        destruct (digit_of a) as [k|] eqn:Hk; [|discriminate].
        apply N.leb_le in Ha.
        destruct t as [|b [|c [|e t]]]; cbn [String.length] in *; try lia.
        -- apply octet_two. cbn [all_digits] in Ht. rewrite Hk.
           destruct (digit_of b); [|discriminate]. split; now eexists.
        -- apply octet_three. cbn [all_digits] in Ht.
           destruct (digit_of b) as [l|] eqn:Hl; [|discriminate].
           destruct (digit_of c) as [n|] eqn:Hn; [|discriminate].
           pose proof (digit_of_range b l Hl).
           pose proof (digit_of_range c n Hn).
           exists k, l, n. repeat split; auto. lia.
  - intros (o & Hs & Ho & Hf).
    destruct (octet_shape o Ho) as [Hd Hlen].
    assert (Hshort : forall t : string,
               (1 <= String.length t <= 2)%nat -> all_digits t = true ->
               st.2 = t +:+ st'.2 ->
               In st' (run (Cat (Opt (Among [span "0" "1"]))
                              (Rep d 1 (Some 2%nat))) st)).
    { intros t Hl Ht Hst. apply in_cat. exists st. split.
      - apply in_opt. now left.
      - apply in_digits; [intros k [= <-]; lia|]. exists t.
        repeat split; auto; try lia.
        + intros k [= <-]. lia.
        + rewrite Hf. destruct t; [cbn in Hl; lia|].
          symmetry. apply andb_false_r. }
    destruct o as [|a [|b [|c [|e o]]]]; cbn [String.length] in Hlen; try lia.
    + right. apply (Hshort (String a "")); auto; cbn; lia.
    + right. apply (Hshort (String a (String b ""))); auto; cbn; lia.
    + apply octet_three in Ho as (k & l & n & Ha & Hb & Hc & Hv).
      pose proof (digit_of_range a k Ha). pose proof (digit_of_range b l Hb).
      pose proof (digit_of_range c n Hc).
      rewrite !sapp_cons, sapp_nil_l in Hs.
      destruct (N.le_gt_cases k 1) as [Hk|Hk].
      * right. apply in_cat. exists (false, String b (String c st'.2)). split.
        -- apply in_opt. right. split.
           ++ apply in_among. exists a. rewrite zero_to_one, Ha.
              repeat split; auto. now apply N.leb_le.
           ++ unfold shorter. cbn [snd]. rewrite Hs. cbn [String.length].
              apply Nat.ltb_lt. lia.
        -- apply in_digits; [intros x [= <-]; lia|].
           exists (String b (String c "")). cbn [fst snd String.length].
           cbn [all_digits]. rewrite Hb, Hc. repeat split; auto.
           intros x [= <-]. lia.
      * assert (k = 2%N) by lia. subst k. apply digit_two in Ha. subst a.
        left. apply in_cat. exists (false, String b (String c st'.2)).
        split; [now apply in_chr|].
        destruct (N.le_gt_cases l 4) as [Hl|Hl].
        -- apply in_alt. right. apply in_cat. exists (false, String c st'.2).
           split.
           ++ apply in_among. exists b. rewrite zero_to_four, Hb.
              repeat split. now apply N.leb_le.
           ++ apply in_digit. exists c. cbn [fst snd all_digits]. rewrite Hc.
              now repeat split.
        -- assert (l = 5%N) by lia. subst l. apply digit_five in Hb. subst b.
           apply in_alt. left. apply in_cat. exists (false, String c st'.2).
           split; [now apply in_chr|].
           apply in_among. exists c. rewrite zero_to_five, Hc.
           repeat split; auto. apply N.leb_le. lia.
Qed.

(** [\.] and one part. *)
Lemma in_dot_part (st st' : state) :
  In st' (run (Cat (Chr ".") ip_part) st) <->
  exists o, st.2 = String "." o +:+ st'.2 /\ octet o = true /\ st'.1 = false.
Proof.
  rewrite in_cat. split.
  - intros (m & Hm & H). apply in_chr in Hm as [E _].
    apply in_ip_part in H as (o & Ho & Hoct & Hf). exists o.
    now rewrite E, Ho, sapp_cons.
  - intros (o & Hs & Ho & Hf). exists (false, o +:+ st'.2). split.
    + apply in_chr. now rewrite sapp_cons in Hs.
    + apply in_ip_part. now exists o.
Qed.

Lemma first_character (w : string) :
  w <> "" -> all_digits w = true ->
  exists c rest, w = String c rest /\ digit c = true.
Proof.
  destruct w as [|c rest]; [congruence|]. intros _ H. exists c, rest.
  split; [reflexivity|]. unfold digit. rewrite is_digit_code.
  cbn [all_digits] in H. now destruct (digit_of c).
Qed.

Lemma ip_spec s :
  test ip s = true <->
  exists pre a m1 m2 b post,
    s = pre +:+ String a ("." +:+ m1 +:+ "." +:+ m2 +:+ "." +:+ String b post)
    /\ digit a = true /\ digit b = true
    /\ octet m1 = true /\ octet m2 = true.
Proof.
  unfold ip. rewrite test_spec. split.
  - intros (pre & t & st' & -> & H). apply in_cat in H as (n1 & H1 & H).
    apply in_times in H. apply in_exactly in H as (n2 & H2 & H).
    apply in_exactly in H as (n3 & H3 & H).
    apply in_exactly in H as (n4 & H4 & H). cbn [exactly In] in H.
    destruct H as [<-|[]].
    apply in_ip_part in H1 as (o1 & E1 & O1 & _). cbn [snd] in E1.
    apply in_dot_part in H2 as (o2 & E2 & O2 & _).
    apply in_dot_part in H3 as (o3 & E3 & O3 & _).
    apply in_dot_part in H4 as (o4 & E4 & O4 & _).
    destruct (octet_shape o1 O1) as [D1 L1].
    destruct (octet_shape o4 O4) as [D4 L4].
    rewrite all_digits_digit in D1.
    destruct (last_character is_digit o1) as (init & a & -> & Ha);
      [destruct o1; [cbn in L1; lia | discriminate] | exact D1 |].
    destruct (first_character o4) as (b & rest & -> & Hb);
      [destruct o4; [cbn in L4; lia | discriminate] | exact D4 |].
    exists (pre +:+ init), a, o2, o3, b, (rest +:+ n4.2).
    repeat split; auto.
    rewrite E1, E2, E3, E4.
    repeat (rewrite sapp_assoc || rewrite sapp_cons || rewrite sapp_nil_l).
    reflexivity.
  - intros (pre & a & m1 & m2 & b & post & -> & Ha & Hb & O1 & O2).
    exists pre, (String a ("." +:+ m1 +:+ "." +:+ m2 +:+ "." +:+ String b post)),
      (false, post).
    split; [reflexivity|].
    unfold digit in Ha, Hb. rewrite is_digit_code in Ha, Hb.
    apply in_cat. exists (false, "." +:+ m1 +:+ "." +:+ m2 +:+ "." +:+ String b post).
    split.
    { apply in_ip_part. exists (String a ""). repeat split.
      apply octet_one. destruct (digit_of a); [now eexists | discriminate]. }
    apply in_times. apply in_exactly.
    exists (false, "." +:+ m2 +:+ "." +:+ String b post). split.
    { apply in_dot_part. exists m1. cbn [fst snd]. repeat split; auto. }
    apply in_exactly. exists (false, "." +:+ String b post). split.
    { apply in_dot_part. exists m2. cbn [fst snd]. repeat split; auto. }
    apply in_exactly. exists (false, post). split; [|now left].
    apply in_dot_part. exists (String b ""). cbn [fst snd]. repeat split.
    apply octet_one. destruct (digit_of b); [now eexists | discriminate].
Qed.
End Ip.

(** X24.  [isIp] bounds the two middle numbers only.  On a value whose
    string is [s] it holds exactly when [s] contains a digit, a dot, a
    number, a dot, a number, a dot and a digit, the two numbers being of one
    to three digits and at most 255: the pattern is not anchored, so the
    first and the last number are read from their nearest digit and
    "999.1.1.999" passes, as does an address inside any text. *)
Theorem isIp_bounds_the_middle_numbers_only :
  forall (v : Js.value) (s : string),
    Pattern.ToString v = Some s ->
    Pattern.isIp v = Some true <->
    exists pre a m1 m2 b post,
      s = pre +:+ String a ("." +:+ m1 +:+ "." +:+ m2 +:+ "." +:+ String b post)
      /\ Pattern.digit a = true /\ Pattern.digit b = true
      /\ Pattern.octet m1 = true /\ Pattern.octet m2 = true.
Proof.
  intros v s Hs. unfold Pattern.isIp. rewrite (tested_true _ v s Hs).
  apply ip_spec.
Qed.

Lemma isIp_bounds_the_middle_numbers_only_witness :
  Pattern.isIp (Js.VStr "999.1.1.999") = Some true.
Proof.
  apply (isIp_bounds_the_middle_numbers_only
           (Js.VStr "999.1.1.999") "999.1.1.999").
  - reflexivity.
  - now exists "99", "9"%char, "1", "1", "9"%char, "99".
Defined.

(** ** The e-mail address *)

Section Star.
Import Js Pattern Digits.

Lemma upto_more step n n' (st st' : state) :
  (n <= n')%nat -> In st' (upto step n st) -> In st' (upto step n' st).
Proof.
  revert n' st. induction n as [|n IH]; intros n' st Hle; rewrite !in_upto.
  - intros [->|(k & m & H & _)]; [now left | discriminate].
  - intros [->|(k & m & [= <-] & Hm & Hs & H)]; [now left|].
    destruct n' as [|n']; [lia|]. right. exists n', m. repeat split; auto.
    apply (IH n'); [lia | exact H].
Qed.

Lemma in_star a (st st' : state) :
  In st' (run (Star a) st) <-> In st' (upto (run a) (String.length st.2) st).
Proof. unfold Star. cbn [run exactly flat_map]. now rewrite app_nil_r. Qed.

Lemma in_star_here a (st : state) : In st (run (Star a) st).
Proof. apply in_star, in_upto. now left. Qed.

Lemma in_star_step a (st m st' : state) :
  In m (run a st) -> shorter m st = true ->
  In st' (run (Star a) m) -> In st' (run (Star a) st).
Proof.
  intros Hm Hs H. apply in_star in H. apply in_star.
  unfold shorter in Hs. apply Nat.ltb_lt in Hs.
  destruct (String.length st.2) as [|n] eqn:Hn; [lia|].
  apply in_upto. right. exists n, m. repeat split; auto.
  - now apply Nat.ltb_lt; rewrite Hn.
  - apply (upto_more _ (String.length m.2)); [lia | exact H].
Qed.

(** What holds at the start and is kept by every iteration holds at the
    end. *)
Lemma star_invariant a (P : state -> Prop) (st st' : state) :
  P st ->
  (forall x m, P x -> In m (run a x) -> shorter m x = true -> P m) ->
  In st' (run (Star a) st) -> P st'.
Proof.
  intros H0 Hstep H. apply in_star in H. revert H0 H.
  generalize (String.length st.2). intros n. revert st.
  induction n as [|n IH]; intros st H0; rewrite in_upto.
  - intros [->|(k & m & H & _)]; [exact H0 | discriminate].
  - intros [->|(k & m & [= <-] & Hm & Hs & H)]; [exact H0|].
    apply (IH m); [|exact H]. now apply (Hstep st).
Qed.

(** [\w+] *)
Lemma in_word (st st' : state) :
  In st' (run (Plus w) st) <->
  exists u, u <> "" /\ every is_word u = true
            /\ st.2 = u +:+ st'.2 /\ st'.1 = false.
Proof.
  unfold Plus. rewrite (in_rep_eats w is_word); [|reflexivity|discriminate].
  split.
  - intros (u & Hmin & _ & Hu & Hs & Hf). exists u.
    destruct u as [|c u]; [cbn in Hmin; lia|].
    split; [discriminate|]. split; [exact Hu|]. split; [exact Hs|].
    rewrite Hf. apply andb_false_r.
  - intros (u & Hne & Hu & Hs & Hf). exists u.
    destruct u as [|c u]; [congruence|].
    split; [cbn; lia|]. split; [discriminate|]. split; [exact Hu|].
    split; [exact Hs|]. rewrite Hf. symmetry. apply andb_false_r.
Qed.
End Star.

Section Words.
Import Js Pattern Digits.
Variables (seps : string) (items : list item).
Hypothesis Hitems :
  forall c, existsb (item_has (code c)) items = one_of c seps.
Hypothesis Hseps :
  forall c, one_of c seps = true -> is_word (code c) = false.

Lemma joined_word b (u t : string) :
  u <> "" -> every is_word u = true ->
  joined seps b (u +:+ t) = joined seps true t.
Proof.
  revert b. induction u as [|c u IH]; intros b Hne Hu; [congruence|].
  cbn [every] in Hu. apply andb_true_iff in Hu as [Hc Hu].
  rewrite sapp_cons. cbn [joined]. rewrite Hc.
  destruct u as [|c' u]; [reflexivity|]. now apply IH.
Qed.

Lemma joined_app b (u t : string) :
  joined seps b u = true -> joined seps b (u +:+ t) = joined seps true t.
Proof.
  revert b. induction u as [|c u IH]; intros b Hu.
  - cbn [joined] in Hu. now subst b.
  - rewrite sapp_cons. cbn [joined] in *. destruct (is_word (code c)).
    + now apply IH.
    + destruct (one_of c seps && b); [now apply IH | discriminate].
Qed.

(** The longest prefix of word characters. *)
Lemma leading_word (t : string) :
  exists u r, t = u +:+ r /\ every is_word u = true
              /\ match r with
                 | EmptyString => True
                 | String c _ => is_word (code c) = false
                 end.
Proof.
  induction t as [|c t IH].
  - now exists "", "".
  - destruct (is_word (code c)) eqn:Hc.
    + destruct IH as (u & r & -> & Hu & Hr). exists (String c u), r.
      cbn [every]. rewrite Hc, Hu. repeat split; auto.
    + exists "", (String c t). repeat split; auto.
Qed.

(** One group: a separator, then a word. *)
Lemma in_group (st st' : state) :
  In st' (run (Cat (Among items) (Plus w)) st) <->
  exists c u, one_of c seps = true /\ u <> "" /\ every is_word u = true
              /\ st.2 = String c u +:+ st'.2 /\ st'.1 = false.
Proof.
  rewrite in_cat. split.
  - intros (m & Hm & H). apply in_among in Hm as (c & Hc & Hin & _).
    rewrite Hitems in Hin. apply in_word in H as (u & Hne & Hu & Hs & Hf).
    exists c, u. rewrite Hc, Hs, sapp_cons. auto.
  - intros (c & u & Hc & Hne & Hu & Hs & Hf).
    exists (false, u +:+ st'.2). split.
    + apply in_among. exists c. rewrite Hitems. rewrite sapp_cons in Hs. auto.
    + apply in_word. now exists u.
Qed.

(** A word and groups spell words joined by separators. *)
Lemma run_words_sound (st m st' : state) :
  In m (run (Plus w) st) ->
  In st' (run (Star (Cat (Among items) (Plus w))) m) ->
  exists u, st.2 = u +:+ st'.2 /\ words seps u = true /\ st'.1 = false.
Proof.
  intros Hm H. apply in_word in Hm as (u0 & Hne & Hu0 & Hs & Hf).
  apply (star_invariant (Cat (Among items) (Plus w))
           (fun x => exists u, st.2 = u +:+ x.2 /\ words seps u = true
                               /\ x.1 = false) m st'); [| |exact H].
  - exists u0. repeat split; auto. unfold words.
    rewrite <- (sapp_nil_r u0). now rewrite joined_word.
  - intros x y (u & Hu & Hw & _) Hy _.
    apply in_group in Hy as (c & v & Hc & Hv0 & Hv & Hx & Hfy).
    exists (u +:+ String c v). repeat split; auto.
    + now rewrite Hu, Hx, sapp_assoc.
    + unfold words in *. rewrite (joined_app _ _ _ Hw). cbn [joined].
      rewrite (Hseps c Hc), Hc. cbn [andb].
      rewrite <- (sapp_nil_r v). now rewrite joined_word.
Qed.

(** Groups, as many as the string has. *)
Lemma run_groups (t r : string) (f : bool) :
  joined seps true t = true ->
  match t with EmptyString => True | String c _ => is_word (code c) = false end ->
  In (f && at_start t, r)
     (run (Star (Cat (Among items) (Plus w))) (f, t +:+ r)).
Proof.
  remember (String.length t) as n eqn:Hn. revert t f Hn.
  induction n as [n IH] using lt_wf_ind. intros t f Hn Ht Hfirst.
  destruct t as [|c t].
  - cbn [at_start]. rewrite andb_true_r, sapp_nil_l. apply in_star_here.
  - cbn [joined] in Ht. rewrite Hfirst in Ht.
    destruct (one_of c seps) eqn:Hc; [|discriminate]. cbn [andb] in Ht.
    destruct (leading_word t) as (u & t' & -> & Hu & Hnext).
    assert (Hne : u <> "").
    { intros ->. rewrite sapp_nil_l in Ht. destruct t' as [|x t'];
        [discriminate|]. cbn [joined] in Ht. rewrite Hnext in Ht.
      now rewrite andb_false_r in Ht. }
    rewrite joined_word in Ht by assumption.
    cbn [at_start]. rewrite andb_false_r.
    apply (in_star_step _ _ (false, t' +:+ r)).
    + apply in_group. exists c, u. cbn [fst snd].
      rewrite !sapp_cons, sapp_assoc. auto.
    + unfold shorter. cbn [snd]. rewrite !sapp_cons. cbn [String.length].
      rewrite !slength_app. apply Nat.ltb_lt. lia.
    + assert (Hlt : (String.length t' < n)%nat).
      { subst n. cbn [String.length]. rewrite slength_app. lia. }
      specialize (IH _ Hlt t' false eq_refl Ht Hnext).
      cbn [andb] in IH. exact IH.
Qed.

Lemma run_words_complete (u r : string) (f : bool) :
  words seps u = true ->
  exists m, In m (run (Plus w) (f, u +:+ r))
            /\ In (false, r) (run (Star (Cat (Among items) (Plus w))) m).
Proof.
  intros Hw. unfold words in Hw.
  destruct (leading_word u) as (u0 & t & -> & Hu0 & Hnext).
  assert (Hne : u0 <> "").
  { intros ->. rewrite sapp_nil_l in Hw. destruct t as [|x t];
      [discriminate|]. cbn [joined] in Hw. rewrite Hnext in Hw.
    now rewrite andb_false_r in Hw. }
  rewrite joined_word in Hw by assumption.
  exists (false, t +:+ r). split.
  - apply in_word. exists u0. cbn [fst snd]. now rewrite sapp_assoc.
  - apply (run_groups t r false Hw Hnext).
Qed.
End Words.

Section Email.
Import Js Pattern Digits.

Lemma local_seps c :
  existsb (item_has (code c)) [Just "-"; Just "+"; Just "."]%char
  = one_of c "-+.".
Proof. destruct c as [[] [] [] [] [] [] [] []]; reflexivity. Qed.

Lemma domain_seps c :
  existsb (item_has (code c)) [Just "-"; Just "."]%char = one_of c "-.".
Proof. destruct c as [[] [] [] [] [] [] [] []]; reflexivity. Qed.

Lemma local_seps_apart c : one_of c "-+." = true -> is_word (code c) = false.
Proof. destruct c as [[] [] [] [] [] [] [] []]; vm_compute; congruence. Qed.

Lemma domain_seps_apart c : one_of c "-." = true -> is_word (code c) = false.
Proof. destruct c as [[] [] [] [] [] [] [] []]; vm_compute; congruence. Qed.

Lemma email_spec s :
  test email s = true <->
  exists l d1 d2,
    s = l +:+ "@" +:+ d1 +:+ "." +:+ d2
    /\ words "-+." l = true /\ words "-." d1 = true /\ words "-." d2 = true.
Proof.
  unfold email. cbn [seq]. rewrite test_anchored. split.
  - intros (st' & H).
    apply in_cat in H as (m1 & H1 & H). apply in_cat in H as (m2 & H2 & H).
    apply in_cat in H as (m3 & H3 & H). apply in_cat in H as (m4 & H4 & H).
    apply in_cat in H as (m5 & H5 & H). apply in_cat in H as (m6 & H6 & H).
    apply in_cat in H as (m7 & H7 & H). apply in_cat in H as (m8 & H8 & H).
    apply in_eol in H as [Hend _].
    destruct (run_words_sound "-+." _ local_seps local_seps_apart _ _ _ H1 H2)
      as (l & El & Hl & _).
    apply in_chr in H3 as [E3 _].
    destruct (run_words_sound "-." _ domain_seps domain_seps_apart _ _ _ H4 H5)
      as (d1 & E1 & Hd1 & _).
    apply in_chr in H6 as [E6 _].
    destruct (run_words_sound "-." _ domain_seps domain_seps_apart _ _ _ H7 H8)
      as (d2 & E2 & Hd2 & _).
    exists l, d1, d2. repeat split; auto. cbn [snd] in El.
    rewrite El, E3, E1, E6, E2, Hend, sapp_nil_r. reflexivity.
  - intros (l & d1 & d2 & -> & Hl & Hd1 & Hd2).
    exists (false, "").
    destruct (run_words_complete "-+." _ local_seps l
                ("@" +:+ d1 +:+ "." +:+ d2) true Hl) as (m1 & H1 & H2).
    destruct (run_words_complete "-." _ domain_seps d1
                ("." +:+ d2) false Hd1) as (m4 & H4 & H5).
    destruct (run_words_complete "-." _ domain_seps d2
                "" false Hd2) as (m7 & H7 & H8).
    rewrite sapp_nil_r in H7.
    apply in_cat. exists m1. split; [exact H1|].
    apply in_cat. exists (false, "@" +:+ d1 +:+ "." +:+ d2).
    split; [exact H2|].
    apply in_cat. exists (false, d1 +:+ "." +:+ d2).
    split; [now apply in_chr|].
    apply in_cat. exists m4. split; [exact H4|].
    apply in_cat. exists (false, "." +:+ d2). split; [exact H5|].
    apply in_cat. exists (false, d2). split; [now apply in_chr|].
    apply in_cat. exists m7. split; [exact H7|].
    apply in_cat. exists (false, ""). split; [exact H8 | now apply in_eol].
Qed.
End Email.

(** X25.  What [isEmail] takes for an address.  On a value whose string is
    [s] it holds exactly when [s] is a local part, "@", a name, "." and a
    name, where the local part is words joined by single "-", "+" or "."
    and each name is words joined by single "-" or ".": a word is letters
    of the Latin alphabet, digits and "_", and no part begins or ends with
    a separator or has two in a row.  So there is exactly one "@", at least
    one dot after it, no space, and no "+" in the domain. *)
Theorem isEmail_holds_of_joined_words :
  forall (v : Js.value) (s : string),
    Pattern.ToString v = Some s ->
    Pattern.isEmail v = Some true <->
    exists l d1 d2,
      s = l +:+ "@" +:+ d1 +:+ "." +:+ d2
      /\ Pattern.words "-+." l = true
      /\ Pattern.words "-." d1 = true /\ Pattern.words "-." d2 = true.
Proof.
  intros v s Hs. unfold Pattern.isEmail. rewrite (tested_true _ v s Hs).
  apply email_spec.
Qed.

Lemma isEmail_holds_of_joined_words_witness :
  Pattern.isEmail (Js.VStr "a.b+c@x-y.z") = Some true.
Proof.
  apply (isEmail_holds_of_joined_words (Js.VStr "a.b+c@x-y.z") "a.b+c@x-y.z").
  - reflexivity.
  - now exists "a.b+c", "x-y", "z".
Defined.

(** The matcher at work on a few strings. *)
Lemma pattern_samples :
  Pattern.test Pattern.idCard "12345678901234567X" = true
  /\ Pattern.test Pattern.idCard "1234567890123456" = false
  /\ Pattern.test Pattern.phone "13912345678" = true
  /\ Pattern.test Pattern.phone "16012345678" = false
  /\ Pattern.test Pattern.tel "010-1234567" = true
  /\ Pattern.test Pattern.tel "12-1234567" = false
  /\ Pattern.test Pattern.url "see http://x y" = true
  /\ Pattern.test Pattern.url "http:/x" = false
  /\ Pattern.test Pattern.ip "1.256.1.1" = false
  /\ Pattern.test Pattern.postalCode "012345" = false
  /\ Pattern.test Pattern.email "a..b@x.y" = false
  /\ Pattern.test Pattern.email "a@b" = false
  /\ Pattern.test Pattern.chinese "" = true.
Proof. repeat split; vm_compute; reflexivity. Qed.

(** ** validator-ts.ts and 2.0.0 on rules made of data *)

Section Versions.
Import Js Config Run Statics Obs Outcome Compare.
Context {U : Type} (E : Env U).
Local Open Scope run_scope.

Section Methods.
Variables (rule : RuleItem) (v : value) (field : string).
Hypothesis Hv : isEmpty v = false.

Ltac both_say :=
  eexists; split; intros w; eexists; (split; [reflexivity | reflexivity]).

Lemma both_required :
  exists b, says (TS._validateRequired (U:=U)) rule v field b
            /\ says (V2._validateRequired (U:=U)) rule v field b.
Proof.
  unfold says, TS._validateRequired, V2._validateRequired. rewrite Hv.
  destruct (truthy (required rule)); both_say.
Qed.

Lemma both_pure t (pred : value -> bool) :
  type rule = VStr t ->
  In (t, fun x => ret (pred x)) (ts_predicates E) ->
  In (t, fun x => ret (pred x)) (v2_predicates E) ->
  exists b, says (TS._validateType E) rule v field b
            /\ says (V2._validateType E) rule v field b.
Proof.
  intros Ht H1 H2. exists (pred v). split; intros w; eexists.
  - rewrite (ts_type_dispatch E rule v field t _ w Ht H1 Hv).
    split; reflexivity.
  - rewrite (v2_type_dispatch E rule v field t _ w Ht H2).
    split; reflexivity.
Qed.

Lemma both_type :
  strict_eq (type rule) (VStr "date") = false ->
  strict_eq (type rule) (VStr "float") = false ->
  exists b, says (TS._validateType E) rule v field b
            /\ says (V2._validateType E) rule v field b.
Proof.
  intros Hdate Hfloat.
  destruct (truthy (type rule)) eqn:Htr.
  2:{ unfold says, TS._validateType, V2._validateType. rewrite Hv, Htr.
      both_say. }
  destruct (oneOf (type rule) types) eqn:Hone.
  2:{ unfold says, TS._validateType, V2._validateType. rewrite Hv, Htr, Hone.
      both_say. }
  destruct (one_of_the_types _ Hone) as (name & Ht & Hin).
  rewrite Ht in Hdate, Hfloat. cbn [In] in Hin.
  destruct Hin as [<-|[<-|[<-|[<-|[<-|[<-|[<-|[<-|[<-|[<-|[]]]]]]]]]]];
    try discriminate Hdate; try discriminate Hfloat.
  - apply (both_pure "string" isString); [exact Ht | cbn; auto 12 ..].
  - apply (both_pure "number" (isNumber E)); [exact Ht | cbn; auto 12 ..].
  - apply (both_pure "boolean" isBoolean); [exact Ht | cbn; auto 12 ..].
  - apply (both_pure "function" isFunction); [exact Ht | cbn; auto 12 ..].
  - apply (both_pure "integer" (isInteger E)); [exact Ht | cbn; auto 12 ..].
  - apply (both_pure "array" isArray); [exact Ht | cbn; auto 12 ..].
  - apply (both_pure "object" isObject); [exact Ht | cbn; auto 12 ..].
  - apply (both_pure "regexp" isRegexp); [exact Ht | cbn; auto 12 ..].
Qed.

Lemma both_pattern :
  exists b, says (TS._validatePattern E) rule v field b
            /\ says (V2._validatePattern E) rule v field b.
Proof.
  unfold says, TS._validatePattern, V2._validatePattern. rewrite Hv. cbv zeta.
  destruct (truthy (pattern rule)); [|both_say].
  destruct (pattern rule); try both_say.
  exists (regexp_test E r v). split; intros w; eexists.
  - split; reflexivity.
  - unfold seq, bind, emit. destruct (regexp_test E r v); split; reflexivity.
Qed.

Lemma both_bound bound (cmp : value -> value -> bool) text :
  exists b, forall e (w : world U), exists w',
    (emit e ;;;
     if truthy bound then
       if isInteger E bound && js_gt E bound (VNum (num_of_nat 0)) then
         len <- get_length E v ;; ret (RBool (cmp len bound))
       else warn text ;;; ret (RBool true)
     else ret (RBool true)) w = (Ok (RBool b), w')
    /\ ust w' = ust w.
Proof.
  destruct (truthy bound); [|eexists; intros e w; eexists; split; reflexivity].
  destruct (_ && _); [|eexists; intros e w; eexists; split; reflexivity].
  destruct v; try discriminate Hv;
    eexists; intros e w; eexists; split; reflexivity.
Qed.

Lemma both_maxlen :
  exists b, says (TS._validateMaxlen E) rule v field b
            /\ says (V2._validateMaxlen E) rule v field b.
Proof.
  destruct (both_bound (maxlength rule) (js_le E)
              ("There is a maxLength in the field " +:+ field
               +:+ " that is not a positive integer type")) as (b & Hb).
  exists b. unfold says, TS._validateMaxlen, V2._validateMaxlen. rewrite Hv.
  split; intros w; apply Hb.
Qed.

Lemma both_minlen :
  exists b, says (TS._validateMinlen E) rule v field b
            /\ says (V2._validateMinlen E) rule v field b.
Proof.
  destruct (both_bound (minlength rule) (js_ge E)
              ("There is a minlength in the field " +:+ field
               +:+ " that is not a positive integer type")) as (b & Hb).
  exists b. unfold says, TS._validateMinlen, V2._validateMinlen. rewrite Hv.
  split; intros w; apply Hb.
Qed.

Lemma both_enum :
  exists b, says (TS._validateEnum (U:=U)) rule v field b
            /\ says (V2._validateEnum (U:=U)) rule v field b.
Proof.
  unfold says, TS._validateEnum, V2._validateEnum. rewrite Hv. cbv zeta.
  destruct (truthy (enum rule)); [|both_say].
  destruct (enum rule); both_say.
Qed.

Lemma both_custom :
  isFunction (validator rule) = false ->
  says (TS._customValidate E) rule v field true
  /\ says (V2._customValidate E) rule v field true.
Proof.
  intros Hfn. unfold says, TS._customValidate, V2._customValidate.
  rewrite Hv, Hfn. cbv zeta.
  destruct (truthy (validator rule)); split; intros w; eexists;
    split; reflexivity.
Qed.
End Methods.

Section Chains.
Variables (Vts : TS.Validator) (field : string) (addr : nat)
          (props : list (string * value)) (fieldWrap : bool)
          (configured : value).
Hypothesis Hts :
  truthy (lookup_prop field (default [] (TS._transform Vts))) = false.
Hypothesis Hhook :
  forall hook, TS._messageHook Vts = Some hook -> truthy hook = false.
Hypothesis Hconfigured : truthy configured = false.

Lemma ts_chain_says rule
    (todo : list (RuleItem -> value -> string -> M U StepRes)) bs :
  isFunction (message rule) = false ->
  Forall2 (fun m b => says m rule (lookup_prop field props) field b) todo bs ->
  forall w, exists w',
    TS.run_chain E Vts field (VObj addr props) fieldWrap rule todo w
    = (Ok (if forallb id bs then None
           else Some (TS.reason field fieldWrap rule)), w')
    /\ ust w' = ust w.
Proof.
  intros Hmsg Hall. induction Hall as [|m b todo bs Hm Hall IH]; intros w.
  - now exists w.
  - rewrite run_chain_cons.
    assert (Harg : TS.argument E Vts field (VObj addr props) w
                   = (Ok (lookup_prop field props), w)).
    { unfold TS.argument, TS.currentTransform, bind. cbn [get_prop].
      unfold ret. now rewrite Hts. }
    rewrite (bind_ok _ _ _ _ _ Harg).
    destruct (Hm w) as (w1 & Hrun & Hu).
    rewrite (bind_ok _ _ _ _ _ Hrun). cbn [forallb id].
    destruct b; cbn [negb andb].
    + destruct (IH w1) as (w' & -> & Hu'). exists w'.
      split; [reflexivity | congruence].
    + cbn [truthy String.eqb negb]. cbv zeta.
      assert (Hnotify : TS.notify E Vts (message rule) w1 = (Ok tt, w1)).
      { unfold TS.notify. rewrite Hmsg.
        destruct (TS._messageHook Vts) as [hook|] eqn:Hh; [|reflexivity].
        now rewrite (Hhook hook eq_refl). }
      unfold seq. rewrite (bind_ok _ _ _ _ _ Hnotify).
      rewrite with_message_same. exists w1. split; [reflexivity | exact Hu].
Qed.

Lemma v2_chain_says rule
    (todo : list (RuleItem -> value -> string -> M U StepRes)) bs :
  Forall2 (fun m b => says m rule (lookup_prop field props) field b) todo bs ->
  forall w, exists w',
    V2.run_chain E field (VObj addr props) configured rule todo w
    = (Ok (if forallb id bs then None else Some (field, rule)), w')
    /\ ust w' = ust w.
Proof.
  intros Hall. induction Hall as [|m b todo bs Hm Hall IH]; intros w.
  - now exists w.
  - rewrite v2_run_chain_cons. unfold bind at 1. cbn [get_prop]. unfold ret at 1.
    unfold bind at 1. unfold V2.currentTransform at 1. rewrite Hconfigured.
    unfold ret at 1.
    destruct (Hm w) as (w1 & Hrun & Hu).
    rewrite (bind_ok _ _ _ _ _ Hrun). cbn [forallb id].
    destruct b; cbn [negb andb].
    + destruct (IH w1) as (w' & -> & Hu'). exists w'.
      split; [reflexivity | congruence].
    + cbn [truthy]. rewrite with_message_same. exists w1.
      split; [reflexivity | exact Hu].
Qed.

Hypothesis Hraw : isEmpty (lookup_prop field props) = false.

Lemma both_chains rule (w1 w2 : world U) :
  plain rule = true ->
  exists (failed : bool) w1' w2',
    TS.run_chain E Vts field (VObj addr props) fieldWrap rule (TS.chain E) w1
    = (Ok (if failed then Some (TS.reason field fieldWrap rule) else None), w1')
    /\ V2.run_chain E field (VObj addr props) configured rule (V2.chain E) w2
       = (Ok (if failed then Some (field, rule) else None), w2')
    /\ ust w1' = ust w1 /\ ust w2' = ust w2.
Proof.
  unfold plain, data_only. intros H.
  apply andb_true_iff in H as [H Hfloat]. apply andb_true_iff in H as [H Hdate].
  apply andb_true_iff in H as [Hfn Hmsg].
  apply negb_true_iff in Hfloat, Hdate, Hfn, Hmsg.
  destruct (both_required rule _ field Hraw) as (b1 & T1 & S1).
  destruct (both_type rule _ field Hraw Hdate Hfloat) as (b2 & T2 & S2).
  destruct (both_pattern rule _ field Hraw) as (b3 & T3 & S3).
  destruct (both_maxlen rule _ field Hraw) as (b4 & T4 & S4).
  destruct (both_minlen rule _ field Hraw) as (b5 & T5 & S5).
  destruct (both_enum rule _ field Hraw) as (b6 & T6 & S6).
  destruct (both_custom rule _ field Hraw Hfn) as (T7 & S7).
  destruct (ts_chain_says rule (TS.chain E) [b1; b2; b3; b4; b5; b6; true]
              Hmsg) with (w := w1) as (w1' & Hts1 & Hu1).
  { unfold TS.chain. repeat constructor; assumption. }
  destruct (v2_chain_says rule (V2.chain E) [b1; b2; b3; true; b4; b5; b6])
    with (w := w2) as (w2' & Hv21 & Hu2).
  { unfold V2.chain. repeat constructor; assumption. }
  exists (negb (b1 && b2 && b3 && b4 && b5 && b6)), w1', w2'.
  rewrite Hts1, Hv21. repeat split; auto.
  - destruct b1, b2, b3, b4, b5, b6; reflexivity.
  - destruct b1, b2, b3, b4, b5, b6; reflexivity.
Qed.

Lemma both_rules rules (w1 w2 : world U) :
  Forall (fun rule => plain rule = true) rules ->
  exists p1 p2 w1' w2',
    TS.run_rules E Vts field (VObj addr props) fieldWrap rules w1 = (Ok p1, w1')
    /\ V2.run_rules E field (VObj addr props) configured rules w2 = (Ok p2, w2')
    /\ ts_rule p1 = v2_rule p2 /\ p1 <> Pending
    /\ ust w1' = ust w1 /\ ust w2' = ust w2.
Proof.
  intros Hall. revert w1 w2.
  induction Hall as [|rule rules Hrule Hall IH]; intros w1 w2.
  - exists Resolved, Resolved, w1, w2. repeat split. discriminate.
  - rewrite run_rules_cons, v2_run_rules_cons.
    destruct (both_chains rule w1 w2 Hrule)
      as (failed & w1a & w2a & H1 & H2 & Hu1 & Hu2).
    rewrite (bind_ok _ _ _ _ _ H1), (bind_ok _ _ _ _ _ H2).
    destruct failed.
    + exists (Rejected (TS.reason field fieldWrap rule)), (Rejected (field, rule)),
        w1a, w2a.
      split; [reflexivity|]. split; [reflexivity|].
      split; [unfold TS.reason; now destruct fieldWrap|].
      split; [discriminate|]. split; assumption.
    + destruct (IH w1a w2a) as (p1 & p2 & w1' & w2' & -> & -> & Hp & Hne & Hv1 & Hv2).
      exists p1, p2, w1', w2'. repeat split; auto; congruence.
Qed.
End Chains.
End Versions.

(** X26.  On rules made of data, validator-ts.ts gives the verdict of
    validator-2.0.0.js whenever the value is not empty.  Take a plain form
    in which the field holds a primitive value other than [null] and the
    empty string, and instances whose [transform] is an object (or, in
    validator-ts.ts, is left out) with nothing for the field.  When no
    message hook is set and no rule of the field has a custom validator, a
    message function, the type "date" or "float" or a regular expression
    for [pattern], [validateField] settles in both versions, and both
    resolve, or both reject with the same rule; the caller's state is left
    alone. *)
Theorem ts_and_v2_agree_on_plain_rules :
  forall (U : Type) (E : Run.Env U) (Vts : TS.Validator) (Vv2 : V2.Validator)
         (field : string) (addr : nat) (props : list (string * Js.value))
         (fieldWrap : bool) (rules : list Config.RuleItem)
         (transforms : list (string * Js.value)) (raw c1 c2 : Js.value)
         (w1 w2 : Run.world U),
    Own.read props field = Some raw ->
    Own.primitive raw = true ->
    Statics.isEmpty raw = false ->
    TS._rules Vts !! field = Some rules ->
    V2._rules Vv2 !! field = Some rules ->
    Own.read (default [] (TS._transform Vts)) field = Some c1 ->
    Js.truthy c1 = false ->
    V2._transform Vv2 = Some transforms ->
    Own.read transforms field = Some c2 ->
    Js.truthy c2 = false ->
    (forall hook, TS._messageHook Vts = Some hook -> Js.truthy hook = false) ->
    Forall (fun rule => Compare.plain rule && Own.no_regexp rule = true) rules ->
    exists p1 p2 w1' w2',
      TS.validateField E Vts field (Js.VObj addr props) fieldWrap w1
      = (Config.Returned p1, w1')
      /\ V2.validateField E Vv2 field (Js.VObj addr props) w2
         = (Config.Returned p2, w2')
      /\ Compare.ts_rule p1 = Compare.v2_rule p2
      /\ p1 <> Config.Pending
      /\ Run.ust w1' = Run.ust w1 /\ Run.ust w2' = Run.ust w2.
Proof.
  intros U E Vts Vv2 field addr props fieldWrap rules transforms raw c1 c2 w1 w2
         Hraw Hprim Hfull Hr1 Hr2 Hc1 Hn1 Htr Hc2 Hn2 Hhook Hall.
  assert (Hts : Js.truthy (Js.lookup_prop field (default [] (TS._transform Vts)))
                = false) by now rewrite (read_lookup _ _ _ Hc1).
  assert (Hc : Js.truthy (Js.lookup_prop field transforms) = false)
    by now rewrite (read_lookup _ _ _ Hc2).
  assert (Hvalue : Statics.isEmpty (Js.lookup_prop field props) = false)
    by now rewrite (read_lookup _ _ _ Hraw).
  assert (Hplain : Forall (fun rule => Compare.plain rule = true) rules).
  { eapply Forall_impl; [exact Hall|].
    intros rule H. now apply andb_true_iff in H as [H _]. }
  destruct (both_rules E Vts field addr props fieldWrap
              (Js.lookup_prop field transforms) Hts Hhook Hc Hvalue rules w1 w2 Hplain)
    as (p1 & p2 & w1' & w2' & H1 & H2 & Hp & Hne & Hu1 & Hu2).
  exists p1, p2, w1', w2'.
  unfold TS.validateField, V2.validateField.
  change (Statics.isObject (Js.VObj addr props)) with true. cbn [negb].
  rewrite Hr1, Hr2. unfold Run.new_promise, Run.bind, V2.lookup_transform.
  rewrite Htr. cbn [Run.ret]. rewrite H1, H2. repeat split; auto.
Qed.

(** The rule [{ maxlength: 2 }] on ["abcdefgh"]: both versions reject with
    it. *)
Lemma ts_and_v2_agree_on_plain_rules_witness :
  exists p1 p2,
    fst (TS.validateField Sample.env (Sample.ts_with Sample.max_rule) "name"
           (Sample.form_of (Js.VStr "abcdefgh")) true Sample.start)
    = Config.Returned p1
    /\ fst (V2.validateField Sample.env (Sample.v2_with Sample.max_rule) "name"
              (Sample.form_of (Js.VStr "abcdefgh")) Sample.start)
       = Config.Returned p2
    /\ Compare.ts_rule p1 = Compare.v2_rule p2
    /\ p1 <> Config.Pending.
Proof.
  destruct (ts_and_v2_agree_on_plain_rules nat Sample.env
              (Sample.ts_with Sample.max_rule) (Sample.v2_with Sample.max_rule)
              "name" 1 [("name", Js.VStr "abcdefgh")] true [Sample.max_rule] []
              (Js.VStr "abcdefgh") Js.VUndefined Js.VUndefined
              Sample.start Sample.start)
    as (p1 & p2 & w1' & w2' & H1 & H2 & Hp & Hne & _).
  - reflexivity.
  - reflexivity.
  - reflexivity.
  - vm_compute. reflexivity.
  - vm_compute. reflexivity.
  - reflexivity.
  - reflexivity.
  - reflexivity.
  - reflexivity.
  - reflexivity.
  - intros hook H. discriminate H.
  - repeat constructor.
  - exists p1, p2. unfold Sample.form_of. rewrite H1, H2. auto.
Defined.

(** ** A transform that is not a function *)

(** X27.  The constructors take any object for [transform]; its entries are
    looked at when a field is validated.  An entry that is truthy and not
    a function (a string, a number, an object) is called all the same: the
    call throws inside the promise before the first check, so that
    [validateField] on a field with at least one rule never settles, in
    validator-ts.ts and in 2.0.0 alike, and nothing of the caller's is
    called. *)
Theorem a_transform_that_is_no_function_hangs :
  forall (U : Type) (E : Run.Env U) (field : string) (form configured : Js.value)
         (rule : Config.RuleItem) (rest : list Config.RuleItem)
         (w : Run.world U),
    Statics.isObject form = true ->
    form <> Js.VNull ->
    Js.truthy configured = true ->
    Statics.isFunction configured = false ->
    (forall (V : TS.Validator) (fieldWrap : bool),
        TS._rules V !! field = Some (rule :: rest) ->
        Js.lookup_prop field (default [] (TS._transform V)) = configured ->
        TS.validateField E V field form fieldWrap w
        = (Config.Returned Config.Pending, w))
    /\ (forall (V : V2.Validator) (transforms : list (string * Js.value)),
          V2._rules V !! field = Some (rule :: rest) ->
          V2._transform V = Some transforms ->
          Js.lookup_prop field transforms = configured ->
          V2.validateField E V field form w
          = (Config.Returned Config.Pending, w)).
Proof.
  intros U E field form configured rule rest w Hobj Hform Htruthy Hfn.
  destruct (read_form (U:=U) form Hform field Hobj) as (raw & Hread).
  assert (Hcall : Run.call E Run.AtTransform configured Run.ThisUndefined [raw] w
                  = (Run.Raise (Run.TypeError "is not a function"), w)).
  { destruct configured; try discriminate Hfn; reflexivity. }
  split.
  - intros V fieldWrap Hrules Hc.
    unfold TS.validateField. rewrite Hobj, Hrules. cbn [negb].
    unfold Run.new_promise. rewrite run_rules_cons.
    unfold TS.chain. rewrite run_chain_cons.
    unfold Run.bind at 1. unfold Run.bind at 1.
    unfold TS.argument, Run.bind at 1. rewrite Hread.
    unfold TS.currentTransform. rewrite Hc, Htruthy, Hcall. reflexivity.
  - intros V transforms Hrules Htr Hc.
    unfold V2.validateField. rewrite Hobj, Hrules. cbn [negb].
    unfold Run.new_promise, Run.bind at 1, V2.lookup_transform. rewrite Htr.
    cbn [Run.ret]. rewrite v2_run_rules_cons.
    unfold V2.chain. rewrite v2_run_chain_cons.
    unfold Run.bind at 1. unfold Run.bind at 1. rewrite Hread.
    unfold Run.bind at 1. unfold V2.currentTransform.
    rewrite Hc, Htruthy, Hcall. reflexivity.
Qed.

(** [new Validator({ rules: { name: { required: true } },
    transform: { name: "trim" } })] on [{ name: "abc" }]. *)
Lemma a_transform_that_is_no_function_hangs_witness :
  TS.validateField Sample.env
    (TS.constructor
       (TS.mkConfig {[ "name" := TS.One Sample.required_rule ]}
          (Some [("name", Js.VStr "trim")]) None))
    "name" (Sample.form_of (Js.VStr "abc")) false Sample.start
  = (Config.Returned Config.Pending, Sample.start).
Proof.
  destruct (a_transform_that_is_no_function_hangs nat Sample.env "name"
              (Sample.form_of (Js.VStr "abc")) (Js.VStr "trim")
              Sample.required_rule [] Sample.start) as [Hts _];
    [reflexivity | discriminate | reflexivity | reflexivity |].
  apply Hts; reflexivity.
Defined.
